(** * Paranoid: ball physics, brick hits, power-ups and the level tick

    A shallow embedding of [assets.py] and of the level logic of
    [paranoid/levels.py].

    Conventions of the embedding:
    - Python floats are read as real numbers ([R]).  [math.cos] and
      [math.sin] of an angle in degrees are parameters of [set_velocity_with]
      and [change_speed_with]; [set_velocity] and [change_speed] take the
      real functions for them.  Python ints that count things (score,
      lives, charges) are [Z].
    - Sprites are objects with identity.  Balls and bricks live in a store
      keyed by an object id ([gmap nat _]); sprite lists and the paddle's
      [magnetic_ball_list] hold ids, so aliasing is kept.
    - What [arcade] computes from image files and hit boxes (texture sizes,
      [collides_with_list], [collides_with_sprite]) is passed in as an
      argument of the function that asks for it.
    - Sounds and drawing are not state and are left out, with the file
      names and the texts that are formatted for them. *)

From Stdlib Require Import Reals Lra Lia ZArith List Bool Ascii String DecimalString.
From stdpp Require Import gmap list strings sorting.
Import ListNotations.

Local Open Scope R_scope.

(** ** Numbers *)

Definition Rltb (x y : R) : bool := if Rlt_dec x y then true else false.
Definition Rleb (x y : R) : bool := if Rle_dec x y then true else false.
Definition Rgtb (x y : R) : bool := Rltb y x.
Definition Reqb (x y : R) : bool := if Req_dec_T x y then true else false.

(** The sign of a velocity component: -1, 0 or 1. *)
Definition sgn (x : R) : Z :=
  if Rlt_dec x 0 then (-1)%Z else if Rlt_dec 0 x then 1%Z else 0%Z.

(** [math.radians] *)
Definition radians (deg : R) : R := deg * PI / 180.

(** ** Constants of assets.py *)

Definition BALL_MIN_SPEED : R := 550.
Definition BALL_MAX_SPEED : R := BALL_MIN_SPEED + 300.

(** ** Sprites

    The part of [arcade.Sprite] the game logic reads and writes: a centre
    and a size, with the four edges derived from them.  Assigning an edge
    moves the centre. *)

Record Sprite := mkSprite {
  center_x : R;
  center_y : R;
  width : R;
  height : R
}.

Definition left (s : Sprite) : R := center_x s - width s / 2.
Definition right (s : Sprite) : R := center_x s + width s / 2.
Definition bottom (s : Sprite) : R := center_y s - height s / 2.
Definition top (s : Sprite) : R := center_y s + height s / 2.

Definition set_center_x (v : R) (s : Sprite) : Sprite :=
  mkSprite v (center_y s) (width s) (height s).
Definition set_center_y (v : R) (s : Sprite) : Sprite :=
  mkSprite (center_x s) v (width s) (height s).
Definition set_left (v : R) (s : Sprite) : Sprite := set_center_x (v + width s / 2) s.
Definition set_right (v : R) (s : Sprite) : Sprite := set_center_x (v - width s / 2) s.
Definition set_bottom (v : R) (s : Sprite) : Sprite := set_center_y (v + height s / 2) s.
Definition set_top (v : R) (s : Sprite) : Sprite := set_center_y (v - height s / 2) s.

(** [sprite.position = other.position] *)
Definition set_position (other : Sprite) (s : Sprite) : Sprite :=
  mkSprite (center_x other) (center_y other) (width s) (height s).

(** ** Balls *)

Inductive BallType := NormalBall | InvinciBall | MagneticNormalBall | MagneticInviciBall.

(** [is_invincible] is set by [initialize_texture] of the class and never
    written again. *)
Definition type_is_invincible (t : BallType) : bool :=
  match t with
  | NormalBall | MagneticNormalBall => false
  | InvinciBall | MagneticInviciBall => true
  end.

Definition type_is_magnetic (t : BallType) : bool :=
  match t with
  | NormalBall | InvinciBall => false
  | MagneticNormalBall | MagneticInviciBall => true
  end.

(** [has_level] stands for [self.level is not None]: balls of the menu and
    intro screens have no level. *)
Record Ball := mkBall {
  ball_type : BallType;
  has_level : bool;
  ball_sprite : Sprite;
  velocity_angle : R;
  ball_speed : R;
  change_x : R;
  change_y : R
}.

Definition is_invincible (b : Ball) : bool := type_is_invincible (ball_type b).

Definition speed_increment : R := 50.
Definition speed_decrement : R := 50.

Definition set_ball_sprite (s : Sprite) (b : Ball) : Ball :=
  mkBall (ball_type b) (has_level b) s (velocity_angle b) (ball_speed b) (change_x b) (change_y b).
Definition set_velocity_angle (a : R) (b : Ball) : Ball :=
  mkBall (ball_type b) (has_level b) (ball_sprite b) a (ball_speed b) (change_x b) (change_y b).
Definition set_ball_speed (v : R) (b : Ball) : Ball :=
  mkBall (ball_type b) (has_level b) (ball_sprite b) (velocity_angle b) v (change_x b) (change_y b).
Definition set_change_x (v : R) (b : Ball) : Ball :=
  mkBall (ball_type b) (has_level b) (ball_sprite b) (velocity_angle b) (ball_speed b) v (change_y b).
Definition set_change_y (v : R) (b : Ball) : Ball :=
  mkBall (ball_type b) (has_level b) (ball_sprite b) (velocity_angle b) (ball_speed b) (change_x b) v.

(** The clamp of [set_velocity]. *)
Definition clamp_speed (v : R) : R :=
  if Rgtb v BALL_MAX_SPEED then BALL_MAX_SPEED
  else if Rltb v BALL_MIN_SPEED then BALL_MIN_SPEED
  else v.

(** [Ball.set_velocity].  [cosd a] and [sind a] stand for
    [math.cos(math.radians(a))] and [math.sin(math.radians(a))], which the
    platform computes in floating point: there the cosine of -90 degrees is
    6.1e-17, not 0. *)
Definition set_velocity_with (cosd sind : R -> R) (b : Ball) : Ball :=
  let speed := clamp_speed (ball_speed b) in
  mkBall (ball_type b) (has_level b) (ball_sprite b) (velocity_angle b) speed
         (speed * cosd (velocity_angle b))
         (speed * sind (velocity_angle b)).

(** [Ball.set_velocity] with the cosine and the sine of the real numbers. *)
Definition set_velocity (b : Ball) : Ball :=
  set_velocity_with (fun a => cos (radians a)) (fun a => sin (radians a)) b.

(** The first half of [Ball.change_velocity]: the new angle and the new
    speed, before [set_velocity] clamps the speed.  [paddle] is the sprite
    of [self.level.paddle]. *)
Definition change_velocity_unclamped (paddle : Sprite) (b : Ball) : Ball :=
  let difference := center_x (ball_sprite b) - left paddle in
  let width := width paddle in
  let middle := 20 in
  let lowest_angle := 25 in
  let highest_angle := 70 in
  let highest_speed := 40 in
  if Rltb difference (width / 2 - middle / 2) then
    let angle := lowest_angle + difference in
    let angle := if Rgtb angle highest_angle then highest_angle else angle in
    set_ball_speed (ball_speed b + (highest_speed - difference))
      (set_velocity_angle (180 - angle) b)
  else if Rleb (width / 2 - middle / 2) difference
          && Rleb difference (width / 2 + middle / 2) then
    set_ball_speed (ball_speed b - 20)
      (set_velocity_angle (if Rgtb (change_x b) 0 then 55 else 180 - 55) b)
  else
    let angle := width - difference + lowest_angle in
    set_ball_speed (ball_speed b + (difference - width + highest_speed))
      (set_velocity_angle (if Rgtb angle highest_angle then highest_angle else angle) b).

(** [Ball.change_velocity] *)
Definition change_velocity (paddle : Sprite) (b : Ball) : Ball :=
  set_velocity (change_velocity_unclamped paddle b).

(** [Ball.change_speed], over [cosd] and [sind] as [set_velocity_with].
    The second sign test is written in the source as
    [(current_change_y < 0 and self.change_y) > 0]: the conjunction yields
    [False] or [self.change_y], and [False > 0] is false, so it tests
    [current_change_y < 0] and [self.change_y > 0]. *)
Definition change_speed_with (cosd sind : R -> R) (action : string) (b : Ball) : Ball :=
  let current_change_x := change_x b in
  let current_change_y := change_y b in
  let b1 :=
    if String.eqb action "increase" then set_ball_speed (ball_speed b + speed_increment) b
    else if String.eqb action "decrease" then set_ball_speed (ball_speed b - speed_decrement) b
    else b in
  let b2 := set_velocity_with cosd sind b1 in
  let b3 :=
    if (Rltb current_change_x 0 && Rgtb (change_x b2) 0)
       || (Rgtb current_change_x 0 && Rltb (change_x b2) 0)
    then set_change_x (change_x b2 * -1) b2 else b2 in
  if (if Rltb current_change_y 0 then Rgtb (change_y b3) 0 else false)
     || (Rgtb current_change_y 0 && Rltb (change_y b3) 0)
  then set_change_y (change_y b3 * -1) b3 else b3.

(** [Ball.change_speed] with the cosine and the sine of the real numbers. *)
Definition change_speed (action : string) (b : Ball) : Ball :=
  change_speed_with (fun a => cos (radians a)) (fun a => sin (radians a)) action b.


(** [Ball.collides_with_paddle_moving_horizontally], for a ball with a
    level.  [collides] is [self.collides_with_sprite(self.level.paddle)]. *)
Definition collides_with_paddle_moving_horizontally
    (collides : bool) (paddle : Sprite) (b : Ball) : Ball :=
  if has_level b && collides then
    if Rltb (change_x b) 0 && Rltb (center_x (ball_sprite b)) (center_x paddle) then
      set_velocity (set_ball_speed (ball_speed b + 100) (set_velocity_angle (180 + 15) b))
    else if Rgtb (change_x b) 0 && Rgtb (center_x (ball_sprite b)) (center_x paddle) then
      set_velocity (set_ball_speed (ball_speed b + 100) (set_velocity_angle (-15) b))
    else if Rgtb (change_x b) 0 then
      set_change_x (change_x b * -1) (set_ball_sprite (set_right (left paddle) (ball_sprite b)) b)
    else if Rltb (change_x b) 0 then
      set_change_x (change_x b * -1) (set_ball_sprite (set_left (right paddle) (ball_sprite b)) b)
    else b
  else b.

(** ** Boundary, textures, paddle *)

Record Boundary := mkBoundary {
  boundary_center_x : R;
  boundary_center_y : R;
  inner_left : R;
  inner_right : R;
  inner_bottom : R;
  inner_top : R;
  is_fullscreen : bool
}.

Definition SCREEN_WIDTH : R := 1536.
Definition SCREEN_HEIGHT : R := 864.
Definition SCREEN_PADDING : R := 10.
Definition BOUNDARY_THICKNESS : R := 25.
Definition PLAYING_FIELD_WIDTH : R := 1080.
Definition PAUSE_TIME : R := 3.
Definition TRANSITION_TIME : R := 1.
Definition DEMO_LEVEL_TIME : R := 12.
Definition PADDLE_SPEED : R := 500.

(** [PlayingFieldBoundary()] *)
Definition PlayingFieldBoundary : Boundary :=
  let inner_left := SCREEN_PADDING + BOUNDARY_THICKNESS in
  mkBoundary (SCREEN_PADDING + BOUNDARY_THICKNESS + PLAYING_FIELD_WIDTH / 2)
             (SCREEN_HEIGHT / 2)
             inner_left
             (inner_left + PLAYING_FIELD_WIDTH)
             inner_left
             (SCREEN_HEIGHT - inner_left)
             false.

Inductive PaddleType :=
  | NormalPaddle | LongPaddle | ShortPaddle
  | DemoNormalPaddle | DemoLongPaddle | DemoShortPaddle.

(** [isinstance(paddle, ShortPaddle)] and the like: the demo classes
    inherit from the plain ones. *)
Definition isinstance_ShortPaddle (t : PaddleType) : bool :=
  match t with ShortPaddle | DemoShortPaddle => true | _ => false end.
Definition isinstance_LongPaddle (t : PaddleType) : bool :=
  match t with LongPaddle | DemoLongPaddle => true | _ => false end.
Definition isinstance_DemoShortPaddle (t : PaddleType) : bool :=
  match t with DemoShortPaddle => true | _ => false end.
Definition isinstance_DemoLongPaddle (t : PaddleType) : bool :=
  match t with DemoLongPaddle => true | _ => false end.

(** The widths and heights [arcade.load_texture] reads from the image
    files of the balls and paddles. *)
Record Assets := mkAssets {
  ball_texture : BallType -> R * R;
  paddle_texture : PaddleType -> R * R
}.

Record Paddle := mkPaddle {
  paddle_type : PaddleType;
  paddle_sprite : Sprite;
  paddle_speed : R;
  is_magnetic : bool;
  activate_shooter : bool;
  invincible_balls : Z;
  split_balls : Z;
  magnetic_ball_list : list nat
}.

Definition set_paddle_sprite (v : Sprite) (p : Paddle) : Paddle :=
  mkPaddle (paddle_type p) v (paddle_speed p) (is_magnetic p) (activate_shooter p)
    (invincible_balls p) (split_balls p) (magnetic_ball_list p).
Definition set_is_magnetic (v : bool) (p : Paddle) : Paddle :=
  mkPaddle (paddle_type p) (paddle_sprite p) (paddle_speed p) v (activate_shooter p)
    (invincible_balls p) (split_balls p) (magnetic_ball_list p).
Definition set_activate_shooter (v : bool) (p : Paddle) : Paddle :=
  mkPaddle (paddle_type p) (paddle_sprite p) (paddle_speed p) (is_magnetic p) v
    (invincible_balls p) (split_balls p) (magnetic_ball_list p).
Definition set_invincible_balls (v : Z) (p : Paddle) : Paddle :=
  mkPaddle (paddle_type p) (paddle_sprite p) (paddle_speed p) (is_magnetic p)
    (activate_shooter p) v (split_balls p) (magnetic_ball_list p).
Definition set_split_balls (v : Z) (p : Paddle) : Paddle :=
  mkPaddle (paddle_type p) (paddle_sprite p) (paddle_speed p) (is_magnetic p)
    (activate_shooter p) (invincible_balls p) v (magnetic_ball_list p).
Definition set_magnetic_ball_list (v : list nat) (p : Paddle) : Paddle :=
  mkPaddle (paddle_type p) (paddle_sprite p) (paddle_speed p) (is_magnetic p)
    (activate_shooter p) (invincible_balls p) (split_balls p) v.

(** [Paddle.__init__] *)
Definition Paddle_init (assets : Assets) (bd : Boundary) (t : PaddleType) : Paddle :=
  mkPaddle t
    (mkSprite (boundary_center_x bd) (inner_bottom bd + 20)
              (fst (paddle_texture assets t)) (snd (paddle_texture assets t)))
    PADDLE_SPEED false false 0%Z 0%Z [].

(** [Paddle.collides_with_boundary] *)
Definition Paddle_collides_with_boundary (bd : Boundary) (p : Paddle) : Paddle :=
  if Rgtb (right (paddle_sprite p)) (inner_right bd) then
    set_paddle_sprite (set_right (inner_right bd) (paddle_sprite p)) p
  else if Rltb (left (paddle_sprite p)) (inner_left bd) then
    set_paddle_sprite (set_left (inner_left bd) (paddle_sprite p)) p
  else p.

(** [Paddle.copy_properties_from] *)
Definition copy_properties_from (other : Paddle) (p : Paddle) : Paddle :=
  mkPaddle (paddle_type p)
    (set_position (paddle_sprite other) (paddle_sprite p))
    (paddle_speed p)
    (is_magnetic other) (activate_shooter other)
    (invincible_balls other) (split_balls other) (magnetic_ball_list other).

(** [Ball.__init__]: the ball starts above the paddle at 45 degrees and
    minimum speed. *)
Definition Ball_init (assets : Assets) (bd : Boundary) (level : bool) (t : BallType) : Ball :=
  set_velocity
    (mkBall t level
       (mkSprite (boundary_center_x bd) (inner_bottom bd + 80)
                 (fst (ball_texture assets t)) (snd (ball_texture assets t)))
       45 BALL_MIN_SPEED 0 0).

(** [Ball.change_horizontal_velocity] *)
Definition change_horizontal_velocity (paddle : Sprite) (b : Ball) : Ball :=
  if Rltb (center_x (ball_sprite b)) (center_x paddle) then set_change_x (-1) b else b.

(** ** Icons and bricks *)

Inductive IconType :=
  | LengthenPaddleIcon | ShortenPaddleIcon | MagneticPaddleIcon | BonusScoreIcon
  | ShootingIcon | SplitBallIcon | BonusLifeIcon | SafetyBarrierIcon
  | AdvanceLevelIcon | SpeedUpBallsIcon | SlowDownBallsIcon | InvinciBallIcon.

Record Icon := mkIcon {
  icon_type : IconType;
  icon_sprite : Sprite
}.

(** [textures] is the list of image files the brick cycles through, one per
    remaining hit. *)
Record Brick := mkBrick {
  brick_sprite : Sprite;
  is_breakable : bool;
  has_been_hit : bool;
  is_safety_barrier : bool;
  score : Z;
  letter : string;
  icon : option Icon;
  cur_texture_index : Z;
  textures : list string
}.

Definition set_has_been_hit (v : bool) (k : Brick) : Brick :=
  mkBrick (brick_sprite k) (is_breakable k) v (is_safety_barrier k) (score k) (letter k)
    (icon k) (cur_texture_index k) (textures k).
Definition set_icon (v : option Icon) (k : Brick) : Brick :=
  mkBrick (brick_sprite k) (is_breakable k) (has_been_hit k) (is_safety_barrier k) (score k)
    (letter k) v (cur_texture_index k) (textures k).
Definition set_cur_texture_index (v : Z) (k : Brick) : Brick :=
  mkBrick (brick_sprite k) (is_breakable k) (has_been_hit k) (is_safety_barrier k) (score k)
    (letter k) (icon k) v (textures k).

(** [SafetyBarrier(level)]: a breakable brick 1080 wide and 2 high, flagged
    as the safety barrier; its [initialize_textures] loads nothing. *)
Definition SafetyBarrier (bd : Boundary) : Brick :=
  mkBrick (mkSprite (boundary_center_x bd) (inner_bottom bd + 7) 1080 2)
          true false true 0%Z "" None 0%Z [].

(** ** The window and the level *)

(** The views [window.show_view] is called with by the level. *)
Inductive View :=
  | LevelView | MainMenuView | NameEntryView | HighScoreView | LevelOutroView.

(** [ParanoidGame]: the counters the level reads and writes, and the view
    last passed to [show_view]. *)
Record Window := mkWindow {
  win_score : Z;
  lives : Z;
  level_number : Z;
  display_score : Z;
  shown_view : View
}.

Definition set_win_score (v : Z) (w : Window) : Window :=
  mkWindow v (lives w) (level_number w) (display_score w) (shown_view w).
Definition set_lives (v : Z) (w : Window) : Window :=
  mkWindow (win_score w) v (level_number w) (display_score w) (shown_view w).
Definition set_shown_view (v : View) (w : Window) : Window :=
  mkWindow (win_score w) (lives w) (level_number w) (display_score w) v.

(** [Level].  [bricks] and [balls] are the stores of brick and ball
    objects; the sprite lists hold their ids. *)
Record Level := mkLevel {
  window : Window;
  is_demo_level : bool;
  boundary : Boundary;
  bricks : gmap nat Brick;
  brick_list : list nat;
  breakable_brick_list : list nat;
  balls : gmap nat Ball;
  ball_list : list nat;
  icon_list : list Icon;
  bullet_list : list Sprite;
  paddle : Paddle;
  game_over : bool;
  level_complete : bool;
  game_is_active : bool;
  lost_a_life : bool;
  bonus_added : bool;
  load_next_level : bool;
  left_pressed : bool;
  right_pressed : bool;
  bonus_score : Z;
  bonus_collection_order : string;
  elapsed_time : R;
  elapsed_time_copy : R
}.

Definition set_window (v : Window) (lv : Level) : Level :=
  mkLevel v (is_demo_level lv) (boundary lv) (bricks lv) (brick_list lv)
    (breakable_brick_list lv) (balls lv) (ball_list lv) (icon_list lv) (bullet_list lv)
    (paddle lv) (game_over lv) (level_complete lv) (game_is_active lv) (lost_a_life lv)
    (bonus_added lv) (load_next_level lv) (left_pressed lv) (right_pressed lv)
    (bonus_score lv) (bonus_collection_order lv) (elapsed_time lv) (elapsed_time_copy lv).
Definition set_bricks (v : gmap nat Brick) (lv : Level) : Level :=
  mkLevel (window lv) (is_demo_level lv) (boundary lv) v (brick_list lv)
    (breakable_brick_list lv) (balls lv) (ball_list lv) (icon_list lv) (bullet_list lv)
    (paddle lv) (game_over lv) (level_complete lv) (game_is_active lv) (lost_a_life lv)
    (bonus_added lv) (load_next_level lv) (left_pressed lv) (right_pressed lv)
    (bonus_score lv) (bonus_collection_order lv) (elapsed_time lv) (elapsed_time_copy lv).
Definition set_brick_list (v : list nat) (lv : Level) : Level :=
  mkLevel (window lv) (is_demo_level lv) (boundary lv) (bricks lv) v
    (breakable_brick_list lv) (balls lv) (ball_list lv) (icon_list lv) (bullet_list lv)
    (paddle lv) (game_over lv) (level_complete lv) (game_is_active lv) (lost_a_life lv)
    (bonus_added lv) (load_next_level lv) (left_pressed lv) (right_pressed lv)
    (bonus_score lv) (bonus_collection_order lv) (elapsed_time lv) (elapsed_time_copy lv).
Definition set_breakable_brick_list (v : list nat) (lv : Level) : Level :=
  mkLevel (window lv) (is_demo_level lv) (boundary lv) (bricks lv) (brick_list lv) v
    (balls lv) (ball_list lv) (icon_list lv) (bullet_list lv) (paddle lv) (game_over lv)
    (level_complete lv) (game_is_active lv) (lost_a_life lv) (bonus_added lv)
    (load_next_level lv) (left_pressed lv) (right_pressed lv) (bonus_score lv)
    (bonus_collection_order lv) (elapsed_time lv) (elapsed_time_copy lv).
Definition set_balls (v : gmap nat Ball) (lv : Level) : Level :=
  mkLevel (window lv) (is_demo_level lv) (boundary lv) (bricks lv) (brick_list lv)
    (breakable_brick_list lv) v (ball_list lv) (icon_list lv) (bullet_list lv) (paddle lv)
    (game_over lv) (level_complete lv) (game_is_active lv) (lost_a_life lv)
    (bonus_added lv) (load_next_level lv) (left_pressed lv) (right_pressed lv)
    (bonus_score lv) (bonus_collection_order lv) (elapsed_time lv) (elapsed_time_copy lv).
Definition set_ball_list (v : list nat) (lv : Level) : Level :=
  mkLevel (window lv) (is_demo_level lv) (boundary lv) (bricks lv) (brick_list lv)
    (breakable_brick_list lv) (balls lv) v (icon_list lv) (bullet_list lv) (paddle lv)
    (game_over lv) (level_complete lv) (game_is_active lv) (lost_a_life lv)
    (bonus_added lv) (load_next_level lv) (left_pressed lv) (right_pressed lv)
    (bonus_score lv) (bonus_collection_order lv) (elapsed_time lv) (elapsed_time_copy lv).
Definition set_icon_list (v : list Icon) (lv : Level) : Level :=
  mkLevel (window lv) (is_demo_level lv) (boundary lv) (bricks lv) (brick_list lv)
    (breakable_brick_list lv) (balls lv) (ball_list lv) v (bullet_list lv) (paddle lv)
    (game_over lv) (level_complete lv) (game_is_active lv) (lost_a_life lv)
    (bonus_added lv) (load_next_level lv) (left_pressed lv) (right_pressed lv)
    (bonus_score lv) (bonus_collection_order lv) (elapsed_time lv) (elapsed_time_copy lv).
Definition set_paddle (v : Paddle) (lv : Level) : Level :=
  mkLevel (window lv) (is_demo_level lv) (boundary lv) (bricks lv) (brick_list lv)
    (breakable_brick_list lv) (balls lv) (ball_list lv) (icon_list lv) (bullet_list lv) v
    (game_over lv) (level_complete lv) (game_is_active lv) (lost_a_life lv)
    (bonus_added lv) (load_next_level lv) (left_pressed lv) (right_pressed lv)
    (bonus_score lv) (bonus_collection_order lv) (elapsed_time lv) (elapsed_time_copy lv).
Definition set_game_over (v : bool) (lv : Level) : Level :=
  mkLevel (window lv) (is_demo_level lv) (boundary lv) (bricks lv) (brick_list lv)
    (breakable_brick_list lv) (balls lv) (ball_list lv) (icon_list lv) (bullet_list lv)
    (paddle lv) v (level_complete lv) (game_is_active lv) (lost_a_life lv) (bonus_added lv)
    (load_next_level lv) (left_pressed lv) (right_pressed lv) (bonus_score lv)
    (bonus_collection_order lv) (elapsed_time lv) (elapsed_time_copy lv).
Definition set_level_complete (v : bool) (lv : Level) : Level :=
  mkLevel (window lv) (is_demo_level lv) (boundary lv) (bricks lv) (brick_list lv)
    (breakable_brick_list lv) (balls lv) (ball_list lv) (icon_list lv) (bullet_list lv)
    (paddle lv) (game_over lv) v (game_is_active lv) (lost_a_life lv) (bonus_added lv)
    (load_next_level lv) (left_pressed lv) (right_pressed lv) (bonus_score lv)
    (bonus_collection_order lv) (elapsed_time lv) (elapsed_time_copy lv).
Definition set_game_is_active (v : bool) (lv : Level) : Level :=
  mkLevel (window lv) (is_demo_level lv) (boundary lv) (bricks lv) (brick_list lv)
    (breakable_brick_list lv) (balls lv) (ball_list lv) (icon_list lv) (bullet_list lv)
    (paddle lv) (game_over lv) (level_complete lv) v (lost_a_life lv) (bonus_added lv)
    (load_next_level lv) (left_pressed lv) (right_pressed lv) (bonus_score lv)
    (bonus_collection_order lv) (elapsed_time lv) (elapsed_time_copy lv).
Definition set_lost_a_life (v : bool) (lv : Level) : Level :=
  mkLevel (window lv) (is_demo_level lv) (boundary lv) (bricks lv) (brick_list lv)
    (breakable_brick_list lv) (balls lv) (ball_list lv) (icon_list lv) (bullet_list lv)
    (paddle lv) (game_over lv) (level_complete lv) (game_is_active lv) v (bonus_added lv)
    (load_next_level lv) (left_pressed lv) (right_pressed lv) (bonus_score lv)
    (bonus_collection_order lv) (elapsed_time lv) (elapsed_time_copy lv).
Definition set_load_next_level (v : bool) (lv : Level) : Level :=
  mkLevel (window lv) (is_demo_level lv) (boundary lv) (bricks lv) (brick_list lv)
    (breakable_brick_list lv) (balls lv) (ball_list lv) (icon_list lv) (bullet_list lv)
    (paddle lv) (game_over lv) (level_complete lv) (game_is_active lv) (lost_a_life lv)
    (bonus_added lv) v (left_pressed lv) (right_pressed lv) (bonus_score lv)
    (bonus_collection_order lv) (elapsed_time lv) (elapsed_time_copy lv).
Definition set_bonus_score (v : Z) (lv : Level) : Level :=
  mkLevel (window lv) (is_demo_level lv) (boundary lv) (bricks lv) (brick_list lv)
    (breakable_brick_list lv) (balls lv) (ball_list lv) (icon_list lv) (bullet_list lv)
    (paddle lv) (game_over lv) (level_complete lv) (game_is_active lv) (lost_a_life lv)
    (bonus_added lv) (load_next_level lv) (left_pressed lv) (right_pressed lv) v
    (bonus_collection_order lv) (elapsed_time lv) (elapsed_time_copy lv).
Definition set_bonus_collection_order (v : string) (lv : Level) : Level :=
  mkLevel (window lv) (is_demo_level lv) (boundary lv) (bricks lv) (brick_list lv)
    (breakable_brick_list lv) (balls lv) (ball_list lv) (icon_list lv) (bullet_list lv)
    (paddle lv) (game_over lv) (level_complete lv) (game_is_active lv) (lost_a_life lv)
    (bonus_added lv) (load_next_level lv) (left_pressed lv) (right_pressed lv)
    (bonus_score lv) v (elapsed_time lv) (elapsed_time_copy lv).
Definition set_elapsed_time (v : R) (lv : Level) : Level :=
  mkLevel (window lv) (is_demo_level lv) (boundary lv) (bricks lv) (brick_list lv)
    (breakable_brick_list lv) (balls lv) (ball_list lv) (icon_list lv) (bullet_list lv)
    (paddle lv) (game_over lv) (level_complete lv) (game_is_active lv) (lost_a_life lv)
    (bonus_added lv) (load_next_level lv) (left_pressed lv) (right_pressed lv)
    (bonus_score lv) (bonus_collection_order lv) v (elapsed_time_copy lv).
Definition set_elapsed_time_copy (v : R) (lv : Level) : Level :=
  mkLevel (window lv) (is_demo_level lv) (boundary lv) (bricks lv) (brick_list lv)
    (breakable_brick_list lv) (balls lv) (ball_list lv) (icon_list lv) (bullet_list lv)
    (paddle lv) (game_over lv) (level_complete lv) (game_is_active lv) (lost_a_life lv)
    (bonus_added lv) (load_next_level lv) (left_pressed lv) (right_pressed lv)
    (bonus_score lv) (bonus_collection_order lv) (elapsed_time lv) v.

(** [sprite.remove_from_sprite_lists()]: the id leaves every sprite list;
    the object itself stays in the store, other references to it (a
    [hit_list], the paddle's [magnetic_ball_list]) remain valid. *)
Definition remove_id (self : nat) (l : list nat) : list nat :=
  filter (fun i => i <> self) l.

Definition Ball_remove_from_sprite_lists (self : nat) (lv : Level) : Level :=
  set_ball_list (remove_id self (ball_list lv)) lv.

Definition Brick_remove_from_sprite_lists (self : nat) (lv : Level) : Level :=
  set_breakable_brick_list (remove_id self (breakable_brick_list lv))
    (set_brick_list (remove_id self (brick_list lv)) lv).

(** [list.remove(x)]: drops the first element equal to [x]. *)
Fixpoint list_remove (x : nat) (l : list nat) : list nat :=
  match l with
  | [] => []
  | y :: l' => if Nat.eqb y x then l' else y :: list_remove x l'
  end.

(** A new object gets an id no object of the store has. *)
Definition new_ball_id (lv : Level) : nat := fresh (dom (balls lv)).
Definition new_brick_id (lv : Level) : nat := fresh (dom (bricks lv)).

(** ** Bricks *)

(** [Brick.change_properties].  An unbreakable brick only plays its hit
    sound; a breakable brick whose latch is set does nothing. *)
Definition Brick_change_properties (self : nat) (lv : Level) : Level :=
  match bricks lv !! self with
  | None => lv
  | Some k =>
    if is_breakable k && negb (has_been_hit k) then
      let k1 := set_has_been_hit true k in
      let k2 := set_cur_texture_index (cur_texture_index k1 + 1) k1 in
      let lv1 :=
        if (cur_texture_index k2 <? Z.of_nat (length (textures k2)))%Z then lv
        else Brick_remove_from_sprite_lists self lv in
      let lv2 := set_window (set_win_score (win_score (window lv1) + score k2) (window lv1)) lv1 in
      let lv3 :=
        if negb (String.eqb (letter k2) "") then
          set_bonus_collection_order (bonus_collection_order lv2 ++ letter k2) lv2
        else lv2 in
      match icon k2 with
      | Some ic =>
        set_bricks (<[self := set_icon None k2]> (bricks lv3))
          (set_icon_list (icon_list lv3 ++ [ic]) lv3)
      | None => set_bricks (<[self := k2]> (bricks lv3)) lv3
      end
    else lv
  end.

(** [Brick.update].  [ball_hits] and [bullet_hits] are
    [self.collides_with_list(self.level.ball_list)] and
    [self.collides_with_list(self.level.bullet_list)]. *)
Definition Brick_update (ball_hits bullet_hits : list nat) (k : Brick) : Brick :=
  if has_been_hit k
     && bool_decide (ball_hits = [])
     && bool_decide (bullet_hits = [])
  then set_has_been_hit false k else k.

(** The brick of a hit list a [for ... if ...: ...; break] loop stops at. *)
Fixpoint first_brick (cond : Brick -> bool) (store : gmap nat Brick) (hit_list : list nat)
    : option Brick :=
  match hit_list with
  | [] => None
  | id :: rest =>
    match store !! id with
    | Some k => if cond k then Some k else first_brick cond store rest
    | None => first_brick cond store rest
    end
  end.

(** [for brick in hit_list: brick.change_properties()] *)
Definition hit_all (hit_list : list nat) (lv : Level) : Level :=
  foldl (fun lv brick => Brick_change_properties brick lv) lv hit_list.

(** ** Ball against bricks

    [hit_list] is [self.collides_with_list(self.brick_list)]; the bricks
    are read from the store of [lv]. *)

(** [Ball.collides_with_brick_moving_horizontally] *)
Definition Ball_collides_with_brick_moving_horizontally
    (hit_list : list nat) (b : Ball) (lv : Level) : Ball * Level :=
  match hit_list with
  | [] => (b, lv)
  | id :: _ =>
    let b1 :=
      match bricks lv !! id with
      | Some brick =>
        if negb (is_safety_barrier brick) then
          set_change_x (change_x b * -1)
            (set_ball_sprite
               (if Rgtb (change_x b) 0 then set_right (left (brick_sprite brick)) (ball_sprite b)
                else set_left (right (brick_sprite brick)) (ball_sprite b)) b)
        else b
      | None => b
      end in
    (b1, if has_level b then hit_all hit_list lv else lv)
  end.

(** [Ball.collides_with_brick_moving_vertically] *)
Definition Ball_collides_with_brick_moving_vertically
    (hit_list : list nat) (b : Ball) (lv : Level) : Ball * Level :=
  match hit_list with
  | [] => (b, lv)
  | id :: _ =>
    let b1 :=
      match bricks lv !! id with
      | Some brick =>
        set_change_y (change_y b * -1)
          (set_ball_sprite
             (if Rgtb (change_y b) 0 then set_top (bottom (brick_sprite brick)) (ball_sprite b)
              else set_bottom (top (brick_sprite brick)) (ball_sprite b)) b)
      | None => b
      end in
    (b1, if has_level b then hit_all hit_list lv else lv)
  end.

(** [InvinciBall.collides_with_brick_moving_horizontally] *)
Definition InvinciBall_collides_with_brick_moving_horizontally
    (hit_list : list nat) (b : Ball) (lv : Level) : Ball * Level :=
  let b1 :=
    match first_brick (fun brick => negb (is_breakable brick) && negb (is_safety_barrier brick))
                      (bricks lv) hit_list with
    | Some brick =>
      set_change_x (change_x b * -1)
        (set_ball_sprite
           (if Rgtb (change_x b) 0 then set_right (left (brick_sprite brick)) (ball_sprite b)
            else set_left (right (brick_sprite brick)) (ball_sprite b)) b)
    | None => b
    end in
  (b1, if has_level b then hit_all hit_list lv else lv).

(** [InvinciBall.collides_with_brick_moving_vertically] *)
Definition InvinciBall_collides_with_brick_moving_vertically
    (hit_list : list nat) (b : Ball) (lv : Level) : Ball * Level :=
  let b1 :=
    match first_brick (fun brick => negb (is_breakable brick) || is_safety_barrier brick)
                      (bricks lv) hit_list with
    | Some brick =>
      set_change_y (change_y b * -1)
        (set_ball_sprite
           (if Rgtb (change_y b) 0 then set_top (bottom (brick_sprite brick)) (ball_sprite b)
            else set_bottom (top (brick_sprite brick)) (ball_sprite b)) b)
    | None => b
    end in
  (b1, if has_level b then hit_all hit_list lv else lv).

(** Method resolution: [InvinciBall] overrides the two brick collisions;
    every other class, [MagneticInviciBall] included, inherits those of
    [Ball]. *)
Definition collides_with_brick_moving_horizontally
    (hit_list : list nat) (b : Ball) (lv : Level) : Ball * Level :=
  match ball_type b with
  | InvinciBall => InvinciBall_collides_with_brick_moving_horizontally hit_list b lv
  | _ => Ball_collides_with_brick_moving_horizontally hit_list b lv
  end.

Definition collides_with_brick_moving_vertically
    (hit_list : list nat) (b : Ball) (lv : Level) : Ball * Level :=
  match ball_type b with
  | InvinciBall => InvinciBall_collides_with_brick_moving_vertically hit_list b lv
  | _ => Ball_collides_with_brick_moving_vertically hit_list b lv
  end.

(** ** Ball conversion *)

(** [Ball.convert_to].  Returns the id of the ball created.  A method runs
    on a live object, so the lookup of [self] succeeds. *)
Definition convert_to (assets : Assets) (self : nat) (t : BallType) (lv : Level)
    : nat * Level :=
  match balls lv !! self with
  | None => (self, lv)
  | Some b =>
    let ball := Ball_init assets (boundary lv) (has_level b) t in
    let ball := set_ball_sprite (set_position (ball_sprite b) (ball_sprite ball)) ball in
    let ball := change_horizontal_velocity (paddle_sprite (paddle lv)) ball in
    let id := new_ball_id lv in
    let lv1 := set_balls (<[id := ball]> (balls lv)) lv in
    let lv2 := set_ball_list (ball_list lv1 ++ [id]) lv1 in
    (id, Ball_remove_from_sprite_lists self lv2)
  end.

(** [Ball.split_into_two] *)
Definition split_into_two (assets : Assets) (self : nat) (lv : Level) : Level :=
  match balls lv !! self with
  | None => lv
  | Some b =>
    let ball := Ball_init assets (boundary lv) (has_level b) (ball_type b) in
    let ball := set_ball_sprite (set_position (ball_sprite b) (ball_sprite ball)) ball in
    let ball := set_change_y (change_y b) (set_change_x (- change_x b) ball) in
    let id := new_ball_id lv in
    let lv1 := set_balls (<[id := ball]> (balls lv)) lv in
    let lv2 := set_ball_list (ball_list lv1 ++ [id]) lv1 in
    set_paddle (set_split_balls (split_balls (paddle lv2) - 1) (paddle lv2)) lv2
  end.

(** [ball.change_velocity()] on the ball object [id]. *)
Definition Ball_change_velocity (id : nat) (lv : Level) : Level :=
  set_balls (alter (change_velocity (paddle_sprite (paddle lv))) id (balls lv)) lv.

(** The first statement of [Ball.change_properties]: the ball gains or
    loses invincibility.  Returns the ball the rest of the method works
    on. *)
Definition change_invincibility (assets : Assets) (self : nat) (lv : Level)
    : nat * Level :=
  match balls lv !! self with
  | None => (self, lv)
  | Some b =>
    if (invincible_balls (paddle lv) >? 0)%Z then
      let '(ball, lv1) :=
        if negb (is_invincible b) then convert_to assets self InvinciBall lv else (self, lv) in
      (ball, set_paddle (set_invincible_balls (invincible_balls (paddle lv1) - 1) (paddle lv1)) lv1)
    else
      if is_invincible b then convert_to assets self NormalBall lv else (self, lv)
  end.

(** [Ball.change_properties] *)
Definition Ball_change_properties (assets : Assets) (self : nat) (lv : Level) : Level :=
  let '(ball, lv1) := change_invincibility assets self lv in
  match balls lv1 !! ball with
  | None => lv1
  | Some b =>
    if is_magnetic (paddle lv1) then
      let '(magnetic_ball, lv2) :=
        if is_invincible b then convert_to assets ball MagneticInviciBall lv1
        else convert_to assets ball MagneticNormalBall lv1 in
      set_paddle
        (set_magnetic_ball_list (magnetic_ball_list (paddle lv2) ++ [magnetic_ball]) (paddle lv2))
        lv2
    else
      let lv2 := Ball_change_velocity ball lv1 in
      if (split_balls (paddle lv2) >? 0)%Z then split_into_two assets ball lv2 else lv2
  end.

(** [Ball.collides_with_paddle_moving_vertically] on the ball object
    [self]; [collides] is [self.collides_with_sprite(self.level.paddle)]. *)
Definition collides_with_paddle_moving_vertically
    (assets : Assets) (collides : bool) (self : nat) (lv : Level) : Level :=
  match balls lv !! self with
  | None => lv
  | Some b =>
    let p := paddle_sprite (paddle lv) in
    if has_level b && collides then
      if Rltb (change_y b) 0 && Rltb (center_y (ball_sprite b)) (top p)
         && Rltb (center_x (ball_sprite b)) (left p) then
        set_balls (<[self := set_velocity (set_ball_speed (ball_speed b + 100)
                                (set_velocity_angle (180 + 15) b))]> (balls lv)) lv
      else if Rltb (change_y b) 0 && Rltb (center_y (ball_sprite b)) (top p)
              && Rgtb (center_x (ball_sprite b)) (right p) then
        set_balls (<[self := set_velocity (set_ball_speed (ball_speed b + 100)
                                (set_velocity_angle (-15) b))]> (balls lv)) lv
      else if Rgtb (change_y b) 0 then
        set_balls (<[self := set_change_y (change_y b * -1)
                     (set_ball_sprite (set_top (bottom p) (ball_sprite b)) b)]> (balls lv)) lv
      else if Rltb (change_y b) 0 then
        Ball_change_properties assets self
          (set_balls (<[self := set_ball_sprite (set_bottom (top p) (ball_sprite b)) b]>
                        (balls lv)) lv)
      else lv
    else lv
  end.

(** [Paddle.release_magnetic_balls] *)
Definition release_magnetic_balls (assets : Assets) (lv : Level) : Level :=
  let body (lv : Level) (ball : nat) : Level :=
    match balls lv !! ball with
    | None => lv
    | Some b =>
      let '(new_ball, lv1) :=
        if is_invincible b then convert_to assets ball InvinciBall lv
        else convert_to assets ball NormalBall lv in
      let lv2 := Ball_change_velocity new_ball lv1 in
      if (split_balls (paddle lv2) >? 0)%Z then split_into_two assets new_ball lv2 else lv2
    end in
  let lv1 := foldl body lv (magnetic_ball_list (paddle lv)) in
  set_paddle (set_magnetic_ball_list [] (paddle lv1)) lv1.

(** ** Level transitions *)

(** [window.show_view(view)] *)
Definition show_view (v : View) (lv : Level) : Level :=
  set_window (set_shown_view v (window lv)) lv.

(** [Level.level_is_complete] *)
Definition level_is_complete (lv : Level) : Level :=
  let lv := set_game_is_active false lv in
  let lv := set_level_complete true lv in
  let lv := set_elapsed_time 0 lv in
  let lv :=
    if (String.length (bonus_collection_order lv) =? 5)%nat then
      if String.eqb (bonus_collection_order lv) "BONUS" then set_bonus_score 5000 lv
      else set_bonus_score 2000 lv
    else lv in
  set_bonus_score (bonus_score lv + lives (window lv) * 100) lv.

(** [Level.lose_a_life] *)
Definition lose_a_life (lv : Level) : Level :=
  let lv := set_game_is_active false lv in
  let lv := set_window (set_lives (lives (window lv) - 1) (window lv)) lv in
  let lv :=
    if (lives (window lv) =? 0)%Z then set_game_over true lv
    else set_lost_a_life true lv in
  set_elapsed_time 0 lv.

(** [Level.on_update].  [sprites_on_update] stands for the five sprite-list
    updates of an active tick (balls, paddle, icons, bullets, bricks), whose
    collision tests are [arcade]'s.  [lowest_high_score] is
    [HIGH_SCORES[-1].score], [None] when the list is empty and the
    subscript raises; the result is then [None]. *)
Definition Level_on_update
    (assets : Assets) (sprites_on_update : Level -> Level)
    (lowest_high_score : option Z) (delta_time : R) (lv : Level) : option Level :=
  let lv := set_elapsed_time (elapsed_time lv + delta_time) lv in
  let lv :=
    if is_demo_level lv && Rgtb (elapsed_time lv) DEMO_LEVEL_TIME
    then show_view MainMenuView lv else lv in
  if game_is_active lv then
    let lv := sprites_on_update lv in
    if bool_decide (breakable_brick_list lv = []) then Some (level_is_complete lv)
    else if bool_decide (ball_list lv = []) then Some (lose_a_life lv)
    else Some lv
  else if lost_a_life lv && Rgtb (elapsed_time lv) (PAUSE_TIME + TRANSITION_TIME) then
    let lv := set_paddle (Paddle_init assets (boundary lv) NormalPaddle) lv in
    let id := new_ball_id lv in
    let lv := set_balls (<[id := Ball_init assets (boundary lv) true NormalBall]> (balls lv)) lv in
    let lv := set_ball_list (ball_list lv ++ [id]) lv in
    Some (set_lost_a_life false lv)
  else if game_over lv && Rgtb (elapsed_time lv) (PAUSE_TIME * 2 + TRANSITION_TIME)
          && (display_score (window lv) =? win_score (window lv))%Z then
    match lowest_high_score with
    | None => None
    | Some lowest =>
      if (win_score (window lv) >? lowest)%Z then Some (show_view NameEntryView lv)
      else Some (show_view HighScoreView lv)
    end
  else if level_complete lv && Rgtb (elapsed_time lv) (PAUSE_TIME + TRANSITION_TIME)
          && (display_score (window lv) =? win_score (window lv))%Z
          && negb (load_next_level lv) then
    Some (set_elapsed_time_copy (elapsed_time lv) (set_load_next_level true lv))
  else if load_next_level lv
          && Rgtb (elapsed_time lv) (elapsed_time_copy lv + PAUSE_TIME - 1) then
    Some (show_view LevelOutroView lv)
  else Some lv.

(** ** Icons *)

(** A Python [for x in the_list(state): body] whose body may change the
    list it walks: the iterator holds an index, reads the element at that
    index of the list as it is now, and stops when the index is past the
    end.  [fuel] bounds the number of rounds. *)
Fixpoint for_in {S : Type} (fuel : nat) (the_list : S -> list nat) (body : nat -> S -> S)
    (i : nat) (s : S) : S :=
  match fuel with
  | O => s
  | Datatypes.S fuel' =>
    match the_list s !! i with
    | None => s
    | Some x => for_in fuel' the_list body (Datatypes.S i) (body x s)
    end
  end.

(** [for ball in self.level.ball_list: ball.change_speed(action)] *)
Definition change_speed_of_all (action : string) (lv : Level) : Level :=
  foldl (fun lv ball => set_balls (alter (change_speed action) ball (balls lv)) lv)
        lv (ball_list lv).

(** The paddle installed by the two paddle-size icons: created at the
    default place, then given the properties of the one it replaces. *)
Definition replace_paddle (assets : Assets) (t : PaddleType) (lv : Level) : Level :=
  set_paddle (copy_properties_from (paddle lv) (Paddle_init assets (boundary lv) t)) lv.

(** [LengthenPaddleIcon.activate_icon_property] *)
Definition LengthenPaddleIcon_activate (assets : Assets) (lv : Level) : Level :=
  let current_paddle := paddle lv in
  let t :=
    if is_demo_level lv then
      if isinstance_DemoShortPaddle (paddle_type current_paddle)
      then DemoNormalPaddle else DemoLongPaddle
    else
      if isinstance_ShortPaddle (paddle_type current_paddle)
      then NormalPaddle else LongPaddle in
  let lv := replace_paddle assets t lv in
  let lv := set_paddle (Paddle_collides_with_boundary (boundary lv) (paddle lv)) lv in
  change_speed_of_all "increase" lv.

(** The body of the loop of [ShortenPaddleIcon.activate_icon_property]. *)
Definition drop_if_off_paddle (assets : Assets) (ball : nat) (lv : Level) : Level :=
  match balls lv !! ball with
  | None => lv
  | Some b =>
    if Rltb (center_x (ball_sprite b)) (left (paddle_sprite (paddle lv)))
       || Rgtb (center_x (ball_sprite b)) (right (paddle_sprite (paddle lv))) then
      let '(new_ball, lv1) :=
        if is_invincible b then convert_to assets ball InvinciBall lv
        else convert_to assets ball NormalBall lv in
      let drop (nb : Ball) : Ball :=
        set_velocity (set_velocity_angle (-90) (set_ball_speed 200 nb)) in
      let lv2 := set_balls (alter drop new_ball (balls lv1)) lv1 in
      set_paddle
        (set_magnetic_ball_list (list_remove ball (magnetic_ball_list (paddle lv2))) (paddle lv2))
        lv2
    else lv
  end.

(** [ShortenPaddleIcon.activate_icon_property] *)
Definition ShortenPaddleIcon_activate (assets : Assets) (lv : Level) : Level :=
  let current_paddle := paddle lv in
  let t :=
    if is_demo_level lv then
      if isinstance_DemoLongPaddle (paddle_type current_paddle)
      then DemoNormalPaddle else DemoShortPaddle
    else
      if isinstance_LongPaddle (paddle_type current_paddle)
      then NormalPaddle else ShortPaddle in
  let lv := replace_paddle assets t lv in
  for_in (length (magnetic_ball_list (paddle lv)))
         (fun lv => magnetic_ball_list (paddle lv))
         (drop_if_off_paddle assets) 0 lv.

(** The body of the loop of [InvinciBallIcon.activate_icon_property]. *)
Definition make_invincible (assets : Assets) (ball : nat) (lv : Level) : Level :=
  match balls lv !! ball with
  | None => lv
  | Some b =>
    if negb (is_invincible b) then
      let '(new_ball, lv1) := convert_to assets ball MagneticInviciBall lv in
      let l1 := magnetic_ball_list (paddle lv1) ++ [new_ball] in
      let l2 := list_remove ball l1 in
      set_paddle
        (set_invincible_balls (invincible_balls (paddle lv1) - 1)
           (set_magnetic_ball_list l2 (paddle lv1)))
        lv1
    else lv
  end.

(** [InvinciBallIcon.activate_icon_property] *)
Definition InvinciBallIcon_activate (assets : Assets) (lv : Level) : Level :=
  let lv := set_paddle (set_invincible_balls (invincible_balls (paddle lv) + 3) (paddle lv)) lv in
  for_in (length (magnetic_ball_list (paddle lv)))
         (fun lv => magnetic_ball_list (paddle lv))
         (make_invincible assets) 0 lv.

(** [SpeedUpBallsIcon.activate_icon_property] *)
Definition SpeedUpBallsIcon_activate (assets : Assets) (lv : Level) : Level :=
  let lv := set_paddle (set_is_magnetic false (paddle lv)) lv in
  let lv := release_magnetic_balls assets lv in
  change_speed_of_all "increase" lv.

(** [SlowDownBallsIcon.activate_icon_property] *)
Definition SlowDownBallsIcon_activate (lv : Level) : Level :=
  change_speed_of_all "decrease" lv.

(** [SafetyBarrierIcon.activate_icon_property] *)
Definition SafetyBarrierIcon_activate (lv : Level) : Level :=
  let id := new_brick_id lv in
  set_brick_list (brick_list lv ++ [id])
    (set_bricks (<[id := SafetyBarrier (boundary lv)]> (bricks lv)) lv).

(** [Icon.activate_icon_property], by class. *)
Definition activate_icon_property (assets : Assets) (t : IconType) (lv : Level) : Level :=
  match t with
  | LengthenPaddleIcon => LengthenPaddleIcon_activate assets lv
  | ShortenPaddleIcon => ShortenPaddleIcon_activate assets lv
  | MagneticPaddleIcon =>
    if negb (is_demo_level lv) then set_paddle (set_is_magnetic true (paddle lv)) lv else lv
  | BonusScoreIcon =>
    set_window (set_win_score (win_score (window lv) + 5000) (window lv)) lv
  | ShootingIcon => set_paddle (set_activate_shooter true (paddle lv)) lv
  | SplitBallIcon => set_paddle (set_split_balls (split_balls (paddle lv) + 3) (paddle lv)) lv
  | BonusLifeIcon => set_window (set_lives (lives (window lv) + 1) (window lv)) lv
  | SafetyBarrierIcon => SafetyBarrierIcon_activate lv
  | AdvanceLevelIcon => if negb (is_demo_level lv) then level_is_complete lv else lv
  | SpeedUpBallsIcon => SpeedUpBallsIcon_activate assets lv
  | SlowDownBallsIcon => SlowDownBallsIcon_activate lv
  | InvinciBallIcon => InvinciBallIcon_activate assets lv
  end.

(** ** High scores (levels.py)

    The high-score file is its text, [None] while the file does not exist.
    A character is a code point below 256.  The file is written and read in
    text mode, in an encoding that gives back what was written: writing
    leaves the text as it is (as on POSIX), reading translates every line
    ending to a line feed.  [time.asctime()] is passed in.  The limits of the conversions between [int] and text are the
    defaults of CPython 3.11. *)

Local Open Scope string_scope.

Definition newline : ascii := ascii_of_nat 10.
Definition carriage_return : ascii := ascii_of_nat 13.

(** Iterating over a file opened with [open(path)]: the lines, each with
    its line ending.  A line ends at a line feed, at a carriage return, or
    at a carriage return followed by a line feed, and the ending is handed
    over as one line feed (universal newlines). *)
Fixpoint readlines (s : string) : list string :=
  match s with
  | EmptyString => []
  | String c s' =>
    if Ascii.eqb c carriage_return then
      match s' with
      | String d s'' =>
        if Ascii.eqb d newline then String newline EmptyString :: readlines s''
        else String newline EmptyString :: readlines s'
      | EmptyString => [String newline EmptyString]
      end
    else if Ascii.eqb c newline then String c EmptyString :: readlines s'
    else match readlines s' with
         | [] => [String c EmptyString]
         | line :: rest => String c line :: rest
         end
  end.

(** [s.split(sep)] for a one-character separator. *)
Fixpoint str_split (sep : ascii) (s : string) : list string :=
  match s with
  | EmptyString => [EmptyString]
  | String c s' =>
    if Ascii.eqb c sep then EmptyString :: str_split sep s'
    else match str_split sep s' with
         | [] => [String c EmptyString]
         | field :: rest => String c field :: rest
         end
  end.

(** [c.isspace()]: the white space [str.strip] removes.  Below 256 these
    are the characters 9 to 13, 28 to 32, 133 and 160. *)
Definition is_space (c : ascii) : bool :=
  let n := nat_of_ascii c in
  ((9 <=? n) && (n <=? 13) || (28 <=? n) && (n <=? 32) || (n =? 133) || (n =? 160))%nat.

(** The white space [int] skips around a number: as [is_space], without
    the separators 28 to 31. *)
Definition is_int_space (c : ascii) : bool :=
  let n := nat_of_ascii c in
  ((9 <=? n) && (n <=? 13) || (n =? 32) || (n =? 133) || (n =? 160))%nat.

Definition is_digit (c : ascii) : bool :=
  let n := nat_of_ascii c in ((48 <=? n) && (n <=? 57))%nat.

Definition digit_value (c : ascii) : Z := Z.of_nat (nat_of_ascii c - 48).

(** Leading and trailing characters of the class [space] taken off. *)
Fixpoint lstrip (space : ascii -> bool) (s : string) : string :=
  match s with
  | String c s' => if space c then lstrip space s' else s
  | EmptyString => EmptyString
  end.

Fixpoint rstrip (space : ascii -> bool) (s : string) : string :=
  match s with
  | EmptyString => EmptyString
  | String c s' =>
    match rstrip space s' with
    | EmptyString => if space c then EmptyString else String c EmptyString
    | r => String c r
    end
  end.

(** Decimal digits, single underscores allowed between two digits. *)
Fixpoint digits (acc : Z) (after_digit : bool) (s : string) : option Z :=
  match s with
  | EmptyString => if after_digit then Some acc else None
  | String c s' =>
    if is_digit c then digits (acc * 10 + digit_value c) true s'
    else if Ascii.eqb c "_" && after_digit then
      match s' with
      | String d _ => if is_digit d then digits acc false s' else None
      | EmptyString => None
      end
    else None
  end.

(** [sys.get_int_max_str_digits()]: an [int] of more decimal digits is not
    converted to text, and text of more digits is not converted to an [int]
    ([ValueError]). *)
Definition int_max_str_digits : nat := 4300.

Fixpoint count_digits (s : string) : nat :=
  match s with
  | EmptyString => O
  | String c s' => if is_digit c then Datatypes.S (count_digits s') else count_digits s'
  end.

(** [int(s)] on a string: surrounding whitespace, an optional sign, decimal
    digits, no more than [int_max_str_digits] of them.  [None] stands for
    [ValueError]. *)
Definition py_int (s : string) : option Z :=
  let s := rstrip is_int_space (lstrip is_int_space s) in
  if (count_digits s <=? int_max_str_digits)%nat then
    match s with
    | String "-" s' => option_map Z.opp (digits 0 false s')
    | String "+" s' => digits 0 false s'
    | s' => digits 0 false s'
    end
  else None.

(** The decimal text of an int. *)
Definition decimal (n : Z) : string := NilZero.string_of_int (Z.to_int n).

(** [f"{n}"] for an int: its decimal text; [None] stands for the
    [ValueError] of an int of more than [int_max_str_digits] digits. *)
Definition str_of_int (n : Z) : option string :=
  if (count_digits (decimal n) <=? int_max_str_digits)%nat then Some (decimal n) else None.

(** The namedtuple [Entry] of [get_high_scores]. *)
Record Entry := mkEntry {
  entry_name : string;
  entry_level : string;
  entry_score : Z
}.

(** One seed row of [create_high_scores]; [int(i/2)] truncates.  The
    numbers formatted are the constants of the loop, of at most five
    digits, so the text is [decimal] of them. *)
Definition seed_row (asctime : Z -> string) (i : Z) : string :=
  if (i mod 2 =? 0)%Z then
    "Freddy," ++ decimal (Z.quot i 2) ++ "," ++ decimal (i * 5000) ++ ","
      ++ asctime i ++ String newline ""
  else
    "BBB," ++ decimal (Z.quot (i + 1) 2) ++ "," ++ decimal (i * 5000) ++ ","
      ++ asctime i ++ String newline "".

(** [range(10, 0, -1)] *)
Definition seed_range : list Z := [10; 9; 8; 7; 6; 5; 4; 3; 2; 1]%Z.

(** [create_high_scores]: the text written to the file.  [asctime i] is
    what [time.asctime()] returns while row [i] is written. *)
Definition create_high_scores (asctime : Z -> string) : string :=
  ("name,level,score,datetime" ++ String newline "")
    ++ String.concat "" (map (seed_row asctime) seed_range).

(** One round of the reading loop; [None] stands for the [IndexError] of a
    short row or the [ValueError] of [int]. *)
Definition parse_row (line : string) : option Entry :=
  match str_split "," line with
  | name :: level :: score :: _ =>
    match py_int score with
    | Some n => Some (mkEntry name level n)
    | None => None
    end
  | _ => None
  end.

Fixpoint parse_rows (lines : list string) : option (list Entry) :=
  match lines with
  | [] => Some []
  | line :: rest =>
    match parse_row line with
    | None => None
    | Some e =>
      match parse_rows rest with
      | None => None
      | Some es => Some (e :: es)
      end
    end
  end.

(** [sorted(l, key=lambda entry: entry.score, reverse=True)]: descending by
    score, entries of equal score in their original order. *)
Fixpoint insert_entry (e : Entry) (l : list Entry) : list Entry :=
  match l with
  | [] => [e]
  | e' :: l' =>
    if (entry_score e' <=? entry_score e)%Z then e :: e' :: l'
    else e' :: insert_entry e l'
  end.

Fixpoint sorted_by_score (l : list Entry) : list Entry :=
  match l with
  | [] => []
  | e :: l' => insert_entry e (sorted_by_score l')
  end.

(** [get_high_scores]: the list returned ([None] when an exception
    escapes) and the file afterwards. *)
Definition get_high_scores (asctime : Z -> string) (file : option string)
    : option (list Entry) * option string :=
  let text :=
    match file with
    | None => create_high_scores asctime
    | Some text => text
    end in
  match readlines text with
  | [] => (None, Some text)
  | _heading :: rows =>
    match parse_rows rows with
    | None => (None, Some text)
    | Some high_scores_list => (Some (take 10 (sorted_by_score high_scores_list)), Some text)
    end
  end.

Local Close Scope string_scope.

From Stdlib Require DecimalPos.

(** ** Movement (assets.py) *)

Local Open Scope R_scope.

(** [int(x)] on a float: the integer part, rounding toward zero. *)
Definition int_of_float (x : R) : Z :=
  if Rleb 0 x then Int_part x else (- Int_part (- x))%Z.

(** [DEBUGGING] *)
Definition DEBUGGING : bool := false.
Definition BULLET_SPEED : R := 300.

(** [Ball.collides_with_boundary_moving_horizontally]; [bd] is
    [self.boundary]. *)
Definition collides_with_boundary_moving_horizontally (bd : Boundary) (b : Ball) : Ball :=
  if Rgtb (right (ball_sprite b)) (inner_right bd) then
    set_change_x (change_x b * -1)
      (set_ball_sprite (set_right (inner_right bd) (ball_sprite b)) b)
  else if Rltb (left (ball_sprite b)) (inner_left bd) then
    set_change_x (change_x b * -1)
      (set_ball_sprite (set_left (inner_left bd) (ball_sprite b)) b)
  else b.

(** [Ball.collides_with_boundary_moving_vertically] on the ball object
    [self]; its boundary is the one of [lv]. *)
Definition collides_with_boundary_moving_vertically (self : nat) (lv : Level) : Level :=
  match balls lv !! self with
  | None => lv
  | Some b =>
    let bd := boundary lv in
    if Rgtb (top (ball_sprite b)) (inner_top bd) then
      set_balls
        (<[self := set_change_y (change_y b * -1)
                     (set_ball_sprite (set_top (inner_top bd) (ball_sprite b)) b)]> (balls lv))
        lv
    else if (DEBUGGING || is_fullscreen bd)
            && Rltb (bottom (ball_sprite b)) (inner_bottom bd) then
      set_balls
        (<[self := set_change_y (change_y b * -1)
                     (set_ball_sprite (set_bottom (inner_bottom bd) (ball_sprite b)) b)]>
           (balls lv))
        lv
    else if Rltb (top (ball_sprite b)) (inner_bottom bd) then
      Ball_remove_from_sprite_lists self lv
    else lv
  end.

(** The velocity the arrow keys ask for: [Paddle.on_update] and
    [MagneticNormalBall.on_update] compute it alike. *)
Definition keys_change_x (lv : Level) : R :=
  if left_pressed lv && negb (right_pressed lv) then - paddle_speed (paddle lv)
  else if right_pressed lv && negb (left_pressed lv) then paddle_speed (paddle lv)
  else 0.

(** [Paddle.on_update].  The sprite attribute [change_x] of the paddle is
    written here before it is read and read nowhere else. *)
Definition Paddle_on_update (delta_time : R) (lv : Level) : Level :=
  let change_x := keys_change_x lv in
  if negb (Reqb change_x 0) then
    let p := paddle lv in
    let moved :=
      set_paddle_sprite
        (set_center_x (center_x (paddle_sprite p) + IZR (int_of_float (change_x * delta_time)))
                      (paddle_sprite p)) p in
    set_paddle (Paddle_collides_with_boundary (boundary lv) moved) lv
  else lv.

(** [DemoPaddle.on_update]; [None] stands for the [IndexError] of
    [ball_list[0]] on an empty list. *)
Definition DemoPaddle_on_update (lv : Level) : option Level :=
  match ball_list lv with
  | [] => None
  | first :: _ =>
    match balls lv !! first with
    | None => None
    | Some b =>
      let p := paddle lv in
      let moved :=
        set_paddle_sprite (set_center_x (center_x (ball_sprite b)) (paddle_sprite p)) p in
      Some (set_paddle (Paddle_collides_with_boundary (boundary lv) moved) lv)
    end
  end.

(** [self.paddle.on_update()], by class of the paddle. *)
Definition paddle_on_update (delta_time : R) (lv : Level) : option Level :=
  match paddle_type (paddle lv) with
  | DemoNormalPaddle | DemoLongPaddle | DemoShortPaddle => DemoPaddle_on_update lv
  | _ => Some (Paddle_on_update delta_time lv)
  end.

(** [MagneticNormalBall.on_update] on the ball object [self]. *)
Definition MagneticNormalBall_on_update (delta_time : R) (self : nat) (lv : Level) : Level :=
  match balls lv !! self with
  | None => lv
  | Some b =>
    let p := paddle_sprite (paddle lv) in
    let bd := boundary lv in
    let change_x := keys_change_x lv in
    let change_x :=
      if (Reqb (left p) (inner_left bd) && left_pressed lv)
         || (Reqb (right p) (inner_right bd) && right_pressed lv)
      then 0 else change_x in
    let b1 := set_change_x change_x b in
    let b2 :=
      if negb (Reqb change_x 0) then
        collides_with_boundary_moving_horizontally bd
          (set_ball_sprite
             (set_center_x
                (center_x (ball_sprite b1) + IZR (int_of_float (change_x * delta_time)))
                (ball_sprite b1)) b1)
      else b1 in
    set_balls (<[self := b2]> (balls lv)) lv
  end.

(** What [arcade] answers to the collision queries of a ball: the bricks
    of the brick list its sprite overlaps, and whether it overlaps the
    paddle. *)
Record Collisions := mkCollisions {
  collides_with_list : Sprite -> gmap nat Brick -> list nat -> list nat;
  collides_with_sprite : Sprite -> Sprite -> bool
}.

(** One axis of [Ball.on_update] after the move: boundary, bricks, paddle,
    in that order, on the ball object [self]. *)
Definition resolve_horizontally (arcade : Collisions) (self : nat) (lv : Level) : Level :=
  match balls lv !! self with
  | None => lv
  | Some b =>
    let b1 := collides_with_boundary_moving_horizontally (boundary lv) b in
    let hit_list := collides_with_list arcade (ball_sprite b1) (bricks lv) (brick_list lv) in
    let '(b2, lv1) := collides_with_brick_moving_horizontally hit_list b1 lv in
    let collides :=
      collides_with_sprite arcade (ball_sprite b2) (paddle_sprite (paddle lv1)) in
    let b3 :=
      collides_with_paddle_moving_horizontally collides (paddle_sprite (paddle lv1)) b2 in
    set_balls (<[self := b3]> (balls lv1)) lv1
  end.

Definition resolve_vertically (assets : Assets) (arcade : Collisions) (self : nat)
    (lv : Level) : Level :=
  let lv1 := collides_with_boundary_moving_vertically self lv in
  match balls lv1 !! self with
  | None => lv1
  | Some b1 =>
    let hit_list := collides_with_list arcade (ball_sprite b1) (bricks lv1) (brick_list lv1) in
    let '(b2, lv2) := collides_with_brick_moving_vertically hit_list b1 lv1 in
    let lv3 := set_balls (<[self := b2]> (balls lv2)) lv2 in
    let collides :=
      collides_with_sprite arcade (ball_sprite b2) (paddle_sprite (paddle lv3)) in
    collides_with_paddle_moving_vertically assets collides self lv3
  end.

(** [Ball.on_update] on the ball object [self]. *)
Definition Ball_on_update (assets : Assets) (arcade : Collisions) (delta_time : R)
    (self : nat) (lv : Level) : Level :=
  let move_x (b : Ball) : Ball :=
    set_ball_sprite
      (set_center_x (center_x (ball_sprite b) + IZR (int_of_float (change_x b * delta_time)))
                    (ball_sprite b)) b in
  let move_y (b : Ball) : Ball :=
    set_ball_sprite
      (set_center_y (center_y (ball_sprite b) + IZR (int_of_float (change_y b * delta_time)))
                    (ball_sprite b)) b in
  let lv1 := set_balls (alter move_x self (balls lv)) lv in
  let lv2 := resolve_horizontally arcade self lv1 in
  let lv3 := set_balls (alter move_y self (balls lv2)) lv2 in
  resolve_vertically assets arcade self lv3.

(** [ball.on_update()], by class of the ball: the magnetic classes
    override it. *)
Definition ball_on_update (assets : Assets) (arcade : Collisions) (delta_time : R)
    (self : nat) (lv : Level) : Level :=
  match balls lv !! self with
  | None => lv
  | Some b =>
    if type_is_magnetic (ball_type b) then MagneticNormalBall_on_update delta_time self lv
    else Ball_on_update assets arcade delta_time self lv
  end.

(** ** Drawing and keys (levels.py) *)

Definition set_display_score (v : Z) (w : Window) : Window :=
  mkWindow (win_score w) (lives w) (level_number w) v (shown_view w).

Definition set_bullet_list (v : list Sprite) (lv : Level) : Level :=
  mkLevel (window lv) (is_demo_level lv) (boundary lv) (bricks lv) (brick_list lv)
    (breakable_brick_list lv) (balls lv) (ball_list lv) (icon_list lv) v
    (paddle lv) (game_over lv) (level_complete lv) (game_is_active lv) (lost_a_life lv)
    (bonus_added lv) (load_next_level lv) (left_pressed lv) (right_pressed lv)
    (bonus_score lv) (bonus_collection_order lv) (elapsed_time lv) (elapsed_time_copy lv).

Definition set_bonus_added (v : bool) (lv : Level) : Level :=
  mkLevel (window lv) (is_demo_level lv) (boundary lv) (bricks lv) (brick_list lv)
    (breakable_brick_list lv) (balls lv) (ball_list lv) (icon_list lv) (bullet_list lv)
    (paddle lv) (game_over lv) (level_complete lv) (game_is_active lv) (lost_a_life lv)
    v (load_next_level lv) (left_pressed lv) (right_pressed lv)
    (bonus_score lv) (bonus_collection_order lv) (elapsed_time lv) (elapsed_time_copy lv).

Definition set_left_pressed (v : bool) (lv : Level) : Level :=
  mkLevel (window lv) (is_demo_level lv) (boundary lv) (bricks lv) (brick_list lv)
    (breakable_brick_list lv) (balls lv) (ball_list lv) (icon_list lv) (bullet_list lv)
    (paddle lv) (game_over lv) (level_complete lv) (game_is_active lv) (lost_a_life lv)
    (bonus_added lv) (load_next_level lv) v (right_pressed lv)
    (bonus_score lv) (bonus_collection_order lv) (elapsed_time lv) (elapsed_time_copy lv).

Definition set_right_pressed (v : bool) (lv : Level) : Level :=
  mkLevel (window lv) (is_demo_level lv) (boundary lv) (bricks lv) (brick_list lv)
    (breakable_brick_list lv) (balls lv) (ball_list lv) (icon_list lv) (bullet_list lv)
    (paddle lv) (game_over lv) (level_complete lv) (game_is_active lv) (lost_a_life lv)
    (bonus_added lv) (load_next_level lv) (left_pressed lv) v
    (bonus_score lv) (bonus_collection_order lv) (elapsed_time lv) (elapsed_time_copy lv).

(** [DisplayInfoBlock.draw]: what it writes, the displayed score. *)
Definition DisplayInfoBlock_draw (lv : Level) : Level :=
  if (display_score (window lv) <? win_score (window lv))%Z then
    set_window (set_display_score (display_score (window lv) + 5) (window lv)) lv
  else lv.

(** [DemoDisplayInfoBlock.draw]: it only draws. *)
Definition DemoDisplayInfoBlock_draw (lv : Level) : Level := lv.

(** [self.display_info.draw()]: [Level.__init__] installs a
    [DisplayInfoBlock] and replaces it by a [DemoDisplayInfoBlock] in a demo
    level; neither [display_info] nor [is_demo_level] is written again. *)
Definition display_info_draw (lv : Level) : Level :=
  if is_demo_level lv then DemoDisplayInfoBlock_draw lv else DisplayInfoBlock_draw lv.

(** [Level.on_draw]: what it writes.  The game-over branch only draws and
    plays its voice. *)
Definition Level_on_draw (lv : Level) : Level :=
  let lv := display_info_draw lv in
  if game_over lv && Rgtb (elapsed_time lv) (PAUSE_TIME + TRANSITION_TIME) then lv
  else if level_complete lv && Rgtb (elapsed_time lv) PAUSE_TIME then
    if negb (bonus_added lv) then
      set_bonus_added true
        (set_window (set_win_score (win_score (window lv) + bonus_score lv) (window lv)) lv)
    else lv
  else lv.

(** The keys the views tell apart. *)
Inductive Key := LEFT | RIGHT | UP | DOWN | SPACE | ESCAPE | ENTER | OtherKey.

(** [Bullet(level)]; [size] is the size of the scaled bullet image. *)
Definition Bullet_init (size : R * R) (lv : Level) : Sprite :=
  set_bottom (top (paddle_sprite (paddle lv)))
    (mkSprite (center_x (paddle_sprite (paddle lv))) 0 (fst size) (snd size)).

(** [Level.on_key_press].  The second component tells that
    [window.show_view(PauseMenuView(self))] has been called. *)
Definition Level_on_key_press (assets : Assets) (bullet_size : R * R) (symbol : Key)
    (lv : Level) : Level * bool :=
  if is_demo_level lv then (show_view MainMenuView lv, false)
  else
    match symbol with
    | LEFT => (set_left_pressed true lv, false)
    | RIGHT => (set_right_pressed true lv, false)
    | SPACE =>
      if negb (lost_a_life lv) && negb (game_over lv) && negb (level_complete lv) then
        let lv := set_game_is_active true lv in
        let lv := if is_magnetic (paddle lv) then release_magnetic_balls assets lv else lv in
        let lv :=
          if activate_shooter (paddle lv)
          then set_bullet_list (bullet_list lv ++ [Bullet_init bullet_size lv]) lv
          else lv in
        (lv, false)
      else (lv, false)
    | ESCAPE =>
      if negb (game_over lv) && negb (level_complete lv) then
        (set_right_pressed false (set_left_pressed false lv), true)
      else (lv, false)
    | _ => (lv, false)
    end.

(** [Level.on_key_release] *)
Definition Level_on_key_release (symbol : Key) (lv : Level) : Level :=
  if negb (is_demo_level lv) then
    match symbol with
    | LEFT => set_left_pressed false lv
    | RIGHT => set_right_pressed false lv
    | _ => lv
    end
  else lv.

(** ** Entering a name (levels.py) *)

Local Open Scope string_scope.

(** [s.strip()] *)
Definition strip (s : string) : string := rstrip is_space (lstrip is_space s).

(** The high-score file and the global [HIGH_SCORES] read from it. *)
Record Scores := mkScores {
  scores_file : option string;
  HIGH_SCORES : list Entry
}.

(** The row [NameEntryView.on_key_press] appends; [now] is what
    [time.asctime()] returns then.  [None] stands for the [ValueError] of
    a level number or a score that is not converted to text. *)
Definition name_row (name : string) (w : Window) (now : string) : option string :=
  match str_of_int (level_number w), str_of_int (win_score w) with
  | Some level, Some score =>
    Some (name ++ "," ++ level ++ "," ++ score ++ "," ++ now ++ String newline "")
  | _, _ => None
  end.

(** [open(HIGH_SCORES_FILE, mode="a")] and one [write]: an absent file is
    created. *)
Definition append_to_file (file : option string) (s : string) : string :=
  match file with
  | None => s
  | Some text => text ++ s
  end.

(** [NameEntryView.on_key_press].  [text] is the text of the entry box.
    [None] stands for an exception that escapes: the [ValueError] of the
    row, one of [get_high_scores], or the [IndexError] of [HIGH_SCORES[0]]
    on an empty list; in the last two cases the row has been written by
    then. *)
Definition NameEntryView_on_key_press (asctime : Z -> string) (now : string) (symbol : Key)
    (text : string) (w : Window) (st : Scores) : option (Window * Scores) :=
  match symbol with
  | ENTER =>
    let name := strip text in
    if ((1 <=? String.length name) && (String.length name <=? 15))%nat then
      match name_row name w now with
      | None => None
      | Some row =>
        let file := append_to_file (scores_file st) row in
        match get_high_scores asctime (Some file) with
        | (Some high_scores, file) =>
          match high_scores with
          | [] => None
          | _ :: _ => Some (set_shown_view HighScoreView w, mkScores file high_scores)
          end
        | (None, _) => None
        end
      end
    else Some (w, st)
  | _ => Some (w, st)
  end.

Local Close Scope string_scope.

(** ** Setting up a level (levels.py) *)

Definition BRICK_WIDTH : R := 75.
Definition BRICK_HEIGHT : R := 25.
Definition BRICK_MARGIN : R := 2.

Definition set_brick_sprite (v : Sprite) (k : Brick) : Brick :=
  mkBrick v (is_breakable k) (has_been_hit k) (is_safety_barrier k) (score k) (letter k)
    (icon k) (cur_texture_index k) (textures k).

Definition set_level_number (v : Z) (w : Window) : Window :=
  mkWindow (win_score w) (lives w) v (display_score w) (shown_view w).

(** The body of the two loops of [Level.initialize_bricks_and_icons] for a
    cell that is not [None].  [BrickType] is the brick the class of the
    cell creates, before it is given its place. *)
Definition place_brick (row_number column_number : nat) (BrickType : Brick) (lv : Level)
    : Level :=
  let center_y :=
    inner_top (boundary lv) - BRICK_MARGIN - BRICK_HEIGHT / 2
    - (BRICK_MARGIN + BRICK_HEIGHT) * INR row_number in
  let brick := set_brick_sprite (set_center_y center_y (brick_sprite BrickType)) BrickType in
  let brick :=
    set_brick_sprite
      (set_left (inner_left (boundary lv) + BRICK_MARGIN
                 + (BRICK_MARGIN + BRICK_WIDTH) * INR column_number)
                (brick_sprite brick)) brick in
  let id := new_brick_id lv in
  let lv := set_bricks (<[id := brick]> (bricks lv)) lv in
  let lv :=
    if is_breakable brick
    then set_breakable_brick_list (breakable_brick_list lv ++ [id]) lv
    else lv in
  set_brick_list (brick_list lv ++ [id]) lv.

(** [for column_number, BrickType in enumerate(row)] *)
Fixpoint place_row (row_number column_number : nat) (row : list (option Brick)) (lv : Level)
    : Level :=
  match row with
  | [] => lv
  | cell :: rest =>
    place_row row_number (S column_number) rest
      match cell with
      | Some BrickType => place_brick row_number column_number BrickType lv
      | None => lv
      end
  end.

(** [for row_number, row in enumerate(self.grid)] *)
Fixpoint place_grid (row_number : nat) (grid : list (list (option Brick))) (lv : Level)
    : Level :=
  match grid with
  | [] => lv
  | row :: rest => place_grid (S row_number) rest (place_row row_number 0 row lv)
  end.

(** One round of the loop over [zip(random_bricks, self.icons)];
    [icon_size] is the size of the first image of the icon class. *)
Definition assign_icon (icon_size : IconType -> R * R) (lv : Level) (pair : nat * IconType)
    : Level :=
  match bricks lv !! pair.1 with
  | None => lv
  | Some brick =>
    let new_icon := mkIcon pair.2 (mkSprite 0 0 (fst (icon_size pair.2)) (snd (icon_size pair.2))) in
    let new_icon :=
      mkIcon (icon_type new_icon) (set_position (brick_sprite brick) (icon_sprite new_icon)) in
    set_bricks (<[pair.1 := set_icon (Some new_icon) brick]> (bricks lv)) lv
  end.

(** [Level.initialize_bricks_and_icons].  [random_sample] is
    [random.sample]; [None] stands for its [ValueError] when more icons
    are asked for than there are breakable bricks. *)
Definition initialize_bricks_and_icons (icon_size : IconType -> R * R)
    (random_sample : list nat -> nat -> list nat)
    (grid : list (list (option Brick))) (icons : list IconType) (lv : Level) : option Level :=
  let lv := place_grid 0 grid lv in
  if (length icons <=? length (breakable_brick_list lv))%nat then
    let random_bricks := random_sample (breakable_brick_list lv) (length icons) in
    Some (foldl (assign_icon icon_size) lv (zip random_bricks icons))
  else None.

(** [Level.__init__]; [grid] and [icons] are what
    [populate_grid_and_icons] of the class sets. *)
Definition Level_init (assets : Assets) (icon_size : IconType -> R * R)
    (random_sample : list nat -> nat -> list nat)
    (grid : list (list (option Brick))) (icons : list IconType)
    (win : Window) (demo : bool) : option Level :=
  let bd := PlayingFieldBoundary in
  let lv :=
    mkLevel win demo bd ∅ [] [] ∅ [] [] [] (Paddle_init assets bd NormalPaddle)
            false false false false false false false false 0%Z EmptyString 0 0 in
  let id := new_ball_id lv in
  let lv :=
    set_ball_list (ball_list lv ++ [id])
      (set_balls (<[id := Ball_init assets bd true NormalBall]> (balls lv)) lv) in
  let lv := set_window (set_level_number (level_number (window lv) + 1) (window lv)) lv in
  let lv :=
    if is_demo_level lv
    then set_game_is_active true (set_paddle (Paddle_init assets bd DemoNormalPaddle) lv)
    else lv in
  initialize_bricks_and_icons icon_size random_sample grid icons lv.

(** [COLUMNS]: the number of columns of the playing field. *)
Definition COLUMNS : nat := 14.

(** ** Menus (levels.py, main.py) *)

(** What a menu hands over to: the view it passes to [show_view], or the
    [yes_command] of a confirmation dialogue. *)
Inductive Shown :=
  | ShowLevel1 | ShowHowToPlayView | ShowHighScoreView | ShowQuitGameConfirmationView
  | ShowLevel | ShowNewGameConfirmationView | ShowMainMenuConfirmationView
  | ShowPreviousView | YesCommand.

(** [ParanoidGame.reset_game] *)
Definition reset_game (w : Window) : Window := mkWindow 0 3 0 0 (shown_view w).

Record MainMenu := mkMainMenu {
  main_selected : Z;
  main_elapsed_time : R
}.

(** [MainMenuView.on_key_press]; [len(self.options)] is 4. *)
Definition MainMenuView_on_key_press (symbol : Key) (w : Window) (m : MainMenu)
    : Window * MainMenu * option Shown :=
  let '(w, selected, shown) :=
    match symbol with
    | DOWN =>
      let selected := (main_selected m + 1)%Z in
      (w, if (selected >=? 4)%Z then 0%Z else selected, None)
    | UP =>
      let selected := (main_selected m - 1)%Z in
      (w, if (selected <? 0)%Z then (4 - 1)%Z else selected, None)
    | ENTER =>
      if (main_selected m =? 0)%Z then (reset_game w, main_selected m, Some ShowLevel1)
      else if (main_selected m =? 1)%Z then (w, main_selected m, Some ShowHowToPlayView)
      else if (main_selected m =? 2)%Z then (w, main_selected m, Some ShowHighScoreView)
      else if (main_selected m =? 3)%Z
           then (w, main_selected m, Some ShowQuitGameConfirmationView)
      else (w, main_selected m, None)
    | _ => (w, main_selected m, None)
    end in
  (w, mkMainMenu selected 0, shown).

(** [PauseMenuView.on_key_press] on [self.selected]. *)
Definition PauseMenuView_on_key_press (symbol : Key) (selected : Z) : Z * option Shown :=
  match symbol with
  | ESCAPE => (selected, Some ShowLevel)
  | DOWN =>
    let selected := (selected + 1)%Z in
    (if (selected >=? 4)%Z then 0%Z else selected, None)
  | UP =>
    let selected := (selected - 1)%Z in
    (if (selected <? 0)%Z then (4 - 1)%Z else selected, None)
  | ENTER =>
    if (selected =? 0)%Z then (selected, Some ShowLevel)
    else if (selected =? 1)%Z then (selected, Some ShowNewGameConfirmationView)
    else if (selected =? 2)%Z then (selected, Some ShowHowToPlayView)
    else if (selected =? 3)%Z then (selected, Some ShowMainMenuConfirmationView)
    else (selected, None)
  | _ => (selected, None)
  end.

(** [ConfirmationDialogueView.__init__]: the dialogue opens on "No". *)
Definition ConfirmationDialogueView_init : Z := 1%Z.

(** [ConfirmationDialogueView.on_key_press] on [self.selected];
    [len(self.options)] is 2. *)
Definition ConfirmationDialogueView_on_key_press (symbol : Key) (selected : Z)
    : Z * option Shown :=
  match symbol with
  | RIGHT =>
    let selected := (selected + 1)%Z in
    (if (selected >=? 2)%Z then 0%Z else selected, None)
  | LEFT =>
    let selected := (selected - 1)%Z in
    (if (selected <? 0)%Z then (2 - 1)%Z else selected, None)
  | ENTER =>
    if (selected =? 0)%Z then (selected, Some YesCommand)
    else (selected, Some ShowPreviousView)
  | ESCAPE => (selected, Some ShowPreviousView)
  | _ => (selected, None)
  end.

(** ** Icons and bullets in flight (assets.py) *)

Definition ICON_SPEED : R := 100.

(** [Icon.on_update] on the icon at index [i] of the icon list;
    [collides] is [arcade]'s [collides_with_sprite].  The animation writes
    the texture only.  [remove_from_sprite_lists] takes the icon out of the
    icon list; a second call finds it in no list. *)
Definition Icon_on_update (assets : Assets) (collides : Sprite -> Sprite -> bool)
    (delta_time : R) (i : nat) (lv : Level) : Level :=
  match icon_list lv !! i with
  | None => lv
  | Some self =>
    let change_y := - ICON_SPEED in
    let self :=
      mkIcon (icon_type self)
             (set_center_y (center_y (icon_sprite self)
                            + IZR (int_of_float (change_y * delta_time)))
                           (icon_sprite self)) in
    let lv := set_icon_list (<[i := self]> (icon_list lv)) lv in
    let '(lv, in_list) :=
      if collides (icon_sprite self) (paddle_sprite (paddle lv)) then
        let lv := activate_icon_property assets (icon_type self) lv in
        (set_icon_list (delete i (icon_list lv)) lv, false)
      else (lv, true) in
    if Rltb (top (icon_sprite self)) (inner_bottom (boundary lv)) && in_list
    then set_icon_list (delete i (icon_list lv)) lv
    else lv
  end.

(** [Bullet.on_update] on the bullet at index [i] of the bullet list. *)
Definition Bullet_on_update (arcade : Collisions) (delta_time : R) (i : nat) (lv : Level)
    : Level :=
  match bullet_list lv !! i with
  | None => lv
  | Some self =>
    let change_y := BULLET_SPEED in
    let self :=
      set_center_y (center_y self + IZR (int_of_float (change_y * delta_time))) self in
    let lv := set_bullet_list (<[i := self]> (bullet_list lv)) lv in
    let hit_list := collides_with_list arcade self (bricks lv) (brick_list lv) in
    let '(lv, in_list) :=
      match hit_list with
      | [] => (lv, true)
      | _ :: _ =>
        let lv := set_bullet_list (delete i (bullet_list lv)) lv in
        (hit_all hit_list lv, false)
      end in
    if Rgtb (bottom self) (inner_top (boundary lv)) && in_list
    then set_bullet_list (delete i (bullet_list lv)) lv
    else lv
  end.

(** ** Predicates of the statements *)

Local Open Scope R_scope.

Definition speed_in_range (b : Ball) : Prop :=
  BALL_MIN_SPEED <= ball_speed b <= BALL_MAX_SPEED.

(** Between two stores of balls: every ball of the later store has its
    speed within the limits, or is a ball of the earlier store whose speed
    was not written. *)
Definition speeds_ok (before after : gmap nat Ball) : Prop :=
  forall id b', after !! id = Some b' ->
    speed_in_range b' \/ exists b, before !! id = Some b /\ ball_speed b' = ball_speed b.

Definition level_speeds_ok (before after : Level) : Prop :=
  speeds_ok (balls before) (balls after).

(** What the two sign tests of [change_speed] make of a recomputed
    component [v], given the component [old] the ball had before. *)
Definition restore_sign (old v : R) : R :=
  if (Rltb old 0 && Rgtb v 0) || (Rgtb old 0 && Rltb v 0) then v * -1 else v.

(** The velocity of the ball comes from its angle: a component is nonzero
    only where the cosine, respectively the sine, of [velocity_angle] is.
    [set_velocity] writes the components as the speed times the cosine and
    the sine, a bounce negates one of them, and the other writes of a
    component ([change_horizontal_velocity], [split_into_two], the magnetic
    balls) are made on balls at the 45 degrees of [Ball.__init__]. *)
Definition velocity_from_angle (cosd sind : R -> R) (b : Ball) : Prop :=
  (change_x b <> 0 -> cosd (velocity_angle b) <> 0)
  /\ (change_y b <> 0 -> sind (velocity_angle b) <> 0).

(** The speed [change_speed] hands to [set_velocity]. *)
Definition requested_speed (action : string) (b : Ball) : R :=
  if String.eqb action "increase" then ball_speed b + speed_increment
  else if String.eqb action "decrease" then ball_speed b - speed_decrement
  else ball_speed b.

(** The ball [convert_to] creates from the ball [b]. *)
Definition converted_ball (assets : Assets) (lv : Level) (b : Ball) (t : BallType) : Ball :=
  let ball := Ball_init assets (boundary lv) (has_level b) t in
  change_horizontal_velocity (paddle_sprite (paddle lv))
    (set_ball_sprite (set_position (ball_sprite b) (ball_sprite ball)) ball).

(** The attached balls the invincible-ball icon finds not yet invincible. *)
Definition not_yet_invincible (store : gmap nat Ball) (id : nat) : bool :=
  match store !! id with
  | Some b => negb (is_invincible b)
  | None => false
  end.

(** What holds of the level [s] all through the loop of the invincible-ball
    icon started on [lv]: the balls of [lv] are still in the store as they
    were, every conversion so far has created one ball and taken one charge
    back, has used up one attached ball that was not yet invincible, and
    every ball created is a [MagneticInviciBall] of the magnetic-ball list
    at the place of such a ball. *)
Definition upgrading (lv s : Level) : Prop :=
  balls lv ⊆ balls s
  /\ (invincible_balls (paddle s) + Z.of_nat (size (balls s))
      = invincible_balls (paddle lv) + 3 + Z.of_nat (size (balls lv)))%Z
  /\ (size (balls s)
        + length (List.filter (not_yet_invincible (balls lv)) (magnetic_ball_list (paddle s)))
      <= size (balls lv)
         + length (List.filter (not_yet_invincible (balls lv))
                               (magnetic_ball_list (paddle lv))))%nat
  /\ (forall y, y ∈ magnetic_ball_list (paddle s) ->
        y ∈ magnetic_ball_list (paddle lv) \/ balls lv !! y = None)
  /\ (forall new b', balls s !! new = Some b' -> balls lv !! new = None ->
        ball_type b' = MagneticInviciBall
        /\ new ∈ magnetic_ball_list (paddle s)
        /\ exists old b,
             old ∈ List.filter (not_yet_invincible (balls lv)) (magnetic_ball_list (paddle lv))
             /\ balls lv !! old = Some b
             /\ center_x (ball_sprite b') = center_x (ball_sprite b)
             /\ center_y (ball_sprite b') = center_y (ball_sprite b)).

(** The level as [on_update] has it when it reaches the test of
    [game_is_active]: the elapsed time advanced, the demo timeout seen to. *)
Definition tick_start (delta_time : R) (lv : Level) : Level :=
  let lv := set_elapsed_time (elapsed_time lv + delta_time) lv in
  if is_demo_level lv && Rgtb (elapsed_time lv) DEMO_LEVEL_TIME
  then show_view MainMenuView lv else lv.

(** What happens to a brick object from frame to frame: a ball or a bullet
    that overlaps it calls [change_properties] on it, or the brick list's
    [update] calls [Brick.update] with the collisions it finds. *)
Inductive BrickEvent :=
  | Hit
  | Update (ball_hits bullet_hits : list nat).

Definition brick_event (self : nat) (lv : Level) (e : BrickEvent) : Level :=
  match e with
  | Hit => Brick_change_properties self lv
  | Update ball_hits bullet_hits =>
    set_bricks (alter (Brick_update ball_hits bullet_hits) self (bricks lv)) lv
  end.

(** The events of one contiguous overlap: at every update some ball or
    bullet still overlaps the brick. *)
Definition still_overlapping (e : BrickEvent) : Prop :=
  match e with
  | Hit => True
  | Update ball_hits bullet_hits => ball_hits <> [] \/ bullet_hits <> []
  end.

(** Descending by score, the order of the high-score list. *)
Definition by_score_desc (e1 e2 : Entry) : Prop := (entry_score e2 <= entry_score e1)%Z.

(** The text holds a line break: a line feed or a carriage return. *)
Fixpoint has_newline (s : string) : bool :=
  match s with
  | EmptyString => false
  | String c s' => Ascii.eqb c carriage_return || Ascii.eqb c newline || has_newline s'
  end.

(** The ten entries of the file [create_high_scores] writes. *)
Definition seed_entries : list Entry :=
  [ mkEntry "Freddy" "5" 50000; mkEntry "BBB" "5" 45000;
    mkEntry "Freddy" "4" 40000; mkEntry "BBB" "4" 35000;
    mkEntry "Freddy" "3" 30000; mkEntry "BBB" "3" 25000;
    mkEntry "Freddy" "2" 20000; mkEntry "BBB" "2" 15000;
    mkEntry "Freddy" "1" 10000; mkEntry "BBB" "1" 5000 ].

(** ** Sample inputs *)

(** A paddle 200 wide whose left edge is at x = 0. *)
Definition sample_paddle_sprite : Sprite := mkSprite 100 55 200 20.

(** A ball moving right and down whose centre is [x] pixels from the left
    edge of [sample_paddle_sprite]. *)
Definition sample_ball_at (x : R) : Ball :=
  mkBall NormalBall true (mkSprite x 75 20 20) 45 600 400 (-400).

(** A cosine and a sine in degrees that, like the floating-point ones, give
    a small positive cosine at -90 degrees. *)
Definition sample_cosd (a : R) : R := if Reqb a (-90) then 1 / 2 ^ 54 else cos (radians a).
Definition sample_sind (a : R) : R := if Reqb a (-90) then -1 else sin (radians a).

(** The ball the shorten-paddle icon drops, as [sample_cosd] and
    [sample_sind] make it: straight down, with a trace of rightward
    speed. *)
Definition sample_dropped_ball : Ball :=
  set_velocity_with sample_cosd sample_sind
    (mkBall NormalBall true (mkSprite 300 75 20 20) (-90) 200 0 0).

(** Balls 20 by 20; paddles 20 high and 100, 200 or 300 wide. *)
Definition sample_assets : Assets :=
  mkAssets (fun _ => (20, 20))
           (fun t =>
              if isinstance_ShortPaddle t then (100, 20)
              else if isinstance_LongPaddle t then (300, 20)
              else (200, 20)).

(** A level in play on the playing field: three lives, no score, no
    sprites yet, a normal paddle at its starting place. *)
Definition sample_level : Level :=
  mkLevel (mkWindow 0 3 1 0 LevelView) false PlayingFieldBoundary
          ∅ [] [] ∅ [] [] []
          (Paddle_init sample_assets PlayingFieldBoundary NormalPaddle)
          false false true false false false false false
          0%Z "" 0 0.

(** A ball of the given class resting on the paddle at [x]. *)
Definition sample_attached_ball (t : BallType) (x : R) : Ball :=
  mkBall t true (mkSprite x 75 20 20) 45 BALL_MIN_SPEED 0 0.

(** [sample_level] with a magnetic paddle that holds two normal magnetic
    balls, objects 0 and 1. *)
Definition sample_level_two_attached : Level :=
  set_paddle
    (set_magnetic_ball_list [0; 1]%nat (set_is_magnetic true (paddle sample_level)))
    (set_ball_list [0; 1]%nat
       (set_balls
          (<[0%nat := sample_attached_ball MagneticNormalBall 560]>
             (<[1%nat := sample_attached_ball MagneticNormalBall 590]> ∅))
          sample_level)).

(** [sample_level] with a magnetic paddle that holds one normal magnetic
    ball, object 0. *)
Definition sample_level_one_attached : Level :=
  set_paddle
    (set_magnetic_ball_list [0%nat] (set_is_magnetic true (paddle sample_level)))
    (set_ball_list [0%nat]
       (set_balls (<[0%nat := sample_attached_ball MagneticNormalBall 560]> ∅) sample_level)).

(** [sample_level] with two invincibility charges left and an invincible
    ball, object 0, that has just come down on the paddle top. *)
Definition sample_level_invincible_landing : Level :=
  set_paddle
    (set_invincible_balls 2 (paddle sample_level))
    (set_ball_list [0%nat]
       (set_balls
          (<[0%nat := mkBall InvinciBall true (mkSprite 560 75 20 20) 300 600 300 (-520)]> ∅)
          sample_level)).

(** Sprite updates of a tick in which the last breakable brick breaks and
    the last ball falls out. *)
Definition sample_last_brick_and_ball_gone (lv : Level) : Level :=
  set_ball_list [] (set_breakable_brick_list [] lv).

(** [sample_level] with one red brick, object 0: breakable, one texture,
    worth 100. *)
Definition sample_red_brick : Brick :=
  mkBrick (mkSprite 74.5 814.5 75 25) true false false 100 "" None 0
          ["images/bricks/red_brick.png"%string].

Definition sample_level_one_brick : Level :=
  set_breakable_brick_list [0%nat]
    (set_brick_list [0%nat]
       (set_bricks (<[0%nat := sample_red_brick]> ∅) sample_level)).



(** [sample_level] after a safety-barrier icon: the barrier is brick 0. *)
Definition sample_level_barrier : Level := SafetyBarrierIcon_activate sample_level.

(** An invincible ball of the level moving right and down. *)
Definition sample_invincible_ball : Ball :=
  mkBall InvinciBall true (mkSprite 300 45 20 20) 300 600 400 (-450).

(** [sample_level] with a red brick, object 0, and an unbreakable brick,
    object 1. *)
Definition sample_unbreakable_brick : Brick :=
  mkBrick (mkSprite 151.5 814.5 75 25) false false false 0 "" None 0
          ["images/bricks/unbreakable_brick.png"%string].

Definition sample_level_two_bricks : Level :=
  set_breakable_brick_list [0%nat]
    (set_brick_list [0; 1]%nat
       (set_bricks (<[0%nat := sample_red_brick]> (<[1%nat := sample_unbreakable_brick]> ∅))
          sample_level)).

(** A clock that always reads the same. *)
Definition sample_asctime (i : Z) : string := "Wed Nov  4 09:43:00 2026".

(** A high-score file with three data rows. *)
Definition sample_high_scores_text : string :=
  ("name,level,score,datetime" ++ String newline "")
  ++ ("Ann,2,700,Mon Jan  1 10:00:00 2024" ++ String newline "")
  ++ ("Bob,5,12000,Mon Jan  1 11:00:00 2024" ++ String newline "")
  ++ ("Cy,3,700,Mon Jan  1 12:00:00 2024" ++ String newline "").

(** ** Predicates of the further statements *)

Local Open Scope R_scope.

(** The sprite lies between the side walls of the boundary. *)
Definition between_side_walls (bd : Boundary) (s : Sprite) : Prop :=
  inner_left bd <= left s /\ right s <= inner_right bd.

(** The sprite lies between the floor and the ceiling of the boundary. *)
Definition between_floor_and_ceiling (bd : Boundary) (s : Sprite) : Prop :=
  inner_bottom bd <= bottom s /\ top s <= inner_top bd.

(** The magnetic ball is held in place because the paddle is pressed
    against a wall: the test of [MagneticNormalBall.on_update]. *)
Definition paddle_pinned (lv : Level) : bool :=
  (Reqb (left (paddle_sprite (paddle lv))) (inner_left (boundary lv)) && left_pressed lv)
  || (Reqb (right (paddle_sprite (paddle lv))) (inner_right (boundary lv)) && right_pressed lv).

(** A sprite shifted sideways by [d]. *)
Definition shifted (d : R) (s : Sprite) : Sprite := set_center_x (center_x s + d) s.

(** ** Further sample inputs *)

(** [sample_level] with one free ball, object 0, whose sprite is [s]. *)
Definition sample_level_with_ball (s : Sprite) : Level :=
  set_ball_list [0%nat]
    (set_balls (<[0%nat := mkBall NormalBall true s 315 600 400 (-400)]> ∅) sample_level).

(** [sample_level] with the left arrow key held down. *)
Definition sample_level_left_pressed : Level :=
  mkLevel (window sample_level) false PlayingFieldBoundary
          ∅ [] [] ∅ [] [] []
          (paddle sample_level)
          false false true false false false true false
          0%Z "" 0 0.

(** [sample_level_left_pressed] with a magnetic paddle that holds the
    normal magnetic ball 0. *)
Definition sample_level_dragging : Level :=
  set_paddle
    (set_magnetic_ball_list [0%nat] (set_is_magnetic true (paddle sample_level_left_pressed)))
    (set_ball_list [0%nat]
       (set_balls (<[0%nat := sample_attached_ball MagneticNormalBall 560]> ∅)
                  sample_level_left_pressed)).

(** What [arcade] answers when nothing touches anything. *)
Definition no_contact : Collisions := mkCollisions (fun _ _ _ => []) (fun _ _ => false).

(** A ball without a level, as the menu screens have them, object 0 of
    [sample_level]. *)
Definition sample_menu_ball : Ball :=
  mkBall NormalBall false (mkSprite 300 400 20 20) 315 600 400 (-400).

Definition sample_level_menu_ball : Level :=
  set_ball_list [0%nat] (set_balls (<[0%nat := sample_menu_ball]> ∅) sample_level).

(** A hit of the brick [self] after which nothing stays on the brick:
    [change_properties], then an [update] that finds no ball and no
    bullet. *)
Definition separated_hit (self : nat) (lv : Level) : Level :=
  brick_event self (brick_event self lv Hit) (Update [] []).

(** The number of separated hits a brick takes. *)
Definition stages (k : Brick) : Z :=
  Z.max 1 (Z.of_nat (length (textures k)) - cur_texture_index k).

(** A brick a hit acts on: breakable and not latched. *)
Definition live (k : Brick) : bool := is_breakable k && negb (has_been_hit k).

(** The bricks of a hit list. *)
Definition bricks_of (store : gmap nat Brick) (hit_list : list nat) : list Brick :=
  omap (fun id => store !! id) hit_list.

(** A pink brick: two textures, worth 200 per hit, holding an icon. *)
Definition sample_pink_brick : Brick :=
  mkBrick (mkSprite 74.5 814.5 75 25) true false false 200 ""
          (Some (mkIcon SplitBallIcon (mkSprite 74.5 814.5 40 40))) 0
          ["images/bricks/pink_brick_1.png"%string; "images/bricks/pink_brick_2.png"%string].

(** A brick with the bonus letter B, worth 100. *)
Definition sample_bonus_B_brick : Brick :=
  mkBrick (mkSprite 151.5 814.5 75 25) true false false 100 "B" None 0
          ["images/bricks/bonus_b_brick.png"%string].

Definition sample_level_pink_and_B : Level :=
  set_breakable_brick_list [0; 1]%nat
    (set_brick_list [0; 1]%nat
       (set_bricks (<[0%nat := sample_pink_brick]> (<[1%nat := sample_bonus_B_brick]> ∅))
          sample_level)).

(** [sample_level] with a score of 20 of which nothing is shown yet. *)
Definition sample_level_score_20 : Level :=
  set_window (mkWindow 20 3 1 0 LevelView) sample_level.

(** [sample_level] completed three and a half seconds ago: three lives,
    hence a bonus of 300. *)
Definition sample_level_completed : Level :=
  set_elapsed_time 3.5 (level_is_complete sample_level).

(** [lv'] with the balls of [lv] put back: the store of balls, the ball
    list, and the split charges and the list of attached balls of the
    paddle.  [with_balls_of lv lv' = lv] says that [lv'] differs from [lv]
    in nothing else. *)
Definition with_balls_of (lv lv' : Level) : Level :=
  set_ball_list (ball_list lv)
    (set_balls (balls lv)
       (set_paddle
          (set_magnetic_ball_list (magnetic_ball_list (paddle lv))
             (set_split_balls (split_balls (paddle lv)) (paddle lv')))
          lv')).

(** The level after the key [k] is pressed. *)
Definition press (assets : Assets) (bullet_size : R * R) (k : Key) (lv : Level) : Level :=
  fst (Level_on_key_press assets bullet_size k lv).

(** [sample_level] with the shooter active. *)
Definition sample_level_shooter : Level :=
  set_paddle (set_activate_shooter true (paddle sample_level)) sample_level.

(** The value of the digits of [u] read after [acc], most significant
    first, as [digits] accumulates it. *)
Fixpoint uint_value (acc : Z) (u : Decimal.uint) : Z :=
  match u with
  | Decimal.Nil => acc
  | Decimal.D0 u => uint_value (acc * 10 + 0) u
  | Decimal.D1 u => uint_value (acc * 10 + 1) u
  | Decimal.D2 u => uint_value (acc * 10 + 2) u
  | Decimal.D3 u => uint_value (acc * 10 + 3) u
  | Decimal.D4 u => uint_value (acc * 10 + 4) u
  | Decimal.D5 u => uint_value (acc * 10 + 5) u
  | Decimal.D6 u => uint_value (acc * 10 + 6) u
  | Decimal.D7 u => uint_value (acc * 10 + 7) u
  | Decimal.D8 u => uint_value (acc * 10 + 8) u
  | Decimal.D9 u => uint_value (acc * 10 + 9) u
  end.

(** No character of the string is white space. *)
Fixpoint spaceless (s : string) : bool :=
  match s with
  | EmptyString => true
  | String c s' => negb (is_space c) && spaceless s'
  end.

Fixpoint has_comma (s : string) : bool :=
  match s with
  | EmptyString => false
  | String c s' => Ascii.eqb c "," || has_comma s'
  end.

(** The text is empty or its last character is a line break: what is
    appended starts a line of its own. *)
Fixpoint ends_lines (s : string) : bool :=
  match s with
  | EmptyString => true
  | String c EmptyString => Ascii.eqb c newline
  | String _ s' => ends_lines s'
  end.

(** The window at the end of a game of 900 points that ended in level 4. *)
Definition sample_window_900 : Window := mkWindow 900 0 4 900 LevelView.

(** The list [l'] holds what [l] holds, with [old] taken out and [new] put
    in. *)
Definition replaced_in (old new : nat) (l l' : list nat) : Prop :=
  forall i, i ∈ l' <-> (i ∈ l /\ i <> old) \/ i = new.

(** Every ball of the ball list is an object of the store. *)
Definition balls_in_store (lv : Level) : Prop :=
  forall i, i ∈ ball_list lv -> is_Some (balls lv !! i).

(** [sample_level] with a magnetic paddle and a free ball, object 0, that
    has just come down on the paddle top. *)
Definition sample_level_magnetic_landing : Level :=
  set_paddle (set_is_magnetic true (paddle sample_level))
    (set_ball_list [0%nat]
       (set_balls (<[0%nat := mkBall NormalBall true (mkSprite 560 75 20 20) 300 600 300 (-520)]> ∅)
          sample_level)).

(** The body of the loop of [release_magnetic_balls]. *)
Definition release_one (assets : Assets) (lv : Level) (ball : nat) : Level :=
  match balls lv !! ball with
  | None => lv
  | Some b =>
    let '(new_ball, lv1) :=
      if is_invincible b then convert_to assets ball InvinciBall lv
      else convert_to assets ball NormalBall lv in
    let lv2 := Ball_change_velocity new_ball lv1 in
    if (split_balls (paddle lv2) >? 0)%Z then split_into_two assets new_ball lv2 else lv2
  end.

(** [b'] is a free ball in the place of the attached ball [b]: not
    magnetic, invincible when [b] is, where [b] is, with a speed within the
    limits. *)
Definition free_ball_of (b b' : Ball) : Prop :=
  ball_type b' = (if is_invincible b then InvinciBall else NormalBall)
  /\ center_x (ball_sprite b') = center_x (ball_sprite b)
  /\ center_y (ball_sprite b') = center_y (ball_sprite b)
  /\ speed_in_range b'.

(** The three sizes of paddle, demo or not. *)
Definition size_rank (t : PaddleType) : Z :=
  match t with
  | ShortPaddle | DemoShortPaddle => 0
  | NormalPaddle | DemoNormalPaddle => 1
  | LongPaddle | DemoLongPaddle => 2
  end.

Definition is_demo_paddle (t : PaddleType) : bool :=
  match t with
  | DemoNormalPaddle | DemoLongPaddle | DemoShortPaddle => true
  | _ => false
  end.

(** The power-ups a paddle carries. *)
Definition same_power_ups (p p' : Paddle) : Prop :=
  is_magnetic p' = is_magnetic p
  /\ activate_shooter p' = activate_shooter p
  /\ invincible_balls p' = invincible_balls p
  /\ split_balls p' = split_balls p.

(** [sample_level] with a long paddle that has the shooter and two split
    charges. *)
Definition sample_level_long_paddle : Level :=
  set_paddle
    (set_split_balls 2
       (set_activate_shooter true (Paddle_init sample_assets PlayingFieldBoundary LongPaddle)))
    sample_level.

(** The brick lists and the store of bricks agree: the brick list holds
    every brick object once, the list of breakable bricks holds the
    breakable ones once. *)
Definition bricks_well_formed (lv : Level) : Prop :=
  NoDup (brick_list lv)
  /\ NoDup (breakable_brick_list lv)
  /\ (forall i, i ∈ brick_list lv <-> is_Some (bricks lv !! i))
  /\ (forall i, i ∈ breakable_brick_list lv <->
        exists k, bricks lv !! i = Some k /\ is_breakable k = true).

(** [lv'] with the bricks of [lv] put back: [with_bricks_of lv lv' = lv]
    says that [lv'] differs from [lv] in its bricks only. *)
Definition with_bricks_of (lv lv' : Level) : Level :=
  set_breakable_brick_list (breakable_brick_list lv)
    (set_brick_list (brick_list lv) (set_bricks (bricks lv) lv')).

(** The cells of a grid that hold a brick, row by row. *)
Definition cells (grid : list (list (option Brick))) : list Brick :=
  omap (fun cell => cell) (concat grid).

(** What [random.sample] promises: [k] distinct elements of the
    population. *)
Definition samples_without_replacement (random_sample : list nat -> nat -> list nat) : Prop :=
  forall population k,
    NoDup population -> (k <= length population)%nat ->
    length (random_sample population k) = k
    /\ NoDup (random_sample population k)
    /\ forall i, i ∈ random_sample population k -> i ∈ population.

(** Two sprites that do not overlap: one lies beside or above the other. *)
Definition apart (s1 s2 : Sprite) : Prop :=
  right s1 <= left s2 \/ right s2 <= left s1 \/ top s1 <= bottom s2 \/ top s2 <= bottom s1.

(** The brick [place_brick] puts into the store. *)
Definition placed (row_number column_number : nat) (BrickType : Brick) (lv : Level)
    : option Brick :=
  bricks (place_brick row_number column_number BrickType lv) !! new_brick_id lv.

(** No brick of the store holds an icon. *)
Definition no_icons (store : gmap nat Brick) : Prop :=
  forall i k, store !! i = Some k -> icon k = None.

(** What placing the bricks [placed_cells] makes of the level [lv]. *)
Definition grid_placed (placed_cells : list Brick) (lv lv' : Level) : Prop :=
  bricks_well_formed lv'
  /\ with_bricks_of lv lv' = lv
  /\ length (brick_list lv') = (length (brick_list lv) + length placed_cells)%nat
  /\ length (breakable_brick_list lv')
     = (length (breakable_brick_list lv) + length (List.filter is_breakable placed_cells))%nat
  /\ (no_icons (bricks lv) -> Forall (fun k => icon k = None) placed_cells ->
      no_icons (bricks lv')).

(** Sizes of the icon images, all 40 by 40. *)
Definition sample_icon_size (t : IconType) : R * R := (40, 40).

(** A [random.sample] that takes the first [k] bricks. *)
Definition sample_first (population : list nat) (k : nat) : list nat := take k population.

(** A grid of one row: a red brick, an empty cell, an unbreakable brick. *)
Definition sample_grid : list (list (option Brick)) :=
  [[Some (mkBrick (mkSprite 0 0 75 25) true false false 100 "" None 0
                  ["images/bricks/red_brick.png"%string]);
    None;
    Some (mkBrick (mkSprite 0 0 75 25) false false false 0 "" None 0
                  ["images/bricks/unbreakable_brick.png"%string])]].

(** The brick image fits a cell of the grid. *)
Definition fits_a_cell (k : Brick) : Prop :=
  0 <= width (brick_sprite k) <= BRICK_WIDTH /\ 0 <= height (brick_sprite k) <= BRICK_HEIGHT.

(** The selection of the pause menu after the keys [keys]. *)
Definition pause_menu_after (keys : list Key) (selected : Z) : Z :=
  foldl (fun selected symbol => (PauseMenuView_on_key_press symbol selected).1) selected keys.

(** The main menu after the keys [keys]. *)
Definition main_menu_after (keys : list Key) (w : Window) (m : MainMenu) : MainMenu :=
  foldl (fun m symbol => (MainMenuView_on_key_press symbol w m).1.2) m keys.

(** The selection of a confirmation dialogue after the keys [keys]. *)
Definition dialogue_after (keys : list Key) (selected : Z) : Z :=
  foldl (fun selected symbol => (ConfirmationDialogueView_on_key_press symbol selected).1)
        selected keys.

(** A key that moves the selection of a confirmation dialogue. *)
Definition scrolls (symbol : Key) : bool :=
  match symbol with
  | LEFT | RIGHT => true
  | _ => false
  end.

(** [sample_level_one_brick] with one bullet in flight at the given
    height. *)
Definition sample_level_bullet (y : R) : Level :=
  set_bullet_list [mkSprite 575 y 7 14] sample_level_one_brick.

(** [arcade] finding the bullet on brick 0. *)
Definition bullet_on_brick_0 : Collisions :=
  mkCollisions (fun _ _ _ => [0%nat]) (fun _ _ => false).

(** [sample_level] with a falling bonus-score icon at the given height. *)
Definition sample_level_icon (y : R) : Level :=
  set_icon_list [mkIcon BonusScoreIcon (mkSprite 575 y 40 40)] sample_level.

(** The velocity of the ball comes from its angle, with the cosine and the
    sine of the real numbers, and a magnetic ball is at the 45 degrees it
    was created with. *)
Definition on_angle (b : Ball) : Prop :=
  velocity_from_angle (fun a => cos (radians a)) (fun a => sin (radians a)) b
  /\ (type_is_magnetic (ball_type b) = true -> velocity_angle b = 45).



(** * Properties *)

Local Open Scope R_scope.

(** ** Comparisons *)

Lemma Rltb_true x y : Rltb x y = true <-> x < y.
Proof. unfold Rltb. destruct (Rlt_dec x y); split; intros; try lra; congruence. Qed.

Lemma Rltb_false x y : Rltb x y = false <-> ~ x < y.
Proof. unfold Rltb. destruct (Rlt_dec x y); split; intros; try lra; congruence. Qed.

Lemma Rleb_true x y : Rleb x y = true <-> x <= y.
Proof. unfold Rleb. destruct (Rle_dec x y); split; intros; try lra; congruence. Qed.

Lemma Rleb_false x y : Rleb x y = false <-> ~ x <= y.
Proof. unfold Rleb. destruct (Rle_dec x y); split; intros; try lra; congruence. Qed.

Lemma Rgtb_true x y : Rgtb x y = true <-> x > y.
Proof. unfold Rgtb. rewrite Rltb_true. lra. Qed.

Lemma Rgtb_false x y : Rgtb x y = false <-> ~ x > y.
Proof. unfold Rgtb. rewrite Rltb_false. lra. Qed.

(** Decides every comparison of the goal, keeping the outcome as a
    hypothesis for [lra]. *)
Ltac cases_R :=
  repeat match goal with
  | |- context [Rltb ?x ?y] =>
    let H := fresh "C" in
    destruct (Rltb x y) eqn:H;
    [apply Rltb_true in H | apply Rltb_false in H]
  | |- context [Rgtb ?x ?y] =>
    let H := fresh "C" in
    destruct (Rgtb x y) eqn:H;
    [apply Rgtb_true in H | apply Rgtb_false in H]
  | |- context [Rleb ?x ?y] =>
    let H := fresh "C" in
    destruct (Rleb x y) eqn:H;
    [apply Rleb_true in H | apply Rleb_false in H]
  end.

Lemma sgn_neg x : x < 0 -> sgn x = (-1)%Z.
Proof. intros H. unfold sgn. destruct (Rlt_dec x 0); [reflexivity | lra]. Qed.

Lemma sgn_pos x : 0 < x -> sgn x = 1%Z.
Proof.
  intros H. unfold sgn. destruct (Rlt_dec x 0); [lra |].
  destruct (Rlt_dec 0 x); [reflexivity | lra].
Qed.

Lemma sgn_zero : sgn 0 = 0%Z.
Proof.
  unfold sgn. destruct (Rlt_dec 0 0); [lra |]. destruct (Rlt_dec 0 0); [lra | reflexivity].
Qed.

(** ** The speed clamp *)

Lemma clamp_speed_range v : BALL_MIN_SPEED <= clamp_speed v <= BALL_MAX_SPEED.
Proof. unfold clamp_speed, BALL_MAX_SPEED, BALL_MIN_SPEED. cases_R; simpl; lra. Qed.

Lemma clamp_speed_id v :
  BALL_MIN_SPEED <= v <= BALL_MAX_SPEED -> clamp_speed v = v.
Proof.
  unfold clamp_speed, BALL_MAX_SPEED, BALL_MIN_SPEED. intros H. cases_R; simpl; lra.
Qed.

Lemma clamp_speed_pos v : 0 < clamp_speed v.
Proof. pose proof (clamp_speed_range v) as H. unfold BALL_MIN_SPEED in H. lra. Qed.

Lemma set_velocity_speed b : ball_speed (set_velocity b) = clamp_speed (ball_speed b).
Proof. reflexivity. Qed.

Lemma set_velocity_in_range b : speed_in_range (set_velocity b).
Proof. unfold speed_in_range. rewrite set_velocity_speed. apply clamp_speed_range. Qed.

(** ** The bounce off the paddle top *)

Lemma change_velocity_speed paddle b :
  ball_speed (change_velocity paddle b)
  = clamp_speed (ball_speed (change_velocity_unclamped paddle b)).
Proof. reflexivity. Qed.

Lemma change_velocity_angle paddle b :
  velocity_angle (change_velocity paddle b)
  = velocity_angle (change_velocity_unclamped paddle b).
Proof. reflexivity. Qed.

(** The source's middle zone is 20 wide: it reaches 10 to each side of the
    paddle centre. *)
Lemma change_velocity_left_zone paddle b :
  let d := center_x (ball_sprite b) - left paddle in
  d < width paddle / 2 - 10 ->
  velocity_angle (change_velocity_unclamped paddle b) = 180 - Rmin (25 + d) 70
  /\ ball_speed (change_velocity_unclamped paddle b) = ball_speed b + (40 - d).
Proof.
  intros d Hd. unfold change_velocity_unclamped. fold d.
  destruct (Rltb d (width paddle / 2 - 20 / 2)) eqn:Hz.
  - simpl. split; [| reflexivity].
    unfold Rmin. destruct (Rle_dec (25 + d) 70); cases_R; lra.
  - apply Rltb_false in Hz. lra.
Qed.

Lemma change_velocity_middle_zone paddle b :
  let d := center_x (ball_sprite b) - left paddle in
  width paddle / 2 - 10 <= d <= width paddle / 2 + 10 ->
  velocity_angle (change_velocity_unclamped paddle b)
    = (if Rgtb (change_x b) 0 then 55 else 125)
  /\ ball_speed (change_velocity_unclamped paddle b) = ball_speed b - 20.
Proof.
  intros d Hd. unfold change_velocity_unclamped. fold d.
  destruct (Rltb d (width paddle / 2 - 20 / 2)) eqn:Hz.
  - apply Rltb_true in Hz. lra.
  - destruct (Rleb (width paddle / 2 - 20 / 2) d) eqn:H1.
    + destruct (Rleb d (width paddle / 2 + 20 / 2)) eqn:H2.
      * simpl. split; [| reflexivity]. destruct (Rgtb (change_x b) 0); lra.
      * apply Rleb_false in H2. lra.
    + apply Rleb_false in H1. lra.
Qed.

Lemma change_velocity_right_zone paddle b :
  let d := center_x (ball_sprite b) - left paddle in
  width paddle / 2 + 10 < d ->
  velocity_angle (change_velocity_unclamped paddle b) = Rmin (width paddle - d + 25) 70
  /\ ball_speed (change_velocity_unclamped paddle b) = ball_speed b + (d - width paddle + 40).
Proof.
  intros d Hd. unfold change_velocity_unclamped. fold d.
  destruct (Rltb d (width paddle / 2 - 20 / 2)) eqn:Hz.
  - apply Rltb_true in Hz. lra.
  - destruct (Rleb (width paddle / 2 - 20 / 2) d) eqn:H1.
    + destruct (Rleb d (width paddle / 2 + 20 / 2)) eqn:H2.
      * apply Rleb_true in H2. lra.
      * simpl. split; [| reflexivity].
        unfold Rmin. destruct (Rle_dec (width paddle - d + 25) 70); cases_R; lra.
    + simpl. split; [| reflexivity].
      unfold Rmin. destruct (Rle_dec (width paddle - d + 25) 70); cases_R; lra.
Qed.

(** C1, as the spec words it, fails.  With [m = 10] the test [d < W/2 - m/2]
    puts the left zone's edge at [W/2 - 5].  On a paddle 200 wide a ball at
    [d = 92] would then be a left-zone hit, leaving at [180 - min(25 + 92, 70)
    = 110] degrees with the speed changed by [40 - 92].  The source gives the
    middle zone the width 20, so [d = 92] lies in it: the ball, moving right,
    leaves at 55 degrees and loses 20. *)
Lemma change_velocity_m10_counterexample :
  let paddle := sample_paddle_sprite in
  let b := sample_ball_at 92 in
  let d := center_x (ball_sprite b) - left paddle in
  let m := 10 in
  d < width paddle / 2 - m / 2
  /\ velocity_angle (change_velocity paddle b) = 55
  /\ velocity_angle (change_velocity paddle b) <> 180 - Rmin (25 + d) 70
  /\ ball_speed (change_velocity_unclamped paddle b) = ball_speed b - 20
  /\ ball_speed (change_velocity_unclamped paddle b) <> ball_speed b + (40 - d).
Proof.
  assert (Hd : center_x (ball_sprite (sample_ball_at 92)) - left sample_paddle_sprite = 92).
  { unfold left. simpl. lra. }
  assert (Hz : width sample_paddle_sprite / 2 - 10
               <= center_x (ball_sprite (sample_ball_at 92)) - left sample_paddle_sprite
               <= width sample_paddle_sprite / 2 + 10).
  { rewrite Hd. simpl. lra. }
  destruct (change_velocity_middle_zone sample_paddle_sprite (sample_ball_at 92) Hz)
    as [Ha Hs].
  assert (Hx : Rgtb (change_x (sample_ball_at 92)) 0 = true).
  { apply Rgtb_true. simpl. lra. }
  rewrite Hx in Ha.
  cbv zeta. rewrite change_velocity_angle, Ha, Hs, Hd.
  assert (Hm : Rmin (25 + 92) 70 = 70).
  { unfold Rmin. destruct (Rle_dec (25 + 92) 70); lra. }
  rewrite Hm. simpl. repeat split; lra.
Qed.

(** C1, amended: the middle zone is [middle = 20] wide, that is 10 to each
    side of the paddle centre.  With [d = ball.center_x - paddle.left] and
    [W = paddle.width]: if [d < W/2 - 10] the new angle is
    [180 - min(25 + d, 70)] and the speed grows by [40 - d]; if
    [W/2 - 10 <= d <= W/2 + 10] the new angle is 55 when the ball moves right
    ([change_x > 0]) and 125 otherwise, and the speed drops by 20.  The
    speed stored by [change_velocity] is that value clamped. *)
Theorem change_velocity_zones (paddle : Sprite) (b : Ball) :
  let d := center_x (ball_sprite b) - left paddle in
  let W := width paddle in
  (d < W / 2 - 10 ->
     velocity_angle (change_velocity paddle b) = 180 - Rmin (25 + d) 70
     /\ ball_speed (change_velocity_unclamped paddle b) = ball_speed b + (40 - d)
     /\ ball_speed (change_velocity paddle b) = clamp_speed (ball_speed b + (40 - d)))
  /\ (W / 2 - 10 <= d <= W / 2 + 10 ->
     velocity_angle (change_velocity paddle b) = (if Rgtb (change_x b) 0 then 55 else 125)
     /\ ball_speed (change_velocity_unclamped paddle b) = ball_speed b - 20
     /\ ball_speed (change_velocity paddle b) = clamp_speed (ball_speed b - 20)).
Proof.
  intros d W. split; intros Hd.
  - destruct (change_velocity_left_zone paddle b Hd) as [Ha Hs].
    rewrite change_velocity_angle, change_velocity_speed, Ha, Hs. auto.
  - destruct (change_velocity_middle_zone paddle b Hd) as [Ha Hs].
    rewrite change_velocity_angle, change_velocity_speed, Ha, Hs. auto.
Qed.

(** The two worked cases of the spec: a hit at [d = 5] on a paddle 200 wide
    leaves at 150 degrees and gains 35; a hit on the paddle centre by a ball
    moving right leaves at 55 degrees and loses 20. *)
Lemma change_velocity_zones_witness :
  (velocity_angle (change_velocity sample_paddle_sprite (sample_ball_at 5)) = 150
   /\ ball_speed (change_velocity sample_paddle_sprite (sample_ball_at 5)) = 635)
  /\ (velocity_angle (change_velocity sample_paddle_sprite (sample_ball_at 100)) = 55
      /\ ball_speed (change_velocity sample_paddle_sprite (sample_ball_at 100)) = 580).
Proof.
  split.
  - destruct (change_velocity_zones sample_paddle_sprite (sample_ball_at 5)) as [Hl _].
    destruct Hl as (Ha & _ & Hs).
    { unfold left. simpl. lra. }
    rewrite Ha, Hs. unfold left. simpl. split.
    + unfold Rmin. destruct (Rle_dec (25 + (5 - (100 - 200 / 2))) 70); lra.
    + rewrite clamp_speed_id; unfold BALL_MAX_SPEED, BALL_MIN_SPEED; lra.
  - destruct (change_velocity_zones sample_paddle_sprite (sample_ball_at 100)) as [_ Hm].
    destruct Hm as (Ha & _ & Hs).
    { unfold left. simpl. lra. }
    rewrite Ha, Hs. simpl. split.
    + assert (Hx : Rgtb 400 0 = true) by (apply Rgtb_true; lra). rewrite Hx. reflexivity.
    + rewrite clamp_speed_id; unfold BALL_MAX_SPEED, BALL_MIN_SPEED; lra.
Defined.

(** ** Speed changes by the icons *)

Lemma change_speed_with_speed cosd sind action b :
  ball_speed (change_speed_with cosd sind action b) = clamp_speed (requested_speed action b).
Proof.
  unfold change_speed_with, requested_speed.
  destruct (String.eqb action "increase"); [| destruct (String.eqb action "decrease")];
    repeat match goal with
    | |- context [if ?c then _ else _] => destruct c
    end; reflexivity.
Qed.

Lemma change_speed_with_angle cosd sind action b :
  velocity_angle (change_speed_with cosd sind action b) = velocity_angle b.
Proof.
  unfold change_speed_with.
  destruct (String.eqb action "increase"); [| destruct (String.eqb action "decrease")];
    repeat match goal with
    | |- context [if ?c then _ else _] => destruct c
    end; reflexivity.
Qed.

Lemma change_speed_with_change_x cosd sind action b :
  change_x (change_speed_with cosd sind action b)
  = restore_sign (change_x b)
      (clamp_speed (requested_speed action b) * cosd (velocity_angle b)).
Proof.
  unfold change_speed_with, requested_speed, restore_sign, Rgtb.
  destruct (String.eqb action "increase"); [| destruct (String.eqb action "decrease")];
    simpl;
    repeat match goal with
    | |- context [Rltb ?x ?y] => destruct (Rltb x y); simpl
    end; reflexivity.
Qed.

Lemma change_speed_with_change_y cosd sind action b :
  change_y (change_speed_with cosd sind action b)
  = restore_sign (change_y b)
      (clamp_speed (requested_speed action b) * sind (velocity_angle b)).
Proof.
  unfold change_speed_with, requested_speed, restore_sign, Rgtb.
  destruct (String.eqb action "increase"); [| destruct (String.eqb action "decrease")];
    cbv zeta;
    match goal with
    | |- context [if ?c then set_change_x _ _ else _] => destruct c
    end; simpl;
    repeat match goal with
    | |- context [Rltb ?x ?y] => destruct (Rltb x y); simpl
    end; reflexivity.
Qed.

Lemma change_speed_speed action b :
  ball_speed (change_speed action b) = clamp_speed (requested_speed action b).
Proof. apply change_speed_with_speed. Qed.

Lemma change_speed_angle action b :
  velocity_angle (change_speed action b) = velocity_angle b.
Proof. apply change_speed_with_angle. Qed.

Lemma restore_sign_sgn old v : old <> 0 -> v <> 0 -> sgn (restore_sign old v) = sgn old.
Proof.
  intros Ho Hv. unfold restore_sign. cases_R; simpl.
  all: destruct (Rtotal_order old 0) as [Hlt | [Heq | Hgt]]; try lra.
  all: destruct (Rtotal_order v 0) as [Hlt' | [Heq' | Hgt']]; try lra.
  all: try (rewrite !sgn_neg by lra; reflexivity).
  all: try (rewrite !sgn_pos by lra; reflexivity).
Qed.

Lemma restore_sign_nonzero old v : restore_sign old v <> 0 -> v <> 0.
Proof. unfold restore_sign. intros H Hv. apply H. rewrite Hv. cases_R; simpl; lra. Qed.

(** *** Where the velocity comes from the angle *)

(** [set_velocity] establishes it, whatever the ball was. *)
Lemma set_velocity_with_from_angle cosd sind b :
  velocity_from_angle cosd sind (set_velocity_with cosd sind b).
Proof.
  split; simpl; intros H Hz; apply H; rewrite Hz; apply Rmult_0_r.
Qed.



(** At an angle whose cosine and sine are not 0, as the 45 degrees of
    [Ball.__init__], any components will do. *)
Lemma free_angle_from_angle cosd sind b :
  cosd (velocity_angle b) <> 0 -> sind (velocity_angle b) <> 0 ->
  velocity_from_angle cosd sind b.
Proof. intros Hc Hs. split; intros _; assumption. Qed.

(** A move of the ball does not touch it. *)
Lemma move_from_angle cosd sind s b :
  velocity_from_angle cosd sind b -> velocity_from_angle cosd sind (set_ball_sprite s b).
Proof. intros H. exact H. Qed.

Lemma change_speed_with_from_angle cosd sind action b :
  velocity_from_angle cosd sind (change_speed_with cosd sind action b).
Proof.
  split; rewrite change_speed_with_angle.
  - rewrite change_speed_with_change_x. intros H Hz.
    apply restore_sign_nonzero in H. apply H. rewrite Hz. apply Rmult_0_r.
  - rewrite change_speed_with_change_y. intros H Hz.
    apply restore_sign_nonzero in H. apply H. rewrite Hz. apply Rmult_0_r.
Qed.

(** C7: for every ball whose [change_x] and [change_y] are both nonzero,
    [change_speed("increase")] stores the speed plus 50, clamped,
    [change_speed("decrease")] the speed minus 50, clamped, and after
    either call (after any call) [change_x] and [change_y] have the signs
    they had before.  The velocity of the ball is one that comes from its
    angle, as that of every ball of the program does, and the cosine and
    the sine are any functions, the floating-point ones included. *)
Theorem change_speed_keeps_direction (cosd sind : R -> R) (b : Ball) :
  change_x b <> 0 ->
  change_y b <> 0 ->
  velocity_from_angle cosd sind b ->
  ball_speed (change_speed_with cosd sind "increase" b) = clamp_speed (ball_speed b + 50)
  /\ ball_speed (change_speed_with cosd sind "decrease" b) = clamp_speed (ball_speed b - 50)
  /\ forall action : string,
       sgn (change_x (change_speed_with cosd sind action b)) = sgn (change_x b)
       /\ sgn (change_y (change_speed_with cosd sind action b)) = sgn (change_y b)
       /\ change_x (change_speed_with cosd sind action b) <> 0
       /\ change_y (change_speed_with cosd sind action b) <> 0
       /\ velocity_from_angle cosd sind (change_speed_with cosd sind action b).
Proof.
  intros Hx Hy [Hc Hs]. specialize (Hc Hx). specialize (Hs Hy).
  split; [| split].
  - rewrite change_speed_with_speed. reflexivity.
  - rewrite change_speed_with_speed. reflexivity.
  - intros action.
    pose proof (clamp_speed_pos (requested_speed action b)) as Hp.
    assert (Hsx : sgn (change_x (change_speed_with cosd sind action b)) = sgn (change_x b)).
    { rewrite change_speed_with_change_x.
      apply restore_sign_sgn; [exact Hx |].
      apply Rmult_integral_contrapositive_currified; [lra | exact Hc]. }
    assert (Hsy : sgn (change_y (change_speed_with cosd sind action b)) = sgn (change_y b)).
    { rewrite change_speed_with_change_y.
      apply restore_sign_sgn; [exact Hy |].
      apply Rmult_integral_contrapositive_currified; [lra | exact Hs]. }
    split; [exact Hsx |]. split; [exact Hsy |].
    split; [| split].
    + intros Hz. rewrite Hz, sgn_zero in Hsx. symmetry in Hsx.
      revert Hsx. unfold sgn. destruct (Rlt_dec (change_x b) 0); [discriminate |].
      destruct (Rlt_dec 0 (change_x b)); [discriminate | lra].
    + intros Hz. rewrite Hz, sgn_zero in Hsy. symmetry in Hsy.
      revert Hsy. unfold sgn. destruct (Rlt_dec (change_y b) 0); [discriminate |].
      destruct (Rlt_dec 0 (change_y b)); [discriminate | lra].
    + apply change_speed_with_from_angle.
Qed.

Lemma radians_45_bounds : 0 < radians 45 < PI / 2.
Proof. unfold radians. pose proof PI_RGT_0. lra. Qed.

Lemma cos_45_nonzero : cos (radians 45) <> 0.
Proof.
  pose proof radians_45_bounds as [H1 H2]. pose proof PI_RGT_0.
  assert (0 < cos (radians 45)) by (apply cos_gt_0; lra). lra.
Qed.

Lemma sin_45_nonzero : sin (radians 45) <> 0.
Proof.
  pose proof radians_45_bounds as [H1 H2]. pose proof PI_RGT_0.
  assert (0 < sin (radians 45)) by (apply sin_gt_0; lra). lra.
Qed.

Lemma Reqb_refl x : Reqb x x = true.
Proof. unfold Reqb. destruct (Req_dec_T x x); [reflexivity | contradiction]. Qed.

Lemma sample_dropped_ball_eq :
  sample_dropped_ball
  = mkBall NormalBall true (mkSprite 300 75 20 20) (-90) 550 (550 * (1 / 2 ^ 54)) (550 * -1).
Proof.
  unfold sample_dropped_ball, set_velocity_with, sample_cosd, sample_sind. simpl.
  rewrite Reqb_refl.
  assert (Hc : clamp_speed 200 = 550).
  { unfold clamp_speed, BALL_MAX_SPEED, BALL_MIN_SPEED. cases_R; lra. }
  rewrite Hc. reflexivity.
Qed.

(** The ball dropped at -90 degrees, whose cosine the floats make a small
    positive number: it keeps falling, a trace to the right, at 600 after
    the speed-up.  With the real cosine and sine, a ball at 45 degrees
    moving right and down keeps both signs and goes from 600 to 650. *)
Lemma change_speed_keeps_direction_witness :
  (ball_speed (change_speed_with sample_cosd sample_sind "increase" sample_dropped_ball) = 600
   /\ sgn (change_x (change_speed_with sample_cosd sample_sind "increase" sample_dropped_ball))
      = 1%Z
   /\ sgn (change_y (change_speed_with sample_cosd sample_sind "increase" sample_dropped_ball))
      = (-1)%Z)
  /\ (ball_speed (change_speed "increase" (sample_ball_at 5)) = 650
      /\ sgn (change_x (change_speed "increase" (sample_ball_at 5))) = 1%Z
      /\ sgn (change_y (change_speed "increase" (sample_ball_at 5))) = (-1)%Z).
Proof.
  split.
  - destruct (change_speed_keeps_direction sample_cosd sample_sind sample_dropped_ball)
      as (Hi & _ & Hs).
    + rewrite sample_dropped_ball_eq. simpl. lra.
    + rewrite sample_dropped_ball_eq. simpl. lra.
    + apply set_velocity_with_from_angle.
    + destruct (Hs "increase"%string) as (Hx & Hy & _). rewrite Hi, Hx, Hy.
      rewrite sample_dropped_ball_eq. simpl.
      split; [| split].
      * rewrite clamp_speed_id; unfold BALL_MAX_SPEED, BALL_MIN_SPEED; lra.
      * apply sgn_pos. lra.
      * apply sgn_neg. lra.
  - destruct (change_speed_keeps_direction (fun a => cos (radians a)) (fun a => sin (radians a))
                (sample_ball_at 5)) as (Hi & _ & Hs).
    + simpl. lra.
    + simpl. lra.
    + apply free_angle_from_angle; [exact cos_45_nonzero | exact sin_45_nonzero].
    + destruct (Hs "increase"%string) as (Hx & Hy & _).
      unfold change_speed. rewrite Hi, Hx, Hy. simpl.
      split; [| split].
      * rewrite clamp_speed_id; unfold BALL_MAX_SPEED, BALL_MIN_SPEED; lra.
      * apply sgn_pos. lra.
      * apply sgn_neg. lra.
Defined.

(** ** The speed limits hold after every write of the speed *)

Lemma speeds_ok_refl m : speeds_ok m m.
Proof. intros id b Hb. right. exists b. auto. Qed.

Lemma speeds_ok_trans m1 m2 m3 : speeds_ok m1 m2 -> speeds_ok m2 m3 -> speeds_ok m1 m3.
Proof.
  intros H12 H23 id b3 Hb3.
  destruct (H23 id b3 Hb3) as [Hr | (b2 & Hb2 & Heq)]; [left; exact Hr |].
  destruct (H12 id b2 Hb2) as [Hr | (b1 & Hb1 & Heq1)].
  - left. unfold speed_in_range in *. rewrite Heq. exact Hr.
  - right. exists b1. split; [exact Hb1 | congruence].
Qed.

Lemma speeds_ok_insert_in_range (m : gmap nat Ball) id b :
  speed_in_range b -> speeds_ok m (<[id := b]> m).
Proof.
  intros Hr id' b' Hb'. destruct (decide (id = id')) as [-> | Hne].
  - rewrite lookup_insert_eq in Hb'. inversion Hb'; subst. left. exact Hr.
  - rewrite lookup_insert_ne in Hb' by exact Hne. right. exists b'. auto.
Qed.

Lemma speeds_ok_insert_same_speed (m : gmap nat Ball) id b0 b :
  m !! id = Some b0 -> ball_speed b = ball_speed b0 -> speeds_ok m (<[id := b]> m).
Proof.
  intros H0 Heq id' b' Hb'. destruct (decide (id = id')) as [-> | Hne].
  - rewrite lookup_insert_eq in Hb'. inversion Hb'; subst. right. exists b0. auto.
  - rewrite lookup_insert_ne in Hb' by exact Hne. right. exists b'. auto.
Qed.

Lemma speeds_ok_alter (m : gmap nat Ball) (f : Ball -> Ball) id :
  (forall b, speed_in_range (f b) \/ ball_speed (f b) = ball_speed b) ->
  speeds_ok m (alter f id m).
Proof.
  intros Hf id' b' Hb'. destruct (decide (id = id')) as [-> | Hne].
  - rewrite lookup_alter_eq in Hb'. destruct (m !! id') as [b0 |] eqn:H0; [| discriminate].
    simpl in Hb'. inversion Hb'; subst.
    destruct (Hf b0) as [Hr | Heq]; [left; exact Hr | right; exists b0; auto].
  - rewrite lookup_alter_ne in Hb' by exact Hne. right. exists b'. auto.
Qed.

Lemma level_speeds_ok_refl lv : level_speeds_ok lv lv.
Proof. apply speeds_ok_refl. Qed.

Lemma level_speeds_ok_trans lv1 lv2 lv3 :
  level_speeds_ok lv1 lv2 -> level_speeds_ok lv2 lv3 -> level_speeds_ok lv1 lv3.
Proof. apply speeds_ok_trans. Qed.

(** An update that leaves the store of balls alone. *)
Lemma level_speeds_ok_same_balls lv lv' : balls lv' = balls lv -> level_speeds_ok lv lv'.
Proof. intros H. unfold level_speeds_ok. rewrite H. apply speeds_ok_refl. Qed.

Lemma foldl_level_speeds_ok (f : Level -> nat -> Level) (l : list nat) :
  (forall lv x, level_speeds_ok lv (f lv x)) ->
  forall lv, level_speeds_ok lv (foldl f lv l).
Proof.
  intros Hf. induction l as [| x l IH]; intros lv; simpl.
  - apply level_speeds_ok_refl.
  - eapply level_speeds_ok_trans; [apply Hf | apply IH].
Qed.

Lemma for_in_level_speeds_ok (the_list : Level -> list nat) (body : nat -> Level -> Level) :
  (forall x lv, level_speeds_ok lv (body x lv)) ->
  forall fuel i lv, level_speeds_ok lv (for_in fuel the_list body i lv).
Proof.
  intros Hb. induction fuel as [| fuel IH]; intros i lv; simpl.
  - apply level_speeds_ok_refl.
  - destruct (the_list lv !! i); [| apply level_speeds_ok_refl].
    eapply level_speeds_ok_trans; [apply Hb | apply IH].
Qed.

Lemma change_velocity_in_range paddle b : speed_in_range (change_velocity paddle b).
Proof. apply set_velocity_in_range. Qed.

Lemma change_speed_in_range action b : speed_in_range (change_speed action b).
Proof. unfold speed_in_range. rewrite change_speed_speed. apply clamp_speed_range. Qed.

Lemma Ball_init_in_range assets bd level t : speed_in_range (Ball_init assets bd level t).
Proof. apply set_velocity_in_range. Qed.

Lemma change_horizontal_velocity_speed paddle b :
  ball_speed (change_horizontal_velocity paddle b) = ball_speed b.
Proof. unfold change_horizontal_velocity. destruct (Rltb _ _); reflexivity. Qed.

Lemma collides_with_paddle_moving_horizontally_speed collides paddle b :
  let b' := collides_with_paddle_moving_horizontally collides paddle b in
  speed_in_range b' \/ ball_speed b' = ball_speed b.
Proof.
  unfold collides_with_paddle_moving_horizontally.
  destruct (has_level b && collides); [| right; reflexivity].
  destruct (Rltb (change_x b) 0 && _); [left; apply set_velocity_in_range |].
  destruct (Rgtb (change_x b) 0 && _); [left; apply set_velocity_in_range |].
  destruct (Rgtb (change_x b) 0); [right; reflexivity |].
  destruct (Rltb (change_x b) 0); right; reflexivity.
Qed.

Lemma convert_to_speeds_ok assets self t lv :
  level_speeds_ok lv (snd (convert_to assets self t lv)).
Proof.
  unfold convert_to. destruct (balls lv !! self) as [b |]; simpl.
  - apply speeds_ok_insert_in_range. unfold speed_in_range.
    rewrite change_horizontal_velocity_speed. simpl. apply clamp_speed_range.
  - apply level_speeds_ok_refl.
Qed.

Lemma split_into_two_speeds_ok assets self lv :
  level_speeds_ok lv (split_into_two assets self lv).
Proof.
  unfold split_into_two. destruct (balls lv !! self) as [b |]; simpl.
  - apply speeds_ok_insert_in_range. unfold speed_in_range. simpl. apply clamp_speed_range.
  - apply level_speeds_ok_refl.
Qed.

Lemma Ball_change_velocity_speeds_ok id lv :
  level_speeds_ok lv (Ball_change_velocity id lv).
Proof.
  unfold Ball_change_velocity, level_speeds_ok. simpl.
  apply speeds_ok_alter. intros b. left. apply change_velocity_in_range.
Qed.

Lemma change_invincibility_speeds_ok assets self lv :
  level_speeds_ok lv (snd (change_invincibility assets self lv)).
Proof.
  unfold change_invincibility. destruct (balls lv !! self) as [b |]; simpl;
    [| apply level_speeds_ok_refl].
  destruct (invincible_balls (paddle lv) >? 0)%Z.
  - destruct (negb (is_invincible b)).
    + pose proof (convert_to_speeds_ok assets self InvinciBall lv) as H.
      destruct (convert_to assets self InvinciBall lv) as [ball lv1]. exact H.
    + apply level_speeds_ok_same_balls. reflexivity.
  - destruct (is_invincible b); [apply convert_to_speeds_ok | apply level_speeds_ok_refl].
Qed.

Lemma Ball_change_properties_speeds_ok assets self lv :
  level_speeds_ok lv (Ball_change_properties assets self lv).
Proof.
  unfold Ball_change_properties.
  pose proof (change_invincibility_speeds_ok assets self lv) as H1.
  destruct (change_invincibility assets self lv) as [ball lv1]. simpl in H1.
  eapply level_speeds_ok_trans; [exact H1 |].
  destruct (balls lv1 !! ball) as [b |]; [| apply level_speeds_ok_refl].
  destruct (is_magnetic (paddle lv1)).
  - destruct (is_invincible b).
    + pose proof (convert_to_speeds_ok assets ball MagneticInviciBall lv1) as H2.
      destruct (convert_to assets ball MagneticInviciBall lv1) as [mb lv2]. exact H2.
    + pose proof (convert_to_speeds_ok assets ball MagneticNormalBall lv1) as H2.
      destruct (convert_to assets ball MagneticNormalBall lv1) as [mb lv2]. exact H2.
  - destruct (split_balls (paddle (Ball_change_velocity ball lv1)) >? 0)%Z.
    + eapply level_speeds_ok_trans;
        [apply Ball_change_velocity_speeds_ok | apply split_into_two_speeds_ok].
    + apply Ball_change_velocity_speeds_ok.
Qed.

Lemma collides_with_paddle_moving_vertically_speeds_ok assets collides self lv :
  level_speeds_ok lv (collides_with_paddle_moving_vertically assets collides self lv).
Proof.
  unfold collides_with_paddle_moving_vertically.
  destruct (balls lv !! self) as [b |] eqn:Hb; [| apply level_speeds_ok_refl].
  destruct (has_level b && collides); [| apply level_speeds_ok_refl].
  destruct (_ && _ && _).
  { apply speeds_ok_insert_in_range, set_velocity_in_range. }
  destruct (_ && _ && _).
  { apply speeds_ok_insert_in_range, set_velocity_in_range. }
  destruct (Rgtb (change_y b) 0).
  { eapply speeds_ok_insert_same_speed; [exact Hb | reflexivity]. }
  destruct (Rltb (change_y b) 0); [| apply level_speeds_ok_refl].
  eapply level_speeds_ok_trans; [| apply Ball_change_properties_speeds_ok].
  eapply speeds_ok_insert_same_speed; [exact Hb | reflexivity].
Qed.

Lemma release_magnetic_balls_speeds_ok assets lv :
  level_speeds_ok lv (release_magnetic_balls assets lv).
Proof.
  unfold release_magnetic_balls.
  eapply level_speeds_ok_trans; [| apply level_speeds_ok_same_balls; reflexivity].
  apply foldl_level_speeds_ok. clear lv. intros lv ball.
  destruct (balls lv !! ball) as [b |]; [| apply level_speeds_ok_refl].
  assert (H : forall t,
            level_speeds_ok lv
              (let '(new_ball, lv1) := convert_to assets ball t lv in
               if (split_balls (paddle (Ball_change_velocity new_ball lv1)) >? 0)%Z
               then split_into_two assets new_ball (Ball_change_velocity new_ball lv1)
               else Ball_change_velocity new_ball lv1)).
  { intros t. pose proof (convert_to_speeds_ok assets ball t lv) as H1.
    destruct (convert_to assets ball t lv) as [nb lv1]. simpl in H1.
    eapply level_speeds_ok_trans; [exact H1 |].
    destruct (_ >? 0)%Z.
    - eapply level_speeds_ok_trans;
        [apply Ball_change_velocity_speeds_ok | apply split_into_two_speeds_ok].
    - apply Ball_change_velocity_speeds_ok. }
  destruct (is_invincible b); apply H.
Qed.

Lemma change_speed_of_all_speeds_ok action lv :
  level_speeds_ok lv (change_speed_of_all action lv).
Proof.
  unfold change_speed_of_all. apply foldl_level_speeds_ok. clear lv. intros lv ball.
  unfold level_speeds_ok. simpl. apply speeds_ok_alter.
  intros b. left. apply change_speed_in_range.
Qed.

Lemma change_speed_fold_keeps_range action (l : list nat) :
  forall lv id,
    (forall b, balls lv !! id = Some b -> speed_in_range b) ->
    forall b',
      balls (foldl (fun lv ball => set_balls (alter (change_speed action) ball (balls lv)) lv)
                   lv l) !! id = Some b' ->
      speed_in_range b'.
Proof.
  induction l as [| x l IH]; intros lv id Hin b' Hb'; simpl in Hb'.
  - apply Hin. exact Hb'.
  - eapply IH; [| exact Hb']. intros b Hb. simpl in Hb.
    destruct (decide (x = id)) as [-> | Hne].
    + rewrite lookup_alter_eq in Hb. destruct (balls lv !! id); [| discriminate].
      simpl in Hb. inversion Hb. apply change_speed_in_range.
    + rewrite lookup_alter_ne in Hb by exact Hne. apply Hin. exact Hb.
Qed.

Lemma change_speed_fold_in_range action (l : list nat) :
  forall lv id b',
    id ∈ l ->
    balls (foldl (fun lv ball => set_balls (alter (change_speed action) ball (balls lv)) lv)
                 lv l) !! id = Some b' ->
    speed_in_range b'.
Proof.
  induction l as [| x l IH]; intros lv id b' Hid Hb'.
  - inversion Hid.
  - simpl in Hb'. destruct (decide (id = x)) as [-> | Hne].
    + eapply change_speed_fold_keeps_range; [| exact Hb']. intros b Hb. simpl in Hb.
      rewrite lookup_alter_eq in Hb. destruct (balls lv !! x); [| discriminate].
      simpl in Hb. inversion Hb. apply change_speed_in_range.
    + apply elem_of_cons in Hid. destruct Hid as [Heq | Hid]; [contradiction |].
      eapply IH; [exact Hid | exact Hb'].
Qed.

(** After a speed-up or slow-down icon every ball of the ball list is within
    the limits. *)
Lemma change_speed_of_all_in_range action lv id b' :
  id ∈ ball_list lv ->
  balls (change_speed_of_all action lv) !! id = Some b' ->
  speed_in_range b'.
Proof. unfold change_speed_of_all. apply change_speed_fold_in_range. Qed.

Lemma drop_if_off_paddle_speeds_ok assets ball lv :
  level_speeds_ok lv (drop_if_off_paddle assets ball lv).
Proof.
  unfold drop_if_off_paddle.
  destruct (balls lv !! ball) as [b |]; [| apply level_speeds_ok_refl].
  destruct (_ || _); [| apply level_speeds_ok_refl].
  assert (H : forall t,
            level_speeds_ok lv
              (let '(new_ball, lv1) := convert_to assets ball t lv in
               let drop (nb : Ball) : Ball :=
                 set_velocity (set_velocity_angle (-90) (set_ball_speed 200 nb)) in
               let lv2 := set_balls (alter drop new_ball (balls lv1)) lv1 in
               set_paddle
                 (set_magnetic_ball_list
                    (list_remove ball (magnetic_ball_list (paddle lv2))) (paddle lv2))
                 lv2)).
  { intros t. pose proof (convert_to_speeds_ok assets ball t lv) as H1.
    destruct (convert_to assets ball t lv) as [nb lv1]. simpl in H1.
    eapply level_speeds_ok_trans; [exact H1 |].
    unfold level_speeds_ok. simpl. apply speeds_ok_alter.
    intros b0. left. apply set_velocity_in_range. }
  destruct (is_invincible b); apply H.
Qed.

Lemma make_invincible_speeds_ok assets ball lv :
  level_speeds_ok lv (make_invincible assets ball lv).
Proof.
  unfold make_invincible.
  destruct (balls lv !! ball) as [b |]; [| apply level_speeds_ok_refl].
  destruct (negb (is_invincible b)); [| apply level_speeds_ok_refl].
  pose proof (convert_to_speeds_ok assets ball MagneticInviciBall lv) as H1.
  destruct (convert_to assets ball MagneticInviciBall lv) as [nb lv1]. exact H1.
Qed.

Lemma activate_icon_property_speeds_ok assets t lv :
  level_speeds_ok lv (activate_icon_property assets t lv).
Proof.
  destruct t; simpl.
  - (* lengthen *)
    unfold LengthenPaddleIcon_activate.
    eapply level_speeds_ok_trans; [| apply change_speed_of_all_speeds_ok].
    apply level_speeds_ok_same_balls. reflexivity.
  - (* shorten *)
    unfold ShortenPaddleIcon_activate.
    eapply level_speeds_ok_trans;
      [| apply for_in_level_speeds_ok; apply drop_if_off_paddle_speeds_ok].
    apply level_speeds_ok_same_balls. reflexivity.
  - destruct (negb (is_demo_level lv)); apply level_speeds_ok_same_balls; reflexivity.
  - apply level_speeds_ok_same_balls. reflexivity.
  - apply level_speeds_ok_same_balls. reflexivity.
  - apply level_speeds_ok_same_balls. reflexivity.
  - apply level_speeds_ok_same_balls. reflexivity.
  - apply level_speeds_ok_same_balls. reflexivity.
  - destruct (negb (is_demo_level lv)); apply level_speeds_ok_same_balls;
      [| reflexivity].
    unfold level_is_complete. simpl.
    repeat match goal with |- context [if ?c then _ else _] => destruct c end; reflexivity.
  - (* speed up *)
    unfold SpeedUpBallsIcon_activate.
    eapply level_speeds_ok_trans; [| apply change_speed_of_all_speeds_ok].
    eapply level_speeds_ok_trans; [| apply release_magnetic_balls_speeds_ok].
    apply level_speeds_ok_same_balls. reflexivity.
  - apply change_speed_of_all_speeds_ok.
  - (* invincible *)
    unfold InvinciBallIcon_activate.
    eapply level_speeds_ok_trans;
      [| apply for_in_level_speeds_ok; apply make_invincible_speeds_ok].
    apply level_speeds_ok_same_balls. reflexivity.
Qed.

(** C3: after every operation that writes a ball's speed the stored
    [ball_speed] lies in [[BALL_MIN_SPEED, BALL_MAX_SPEED]] = [[550, 850]].
    [set_velocity] establishes the limits whatever speed it finds; the
    bounce off the paddle top, the side-of-paddle hits of both axis steps,
    [change_speed] (the speed-up, slow-down and lengthen icons, for every
    ball of the ball list), every conversion and split, the release of the
    magnetic balls and every icon (the drop of the shorten icon included)
    leave each ball either within the limits or with the speed it had. *)
Theorem speed_within_limits_after_mutation :
  (forall b, speed_in_range (set_velocity b))
  /\ (forall paddle b, speed_in_range (change_velocity paddle b))
  /\ (forall collides paddle b,
        let b' := collides_with_paddle_moving_horizontally collides paddle b in
        speed_in_range b' \/ ball_speed b' = ball_speed b)
  /\ (forall assets collides self lv,
        level_speeds_ok lv (collides_with_paddle_moving_vertically assets collides self lv))
  /\ (forall action b, speed_in_range (change_speed action b))
  /\ (forall action lv id b',
        id ∈ ball_list lv ->
        balls (change_speed_of_all action lv) !! id = Some b' ->
        speed_in_range b')
  /\ (forall assets self t lv,
        balls lv !! self <> None ->
        exists b',
          balls (snd (convert_to assets self t lv)) !! fst (convert_to assets self t lv)
            = Some b'
          /\ speed_in_range b')
  /\ (forall assets self lv, level_speeds_ok lv (Ball_change_properties assets self lv))
  /\ (forall assets lv, level_speeds_ok lv (release_magnetic_balls assets lv))
  /\ (forall assets t lv, level_speeds_ok lv (activate_icon_property assets t lv)).
Proof.
  split; [exact set_velocity_in_range |].
  split; [exact change_velocity_in_range |].
  split; [exact collides_with_paddle_moving_horizontally_speed |].
  split; [exact collides_with_paddle_moving_vertically_speeds_ok |].
  split; [exact change_speed_in_range |].
  split; [exact change_speed_of_all_in_range |].
  split.
  { intros assets self t lv Hself. unfold convert_to.
    destruct (balls lv !! self) as [b |]; [| contradiction]. simpl.
    rewrite lookup_insert_eq. eexists. split; [reflexivity |].
    unfold speed_in_range. rewrite change_horizontal_velocity_speed. simpl.
    apply clamp_speed_range. }
  split; [exact Ball_change_properties_speeds_ok |].
  split; [exact release_magnetic_balls_speeds_ok |].
  exact activate_icon_property_speeds_ok.
Qed.

(** ** Conversions *)

Lemma new_ball_id_fresh lv : balls lv !! new_ball_id lv = None.
Proof. apply not_elem_of_dom. unfold new_ball_id. apply is_fresh. Qed.

Lemma new_ball_id_ne lv id : is_Some (balls lv !! id) -> id <> new_ball_id lv.
Proof.
  intros [b Hb] ->. rewrite new_ball_id_fresh in Hb. discriminate.
Qed.

Lemma convert_to_eq assets self t lv b :
  balls lv !! self = Some b ->
  convert_to assets self t lv
  = (new_ball_id lv,
     Ball_remove_from_sprite_lists self
       (set_ball_list (ball_list lv ++ [new_ball_id lv])
          (set_balls (<[new_ball_id lv := converted_ball assets lv b t]> (balls lv)) lv))).
Proof. intros H. unfold convert_to. rewrite H. reflexivity. Qed.

Lemma converted_ball_type assets lv b t : ball_type (converted_ball assets lv b t) = t.
Proof.
  unfold converted_ball, change_horizontal_velocity. destruct (Rltb _ _); reflexivity.
Qed.

Lemma converted_ball_position assets lv b t :
  center_x (ball_sprite (converted_ball assets lv b t)) = center_x (ball_sprite b)
  /\ center_y (ball_sprite (converted_ball assets lv b t)) = center_y (ball_sprite b).
Proof.
  unfold converted_ball, change_horizontal_velocity. destruct (Rltb _ _); split; reflexivity.
Qed.

(** ** The loop of the invincible-ball icon *)

Lemma for_in_unfold {S : Type} (the_list : S -> list nat) (body : nat -> S -> S)
    fuel i s x :
  the_list s !! i = Some x ->
  for_in (Datatypes.S fuel) the_list body i s = for_in fuel the_list body (Datatypes.S i) (body x s).
Proof. intros H. simpl. rewrite H. reflexivity. Qed.

(** When the body does nothing on every element from index [i] on, the
    rest of the loop does nothing. *)
Lemma for_in_noop {S : Type} (the_list : S -> list nat) (body : nat -> S -> S) s :
  forall fuel i,
    (forall j x, (i <= j)%nat -> the_list s !! j = Some x -> body x s = s) ->
    for_in fuel the_list body i s = s.
Proof.
  induction fuel as [| fuel IH]; intros i H; simpl; [reflexivity |].
  destruct (the_list s !! i) as [x |] eqn:Hx; [| reflexivity].
  rewrite (H i x (Nat.le_refl i) Hx). apply IH.
  intros j y Hj. apply H. lia.
Qed.

(** When the body does nothing on the elements at indices [i .. i+k-1],
    the loop passes over them. *)
Lemma for_in_skip {S : Type} (the_list : S -> list nat) (body : nat -> S -> S) s :
  forall k fuel i,
    (i + k <= length (the_list s))%nat ->
    (forall j x, (i <= j < i + k)%nat -> the_list s !! j = Some x -> body x s = s) ->
    for_in (k + fuel) the_list body i s = for_in fuel the_list body (i + k) s.
Proof.
  induction k as [| k IH]; intros fuel i Hlen H.
  - rewrite Nat.add_0_r. reflexivity.
  - destruct (the_list s !! i) as [x |] eqn:Hx.
    + change (Datatypes.S k + fuel)%nat with (Datatypes.S (k + fuel)).
      rewrite (for_in_unfold _ _ _ _ _ _ Hx).
      rewrite (H i x ltac:(lia) Hx).
      rewrite IH; [f_equal; lia | lia |].
      intros j y Hj. apply H. lia.
    + apply lookup_ge_None in Hx. lia.
Qed.

(** More fuel than the length of the list changes nothing when the body
    keeps the length of the list: the loop ends by running off the list. *)
Lemma for_in_enough_fuel {S : Type} (the_list : S -> list nat) (body : nat -> S -> S) :
  (forall x s, x ∈ the_list s -> length (the_list (body x s)) = length (the_list s)) ->
  forall fuel extra i s,
    (length (the_list s) <= i + fuel)%nat ->
    for_in (fuel + extra) the_list body i s = for_in fuel the_list body i s.
Proof.
  intros Hlen. induction fuel as [| fuel IH]; intros extra i s Hi.
  - simpl. destruct extra as [| extra]; [reflexivity |]. simpl.
    destruct (the_list s !! i) as [x |] eqn:Hx; [| reflexivity].
    apply lookup_lt_Some in Hx. lia.
  - simpl. destruct (the_list s !! i) as [x |] eqn:Hx; [| reflexivity].
    apply IH. rewrite Hlen; [lia |]. eapply list_elem_of_lookup_2. exact Hx.
Qed.

Lemma make_invincible_skip assets x lv b :
  balls lv !! x = Some b -> is_invincible b = true -> make_invincible assets x lv = lv.
Proof. intros Hb Hi. unfold make_invincible. rewrite Hb, Hi. reflexivity. Qed.

Lemma make_invincible_convert assets x lv b :
  balls lv !! x = Some b -> is_invincible b = false ->
  let lv' := make_invincible assets x lv in
  let new := new_ball_id lv in
  magnetic_ball_list (paddle lv')
    = list_remove x (magnetic_ball_list (paddle lv) ++ [new])
  /\ invincible_balls (paddle lv') = (invincible_balls (paddle lv) - 1)%Z
  /\ balls lv' = <[new := converted_ball assets lv b MagneticInviciBall]> (balls lv)
  /\ ball_list lv' = remove_id x (ball_list lv ++ [new]).
Proof.
  intros Hb Hi. unfold make_invincible. rewrite Hb, Hi. simpl.
  rewrite (convert_to_eq _ _ _ _ _ Hb). simpl. auto.
Qed.

Lemma list_remove_length x l : x ∈ l -> length (list_remove x l) = pred (length l).
Proof.
  induction l as [| y l IH]; intros Hin; [inversion Hin |]. simpl.
  destruct (Nat.eqb y x) eqn:E; [reflexivity |].
  apply Nat.eqb_neq in E. apply elem_of_cons in Hin. destruct Hin as [-> | Hin]; [congruence |].
  simpl. rewrite IH by exact Hin. destruct l; [inversion Hin | reflexivity].
Qed.

Lemma list_remove_app_not_in x pre l :
  x ∉ pre -> list_remove x (pre ++ l) = pre ++ list_remove x l.
Proof.
  induction pre as [| y pre IH]; intros Hn; [reflexivity |]. simpl.
  destruct (Nat.eqb y x) eqn:E.
  - apply Nat.eqb_eq in E. subst. exfalso. apply Hn. left.
  - rewrite IH; [reflexivity |]. intros Hin. apply Hn. right. exact Hin.
Qed.

Lemma list_remove_head x l : list_remove x (x :: l) = l.
Proof. simpl. rewrite Nat.eqb_refl. reflexivity. Qed.

Lemma list_remove_app_length x l new :
  x ∈ l -> length (list_remove x (l ++ [new])) = length l.
Proof.
  intros Hin. rewrite list_remove_length.
  - rewrite length_app. simpl. lia.
  - apply elem_of_app. left. exact Hin.
Qed.

Lemma make_invincible_length assets x lv :
  x ∈ magnetic_ball_list (paddle lv) ->
  length (magnetic_ball_list (paddle (make_invincible assets x lv)))
  = length (magnetic_ball_list (paddle lv)).
Proof.
  intros Hin. unfold make_invincible.
  destruct (balls lv !! x) as [b |] eqn:Hb; [| reflexivity].
  destruct (negb (is_invincible b)); [| reflexivity].
  rewrite (convert_to_eq _ _ _ _ _ Hb). simpl.
  apply list_remove_app_length. exact Hin.
Qed.

(** The loop of the icon terminates: it runs off the list within as many
    rounds as the list is long, and further fuel is not used. *)
Lemma InvinciBallIcon_loop_total assets lv extra :
  for_in (length (magnetic_ball_list (paddle lv)) + extra)
         (fun lv => magnetic_ball_list (paddle lv)) (make_invincible assets) 0 lv
  = for_in (length (magnetic_ball_list (paddle lv)))
           (fun lv => magnetic_ball_list (paddle lv)) (make_invincible assets) 0 lv.
Proof.
  apply (for_in_enough_fuel (fun lv => magnetic_ball_list (paddle lv))).
  - intros x s Hx. apply make_invincible_length. exact Hx.
  - simpl. lia.
Qed.

Lemma filter_at_most_one {A : Type} (P : A -> bool) (l : list A) :
  (length (List.filter P l) <= 1)%nat ->
  (List.filter P l = [] /\ Forall (fun y => P y = false) l)
  \/ exists pre x post,
       l = pre ++ x :: post /\ List.filter P l = [x] /\ P x = true
       /\ Forall (fun y => P y = false) pre /\ Forall (fun y => P y = false) post.
Proof.
  induction l as [| a l IH]; intros Hlen; simpl in *.
  - left. split; [reflexivity | constructor].
  - destruct (P a) eqn:Ha.
    + simpl in Hlen. assert (Hnil : List.filter P l = []).
      { destruct (List.filter P l); [reflexivity | simpl in Hlen; lia]. }
      right. exists [], a, l. rewrite Hnil. repeat split; auto.
      destruct IH as [[_ Hall] | (pre & x & post & _ & Hf & _)].
      * rewrite Hnil. simpl. lia.
      * exact Hall.
      * rewrite Hnil in Hf. discriminate.
    + destruct (IH Hlen) as [[Hnil Hall] | (pre & x & post & Hl & Hf & Hx & Hpre & Hpost)].
      * left. split; [exact Hnil | constructor; assumption].
      * right. exists (a :: pre), x, post. subst l. repeat split; auto.
Qed.

(** No attached ball is pending: the icon only adds its three charges. *)
Lemma InvinciBallIcon_none_pending assets lv :
  Forall (fun y => not_yet_invincible (balls lv) y = false) (magnetic_ball_list (paddle lv)) ->
  InvinciBallIcon_activate assets lv
  = set_paddle (set_invincible_balls (invincible_balls (paddle lv) + 3) (paddle lv)) lv.
Proof.
  intros Hall. unfold InvinciBallIcon_activate. cbv zeta.
  apply for_in_noop. intros j x _ Hx. simpl in Hx.
  apply list_elem_of_lookup_2 in Hx. rewrite Forall_forall in Hall. specialize (Hall x Hx).
  unfold not_yet_invincible in Hall. unfold make_invincible. simpl.
  destruct (balls lv !! x) as [b |]; [| reflexivity].
  rewrite Hall. reflexivity.
Qed.

(** One attached ball is pending: the loop converts it and nothing else. *)
Lemma InvinciBallIcon_one_pending assets lv pre x post b :
  magnetic_ball_list (paddle lv) = pre ++ x :: post ->
  balls lv !! x = Some b ->
  is_invincible b = false ->
  (forall y, y ∈ pre ++ post -> exists c, balls lv !! y = Some c /\ is_invincible c = true) ->
  InvinciBallIcon_activate assets lv
  = make_invincible assets x
      (set_paddle (set_invincible_balls (invincible_balls (paddle lv) + 3) (paddle lv)) lv).
Proof.
  intros Hml Hb Hi Hrest. unfold InvinciBallIcon_activate. cbv zeta.
  set (lvA := set_paddle (set_invincible_balls (invincible_balls (paddle lv) + 3) (paddle lv)) lv).
  assert (HmlA : magnetic_ball_list (paddle lvA) = pre ++ x :: post) by exact Hml.
  assert (HbA : balls lvA = balls lv) by reflexivity.
  rewrite HmlA. rewrite length_app. simpl length.
  (* the invincible balls before x *)
  rewrite (for_in_skip (fun lv => magnetic_ball_list (paddle lv)) (make_invincible assets) lvA
                       (length pre) (Datatypes.S (length post)) 0).
  2: { rewrite HmlA, length_app. simpl. lia. }
  2: { intros j y Hj Hy. rewrite HmlA in Hy.
       rewrite lookup_app_l in Hy by lia.
       apply list_elem_of_lookup_2 in Hy.
       destruct (Hrest y) as (c & Hc & Hci); [apply elem_of_app; left; exact Hy |].
       eapply make_invincible_skip; [rewrite HbA; exact Hc | exact Hci]. }
  (* x itself *)
  simpl Nat.add.
  rewrite (for_in_unfold _ _ _ _ _ x).
  2: { rewrite HmlA. rewrite lookup_app_r by lia. rewrite Nat.sub_diag. reflexivity. }
  (* what follows is invincible *)
  apply for_in_noop. intros j y _ Hy.
  destruct (make_invincible_convert assets x lvA b) as (Hl & _ & Hs & _);
    [rewrite HbA; exact Hb | exact Hi |].
  rewrite Hl, HmlA in Hy. apply list_elem_of_lookup_2 in Hy.
  assert (Hxpre : x ∉ pre).
  { intros Hin. destruct (Hrest x) as (c & Hc & Hci); [apply elem_of_app; left; exact Hin |].
    rewrite Hb in Hc. inversion Hc; subst. congruence. }
  rewrite <- app_assoc, list_remove_app_not_in in Hy by exact Hxpre.
  rewrite <- app_comm_cons, list_remove_head in Hy.
  rewrite app_assoc in Hy. apply elem_of_app in Hy. destruct Hy as [Hy | Hy].
  - destruct (Hrest y Hy) as (c & Hc & Hci).
    eapply make_invincible_skip; [| exact Hci].
    rewrite Hs, lookup_insert_ne; [rewrite HbA; exact Hc |].
    apply not_eq_sym, new_ball_id_ne. rewrite HbA, Hc. eauto.
  - apply list_elem_of_singleton in Hy. subst y.
    eapply make_invincible_skip; [rewrite Hs; apply lookup_insert_eq |].
    unfold is_invincible. rewrite converted_ball_type. reflexivity.
Qed.

Lemma list_remove_middle x pre post new :
  x ∉ pre -> list_remove x ((pre ++ x :: post) ++ [new]) = pre ++ post ++ [new].
Proof.
  intros Hn. rewrite <- app_assoc, list_remove_app_not_in by exact Hn.
  rewrite <- app_comm_cons, list_remove_head. reflexivity.
Qed.

Lemma remove_id_not_in self l : self ∉ remove_id self l.
Proof.
  unfold remove_id. intros Hin. apply list_elem_of_filter in Hin. destruct Hin as [Hne _].
  apply Hne. reflexivity.
Qed.

Lemma remove_id_in self l y : y ∈ l -> y <> self -> y ∈ remove_id self l.
Proof. intros Hin Hne. unfold remove_id. apply list_elem_of_filter. auto. Qed.

(** The trace of the icon on [sample_level_two_attached]: the first round
    converts ball 0 into the new ball 2 and shifts the list to [[1; 2]]; the
    second round reads index 1, which now holds ball 2; there is no third
    round.  Ball 1 is never looked at. *)
Lemma InvinciBallIcon_two_attached :
  InvinciBallIcon_activate sample_assets sample_level_two_attached
  = make_invincible sample_assets 0%nat
      (set_paddle
         (set_invincible_balls (invincible_balls (paddle sample_level_two_attached) + 3)
            (paddle sample_level_two_attached))
         sample_level_two_attached).
Proof.
  unfold InvinciBallIcon_activate. cbv zeta.
  set (lvA := set_paddle _ sample_level_two_attached).
  assert (Hb0 : balls lvA !! 0%nat = Some (sample_attached_ball MagneticNormalBall 560))
    by reflexivity.
  assert (Hnew : new_ball_id lvA = 2%nat) by (vm_compute; reflexivity).
  destruct (make_invincible_convert sample_assets 0%nat lvA _ Hb0 eq_refl)
    as (Hl & _ & Hs & _).
  rewrite Hnew in Hl, Hs.
  change (length (magnetic_ball_list (paddle lvA))) with 2%nat.
  rewrite (for_in_unfold _ _ _ _ _ 0%nat) by reflexivity.
  rewrite (for_in_unfold _ _ _ _ _ 2%nat).
  2: { rewrite Hl. reflexivity. }
  simpl for_in.
  eapply make_invincible_skip.
  - rewrite Hs. apply lookup_insert_eq.
  - unfold is_invincible. rewrite converted_ball_type. reflexivity.
Qed.

(** C5, as the spec words it, fails.  With two normal magnetic balls on the
    paddle (objects 0 and 1) the icon converts ball 0 only: afterwards the
    list is [[1; 2]], ball 1 is still attached and still not invincible, and
    the paddle holds 2 charges more than before, not 3. *)
Lemma invincible_icon_counterexample :
  let lv := sample_level_two_attached in
  let lv' := InvinciBallIcon_activate sample_assets lv in
  magnetic_ball_list (paddle lv) = [0; 1]%nat
  /\ not_yet_invincible (balls lv) 0%nat = true
  /\ not_yet_invincible (balls lv) 1%nat = true
  /\ magnetic_ball_list (paddle lv') = [1; 2]%nat
  /\ not_yet_invincible (balls lv') 1%nat = true
  /\ invincible_balls (paddle lv') = (invincible_balls (paddle lv) + 2)%Z
  /\ invincible_balls (paddle lv') <> (invincible_balls (paddle lv) + 3)%Z.
Proof.
  cbv zeta. rewrite InvinciBallIcon_two_attached.
  set (lvA := set_paddle _ sample_level_two_attached).
  assert (Hb0 : balls lvA !! 0%nat = Some (sample_attached_ball MagneticNormalBall 560))
    by reflexivity.
  assert (Hnew : new_ball_id lvA = 2%nat) by (vm_compute; reflexivity).
  destruct (make_invincible_convert sample_assets 0%nat lvA _ Hb0 eq_refl)
    as (Hl & Hc & Hs & _).
  rewrite Hnew in Hl, Hs. rewrite Hl, Hc.
  split; [reflexivity |]. split; [reflexivity |]. split; [reflexivity |].
  split; [reflexivity |]. split.
  - unfold not_yet_invincible. rewrite Hs, lookup_insert_ne by lia. reflexivity.
  - split; [reflexivity | discriminate].
Qed.

Lemma for_in_invariant {S : Type} (P : S -> Prop) (the_list : S -> list nat)
    (body : nat -> S -> S) :
  (forall x s, P s -> P (body x s)) ->
  forall fuel i s, P s -> P (for_in fuel the_list body i s).
Proof.
  intros Hb. induction fuel as [| fuel IH]; intros i s Hs; simpl; [exact Hs |].
  destruct (the_list s !! i); [| exact Hs]. apply IH, Hb, Hs.
Qed.

Lemma list_remove_subset x l i : i ∈ list_remove x l -> i ∈ l.
Proof.
  induction l as [| y l IH]; simpl; [auto |].
  destruct (Nat.eqb y x).
  - intros Hi. right. exact Hi.
  - intros Hi. apply elem_of_cons in Hi. destruct Hi as [-> | Hi]; [left | right; auto].
Qed.

(** As [for_in_invariant], for a body that relies on its element being in
    the list. *)
Lemma for_in_invariant_in {S : Type} (P : S -> Prop) (the_list : S -> list nat)
    (body : nat -> S -> S) :
  (forall x s, x ∈ the_list s -> P s -> P (body x s)) ->
  forall fuel i s, P s -> P (for_in fuel the_list body i s).
Proof.
  intros Hb. induction fuel as [| fuel IH]; intros i s Hs; simpl; [exact Hs |].
  destruct (the_list s !! i) as [x |] eqn:Hx; [| exact Hs].
  apply IH, Hb; [| exact Hs]. eapply list_elem_of_lookup_2. exact Hx.
Qed.

Lemma list_remove_other x y l : y ∈ l -> y <> x -> y ∈ list_remove x l.
Proof.
  induction l as [| z l IH]; intros Hy Hne; [inversion Hy |]. simpl.
  destruct (Nat.eqb z x) eqn:E.
  - apply Nat.eqb_eq in E. subst z.
    apply elem_of_cons in Hy. destruct Hy as [-> | Hy]; [congruence | exact Hy].
  - apply elem_of_cons in Hy. destruct Hy as [-> | Hy]; [left | right; auto].
Qed.

Lemma filter_list_remove_length (P : nat -> bool) x l :
  x ∈ l -> P x = true ->
  Datatypes.S (length (List.filter P (list_remove x l))) = length (List.filter P l).
Proof.
  induction l as [| y l IH]; intros Hx HP; [inversion Hx |]. simpl.
  destruct (Nat.eqb y x) eqn:E.
  - apply Nat.eqb_eq in E. subst y. rewrite HP. reflexivity.
  - apply Nat.eqb_neq in E.
    apply elem_of_cons in Hx. destruct Hx as [-> | Hx]; [congruence |].
    simpl. destruct (P y); simpl; rewrite (IH Hx HP); reflexivity.
Qed.

Lemma elem_of_List_filter (P : nat -> bool) x l :
  x ∈ List.filter P l <-> x ∈ l /\ P x = true.
Proof. rewrite !list_elem_of_In. apply filter_In. Qed.

(** The icon's three charges are added: the loop starts. *)
Lemma upgrading_start lv :
  upgrading lv
    (set_paddle (set_invincible_balls (invincible_balls (paddle lv) + 3) (paddle lv)) lv).
Proof.
  unfold upgrading. simpl.
  split; [reflexivity |]. split; [lia |]. split; [lia |].
  split; [intros y Hy; left; exact Hy |].
  intros new b' H1 H2. congruence.
Qed.

(** One round of the loop. *)
Lemma upgrading_step assets lv x s :
  x ∈ magnetic_ball_list (paddle s) ->
  upgrading lv s -> upgrading lv (make_invincible assets x s).
Proof.
  intros Hx Hup. pose proof Hup as (Hsub & Hcount & Hleft & Hlist & Hnew).
  destruct (balls s !! x) as [b |] eqn:Hb.
  2: { unfold make_invincible. rewrite Hb. exact Hup. }
  destruct (is_invincible b) eqn:Hi.
  { rewrite (make_invincible_skip _ _ _ _ Hb Hi). exact Hup. }
  clear Hup.
  destruct (make_invincible_convert assets x s b Hb Hi) as (Hl & Hc & Hs & _).
  set (s' := make_invincible assets x s) in *.
  set (new := new_ball_id s) in *.
  set (P := not_yet_invincible (balls lv)) in *.
  assert (Hfresh : balls s !! new = None) by apply new_ball_id_fresh.
  assert (Hfresh0 : balls lv !! new = None).
  { destruct (balls lv !! new) as [b0 |] eqn:E; [| reflexivity].
    rewrite (lookup_weaken _ _ _ _ E Hsub) in Hfresh. discriminate. }
  assert (Hxnew : x <> new) by (intros ->; congruence).
  assert (Hold : balls lv !! x = Some b).
  { destruct (balls lv !! x) as [b0 |] eqn:E.
    - rewrite (lookup_weaken _ _ _ _ E Hsub) in Hb. exact Hb.
    - destruct (Hnew x b Hb E) as (Ht & _). unfold is_invincible in Hi.
      rewrite Ht in Hi. discriminate. }
  assert (HPx : P x = true).
  { unfold P, not_yet_invincible. rewrite Hold, Hi. reflexivity. }
  assert (HPnew : P new = false).
  { unfold P, not_yet_invincible. rewrite Hfresh0. reflexivity. }
  assert (Hxatt : x ∈ magnetic_ball_list (paddle lv)).
  { destruct (Hlist x Hx) as [H | H]; [exact H | congruence]. }
  unfold upgrading. rewrite Hl, Hc, Hs.
  split; [| split; [| split; [| split]]].
  - etransitivity; [exact Hsub |]. apply insert_subseteq. exact Hfresh.
  - rewrite map_size_insert_None by exact Hfresh. lia.
  - rewrite map_size_insert_None by exact Hfresh.
    assert (Hin : x ∈ magnetic_ball_list (paddle s) ++ [new])
      by (apply elem_of_app; left; exact Hx).
    pose proof (filter_list_remove_length P x _ Hin HPx) as Hrm.
    rewrite List.filter_app in Hrm. simpl in Hrm. rewrite HPnew in Hrm.
    rewrite length_app in Hrm. simpl in Hrm. fold P in Hleft. fold P. lia.
  - intros y Hy. apply list_remove_subset in Hy. apply elem_of_app in Hy.
    destruct Hy as [Hy | Hy]; [apply Hlist; exact Hy |].
    apply list_elem_of_singleton in Hy. subst y. right. exact Hfresh0.
  - intros c b' Hc' Hc0. destruct (decide (c = new)) as [-> | Hne].
    + rewrite lookup_insert_eq in Hc'. inversion Hc'; subst b'.
      split; [apply converted_ball_type |]. split.
      * apply list_remove_other; [| auto].
        apply elem_of_app. right. left.
      * exists x, b. split; [apply elem_of_List_filter; auto |].
        split; [exact Hold |]. apply converted_ball_position.
    + rewrite lookup_insert_ne in Hc' by auto.
      destruct (Hnew c b' Hc' Hc0) as (Ht & Hin & Hex).
      split; [exact Ht |]. split; [| exact Hex].
      apply list_remove_other; [apply elem_of_app; left; exact Hin |].
      intros ->. rewrite Hb in Hc'. inversion Hc'; subst b'.
      unfold is_invincible in Hi. rewrite Ht in Hi. discriminate.
Qed.

Lemma InvinciBallIcon_upgrading assets lv :
  upgrading lv (InvinciBallIcon_activate assets lv).
Proof.
  unfold InvinciBallIcon_activate. cbv zeta.
  apply (for_in_invariant_in (upgrading lv) (fun lv => magnetic_ball_list (paddle lv))).
  - intros x s Hx Hs. apply upgrading_step; assumption.
  - apply upgrading_start.
Qed.

(** C5, amended: the icon adds 3 to [invincible_balls] and every conversion
    of an attached ball takes one charge back, so the count ends at
    [+ 3 - (number converted)], for any number of attached balls: the balls
    converted are the balls the icon has created, each a
    [MagneticInviciBall] of the magnetic-ball list at the place of an
    attached ball that was not yet invincible, and there are no more of
    them than of those.  When at most one attached ball is not yet
    invincible, that ball is converted to a [MagneticInviciBall] at the same
    position, which replaces it in the paddle's magnetic-ball list and in
    the level's ball list; the list keeps its length and every attached ball
    is invincible afterwards. *)
Theorem invincible_icon_upgrades_attached_ball (assets : Assets) (lv : Level) :
  let attached := magnetic_ball_list (paddle lv) in
  let pending := List.filter (not_yet_invincible (balls lv)) attached in
  let lv' := InvinciBallIcon_activate assets lv in
  let converted := (size (balls lv') - size (balls lv))%nat in
  (invincible_balls (paddle lv') = (invincible_balls (paddle lv) + 3 - Z.of_nat converted)%Z
   /\ (converted <= length pending)%nat
   /\ balls lv ⊆ balls lv'
   /\ (forall new b', balls lv' !! new = Some b' -> balls lv !! new = None ->
         ball_type b' = MagneticInviciBall
         /\ new ∈ magnetic_ball_list (paddle lv')
         /\ exists old b,
              old ∈ pending /\ balls lv !! old = Some b
              /\ center_x (ball_sprite b') = center_x (ball_sprite b)
              /\ center_y (ball_sprite b') = center_y (ball_sprite b)))
  /\ ((forall id, id ∈ attached -> is_Some (balls lv !! id)) ->
      (length pending <= 1)%nat ->
      invincible_balls (paddle lv')
        = (invincible_balls (paddle lv) + 3 - Z.of_nat (length pending))%Z
      /\ length (magnetic_ball_list (paddle lv')) = length attached
      /\ (forall id, id ∈ magnetic_ball_list (paddle lv') ->
            exists b, balls lv' !! id = Some b /\ is_invincible b = true)
      /\ (forall id b, id ∈ pending -> balls lv !! id = Some b ->
            (id ∉ magnetic_ball_list (paddle lv')) /\ (id ∉ ball_list lv')
            /\ exists new b',
                 new ∈ magnetic_ball_list (paddle lv') /\ new ∈ ball_list lv'
                 /\ balls lv' !! new = Some b' /\ ball_type b' = MagneticInviciBall
                 /\ center_x (ball_sprite b') = center_x (ball_sprite b)
                 /\ center_y (ball_sprite b') = center_y (ball_sprite b))).
Proof.
  intros attached pending lv' converted. split.
  { destruct (InvinciBallIcon_upgrading assets lv) as (Hsub & Hcount & Hleft & _ & Hnew).
    fold lv' in Hsub, Hcount, Hleft, Hnew. fold attached in Hleft. fold pending in Hleft.
    pose proof (map_subseteq_size _ _ Hsub) as Hsize.
    subst converted.
    split; [lia |]. split; [lia |]. split; [exact Hsub |]. exact Hnew. }
  subst attached pending lv'. clear converted. intros Hlive Hone.
  set (attached := magnetic_ball_list (paddle lv)) in *.
  assert (Hinv : forall y, y ∈ attached -> not_yet_invincible (balls lv) y = false ->
                   exists c, balls lv !! y = Some c /\ is_invincible c = true).
  { intros y Hy Hny. destruct (Hlive y Hy) as [c Hc]. exists c. split; [exact Hc |].
    unfold not_yet_invincible in Hny. rewrite Hc in Hny.
    destruct (is_invincible c); [reflexivity | discriminate]. }
  destruct (filter_at_most_one _ _ Hone)
    as [[Hnil Hall] | (pre & x & post & Hl & Hf & Hx & Hpre & Hpost)].
  - (* nothing to convert *)
    rewrite (InvinciBallIcon_none_pending assets lv Hall).
    rewrite Hnil. simpl. split; [lia |]. split; [reflexivity |]. split.
    + intros id Hid. apply Hinv; [exact Hid |].
      rewrite Forall_forall in Hall. apply Hall. exact Hid.
    + intros id b Hid. inversion Hid.
  - (* one ball to convert *)
    assert (Hxin : x ∈ attached).
    { rewrite Hl. apply elem_of_app. right. left. }
    destruct (Hlive x Hxin) as [bx Hbx].
    assert (Hxi : is_invincible bx = false).
    { unfold not_yet_invincible in Hx. rewrite Hbx in Hx.
      destruct (is_invincible bx); [discriminate | reflexivity]. }
    assert (Hrest : forall y, y ∈ pre ++ post ->
                      exists c, balls lv !! y = Some c /\ is_invincible c = true).
    { intros y Hy. rewrite Forall_forall in Hpre, Hpost.
      apply elem_of_app in Hy. destruct Hy as [Hy | Hy].
      - apply Hinv; [| apply Hpre; exact Hy].
        rewrite Hl. apply elem_of_app. left. exact Hy.
      - apply Hinv; [| apply Hpost; exact Hy].
        rewrite Hl. apply elem_of_app. right. right. exact Hy. }
    assert (Hxrest : x ∉ pre ++ post).
    { intros Hin. destruct (Hrest x Hin) as (c & Hc & Hci). rewrite Hbx in Hc.
      inversion Hc; subst. congruence. }
    assert (Hxpre : x ∉ pre).
    { intros Hin. apply Hxrest. apply elem_of_app. left. exact Hin. }
    rewrite (InvinciBallIcon_one_pending assets lv pre x post bx Hl Hbx Hxi Hrest).
    set (lvA := set_paddle _ lv).
    destruct (make_invincible_convert assets x lvA bx Hbx Hxi) as (Hml & Hc & Hs & Hbl).
    change (new_ball_id lvA) with (new_ball_id lv) in *.
    change (magnetic_ball_list (paddle lvA)) with attached in Hml.
    change (ball_list lvA) with (ball_list lv) in Hbl.
    change (balls lvA) with (balls lv) in Hs.
    rewrite Hl, (list_remove_middle _ _ _ _ Hxpre) in Hml.
    assert (Hxnew : x <> new_ball_id lv) by (apply new_ball_id_ne; rewrite Hbx; eauto).
    rewrite Hml, Hc, Hs, Hbl, Hf. simpl length.
    split; [simpl; lia |]. split.
    { rewrite Hl. rewrite !length_app. simpl. lia. }
    split.
    + intros id Hid. rewrite app_assoc in Hid. apply elem_of_app in Hid.
      destruct Hid as [Hid | Hid].
      * destruct (Hrest id Hid) as (c & Hc' & Hci). exists c. split; [| exact Hci].
        rewrite lookup_insert_ne; [exact Hc' |].
        apply not_eq_sym, new_ball_id_ne. rewrite Hc'. eauto.
      * apply list_elem_of_singleton in Hid. subst id. eexists.
        split; [apply lookup_insert_eq |].
        unfold is_invincible. rewrite converted_ball_type. reflexivity.
    + intros id b Hid Hb. apply list_elem_of_singleton in Hid. subst id.
      rewrite Hbx in Hb. inversion Hb; subst b. split; [| split].
      * rewrite app_assoc. intros Hin. apply elem_of_app in Hin. destruct Hin as [Hin | Hin].
        -- exact (Hxrest Hin).
        -- apply list_elem_of_singleton in Hin. exact (Hxnew Hin).
      * apply remove_id_not_in.
      * exists (new_ball_id lv), (converted_ball assets lvA bx MagneticInviciBall).
        split; [rewrite app_assoc; apply elem_of_app; right; left |].
        split.
        { apply remove_id_in; [apply elem_of_app; right; left | auto]. }
        split; [apply lookup_insert_eq |].
        split; [apply converted_ball_type |].
        apply converted_ball_position.
Qed.

(** One normal magnetic ball on the paddle: it is converted, and one of the
    three charges is spent on it.  Two of them: the count of charges
    follows the count of balls created. *)
Lemma invincible_icon_upgrades_attached_ball_witness :
  (let lv' := InvinciBallIcon_activate sample_assets sample_level_one_attached in
   invincible_balls (paddle lv') = 2%Z
   /\ length (magnetic_ball_list (paddle lv')) = 1%nat
   /\ (forall id, id ∈ magnetic_ball_list (paddle lv') ->
         exists b, balls lv' !! id = Some b /\ is_invincible b = true))
  /\ (let lv := sample_level_two_attached in
      let lv' := InvinciBallIcon_activate sample_assets lv in
      invincible_balls (paddle lv')
      = (invincible_balls (paddle lv) + 3
         - Z.of_nat (size (balls lv') - size (balls lv)))%Z).
Proof.
  split.
  - destruct (invincible_icon_upgrades_attached_ball sample_assets sample_level_one_attached)
      as [_ Hone].
    destruct Hone as (Hc & Hlen & Hall & _).
    + intros id Hid. simpl in Hid. apply list_elem_of_singleton in Hid. subst id.
      eexists. reflexivity.
    + vm_compute. lia.
    + cbv zeta. split; [exact Hc |]. split; [exact Hlen | exact Hall].
  - destruct (invincible_icon_upgrades_attached_ball sample_assets sample_level_two_attached)
      as [(Hc & _) _].
    exact Hc.
Defined.

(** ** Landing on the paddle top *)

Lemma change_velocity_type paddle b : ball_type (change_velocity paddle b) = ball_type b.
Proof.
  unfold change_velocity, change_velocity_unclamped.
  repeat match goal with |- context [if ?c then _ else _] => destruct c end; reflexivity.
Qed.

Lemma convert_to_paddle assets self t lv :
  paddle (snd (convert_to assets self t lv)) = paddle lv.
Proof. unfold convert_to. destruct (balls lv !! self); reflexivity. Qed.

Lemma split_into_two_invincible_balls assets self lv :
  invincible_balls (paddle (split_into_two assets self lv)) = invincible_balls (paddle lv).
Proof. unfold split_into_two. destruct (balls lv !! self); reflexivity. Qed.

Lemma split_into_two_old_balls assets self lv id b :
  balls lv !! id = Some b -> balls (split_into_two assets self lv) !! id = Some b.
Proof.
  intros Hb. unfold split_into_two. destruct (balls lv !! self); [| exact Hb]. simpl.
  rewrite lookup_insert_ne; [exact Hb |].
  apply not_eq_sym, new_ball_id_ne. rewrite Hb. eauto.
Qed.

Lemma split_into_two_ball_list assets self lv id :
  id ∈ ball_list lv -> id ∈ ball_list (split_into_two assets self lv).
Proof.
  intros Hin. unfold split_into_two. destruct (balls lv !! self); [| exact Hin]. simpl.
  apply elem_of_app. left. exact Hin.
Qed.

(** The rest of [change_properties], after the invincibility step, leaves
    the charge count alone. *)
Lemma Ball_change_properties_charges assets self lv :
  invincible_balls (paddle (Ball_change_properties assets self lv))
  = invincible_balls (paddle (snd (change_invincibility assets self lv))).
Proof.
  unfold Ball_change_properties.
  destruct (change_invincibility assets self lv) as [ball lv1]. simpl.
  destruct (balls lv1 !! ball) as [b |]; [| reflexivity].
  destruct (is_magnetic (paddle lv1)).
  - destruct (is_invincible b).
    + pose proof (convert_to_paddle assets ball MagneticInviciBall lv1) as Hp.
      destruct (convert_to assets ball MagneticInviciBall lv1) as [mb lv2].
      simpl in *. rewrite Hp. reflexivity.
    + pose proof (convert_to_paddle assets ball MagneticNormalBall lv1) as Hp.
      destruct (convert_to assets ball MagneticNormalBall lv1) as [mb lv2].
      simpl in *. rewrite Hp. reflexivity.
  - destruct (_ >? 0)%Z; [rewrite split_into_two_invincible_balls |]; reflexivity.
Qed.

(** C9: when a ball that is already invincible lands on the paddle top
    while [paddle.invincible_balls > 0], the invincibility step of
    [change_properties] converts nothing (it keeps the ball object, the
    store and the ball list as they are) and still takes one charge; the
    whole call ends with one charge less.  On a paddle that is not magnetic
    the same ball object, of the same class, stays in the ball list. *)
Theorem invincible_landing_consumes_charge
    (assets : Assets) (self : nat) (lv : Level) (b : Ball) :
  balls lv !! self = Some b ->
  is_invincible b = true ->
  (invincible_balls (paddle lv) > 0)%Z ->
  change_invincibility assets self lv
    = (self,
       set_paddle (set_invincible_balls (invincible_balls (paddle lv) - 1) (paddle lv)) lv)
  /\ invincible_balls (paddle (Ball_change_properties assets self lv))
     = (invincible_balls (paddle lv) - 1)%Z
  /\ (is_magnetic (paddle lv) = false ->
      (exists b', balls (Ball_change_properties assets self lv) !! self = Some b'
                  /\ ball_type b' = ball_type b)
      /\ (self ∈ ball_list lv -> self ∈ ball_list (Ball_change_properties assets self lv))).
Proof.
  intros Hb Hi Hc.
  assert (Hstep : change_invincibility assets self lv
                  = (self, set_paddle (set_invincible_balls
                                         (invincible_balls (paddle lv) - 1) (paddle lv)) lv)).
  { unfold change_invincibility. rewrite Hb, Hi.
    destruct (invincible_balls (paddle lv) >? 0)%Z eqn:E; [reflexivity | lia]. }
  split; [exact Hstep |]. split.
  - rewrite Ball_change_properties_charges, Hstep. reflexivity.
  - intros Hm. unfold Ball_change_properties. rewrite Hstep. simpl. rewrite Hb, Hm.
    set (lv2 := Ball_change_velocity self _).
    assert (Hb2 : balls lv2 !! self = Some (change_velocity (paddle_sprite (paddle lv)) b)).
    { unfold lv2, Ball_change_velocity. simpl. rewrite lookup_alter_eq, Hb. reflexivity. }
    destruct (_ >? 0)%Z.
    + split.
      * eexists. split; [apply split_into_two_old_balls; exact Hb2 |].
        apply change_velocity_type.
      * intros Hin. apply split_into_two_ball_list. exact Hin.
    + split.
      * eexists. split; [exact Hb2 | apply change_velocity_type].
      * intros Hin. exact Hin.
Qed.

(** An invincible ball lands with two charges left: one charge remains and
    the ball is still the invincible ball 0 of the ball list. *)
Lemma invincible_landing_consumes_charge_witness :
  let lv := sample_level_invincible_landing in
  invincible_balls (paddle lv) = 2%Z
  /\ invincible_balls (paddle (Ball_change_properties sample_assets 0%nat lv)) = 1%Z
  /\ exists b', balls (Ball_change_properties sample_assets 0%nat lv) !! 0%nat = Some b'
                /\ ball_type b' = InvinciBall.
Proof.
  destruct (invincible_landing_consumes_charge sample_assets 0%nat
              sample_level_invincible_landing
              (mkBall InvinciBall true (mkSprite 560 75 20 20) 300 600 300 (-520)))
    as (_ & Hc & Hrest).
  - reflexivity.
  - reflexivity.
  - simpl. lia.
  - destruct (Hrest eq_refl) as [Hb' _].
    cbv zeta. split; [reflexivity |]. split; [exact Hc | exact Hb'].
Defined.

(** ** Level completion *)


(** Breaking bricks and losing lives do not write the bonus score: it is the
    0 of [Level.__init__] until the level completes. *)
Lemma Brick_change_properties_bonus_score self lv :
  bonus_score (Brick_change_properties self lv) = bonus_score lv.
Proof.
  unfold Brick_change_properties.
  destruct (bricks lv !! self) as [k |]; [| reflexivity].
  destruct (is_breakable k && negb (has_been_hit k)); [| reflexivity].
  simpl.
  repeat match goal with
  | |- context [if ?c then _ else _] => destruct c; simpl
  | |- context [match icon ?k with _ => _ end] => destruct (icon k); simpl
  end; reflexivity.
Qed.

Lemma lose_a_life_bonus_score lv : bonus_score (lose_a_life lv) = bonus_score lv.
Proof. unfold lose_a_life. simpl. destruct (_ =? 0)%Z; reflexivity. Qed.

(** ** The active tick *)

Lemma lose_a_life_lives lv : lives (window (lose_a_life lv)) = (lives (window lv) - 1)%Z.
Proof. unfold lose_a_life. simpl. destruct (_ =? 0)%Z; reflexivity. Qed.

Lemma level_is_complete_keeps_lives lv :
  lives (window (level_is_complete lv)) = lives (window lv)
  /\ lost_a_life (level_is_complete lv) = lost_a_life lv
  /\ game_over (level_is_complete lv) = game_over lv
  /\ level_complete (level_is_complete lv) = true.
Proof.
  unfold level_is_complete. simpl.
  destruct (_ =? 5)%nat; [destruct (String.eqb _ _) |]; simpl; auto.
Qed.

Lemma tick_start_game_is_active dt lv : game_is_active (tick_start dt lv) = game_is_active lv.
Proof. unfold tick_start. simpl. destruct (_ && _); reflexivity. Qed.

Lemma Level_on_update_active assets sprites_on_update lowest dt lv :
  game_is_active lv = true ->
  let lv2 := sprites_on_update (tick_start dt lv) in
  Level_on_update assets sprites_on_update lowest dt lv
  = if bool_decide (breakable_brick_list lv2 = []) then Some (level_is_complete lv2)
    else if bool_decide (ball_list lv2 = []) then Some (lose_a_life lv2)
    else Some lv2.
Proof.
  intros Ha. pose proof (tick_start_game_is_active dt lv) as Hs.
  unfold Level_on_update. unfold tick_start in *. cbv zeta in *.
  rewrite Hs, Ha. reflexivity.
Qed.

(** ** The bonus of a completed level *)





(** C10: on an active tick after whose sprite updates no breakable brick is
    left, [on_update] completes the level and does not call [lose_a_life],
    whether or not a ball is left: the result is [level_is_complete] of the
    updated level, with the lives, [lost_a_life] and [game_over] the updates
    left ([lose_a_life] would have taken a life). *)
Theorem completion_precedes_life_loss
    (assets : Assets) (sprites_on_update : Level -> Level)
    (lowest_high_score : option Z) (delta_time : R) (lv : Level) :
  game_is_active lv = true ->
  let lv2 := sprites_on_update (tick_start delta_time lv) in
  breakable_brick_list lv2 = [] ->
  exists lv3,
    Level_on_update assets sprites_on_update lowest_high_score delta_time lv = Some lv3
    /\ lv3 = level_is_complete lv2
    /\ lives (window lv3) = lives (window lv2)
    /\ lives (window lv3) <> lives (window (lose_a_life lv2))
    /\ lost_a_life lv3 = lost_a_life lv2
    /\ game_over lv3 = game_over lv2
    /\ level_complete lv3 = true.
Proof.
  intros Ha lv2 Hempty. exists (level_is_complete lv2).
  rewrite (Level_on_update_active _ _ _ _ _ Ha). fold lv2.
  rewrite bool_decide_eq_true_2 by exact Hempty.
  destruct (level_is_complete_keeps_lives lv2) as (Hl & Hlost & Hover & Hdone).
  rewrite Hl, lose_a_life_lives. repeat split; auto. lia.
Qed.

(** The last brick breaks in the tick in which the last ball falls out: the
    level is complete and the three lives are kept. *)
Lemma completion_precedes_life_loss_witness :
  exists lv3,
    Level_on_update sample_assets sample_last_brick_and_ball_gone None (1 / 60) sample_level
      = Some lv3
    /\ ball_list (sample_last_brick_and_ball_gone (tick_start (1 / 60) sample_level)) = []
    /\ level_complete lv3 = true
    /\ lost_a_life lv3 = false
    /\ lives (window lv3) = 3%Z.
Proof.
  destruct (completion_precedes_life_loss sample_assets sample_last_brick_and_ball_gone
              None (1 / 60) sample_level eq_refl eq_refl)
    as (lv3 & Hrun & _ & Hlives & _ & Hlost & _ & Hdone).
  exists lv3. split; [exact Hrun |]. split; [reflexivity |].
  split; [exact Hdone |]. split; [rewrite Hlost; reflexivity |].
  rewrite Hlives. reflexivity.
Defined.

(** ** The hit latch of a brick *)

Lemma Brick_change_properties_latched self lv k :
  bricks lv !! self = Some k -> has_been_hit k = true ->
  Brick_change_properties self lv = lv.
Proof.
  intros Hk Hh. unfold Brick_change_properties. rewrite Hk, Hh.
  rewrite andb_false_r. reflexivity.
Qed.

Lemma Brick_change_properties_first self lv k :
  bricks lv !! self = Some k -> is_breakable k = true -> has_been_hit k = false ->
  let lv1 := Brick_change_properties self lv in
  win_score (window lv1) = (win_score (window lv) + score k)%Z
  /\ (exists k1, bricks lv1 !! self = Some k1
                 /\ has_been_hit k1 = true /\ is_breakable k1 = true
                 /\ cur_texture_index k1 = (cur_texture_index k + 1)%Z)
  /\ ((cur_texture_index k + 1 <? Z.of_nat (length (textures k)))%Z = false ->
      (self ∉ brick_list lv1) /\ (self ∉ breakable_brick_list lv1)).
Proof.
  intros Hk Hb Hh. unfold Brick_change_properties. rewrite Hk, Hb, Hh. simpl andb. cbv iota.
  cbv zeta. simpl cur_texture_index. simpl textures. simpl score. simpl letter. simpl icon.
  destruct (cur_texture_index k + 1 <? Z.of_nat (length (textures k)))%Z;
    destruct (negb (String.eqb (letter k) "")); destruct (icon k); simpl;
    rewrite lookup_insert_eq.
  all: split; [reflexivity |].
  all: split; [eexists; split; [reflexivity |]; simpl; auto |].
  all: intros Hd; try discriminate.
  all: split; apply remove_id_not_in.
Qed.

Lemma Brick_update_overlapping ball_hits bullet_hits k :
  ball_hits <> [] \/ bullet_hits <> [] -> Brick_update ball_hits bullet_hits k = k.
Proof.
  intros Ho. unfold Brick_update.
  destruct (has_been_hit k); [| reflexivity]. simpl.
  destruct Ho as [Ho | Ho].
  - rewrite bool_decide_eq_false_2 by exact Ho. reflexivity.
  - rewrite (bool_decide_eq_false_2 _ Ho). rewrite andb_false_r. reflexivity.
Qed.

(** The latch drops only in an update that finds no ball and no bullet on
    the brick. *)
Lemma Brick_update_clears ball_hits bullet_hits k :
  has_been_hit k = true ->
  has_been_hit (Brick_update ball_hits bullet_hits k) = false ->
  ball_hits = [] /\ bullet_hits = [].
Proof.
  intros Hh Hc. unfold Brick_update in Hc. rewrite Hh in Hc. simpl in Hc.
  destruct (bool_decide (ball_hits = [])) eqn:E1; simpl in Hc; [| congruence].
  destruct (bool_decide (bullet_hits = [])) eqn:E2; simpl in Hc; [| congruence].
  apply bool_decide_eq_true_1 in E1, E2. auto.
Qed.

Lemma Brick_update_free k : has_been_hit (Brick_update [] [] k) = false.
Proof. unfold Brick_update. destruct (has_been_hit k) eqn:E; simpl; [reflexivity | exact E]. Qed.

(** While the overlap lasts, a latched brick and the score stay as they
    are. *)
Lemma brick_event_latched self lv k e :
  bricks lv !! self = Some k -> has_been_hit k = true -> still_overlapping e ->
  bricks (brick_event self lv e) !! self = Some k
  /\ window (brick_event self lv e) = window lv.
Proof.
  intros Hk Hh Ho. destruct e as [| bh uh]; simpl.
  - rewrite (Brick_change_properties_latched _ _ _ Hk Hh). auto.
  - rewrite lookup_alter_eq, Hk. simpl. rewrite Brick_update_overlapping by exact Ho. auto.
Qed.

Lemma brick_events_latched self events :
  forall lv k,
    bricks lv !! self = Some k -> has_been_hit k = true ->
    Forall still_overlapping events ->
    bricks (foldl (brick_event self) lv events) !! self = Some k
    /\ window (foldl (brick_event self) lv events) = window lv.
Proof.
  induction events as [| e events IH]; intros lv k Hk Hh Hall; simpl; [auto |].
  inversion Hall as [| e' events' He Hrest]; subst.
  destruct (brick_event_latched self lv k e Hk Hh He) as [Hk' Hw'].
  destruct (IH (brick_event self lv e) k Hk' Hh Hrest) as [Hk'' Hw''].
  rewrite Hk'', Hw'', Hw'. auto.
Qed.

(** [Brick.update] writes the latch and nothing else. *)
Lemma Brick_update_only_latch ball_hits bullet_hits k :
  set_has_been_hit (has_been_hit k) (Brick_update ball_hits bullet_hits k) = k.
Proof.
  unfold Brick_update. destruct k as [sp br hit sb sc le ic idx tx]. simpl.
  destruct hit; simpl; [| reflexivity].
  destruct (bool_decide (ball_hits = [])); simpl; [| reflexivity].
  destruct (bool_decide (bullet_hits = [])); reflexivity.
Qed.

(** C4: for a breakable single-stage brick that is not latched, the first
    [change_properties] call sets [has_been_hit], adds the brick's score to
    the level score and takes the brick off the brick lists; through any
    further calls and updates of the same overlap (every update still finds
    a ball or a bullet on the brick) the score stays at that one award and
    the latch stays set; the first update that finds neither a ball nor a
    bullet on the brick clears the latch and leaves the score alone; and
    [Brick.update] clears a set latch exactly when it finds neither, and
    writes nothing but the latch. *)
Theorem brick_score_awarded_once
    (self : nat) (lv : Level) (k : Brick) (events : list BrickEvent) :
  bricks lv !! self = Some k ->
  is_breakable k = true ->
  has_been_hit k = false ->
  cur_texture_index k = 0%Z ->
  length (textures k) = 1%nat ->
  Forall still_overlapping events ->
  let lv1 := Brick_change_properties self lv in
  let lv2 := foldl (brick_event self) lv1 events in
  let lv3 := brick_event self lv2 (Update [] []) in
  win_score (window lv1) = (win_score (window lv) + score k)%Z
  /\ (exists k1, bricks lv1 !! self = Some k1 /\ has_been_hit k1 = true)
  /\ (self ∉ brick_list lv1)
  /\ win_score (window lv2) = (win_score (window lv) + score k)%Z
  /\ (exists k2, bricks lv2 !! self = Some k2 /\ has_been_hit k2 = true)
  /\ (exists k3, bricks lv3 !! self = Some k3 /\ has_been_hit k3 = false)
  /\ win_score (window lv3) = (win_score (window lv) + score k)%Z
  /\ (forall ball_hits bullet_hits k',
        has_been_hit k' = true ->
        (has_been_hit (Brick_update ball_hits bullet_hits k') = false
         <-> ball_hits = [] /\ bullet_hits = []))
  /\ (forall ball_hits bullet_hits k',
        set_has_been_hit (has_been_hit k') (Brick_update ball_hits bullet_hits k') = k').
Proof.
  intros Hk Hb Hh Hidx Hlen Hall lv1 lv2 lv3.
  destruct (Brick_change_properties_first self lv k Hk Hb Hh)
    as (Hscore & (k1 & Hk1 & Hh1 & _ & _) & Hgone).
  fold lv1 in Hscore, Hk1, Hgone.
  destruct (brick_events_latched self events lv1 k1 Hk1 Hh1 Hall) as [Hk2 Hw2].
  fold lv2 in Hk2, Hw2.
  split; [exact Hscore |].
  split; [exists k1; auto |].
  split.
  { apply Hgone. rewrite Hidx, Hlen. reflexivity. }
  split; [rewrite Hw2; exact Hscore |].
  split; [exists k1; auto |].
  split.
  { exists (Brick_update [] [] k1). split; [| apply Brick_update_free].
    subst lv3. simpl. rewrite lookup_alter_eq, Hk2. reflexivity. }
  split.
  { subst lv3. simpl. rewrite Hw2. exact Hscore. }
  split.
  - intros bh uh k' Hk'. split.
    + intros Hc. exact (Brick_update_clears bh uh k' Hk' Hc).
    + intros [-> ->]. apply Brick_update_free.
  - intros bh uh k'. apply Brick_update_only_latch.
Qed.

(** A red brick worth 100 is hit, hit again by a second ball while the
    first is still on it, updated with a ball on it, and hit once more: the
    score is 100, and the update after the balls have left clears the
    latch. *)
Lemma brick_score_awarded_once_witness :
  let events := [Hit; Update [7%nat] []; Hit] in
  let lv2 := foldl (brick_event 0%nat)
                   (Brick_change_properties 0%nat sample_level_one_brick) events in
  win_score (window lv2) = 100%Z
  /\ exists k3,
       bricks (brick_event 0%nat lv2 (Update [] [])) !! 0%nat = Some k3
       /\ has_been_hit k3 = false.
Proof.
  destruct (brick_score_awarded_once 0%nat sample_level_one_brick sample_red_brick
              [Hit; Update [7%nat] []; Hit])
    as (_ & _ & _ & Hscore & _ & Hclear & _).
  - reflexivity.
  - reflexivity.
  - reflexivity.
  - reflexivity.
  - reflexivity.
  - constructor; [exact I |]. constructor; [simpl; left; discriminate |].
    constructor; [exact I |]. constructor.
  - cbv zeta. split; [rewrite Hscore; reflexivity | exact Hclear].
Defined.

(** ** The invincible ball against bricks *)

Lemma first_brick_Some cond store hit_list k :
  first_brick cond store hit_list = Some k ->
  exists id, id ∈ hit_list /\ store !! id = Some k /\ cond k = true.
Proof.
  induction hit_list as [| x l IH]; simpl; [discriminate |].
  destruct (store !! x) as [kx |] eqn:Hx.
  - destruct (cond kx) eqn:Hc.
    + intros H. inversion H; subst. exists x. split; [left | auto].
    + intros H. destruct (IH H) as (id & Hin & Hrest). exists id. split; [right | ]; auto.
  - intros H. destruct (IH H) as (id & Hin & Hrest). exists id. split; [right | ]; auto.
Qed.

Lemma first_brick_None cond store hit_list :
  first_brick cond store hit_list = None ->
  forall id k, id ∈ hit_list -> store !! id = Some k -> cond k = false.
Proof.
  induction hit_list as [| x l IH]; simpl; intros H id k Hin Hk; [inversion Hin |].
  apply elem_of_cons in Hin. destruct (store !! x) as [kx |] eqn:Hx.
  - destruct (cond kx) eqn:Hc; [discriminate |].
    destruct Hin as [-> | Hin]; [congruence | exact (IH H id k Hin Hk)].
  - destruct Hin as [-> | Hin]; [congruence | exact (IH H id k Hin Hk)].
Qed.

(** The loop with [break] deflects exactly when some brick of the hit list
    passes its test. *)
Lemma first_brick_is_Some cond store hit_list :
  is_Some (first_brick cond store hit_list)
  <-> exists id k, id ∈ hit_list /\ store !! id = Some k /\ cond k = true.
Proof.
  split.
  - intros [k Hk]. destruct (first_brick_Some _ _ _ _ Hk) as (id & H). exists id, k. exact H.
  - intros (id & k & Hin & Hk & Hc).
    destruct (first_brick cond store hit_list) as [k' |] eqn:E; [eauto |].
    rewrite (first_brick_None _ _ _ E id k Hin Hk) in Hc. discriminate.
Qed.

Lemma Brick_change_properties_other self lv id :
  id <> self -> bricks (Brick_change_properties self lv) !! id = bricks lv !! id.
Proof.
  intros Hne. unfold Brick_change_properties.
  destruct (bricks lv !! self) as [k |]; [| reflexivity].
  destruct (is_breakable k && negb (has_been_hit k)); [| reflexivity].
  simpl.
  repeat match goal with
  | |- context [if ?c then _ else _] => destruct c; simpl
  | |- context [match icon ?k with _ => _ end] => destruct (icon k); simpl
  end; rewrite lookup_insert_ne by auto; reflexivity.
Qed.

(** After [change_properties] a breakable brick is latched. *)
Lemma Brick_change_properties_latches self lv k :
  bricks lv !! self = Some k -> is_breakable k = true ->
  exists k', bricks (Brick_change_properties self lv) !! self = Some k'
             /\ is_breakable k' = true /\ has_been_hit k' = true.
Proof.
  intros Hk Hb. destruct (has_been_hit k) eqn:Hh.
  - rewrite (Brick_change_properties_latched _ _ _ Hk Hh). eauto.
  - destruct (Brick_change_properties_first self lv k Hk Hb Hh)
      as (_ & (k1 & Hk1 & Hh1 & Hb1 & _) & _).
    eauto.
Qed.

Lemma hit_all_keeps_latched hit_list :
  forall lv id k,
    bricks lv !! id = Some k -> is_breakable k = true -> has_been_hit k = true ->
    exists k', bricks (hit_all hit_list lv) !! id = Some k'
               /\ is_breakable k' = true /\ has_been_hit k' = true.
Proof.
  induction hit_list as [| x l IH]; intros lv id k Hk Hb Hh; simpl; [eauto |].
  destruct (decide (id = x)) as [-> | Hne].
  - apply (IH _ x k); auto. rewrite (Brick_change_properties_latched _ _ _ Hk Hh). exact Hk.
  - apply (IH _ id k); auto. rewrite Brick_change_properties_other by exact Hne. exact Hk.
Qed.

(** Every breakable brick of the hit list is latched once the hits are
    dealt. *)
Lemma hit_all_latches hit_list :
  forall lv id k,
    id ∈ hit_list -> bricks lv !! id = Some k -> is_breakable k = true ->
    exists k', bricks (hit_all hit_list lv) !! id = Some k'
               /\ is_breakable k' = true /\ has_been_hit k' = true.
Proof.
  induction hit_list as [| x l IH]; intros lv id k Hin Hk Hb; [inversion Hin |].
  simpl. destruct (decide (id = x)) as [-> | Hne].
  - destruct (Brick_change_properties_latches x lv k Hk Hb) as (k1 & Hk1 & Hb1 & Hh1).
    exact (hit_all_keeps_latched l _ x k1 Hk1 Hb1 Hh1).
  - apply elem_of_cons in Hin. destruct Hin as [Heq | Hin]; [contradiction |].
    apply (IH _ id k Hin); [| exact Hb].
    rewrite Brick_change_properties_other by exact Hne. exact Hk.
Qed.

(** C2, as the spec words it, fails on the horizontal step.  The hit set
    holds one brick, the safety barrier; the invincible ball keeps its
    [change_x]. *)
Lemma invincible_ball_barrier_counterexample :
  let lv := sample_level_barrier in
  let b := sample_invincible_ball in
  (exists k, bricks lv !! 0%nat = Some k /\ is_safety_barrier k = true)
  /\ change_x (fst (collides_with_brick_moving_horizontally [0%nat] b lv)) = change_x b
  /\ change_x (fst (collides_with_brick_moving_horizontally [0%nat] b lv)) <> - change_x b.
Proof.
  cbv zeta.
  assert (Hk : bricks sample_level_barrier !! 0%nat = Some (SafetyBarrier PlayingFieldBoundary))
    by reflexivity.
  assert (Hx : change_x (fst (collides_with_brick_moving_horizontally
                                [0%nat] sample_invincible_ball sample_level_barrier))
               = change_x sample_invincible_ball).
  { unfold collides_with_brick_moving_horizontally,
      InvinciBall_collides_with_brick_moving_horizontally. simpl ball_type. cbv iota.
    unfold first_brick. rewrite Hk. reflexivity. }
  split; [eexists; split; [exact Hk | reflexivity] |].
  split; [exact Hx |]. rewrite Hx. simpl. lra.
Qed.

(** C2, amended: for an [InvinciBall] with nonzero velocity components and
    the bricks it overlaps in an axis step, the vertical step negates
    [change_y] if and only if some overlapped brick is unbreakable or a
    safety barrier; the horizontal step negates [change_x] if and only if
    some overlapped brick is unbreakable and not a safety barrier (a safety
    barrier does not deflect it sideways); otherwise the component is left
    as it is, so breakable bricks that are not barriers never deflect it.
    When the ball belongs to a level, [change_properties] is called on
    every overlapped brick in turn, and every breakable one is latched as
    hit afterwards. *)
Theorem invincible_ball_brick_collision (hit_list : list nat) (b : Ball) (lv : Level) :
  ball_type b = InvinciBall ->
  change_x b <> 0 ->
  change_y b <> 0 ->
  let rx := collides_with_brick_moving_horizontally hit_list b lv in
  let ry := collides_with_brick_moving_vertically hit_list b lv in
  (change_x (fst rx) = - change_x b <->
     exists id k, id ∈ hit_list /\ bricks lv !! id = Some k
                  /\ is_breakable k = false /\ is_safety_barrier k = false)
  /\ (change_x (fst rx) = - change_x b \/ change_x (fst rx) = change_x b)
  /\ (change_y (fst ry) = - change_y b <->
     exists id k, id ∈ hit_list /\ bricks lv !! id = Some k
                  /\ (is_breakable k = false \/ is_safety_barrier k = true))
  /\ (change_y (fst ry) = - change_y b \/ change_y (fst ry) = change_y b)
  /\ (has_level b = true ->
      snd rx = hit_all hit_list lv
      /\ snd ry = hit_all hit_list lv
      /\ forall id k, id ∈ hit_list -> bricks lv !! id = Some k -> is_breakable k = true ->
           exists k', bricks (hit_all hit_list lv) !! id = Some k' /\ has_been_hit k' = true).
Proof.
  intros Ht Hx Hy rx ry. subst rx ry.
  unfold collides_with_brick_moving_horizontally, collides_with_brick_moving_vertically.
  rewrite Ht.
  unfold InvinciBall_collides_with_brick_moving_horizontally,
    InvinciBall_collides_with_brick_moving_vertically. simpl fst. simpl snd.
  pose proof (first_brick_is_Some
                (fun brick => negb (is_breakable brick) && negb (is_safety_barrier brick))
                (bricks lv) hit_list) as Hh.
  pose proof (first_brick_is_Some
                (fun brick => negb (is_breakable brick) || is_safety_barrier brick)
                (bricks lv) hit_list) as Hv.
  split; [| split; [| split; [| split]]].
  - clear Hv. destruct (first_brick _ (bricks lv) hit_list) as [k |] in Hh |- *; simpl.
    + split; [intros _ | intros _; lra].
      destruct (proj1 Hh ltac:(eauto)) as (id & k' & Hin & Hk & Hc).
      exists id, k'. apply andb_true_iff in Hc. destruct Hc as [Hc1 Hc2].
      apply negb_true_iff in Hc1, Hc2. auto.
    + split; [intros H; lra |].
      intros (id & k & Hin & Hk & Hb & Hs).
      assert (Hsome : is_Some (@None Brick)).
      { apply Hh. exists id, k. rewrite Hb, Hs. auto. }
      destruct Hsome as [? Hn]. discriminate.
  - clear Hh Hv.
    destruct (first_brick _ (bricks lv) hit_list); simpl; [left; lra | right; reflexivity].
  - clear Hh. destruct (first_brick _ (bricks lv) hit_list) as [k |] in Hv |- *; simpl.
    + split; [intros _ | intros _; lra].
      destruct (proj1 Hv ltac:(eauto)) as (id & k' & Hin & Hk & Hc).
      exists id, k'. apply orb_true_iff in Hc. destruct Hc as [Hc | Hc].
      * apply negb_true_iff in Hc. auto.
      * auto.
    + split; [intros H; lra |].
      intros (id & k & Hin & Hk & Hc).
      assert (Hsome : is_Some (@None Brick)).
      { apply Hv. exists id, k. split; [exact Hin |]. split; [exact Hk |].
        destruct Hc as [Hc | Hc]; rewrite Hc; [reflexivity | apply orb_true_r]. }
      destruct Hsome as [? Hn]. discriminate.
  - clear Hh Hv.
    destruct (first_brick _ (bricks lv) hit_list); simpl; [left; lra | right; reflexivity].
  - intros Hl. rewrite Hl. split; [reflexivity |]. split; [reflexivity |].
    intros id k Hin Hk Hb.
    destruct (hit_all_latches hit_list lv id k Hin Hk Hb) as (k' & Hk' & _ & Hh').
    eauto.
Qed.

(** An invincible ball of the level overlaps a red brick and an unbreakable
    brick: both steps turn it, and the red brick is latched. *)
Lemma invincible_ball_brick_collision_witness :
  let b := sample_invincible_ball in
  let lv := sample_level_two_bricks in
  change_x (fst (collides_with_brick_moving_horizontally [0; 1]%nat b lv)) = - change_x b
  /\ change_y (fst (collides_with_brick_moving_vertically [0; 1]%nat b lv)) = - change_y b
  /\ exists k', bricks (snd (collides_with_brick_moving_vertically [0; 1]%nat b lv)) !! 0%nat
                  = Some k'
                /\ has_been_hit k' = true.
Proof.
  destruct (invincible_ball_brick_collision [0; 1]%nat sample_invincible_ball
              sample_level_two_bricks)
    as (Hx & _ & Hy & _ & Hl).
  - reflexivity.
  - simpl. lra.
  - simpl. lra.
  - destruct (Hl eq_refl) as (_ & Hs & Hlatch).
    cbv zeta. split; [| split].
    + apply Hx. exists 1%nat, sample_unbreakable_brick.
      split; [right; left |]. split; [reflexivity | auto].
    + apply Hy. exists 1%nat, sample_unbreakable_brick.
      split; [right; left |]. split; [reflexivity | auto].
    + rewrite Hs. apply (Hlatch 0%nat sample_red_brick); [left | reflexivity | reflexivity].
Defined.

(** ** High scores *)

Lemma insert_entry_Permutation e l : Permutation (insert_entry e l) (e :: l).
Proof.
  induction l as [| e' l IH]; simpl; [reflexivity |].
  destruct (entry_score e' <=? entry_score e)%Z; [reflexivity |].
  rewrite IH. apply perm_swap.
Qed.

Lemma sorted_by_score_Permutation l : Permutation (sorted_by_score l) l.
Proof.
  induction l as [| e l IH]; simpl; [reflexivity |].
  rewrite insert_entry_Permutation, IH. reflexivity.
Qed.

Lemma insert_entry_sorted e l :
  StronglySorted by_score_desc l -> StronglySorted by_score_desc (insert_entry e l).
Proof.
  induction 1 as [| e' l Hs IH Hall]; simpl.
  - constructor; constructor.
  - destruct (entry_score e' <=? entry_score e)%Z eqn:E.
    + apply Z.leb_le in E. constructor.
      * constructor; assumption.
      * constructor; [exact E |].
        eapply Forall_impl; [exact Hall |]. unfold by_score_desc. intros x Hx. simpl in Hx. lia.
    + apply Z.leb_gt in E. constructor; [exact IH |].
      rewrite (insert_entry_Permutation e l). constructor; [unfold by_score_desc; lia | exact Hall].
Qed.

Lemma sorted_by_score_sorted l : StronglySorted by_score_desc (sorted_by_score l).
Proof.
  induction l as [| e l IH]; simpl; [constructor | apply insert_entry_sorted; exact IH].
Qed.

Lemma take_sorted n (l : list Entry) :
  StronglySorted by_score_desc l -> StronglySorted by_score_desc (take n l).
Proof.
  intros H. rewrite <- (take_drop n l) in H. exact (StronglySorted_app_1_l _ _ _ H).
Qed.

Lemma parse_rows_length rows entries :
  parse_rows rows = Some entries -> length entries = length rows.
Proof.
  revert entries. induction rows as [| r rows IH]; simpl; intros entries H.
  - inversion H. reflexivity.
  - destruct (parse_row r); [| discriminate].
    destruct (parse_rows rows) as [es |]; [| discriminate].
    inversion H. simpl. rewrite (IH es eq_refl). reflexivity.
Qed.

Lemma has_newline_cons c s :
  has_newline (String c s) = false ->
  Ascii.eqb c carriage_return = false /\ Ascii.eqb c newline = false /\ has_newline s = false.
Proof.
  simpl. intros H. apply orb_false_iff in H. destruct H as [H Hs].
  apply orb_false_iff in H. destruct H as [Hr Hn]. auto.
Qed.

(** Reading back lines that were written one by one. *)
Lemma readlines_line body rest :
  has_newline body = false ->
  readlines ((body ++ String newline "") ++ rest)%string
  = (body ++ String newline "")%string :: readlines rest.
Proof.
  induction body as [| c body IH]; intros Hb.
  - reflexivity.
  - apply has_newline_cons in Hb. destruct Hb as (Hr & Hn & Hb).
    change ((String c body ++ String newline "") ++ rest)%string
      with (String c ((body ++ String newline "") ++ rest))%string.
    change (String c body ++ String newline "")%string
      with (String c (body ++ String newline ""))%string.
    simpl readlines. rewrite Hr, Hn, (IH Hb). reflexivity.
Qed.

Lemma readlines_lines (lines : list string) :
  Forall (fun l => exists body, l = (body ++ String newline "")%string
                                /\ has_newline body = false) lines ->
  readlines (fold_right String.append EmptyString lines) = lines.
Proof.
  induction 1 as [| l lines (body & -> & Hb) _ IH]; simpl; [reflexivity |].
  rewrite (readlines_line _ _ Hb), IH. reflexivity.
Qed.

Lemma append_empty_r s : (s ++ "")%string = s.
Proof.
  induction s as [| c s IH]; [reflexivity |].
  change (String c (String.append s "") = String c s). f_equal. exact IH.
Qed.

Lemma concat_empty_separator (l : list string) :
  String.concat "" l = fold_right String.append EmptyString l.
Proof.
  induction l as [| x l IH]; [reflexivity |].
  destruct l as [| y l].
  - simpl. symmetry. apply append_empty_r.
  - change (String.concat "" (x :: y :: l))
      with (String.append x (String.concat "" (y :: l))).
    rewrite IH. reflexivity.
Qed.

Lemma has_newline_app a b : has_newline (a ++ b)%string = has_newline a || has_newline b.
Proof.
  induction a as [| c a IH]; simpl; [reflexivity |]. rewrite IH, !orb_assoc. reflexivity.
Qed.

Lemma seed_row_line asctime i :
  i ∈ seed_range ->
  has_newline (asctime i) = false ->
  parse_row (seed_row asctime i)
    = Some (mkEntry (if (i mod 2 =? 0)%Z then "Freddy" else "BBB")
                    (decimal (if (i mod 2 =? 0)%Z then Z.quot i 2 else Z.quot (i + 1) 2))
                    (i * 5000))
  /\ exists body, seed_row asctime i = (body ++ String newline "")%string
                  /\ has_newline body = false.
Proof.
  intros Hi Ht. unfold seed_range in Hi.
  repeat (apply elem_of_cons in Hi; destruct Hi as [-> | Hi]); [.. | inversion Hi].
  all: split; [reflexivity |].
  all: match goal with
       | |- exists body, seed_row _ ?i = _ /\ _ =>
         let p := eval vm_compute in
           ((if (i mod 2 =? 0)%Z then "Freddy," else "BBB,")
            ++ decimal (if (i mod 2 =? 0)%Z then Z.quot i 2 else Z.quot (i + 1) 2)
            ++ "," ++ decimal (i * 5000) ++ ",")%string in
         exists (p ++ asctime i)%string
       end.
  all: split; [reflexivity | rewrite has_newline_app, Ht; reflexivity].
Qed.

(** The numbers of the seed rows are far below the limit of the
    conversion to text: [f"{...}"] gives their decimal text. *)
Lemma seed_numbers_are_formatted i :
  i ∈ seed_range ->
  str_of_int (Z.quot i 2) = Some (decimal (Z.quot i 2))
  /\ str_of_int (Z.quot (i + 1) 2) = Some (decimal (Z.quot (i + 1) 2))
  /\ str_of_int (i * 5000) = Some (decimal (i * 5000)).
Proof.
  intros Hi. unfold seed_range in Hi.
  repeat (apply elem_of_cons in Hi; destruct Hi as [-> | Hi]); [.. | inversion Hi].
  all: repeat split; vm_compute; reflexivity.
Qed.

Lemma create_high_scores_lines asctime :
  (forall i, has_newline (asctime i) = false) ->
  readlines (create_high_scores asctime)
  = ("name,level,score,datetime" ++ String newline "")%string
      :: map (seed_row asctime) seed_range.
Proof.
  intros Ht.
  assert (Hrows : Forall (fun l => exists body, l = (body ++ String newline "")%string
                                                 /\ has_newline body = false)
                         (map (seed_row asctime) seed_range)).
  { apply Forall_forall. intros l Hl. apply list_elem_of_fmap in Hl.
    destruct Hl as (i & -> & Hi). exact (proj2 (seed_row_line asctime i Hi (Ht i))). }
  unfold create_high_scores. rewrite concat_empty_separator.
  rewrite (readlines_line "name,level,score,datetime" _ eq_refl).
  rewrite (readlines_lines _ Hrows). reflexivity.
Qed.

Lemma parse_seed_rows asctime :
  (forall i, has_newline (asctime i) = false) ->
  parse_rows (map (seed_row asctime) seed_range) = Some seed_entries.
Proof.
  intros Ht. unfold seed_range. simpl map. unfold parse_rows.
  repeat match goal with
  | |- context [parse_row (seed_row asctime ?i)] =>
    rewrite (proj1 (seed_row_line asctime i ltac:(unfold seed_range; set_solver) (Ht i)))
  end.
  reflexivity.
Qed.

(** C8: when [get_high_scores] returns, it returns at most 10 entries,
    sorted by score in descending order: the first ten of the sorted data
    rows of the file, the heading skipped.  When the file does not exist it
    is first written with the heading and exactly ten seed rows (whatever
    [time.asctime()] reads, as long as it has no line break), and the ten
    seed entries are returned. *)
Theorem get_high_scores_top_ten (asctime : Z -> string) (file : option string) :
  (forall i, has_newline (asctime i) = false) ->
  (forall entries file',
     get_high_scores asctime file = (Some entries, file') ->
     (length entries <= 10)%nat
     /\ StronglySorted by_score_desc entries
     /\ exists text heading rows all,
          file' = Some text
          /\ (file = None \/ file = Some text)
          /\ readlines text = heading :: rows
          /\ parse_rows rows = Some all
          /\ Permutation (sorted_by_score all) all
          /\ entries = take 10 (sorted_by_score all))
  /\ (file = None ->
      get_high_scores asctime file = (Some seed_entries, Some (create_high_scores asctime))
      /\ length seed_entries = 10%nat
      /\ readlines (create_high_scores asctime)
         = ("name,level,score,datetime" ++ String newline "")%string
             :: map (seed_row asctime) seed_range
      /\ length (map (seed_row asctime) seed_range) = 10%nat).
Proof.
  intros Ht. split.
  - intros entries file' H. unfold get_high_scores in H.
    set (text := match file with None => create_high_scores asctime | Some t => t end) in H.
    destruct (readlines text) as [| heading rows] eqn:Hr; [discriminate |].
    destruct (parse_rows rows) as [all |] eqn:Hp; [| discriminate].
    inversion H; subst entries file'. split; [| split].
    + rewrite length_take. lia.
    + apply take_sorted, sorted_by_score_sorted.
    + exists text, heading, rows, all. split; [reflexivity |]. split.
      { subst text. destruct file; auto. }
      split; [exact Hr |]. split; [exact Hp |].
      split; [apply sorted_by_score_Permutation | reflexivity].
  - intros ->. split; [| split; [reflexivity | split; [| reflexivity]]].
    + unfold get_high_scores.
      rewrite (create_high_scores_lines asctime Ht), (parse_seed_rows asctime Ht).
      reflexivity.
    + exact (create_high_scores_lines asctime Ht).
Qed.

(** A file with three data rows, two of them tied: the rows come back
    sorted, the tie in file order.  No file: the ten seeds come back. *)
Lemma get_high_scores_top_ten_witness :
  fst (get_high_scores sample_asctime (Some sample_high_scores_text))
    = Some [mkEntry "Bob" "5" 12000; mkEntry "Ann" "2" 700; mkEntry "Cy" "3" 700]
  /\ StronglySorted by_score_desc
       [mkEntry "Bob" "5" 12000; mkEntry "Ann" "2" 700; mkEntry "Cy" "3" 700]
  /\ fst (get_high_scores sample_asctime None) = Some seed_entries.
Proof.
  destruct (get_high_scores_top_ten sample_asctime (Some sample_high_scores_text))
    as [Hsome _]; [reflexivity |].
  destruct (get_high_scores_top_ten sample_asctime None) as [_ Hnone]; [reflexivity |].
  destruct (Hsome [mkEntry "Bob" "5" 12000; mkEntry "Ann" "2" 700; mkEntry "Cy" "3" 700]
                  (Some sample_high_scores_text))
    as (_ & Hsorted & _); [vm_compute; reflexivity |].
  destruct (Hnone eq_refl) as (Hseeds & _).
  split; [vm_compute; reflexivity |]. split; [exact Hsorted |].
  rewrite Hseeds. reflexivity.
Defined.

(** * Further properties *)

Local Open Scope R_scope.

(** ** Moving inside the boundary *)

Lemma Reqb_true x y : Reqb x y = true <-> x = y.
Proof. unfold Reqb. destruct (Req_dec_T x y); split; intros; congruence. Qed.

Lemma Reqb_false x y : Reqb x y = false <-> x <> y.
Proof. unfold Reqb. destruct (Req_dec_T x y); split; intros; congruence. Qed.

Lemma int_of_float_nonneg x : 0 <= x -> 0 <= IZR (int_of_float x) <= x.
Proof.
  intros Hx. unfold int_of_float. rewrite (proj2 (Rleb_true 0 x) Hx).
  destruct (base_Int_part x) as [H1 H2]. split; [| exact H1].
  apply IZR_le. assert (Hlt : -1 < IZR (Int_part x)) by lra.
  apply lt_IZR in Hlt. lia.
Qed.

Lemma int_of_float_nonpos x : x <= 0 -> x <= IZR (int_of_float x) <= 0.
Proof.
  intros Hx. unfold int_of_float. destruct (Rleb 0 x) eqn:E.
  - apply Rleb_true in E. assert (x = 0) by lra. subst x.
    rewrite <- (Int_part_spec 0 0%Z); simpl; lra.
  - rewrite opp_IZR. destruct (base_Int_part (- x)) as [H1 H2].
    assert (Hlt : -1 < IZR (Int_part (- x))) by lra.
    apply lt_IZR in Hlt. assert (0 <= IZR (Int_part (- x))) by (apply IZR_le; lia). lra.
Qed.

Lemma int_of_float_0 : int_of_float 0 = 0%Z.
Proof.
  pose proof (int_of_float_nonneg 0 (Rle_refl 0)) as [H1 H2].
  apply eq_IZR. lra.
Qed.

Lemma set_left_left v s : left (set_left v s) = v.
Proof. unfold left, set_left. simpl. lra. Qed.

Lemma set_right_right v s : right (set_right v s) = v.
Proof. unfold right, set_right. simpl. lra. Qed.

Lemma set_top_top v s : top (set_top v s) = v.
Proof. unfold top, set_top. simpl. lra. Qed.

Lemma set_bottom_bottom v s : bottom (set_bottom v s) = v.
Proof. unfold bottom, set_bottom. simpl. lra. Qed.

Lemma collides_with_boundary_inside bd b :
  between_side_walls bd (ball_sprite b) ->
  collides_with_boundary_moving_horizontally bd b = b.
Proof.
  intros [Hl Hr]. unfold collides_with_boundary_moving_horizontally.
  rewrite (proj2 (Rgtb_false _ _)) by lra. rewrite (proj2 (Rltb_false _ _)) by lra.
  reflexivity.
Qed.

(** X1: after the horizontal boundary step a ball no wider than the field
    lies between the side walls; [change_x] is negated when the ball had
    crossed a wall and the ball is untouched when it had not; a second run
    of the step changes nothing, so a crossing turns the ball once. *)
Theorem ball_turns_once_at_side_wall (bd : Boundary) (b : Ball) :
  width (ball_sprite b) <= inner_right bd - inner_left bd ->
  let b' := collides_with_boundary_moving_horizontally bd b in
  between_side_walls bd (ball_sprite b')
  /\ (right (ball_sprite b) > inner_right bd \/ left (ball_sprite b) < inner_left bd ->
      change_x b' = - change_x b /\ center_y (ball_sprite b') = center_y (ball_sprite b)
      /\ ball_speed b' = ball_speed b /\ velocity_angle b' = velocity_angle b)
  /\ (between_side_walls bd (ball_sprite b) -> b' = b)
  /\ collides_with_boundary_moving_horizontally bd b' = b'.
Proof.
  intros Hw b'.
  assert (Hin : between_side_walls bd (ball_sprite b')).
  { subst b'. unfold collides_with_boundary_moving_horizontally, between_side_walls.
    destruct (Rgtb _ _) eqn:E1; [| destruct (Rltb _ _) eqn:E2]; simpl.
    - rewrite set_right_right. unfold left, set_right. simpl. lra.
    - rewrite set_left_left. unfold right, set_left. simpl. lra.
    - apply Rgtb_false in E1. apply Rltb_false in E2. lra. }
  split; [exact Hin |]. split; [| split].
  - intros Hc. subst b'. unfold collides_with_boundary_moving_horizontally.
    destruct (Rgtb _ _) eqn:E1; [| destruct (Rltb _ _) eqn:E2]; simpl.
    + repeat split; lra.
    + repeat split; lra.
    + apply Rgtb_false in E1. apply Rltb_false in E2. lra.
  - intros Hb. apply collides_with_boundary_inside. exact Hb.
  - apply collides_with_boundary_inside. exact Hin.
Qed.

(** A ball 20 wide whose centre is at 1110 has crossed the right wall at
    1115: it is put back and turned. *)
Lemma ball_turns_once_at_side_wall_witness :
  let b' := collides_with_boundary_moving_horizontally PlayingFieldBoundary (sample_ball_at 1110) in
  between_side_walls PlayingFieldBoundary (ball_sprite b') /\ change_x b' = - 400.
Proof.
  destruct (ball_turns_once_at_side_wall PlayingFieldBoundary (sample_ball_at 1110))
    as (Hin & Hturn & _).
  - simpl. unfold SCREEN_PADDING, BOUNDARY_THICKNESS, PLAYING_FIELD_WIDTH. lra.
  - cbv zeta. split; [exact Hin |].
    destruct Hturn as (Hx & _).
    + left. unfold right. simpl.
      unfold SCREEN_PADDING, BOUNDARY_THICKNESS, PLAYING_FIELD_WIDTH. lra.
    + rewrite Hx. reflexivity.
Defined.

Lemma remove_id_elem_of self l y : y ∈ remove_id self l <-> y ∈ l /\ y <> self.
Proof. unfold remove_id. rewrite list_elem_of_filter. tauto. Qed.

Lemma remove_id_other self l y : y <> self -> (y ∈ remove_id self l <-> y ∈ l).
Proof. intros Hne. rewrite remove_id_elem_of. tauto. Qed.

(** X2: the vertical boundary step.  On the playing field (not
    fullscreen) a ball whose top edge is below the floor is taken off the
    ball list and is not turned; a ball that has not sunk that far stays on
    the list; only a crossing of the ceiling writes the ball.  In
    fullscreen mode the ball is never taken off the list and ends between
    floor and ceiling.  Other balls are not affected. *)
Theorem ball_falls_out_through_the_floor (self : nat) (lv : Level) (b : Ball) :
  balls lv !! self = Some b ->
  0 <= height (ball_sprite b) <= inner_top (boundary lv) - inner_bottom (boundary lv) ->
  let bd := boundary lv in
  let lv' := collides_with_boundary_moving_vertically self lv in
  (is_fullscreen bd = false ->
     (top (ball_sprite b) < inner_bottom bd ->
        (self ∉ ball_list lv') /\ balls lv' = balls lv)
     /\ (inner_bottom bd <= top (ball_sprite b) -> ball_list lv' = ball_list lv)
     /\ (top (ball_sprite b) <= inner_top bd -> balls lv' = balls lv))
  /\ (is_fullscreen bd = true ->
        ball_list lv' = ball_list lv
        /\ exists b', balls lv' !! self = Some b'
                      /\ between_floor_and_ceiling bd (ball_sprite b'))
  /\ (forall other, other <> self ->
        (other ∈ ball_list lv' <-> other ∈ ball_list lv)
        /\ balls lv' !! other = balls lv !! other).
Proof.
  intros Hb Hh bd lv'. subst lv'. unfold collides_with_boundary_moving_vertically.
  rewrite Hb. fold bd. unfold DEBUGGING. simpl orb.
  split; [| split].
  - intros Hf. rewrite Hf. simpl andb. split; [| split].
    + intros Hlow. rewrite (proj2 (Rgtb_false _ _)) by (unfold bd in *; lra).
      rewrite (proj2 (Rltb_true _ _) Hlow). simpl. split; [apply remove_id_not_in | reflexivity].
    + intros Hup. destruct (Rgtb _ _); [reflexivity |].
      rewrite (proj2 (Rltb_false _ _)) by lra. reflexivity.
    + intros Hup. rewrite (proj2 (Rgtb_false _ _)) by lra.
      destruct (Rltb _ _); reflexivity.
  - intros Hf. rewrite Hf. simpl andb. unfold between_floor_and_ceiling.
    destruct (Rgtb _ _) eqn:E1; [| destruct (Rltb (bottom _) _) eqn:E2].
    + simpl. split; [reflexivity |]. rewrite lookup_insert_eq. eexists. split; [reflexivity |].
      simpl. rewrite set_top_top. unfold bottom, set_top. simpl. unfold bd in *. lra.
    + simpl. split; [reflexivity |]. rewrite lookup_insert_eq. eexists. split; [reflexivity |].
      simpl. rewrite set_bottom_bottom. unfold top, set_bottom. simpl. unfold bd in *. lra.
    + apply Rgtb_false in E1. apply Rltb_false in E2.
      assert (Hnot : Rltb (top (ball_sprite b)) (inner_bottom bd) = false).
      { apply Rltb_false. unfold top, bottom in *. lra. }
      rewrite Hnot. split; [reflexivity |]. exists b. split; [exact Hb |]. lra.
  - intros other Hne.
    destruct (Rgtb _ _); [| destruct (_ && _); [| destruct (Rltb (top _) _)]]; simpl.
    + rewrite lookup_insert_ne by auto. tauto.
    + rewrite lookup_insert_ne by auto. tauto.
    + split; [apply remove_id_other; exact Hne | reflexivity].
    + tauto.
Qed.

(** A ball of the playing field whose top edge is at 30, under the floor at
    35, leaves the ball list. *)
Lemma ball_falls_out_through_the_floor_witness :
  0%nat ∈ ball_list (sample_level_with_ball (mkSprite 300 20 20 20))
  /\ 0%nat ∉ ball_list (collides_with_boundary_moving_vertically 0%nat
                         (sample_level_with_ball (mkSprite 300 20 20 20))).
Proof.
  destruct (ball_falls_out_through_the_floor 0%nat
              (sample_level_with_ball (mkSprite 300 20 20 20))
              (mkBall NormalBall true (mkSprite 300 20 20 20) 315 600 400 (-400)))
    as (Hfield & _ & _).
  - reflexivity.
  - simpl. unfold SCREEN_HEIGHT, SCREEN_PADDING, BOUNDARY_THICKNESS. lra.
  - destruct (Hfield eq_refl) as (Hout & _ & _).
    split; [left |]. apply Hout. unfold top. simpl.
    unfold SCREEN_PADDING, BOUNDARY_THICKNESS. lra.
Defined.

Lemma Paddle_collides_with_boundary_inside bd p :
  width (paddle_sprite p) <= inner_right bd - inner_left bd ->
  between_side_walls bd (paddle_sprite (Paddle_collides_with_boundary bd p)).
Proof.
  intros Hw. unfold Paddle_collides_with_boundary, between_side_walls.
  destruct (Rgtb _ _) eqn:E1; [| destruct (Rltb _ _) eqn:E2]; simpl.
  - rewrite set_right_right. unfold left, set_right. simpl. lra.
  - rewrite set_left_left. unfold right, set_left. simpl. lra.
  - apply Rgtb_false in E1. apply Rltb_false in E2. lra.
Qed.

Lemma Paddle_collides_with_boundary_id bd p :
  between_side_walls bd (paddle_sprite p) -> Paddle_collides_with_boundary bd p = p.
Proof.
  intros [Hl Hr]. unfold Paddle_collides_with_boundary.
  rewrite (proj2 (Rgtb_false _ _)) by lra. rewrite (proj2 (Rltb_false _ _)) by lra.
  reflexivity.
Qed.

Lemma keys_change_x_cancel lv : left_pressed lv = right_pressed lv -> keys_change_x lv = 0.
Proof.
  intros H. unfold keys_change_x. rewrite H. destruct (right_pressed lv); reflexivity.
Qed.

(** X3: [Paddle.on_update] keeps a paddle that is between the side walls
    between them, whatever the time step.  With both arrow keys down, or
    none, the level is left as it is.  With the left key alone (and a time
    step and paddle speed that are not negative) the paddle does not move
    right and moves left by at most [paddle_speed * delta_time]; likewise
    to the right.  Only the horizontal position of the paddle is written. *)
Theorem paddle_stays_between_side_walls (delta_time : R) (lv : Level) :
  between_side_walls (boundary lv) (paddle_sprite (paddle lv)) ->
  let p := paddle lv in
  let p' := paddle (Paddle_on_update delta_time lv) in
  between_side_walls (boundary lv) (paddle_sprite p')
  /\ (left_pressed lv = right_pressed lv -> Paddle_on_update delta_time lv = lv)
  /\ (0 <= delta_time -> 0 <= paddle_speed p ->
      left_pressed lv = true -> right_pressed lv = false ->
      center_x (paddle_sprite p) - paddle_speed p * delta_time
        <= center_x (paddle_sprite p') <= center_x (paddle_sprite p))
  /\ (0 <= delta_time -> 0 <= paddle_speed p ->
      right_pressed lv = true -> left_pressed lv = false ->
      center_x (paddle_sprite p)
        <= center_x (paddle_sprite p') <= center_x (paddle_sprite p) + paddle_speed p * delta_time)
  /\ set_paddle_sprite (paddle_sprite p) p' = p
  /\ center_y (paddle_sprite p') = center_y (paddle_sprite p)
  /\ width (paddle_sprite p') = width (paddle_sprite p).
Proof.
  intros Hin p p'.
  assert (Hw : width (paddle_sprite p) <= inner_right (boundary lv) - inner_left (boundary lv)).
  { destruct Hin as [Hl Hr]. unfold left, right in *. fold p in Hl, Hr.
    assert (0 <= width (paddle_sprite p) \/ width (paddle_sprite p) < 0) as [Hp | Hn] by lra; lra. }
  set (d := IZR (int_of_float (keys_change_x lv * delta_time))).
  assert (Hp' : p' = p
                \/ p' = Paddle_collides_with_boundary (boundary lv)
                          (set_paddle_sprite (shifted d (paddle_sprite p)) p)).
  { subst p'. unfold Paddle_on_update. destruct (negb (Reqb (keys_change_x lv) 0)); auto. }
  assert (Hshape : forall q, q = Paddle_collides_with_boundary (boundary lv)
                                   (set_paddle_sprite (shifted d (paddle_sprite p)) p) ->
                     set_paddle_sprite (paddle_sprite p) q = p
                     /\ center_y (paddle_sprite q) = center_y (paddle_sprite p)
                     /\ width (paddle_sprite q) = width (paddle_sprite p)).
  { intros q ->. unfold Paddle_collides_with_boundary.
    destruct (Rgtb _ _); [| destruct (Rltb _ _)]; destruct p as [t [cx cy w h] s m a i sp ml];
      simpl; auto. }
  assert (Hmove : forall q, q = Paddle_collides_with_boundary (boundary lv)
                                  (set_paddle_sprite (shifted d (paddle_sprite p)) p) ->
                    (d <= 0 -> center_x (paddle_sprite p) + d <= center_x (paddle_sprite q)
                               <= center_x (paddle_sprite p))
                    /\ (0 <= d -> center_x (paddle_sprite p) <= center_x (paddle_sprite q)
                                  <= center_x (paddle_sprite p) + d)).
  { intros q ->. destruct Hin as [Hl Hr]. fold p in Hl, Hr.
    unfold Paddle_collides_with_boundary, left, right, shifted in *.
    destruct (Rgtb _ _) eqn:E1; [| destruct (Rltb _ _) eqn:E2]; simpl in *.
    - apply Rgtb_true in E1. unfold set_right. simpl. split; intros; lra.
    - apply Rltb_true in E2. unfold set_left. simpl. split; intros; lra.
    - split; intros; lra. }
  split; [| split; [| split; [| split]]].
  - destruct Hp' as [-> | ->]; [exact Hin |].
    apply Paddle_collides_with_boundary_inside. simpl. exact Hw.
  - intros Hk. unfold Paddle_on_update. rewrite (keys_change_x_cancel lv Hk).
    rewrite (proj2 (Reqb_true 0 0) eq_refl). reflexivity.
  - intros Hdt Hs Hlp Hrp.
    assert (Hk : keys_change_x lv = - paddle_speed p).
    { unfold keys_change_x. rewrite Hlp, Hrp. reflexivity. }
    assert (Hd : - paddle_speed p * delta_time <= d <= 0).
    { unfold d. rewrite Hk. apply int_of_float_nonpos. nra. }
    destruct Hp' as [-> | Hq]; [nra |].
    destruct (Hmove _ Hq) as [Hneg _]. specialize (Hneg ltac:(lra)). lra.
  - intros Hdt Hs Hrp Hlp.
    assert (Hk : keys_change_x lv = paddle_speed p).
    { unfold keys_change_x. rewrite Hlp, Hrp. reflexivity. }
    assert (Hd : 0 <= d <= paddle_speed p * delta_time).
    { unfold d. rewrite Hk. apply int_of_float_nonneg. nra. }
    destruct Hp' as [-> | Hq]; [nra |].
    destruct (Hmove _ Hq) as [_ Hpos]. specialize (Hpos ltac:(lra)). lra.
  - destruct Hp' as [-> | Hq]; [destruct p as [t [cx cy w h] s m a i sp ml]; auto |].
    exact (Hshape _ Hq).
Qed.

Lemma sample_paddle_between_walls :
  between_side_walls PlayingFieldBoundary
    (paddle_sprite (Paddle_init sample_assets PlayingFieldBoundary NormalPaddle)).
Proof.
  unfold between_side_walls, left, right. simpl.
  unfold SCREEN_PADDING, BOUNDARY_THICKNESS, PLAYING_FIELD_WIDTH. lra.
Qed.

(** The left key held for a sixtieth of a second: the paddle stays in the
    field and has not moved right. *)
Lemma paddle_stays_between_side_walls_witness :
  let p' := paddle (Paddle_on_update (1 / 60) sample_level_left_pressed) in
  between_side_walls PlayingFieldBoundary (paddle_sprite p')
  /\ center_x (paddle_sprite p') <= center_x (paddle_sprite (paddle sample_level_left_pressed)).
Proof.
  destruct (paddle_stays_between_side_walls (1 / 60) sample_level_left_pressed
              sample_paddle_between_walls)
    as (Hin & _ & Hleft & _).
  cbv zeta. split; [exact Hin |].
  apply Hleft; [lra | simpl; unfold PADDLE_SPEED; lra | reflexivity | reflexivity].
Defined.

Lemma keys_change_x_bounds lv delta_time :
  0 <= delta_time -> 0 <= paddle_speed (paddle lv) ->
  (left_pressed lv = true -> right_pressed lv = false -> keys_change_x lv * delta_time <= 0)
  /\ (right_pressed lv = true -> left_pressed lv = false -> 0 <= keys_change_x lv * delta_time).
Proof.
  intros Hdt Hs. unfold keys_change_x. split; intros H1 H2; rewrite H1, H2; simpl; nra.
Qed.

(** X4: [MagneticNormalBall.on_update] writes only the ball itself, and of
    the ball only [change_x] and the horizontal position: the ball never
    moves vertically and keeps its speed, angle and class.  Run before
    [Paddle.on_update] with the same time step, it keeps the ball where it
    is on the paddle: the distance between the two centres is unchanged
    when the paddle is pressed against a wall, and also when neither the
    shifted paddle nor the shifted ball reaches over a wall. *)
Theorem magnetic_ball_rides_the_paddle (delta_time : R) (self : nat) (lv : Level) (b : Ball) :
  balls lv !! self = Some b ->
  0 <= delta_time ->
  0 <= paddle_speed (paddle lv) ->
  between_side_walls (boundary lv) (paddle_sprite (paddle lv)) ->
  let d := IZR (int_of_float (keys_change_x lv * delta_time)) in
  let lv1 := MagneticNormalBall_on_update delta_time self lv in
  let lv2 := Paddle_on_update delta_time lv1 in
  (exists b1, balls lv1 = <[self := b1]> (balls lv)
              /\ center_y (ball_sprite b1) = center_y (ball_sprite b)
              /\ ball_speed b1 = ball_speed b
              /\ velocity_angle b1 = velocity_angle b
              /\ change_y b1 = change_y b
              /\ ball_type b1 = ball_type b)
  /\ set_balls (balls lv) lv1 = lv
  /\ (paddle_pinned lv = true
      \/ (between_side_walls (boundary lv) (shifted d (paddle_sprite (paddle lv)))
          /\ between_side_walls (boundary lv) (shifted d (ball_sprite b))) ->
      exists b2, balls lv2 !! self = Some b2
        /\ center_x (ball_sprite b2) - center_x (paddle_sprite (paddle lv2))
           = center_x (ball_sprite b) - center_x (paddle_sprite (paddle lv))).
Proof.
  intros Hb Hdt Hs Hin d lv1 lv2.
  pose (k := if paddle_pinned lv then 0 else keys_change_x lv).
  pose (moved := set_ball_sprite
                   (set_center_x
                      (center_x (ball_sprite b) + IZR (int_of_float (k * delta_time)))
                      (ball_sprite b)) (set_change_x k b)).
  pose (b1 := if negb (Reqb k 0)
              then collides_with_boundary_moving_horizontally (boundary lv) moved
              else set_change_x k b).
  assert (Hlv1 : lv1 = set_balls (<[self := b1]> (balls lv)) lv).
  { subst lv1. unfold MagneticNormalBall_on_update. rewrite Hb. reflexivity. }
  assert (Hfields : center_y (ball_sprite b1) = center_y (ball_sprite b)
                    /\ ball_speed b1 = ball_speed b
                    /\ velocity_angle b1 = velocity_angle b
                    /\ change_y b1 = change_y b
                    /\ ball_type b1 = ball_type b).
  { unfold b1. destruct (negb (Reqb k 0)); [| simpl; auto].
    unfold collides_with_boundary_moving_horizontally.
    destruct (Rgtb _ _); [| destruct (Rltb _ _)]; simpl; auto. }
  split; [exists b1; split; [rewrite Hlv1; reflexivity | exact Hfields] |].
  split; [rewrite Hlv1; destruct lv; reflexivity |].
  intros Hcase.
  assert (Hp1 : paddle lv1 = paddle lv) by (rewrite Hlv1; reflexivity).
  assert (Hbd1 : boundary lv1 = boundary lv) by (rewrite Hlv1; reflexivity).
  assert (Hk1 : keys_change_x lv1 = keys_change_x lv) by (rewrite Hlv1; reflexivity).
  assert (Hballs2 : balls lv2 = balls lv1).
  { unfold lv2, Paddle_on_update.
    destruct (negb (Reqb (keys_change_x lv1) 0)); reflexivity. }
  exists b1. split.
  { rewrite Hballs2, Hlv1. simpl. apply lookup_insert_eq. }
  assert (Hpad : (keys_change_x lv = 0 /\ paddle lv2 = paddle lv)
                 \/ (keys_change_x lv <> 0
                     /\ paddle lv2 = Paddle_collides_with_boundary (boundary lv)
                          (set_paddle_sprite (shifted d (paddle_sprite (paddle lv)))
                                             (paddle lv)))).
  { unfold lv2, Paddle_on_update. rewrite Hk1, Hp1, Hbd1.
    destruct (Reqb (keys_change_x lv) 0) eqn:E; simpl.
    - left. split; [apply Reqb_true; exact E | exact Hp1].
    - right. split; [apply Reqb_false; exact E | reflexivity]. }
  destruct (paddle_pinned lv) eqn:Hpin.
  - (* the paddle is pressed against a wall: neither moves *)
    assert (Hb1 : center_x (ball_sprite b1) = center_x (ball_sprite b)).
    { unfold b1, k. rewrite (proj2 (Reqb_true 0 0) eq_refl). reflexivity. }
    rewrite Hb1. destruct Hpad as [[_ ->] | [Hne ->]]; [reflexivity |].
    destruct Hin as [Hl Hr]. unfold paddle_pinned in Hpin.
    destruct (keys_change_x_bounds lv delta_time Hdt Hs) as [Hkl Hkr].
    apply orb_true_iff in Hpin. destruct Hpin as [Hpin | Hpin];
      apply andb_true_iff in Hpin; destruct Hpin as [Hat Hkey]; apply Reqb_true in Hat.
    + (* at the left wall with the left key down *)
      destruct (right_pressed lv) eqn:Hrp.
      { exfalso. apply Hne. apply keys_change_x_cancel. congruence. }
      assert (Hd : d <= 0).
      { unfold d. apply int_of_float_nonpos. apply Hkl; auto. }
      unfold Paddle_collides_with_boundary, shifted, left, right in *.
      destruct (Rgtb _ _) eqn:E1; [| destruct (Rltb _ _) eqn:E2]; simpl in *.
      * apply Rgtb_true in E1. lra.
      * unfold set_left. simpl. lra.
      * apply Rltb_false in E2. lra.
    + (* at the right wall with the right key down *)
      destruct (left_pressed lv) eqn:Hlp.
      { exfalso. apply Hne. apply keys_change_x_cancel. congruence. }
      assert (Hd : 0 <= d).
      { unfold d. apply int_of_float_nonneg. apply Hkr; auto. }
      unfold Paddle_collides_with_boundary, shifted, left, right in *.
      destruct (Rgtb _ _) eqn:E1; simpl in *.
      * unfold set_right. simpl. lra.
      * apply Rgtb_false in E1. destruct (Rltb _ _) eqn:E2; simpl.
        -- apply Rltb_true in E2. lra.
        -- lra.
  - (* both are shifted by d *)
    destruct Hcase as [Hfalse | [Hps Hbs]]; [discriminate |].
    unfold b1, k. destruct Hpad as [[Hk0 ->] | [Hne ->]].
    + rewrite Hk0. rewrite (proj2 (Reqb_true 0 0) eq_refl). reflexivity.
    + rewrite (proj2 (Reqb_false _ _) Hne). simpl negb. cbv iota.
      rewrite Paddle_collides_with_boundary_id by exact Hps.
      unfold moved, k.
      rewrite collides_with_boundary_inside by exact Hbs.
      simpl. unfold d. lra.
Qed.

(** The left key is down and the paddle is in mid-field: after the ball's
    and the paddle's update the ball is still 15 left of the paddle's
    centre. *)
Lemma magnetic_ball_rides_the_paddle_witness :
  let lv2 := Paddle_on_update (1 / 60)
               (MagneticNormalBall_on_update (1 / 60) 0%nat sample_level_dragging) in
  exists b2, balls lv2 !! 0%nat = Some b2
    /\ center_x (ball_sprite b2) - center_x (paddle_sprite (paddle lv2)) = - 15.
Proof.
  assert (Hd : - 500 * (1 / 60)
               <= IZR (int_of_float (keys_change_x sample_level_dragging * (1 / 60))) <= 0).
  { assert (Hk : keys_change_x sample_level_dragging = - 500) by reflexivity.
    rewrite Hk. apply int_of_float_nonpos. lra. }
  destruct (magnetic_ball_rides_the_paddle (1 / 60) 0%nat sample_level_dragging
              (sample_attached_ball MagneticNormalBall 560))
    as (_ & _ & Hride).
  - reflexivity.
  - lra.
  - simpl. unfold PADDLE_SPEED. lra.
  - exact sample_paddle_between_walls.
  - destruct Hride as (b2 & Hb2 & Hoff).
    + right.
      set (d := IZR (int_of_float (keys_change_x sample_level_dragging * (1 / 60)))) in *.
      unfold between_side_walls, shifted, left, right. simpl.
      unfold SCREEN_PADDING, BOUNDARY_THICKNESS, PLAYING_FIELD_WIDTH. lra.
    + cbv zeta. exists b2. split; [exact Hb2 |]. rewrite Hoff. simpl.
      unfold SCREEN_PADDING, BOUNDARY_THICKNESS, PLAYING_FIELD_WIDTH. lra.
Defined.

(** ** A whole update of a ball *)

Lemma collides_with_boundary_moving_horizontally_speed bd b :
  ball_speed (collides_with_boundary_moving_horizontally bd b) = ball_speed b.
Proof.
  unfold collides_with_boundary_moving_horizontally.
  destruct (Rgtb _ _); [| destruct (Rltb _ _)]; reflexivity.
Qed.

Lemma collides_with_boundary_moving_horizontally_has_level bd b :
  has_level (collides_with_boundary_moving_horizontally bd b) = has_level b.
Proof.
  unfold collides_with_boundary_moving_horizontally.
  destruct (Rgtb _ _); [| destruct (Rltb _ _)]; reflexivity.
Qed.

(** The brick steps never write the speed of the ball, and hand the hits
    to the bricks only for a ball that has a level. *)
Lemma hit_all_balls hit_list : forall lv, balls (hit_all hit_list lv) = balls lv.
Proof.
  induction hit_list as [| x l IH]; intros lv; simpl; [reflexivity |].
  rewrite IH. unfold Brick_change_properties.
  destruct (bricks lv !! x) as [k |]; [| reflexivity].
  destruct (is_breakable k && negb (has_been_hit k)); [| reflexivity]. simpl.
  repeat match goal with
  | |- context [if ?c then _ else _] => destruct c; simpl
  | |- context [match icon ?k with _ => _ end] => destruct (icon k); simpl
  end; reflexivity.
Qed.

Lemma collides_with_brick_moving_horizontally_ball hit_list b lv :
  let r := collides_with_brick_moving_horizontally hit_list b lv in
  ball_speed (fst r) = ball_speed b
  /\ has_level (fst r) = has_level b
  /\ balls (snd r) = balls lv
  /\ (has_level b = false -> snd r = lv).
Proof.
  pose proof (hit_all_balls hit_list lv) as Hh.
  unfold collides_with_brick_moving_horizontally,
    InvinciBall_collides_with_brick_moving_horizontally,
    Ball_collides_with_brick_moving_horizontally.
  generalize dependent (hit_all hit_list lv). intros h Hh.
  destruct (ball_type b).
  2: { destruct (first_brick _ _ _); simpl; destruct (has_level b); simpl;
         repeat split; auto; intros; discriminate. }
  all: destruct hit_list as [| id l]; [simpl; auto |].
  all: destruct (bricks lv !! id) as [k |];
         [destruct (negb (is_safety_barrier k)) |];
         simpl; destruct (has_level b); simpl; repeat split; auto; intros; discriminate.
Qed.

Lemma collides_with_brick_moving_vertically_ball hit_list b lv :
  let r := collides_with_brick_moving_vertically hit_list b lv in
  ball_speed (fst r) = ball_speed b
  /\ has_level (fst r) = has_level b
  /\ balls (snd r) = balls lv
  /\ (has_level b = false -> snd r = lv).
Proof.
  pose proof (hit_all_balls hit_list lv) as Hh.
  unfold collides_with_brick_moving_vertically,
    InvinciBall_collides_with_brick_moving_vertically,
    Ball_collides_with_brick_moving_vertically.
  generalize dependent (hit_all hit_list lv). intros h Hh.
  destruct (ball_type b).
  2: { destruct (first_brick _ _ _); simpl; destruct (has_level b); simpl;
         repeat split; auto; intros; discriminate. }
  all: destruct hit_list as [| id l]; [simpl; auto |].
  all: destruct (bricks lv !! id) as [k |];
         simpl; destruct (has_level b); simpl; repeat split; auto; intros; discriminate.
Qed.

Lemma speeds_ok_insert_or (m : gmap nat Ball) id b0 b :
  m !! id = Some b0 -> speed_in_range b \/ ball_speed b = ball_speed b0 ->
  speeds_ok m (<[id := b]> m).
Proof.
  intros H0 [Hr | Heq].
  - apply speeds_ok_insert_in_range. exact Hr.
  - eapply speeds_ok_insert_same_speed; eauto.
Qed.

Lemma resolve_horizontally_speeds_ok arcade self lv :
  level_speeds_ok lv (resolve_horizontally arcade self lv).
Proof.
  unfold resolve_horizontally.
  destruct (balls lv !! self) as [b |] eqn:Hb; [| apply level_speeds_ok_refl].
  set (b1 := collides_with_boundary_moving_horizontally (boundary lv) b).
  set (hits := collides_with_list arcade _ _ _).
  destruct (collides_with_brick_moving_horizontally_ball hits b1 lv) as (Hs & _ & Hballs & _).
  destruct (collides_with_brick_moving_horizontally hits b1 lv) as [b2 lv1]. simpl in *.
  unfold level_speeds_ok. simpl. rewrite Hballs.
  eapply speeds_ok_insert_or; [exact Hb |].
  destruct (collides_with_paddle_moving_horizontally_speed
              (collides_with_sprite arcade (ball_sprite b2) (paddle_sprite (paddle lv1)))
              (paddle_sprite (paddle lv1)) b2) as [Hr | Heq]; [left; exact Hr |].
  right. rewrite Heq, Hs. apply collides_with_boundary_moving_horizontally_speed.
Qed.

Lemma collides_with_boundary_moving_vertically_speeds_ok self lv :
  level_speeds_ok lv (collides_with_boundary_moving_vertically self lv).
Proof.
  unfold collides_with_boundary_moving_vertically.
  destruct (balls lv !! self) as [b |] eqn:Hb; [| apply level_speeds_ok_refl].
  destruct (Rgtb _ _); [| destruct (_ && _); [| destruct (Rltb (top _) _)]].
  - eapply speeds_ok_insert_same_speed; [exact Hb | reflexivity].
  - eapply speeds_ok_insert_same_speed; [exact Hb | reflexivity].
  - apply level_speeds_ok_same_balls. reflexivity.
  - apply level_speeds_ok_refl.
Qed.

Lemma resolve_vertically_speeds_ok assets arcade self lv :
  level_speeds_ok lv (resolve_vertically assets arcade self lv).
Proof.
  unfold resolve_vertically.
  eapply level_speeds_ok_trans; [apply (collides_with_boundary_moving_vertically_speeds_ok self) |].
  set (lv1 := collides_with_boundary_moving_vertically self lv).
  destruct (balls lv1 !! self) as [b1 |] eqn:Hb; [| apply level_speeds_ok_refl].
  set (hits := collides_with_list arcade _ _ _).
  destruct (collides_with_brick_moving_vertically_ball hits b1 lv1) as (Hs & _ & Hballs & _).
  destruct (collides_with_brick_moving_vertically hits b1 lv1) as [b2 lv2]. simpl in *.
  eapply level_speeds_ok_trans;
    [| apply collides_with_paddle_moving_vertically_speeds_ok].
  unfold level_speeds_ok. simpl. rewrite Hballs.
  eapply speeds_ok_insert_same_speed; [exact Hb | exact Hs].
Qed.

(** X5: a whole [on_update] of a ball of any class (the move along x, the
    three horizontal collisions, the move along y, the three vertical
    collisions, with whatever answers the collision queries give) leaves
    every ball of the level with its speed within [[550, 850]] or with the
    speed it had. *)
Theorem ball_update_keeps_speed_limits
    (assets : Assets) (arcade : Collisions) (delta_time : R) (self : nat) (lv : Level) :
  level_speeds_ok lv (ball_on_update assets arcade delta_time self lv).
Proof.
  unfold ball_on_update.
  destruct (balls lv !! self) as [b |] eqn:Hb; [| apply level_speeds_ok_refl].
  destruct (type_is_magnetic (ball_type b)).
  - unfold MagneticNormalBall_on_update. rewrite Hb.
    eapply speeds_ok_insert_same_speed; [exact Hb |].
    destruct (negb _); [| reflexivity].
    rewrite collides_with_boundary_moving_horizontally_speed. reflexivity.
  - unfold Ball_on_update.
    eapply level_speeds_ok_trans; [| apply resolve_vertically_speeds_ok].
    eapply level_speeds_ok_trans;
      [| unfold level_speeds_ok; simpl; apply speeds_ok_alter; intros b0; right; reflexivity].
    eapply level_speeds_ok_trans; [| apply resolve_horizontally_speeds_ok].
    unfold level_speeds_ok; simpl. apply speeds_ok_alter. intros b0. right. reflexivity.
Qed.

Lemma collides_with_brick_moving_horizontally_kind hit_list b lv :
  let r := collides_with_brick_moving_horizontally hit_list b lv in
  velocity_angle (fst r) = velocity_angle b /\ ball_type (fst r) = ball_type b.
Proof.
  unfold collides_with_brick_moving_horizontally,
    InvinciBall_collides_with_brick_moving_horizontally,
    Ball_collides_with_brick_moving_horizontally.
  destruct (ball_type b) eqn:Ht.
  2: { destruct (first_brick _ _ _); simpl; auto. }
  all: destruct hit_list as [| id l]; [simpl; auto |].
  all: destruct (bricks lv !! id) as [k |];
         [destruct (negb (is_safety_barrier k)) |]; simpl; auto.
Qed.

Lemma collides_with_brick_moving_vertically_kind hit_list b lv :
  let r := collides_with_brick_moving_vertically hit_list b lv in
  velocity_angle (fst r) = velocity_angle b /\ ball_type (fst r) = ball_type b.
Proof.
  unfold collides_with_brick_moving_vertically,
    InvinciBall_collides_with_brick_moving_vertically,
    Ball_collides_with_brick_moving_vertically.
  destruct (ball_type b) eqn:Ht.
  2: { destruct (first_brick _ _ _); simpl; auto. }
  all: destruct hit_list as [| id l]; [simpl; auto |].
  all: destruct (bricks lv !! id) as [k |]; simpl; auto.
Qed.

Lemma alter_present (m : gmap nat Ball) (f : Ball -> Ball) id b :
  m !! id = Some b -> alter f id m = <[id := f b]> m.
Proof.
  intros H. apply map_eq. intros j. destruct (decide (id = j)) as [-> | Hne].
  - rewrite lookup_alter_eq, lookup_insert_eq, H. reflexivity.
  - rewrite lookup_alter_ne, lookup_insert_ne by exact Hne. reflexivity.
Qed.

Lemma resolve_horizontally_no_level arcade self lv b :
  balls lv !! self = Some b -> has_level b = false ->
  exists b',
    resolve_horizontally arcade self lv = set_balls (<[self := b']> (balls lv)) lv
    /\ has_level b' = false /\ ball_speed b' = ball_speed b
    /\ velocity_angle b' = velocity_angle b /\ ball_type b' = ball_type b.
Proof.
  intros Hb Hl. unfold resolve_horizontally. rewrite Hb.
  set (b1 := collides_with_boundary_moving_horizontally (boundary lv) b).
  assert (H1 : has_level b1 = false /\ ball_speed b1 = ball_speed b
               /\ velocity_angle b1 = velocity_angle b /\ ball_type b1 = ball_type b).
  { unfold b1, collides_with_boundary_moving_horizontally.
    destruct (Rgtb _ _); [| destruct (Rltb _ _)]; simpl; auto. }
  destruct H1 as (Hl1 & Hs1 & Ha1 & Ht1).
  set (hits := collides_with_list arcade _ _ _).
  destruct (collides_with_brick_moving_horizontally_ball hits b1 lv) as (Hs & Hlv & _ & Hsame).
  destruct (collides_with_brick_moving_horizontally_kind hits b1 lv) as (Ha & Ht).
  destruct (collides_with_brick_moving_horizontally hits b1 lv) as [b2 lv1]. simpl in *.
  rewrite (Hsame Hl1).
  exists b2. unfold collides_with_paddle_moving_horizontally.
  rewrite Hlv, Hl1. simpl. repeat split; congruence.
Qed.

Lemma resolve_vertically_no_level assets arcade self lv b :
  balls lv !! self = Some b -> has_level b = false ->
  exists b' bl,
    resolve_vertically assets arcade self lv
      = set_ball_list bl (set_balls (<[self := b']> (balls lv)) lv)
    /\ (bl = ball_list lv \/ bl = remove_id self (ball_list lv))
    /\ has_level b' = false /\ ball_speed b' = ball_speed b
    /\ velocity_angle b' = velocity_angle b /\ ball_type b' = ball_type b.
Proof.
  intros Hb Hl. unfold resolve_vertically.
  assert (H1 : exists b1 bl,
             collides_with_boundary_moving_vertically self lv
               = set_ball_list bl (set_balls (<[self := b1]> (balls lv)) lv)
             /\ (bl = ball_list lv \/ bl = remove_id self (ball_list lv))
             /\ has_level b1 = false /\ ball_speed b1 = ball_speed b
             /\ velocity_angle b1 = velocity_angle b /\ ball_type b1 = ball_type b).
  { unfold collides_with_boundary_moving_vertically. rewrite Hb.
    destruct (Rgtb _ _); [| destruct (_ && _); [| destruct (Rltb (top _) _)]].
    - eexists _, (ball_list lv). split; [destruct lv; reflexivity |]. simpl. auto 7.
    - eexists _, (ball_list lv). split; [destruct lv; reflexivity |]. simpl. auto 7.
    - exists b, (remove_id self (ball_list lv)).
      rewrite (insert_id _ _ _ Hb). split; [destruct lv; reflexivity |]. auto 7.
    - exists b, (ball_list lv).
      rewrite (insert_id _ _ _ Hb). split; [destruct lv; reflexivity |]. auto 7. }
  destruct H1 as (b1 & bl & -> & Hbl & Hl1 & Hs1 & Ha1 & Ht1).
  set (lv1 := set_ball_list bl (set_balls (<[self := b1]> (balls lv)) lv)).
  assert (Hb1 : balls lv1 !! self = Some b1) by (simpl; apply lookup_insert_eq).
  rewrite Hb1.
  set (hits := collides_with_list arcade _ _ _).
  destruct (collides_with_brick_moving_vertically_ball hits b1 lv1) as (Hs & Hlv & _ & Hsame).
  destruct (collides_with_brick_moving_vertically_kind hits b1 lv1) as (Ha & Ht).
  destruct (collides_with_brick_moving_vertically hits b1 lv1) as [b2 lv2]. simpl in *.
  rewrite (Hsame Hl1).
  unfold collides_with_paddle_moving_vertically. simpl. rewrite lookup_insert_eq.
  rewrite Hlv, Hl1. simpl.
  exists b2, bl. rewrite insert_insert_eq. repeat split; auto; congruence.
Qed.

(** X6: a ball that has no level (a ball of the menu and intro screens) and
    is not magnetic changes nothing but itself in [on_update]: the bricks,
    the score and lives, the paddle, the icons and the bonus letters are as
    before; the ball keeps its speed, angle and class; it may at most
    leave the ball list. *)
Theorem ball_without_level_touches_only_itself
    (assets : Assets) (arcade : Collisions) (delta_time : R)
    (self : nat) (lv : Level) (b : Ball) :
  balls lv !! self = Some b ->
  has_level b = false ->
  type_is_magnetic (ball_type b) = false ->
  exists b' bl,
    ball_on_update assets arcade delta_time self lv
      = set_ball_list bl (set_balls (<[self := b']> (balls lv)) lv)
    /\ (bl = ball_list lv \/ bl = remove_id self (ball_list lv))
    /\ ball_speed b' = ball_speed b
    /\ velocity_angle b' = velocity_angle b
    /\ ball_type b' = ball_type b.
Proof.
  intros Hb Hl Hm. unfold ball_on_update. rewrite Hb, Hm. unfold Ball_on_update.
  rewrite (alter_present _ _ _ _ Hb).
  set (bx := set_ball_sprite _ b).
  set (lv1 := set_balls (<[self := bx]> (balls lv)) lv).
  destruct (resolve_horizontally_no_level arcade self lv1 bx) as (b2 & -> & Hl2 & Hs2 & Ha2 & Ht2);
    [simpl; apply lookup_insert_eq | exact Hl |].
  simpl balls. rewrite insert_insert_eq.
  rewrite (alter_present _ _ _ b2) by apply lookup_insert_eq.
  rewrite insert_insert_eq.
  set (by_ := set_ball_sprite _ b2).
  set (lv3 := set_balls _ _).
  destruct (resolve_vertically_no_level assets arcade self lv3 by_)
    as (b4 & bl & -> & Hbl & Hl4 & Hs4 & Ha4 & Ht4);
    [simpl; apply lookup_insert_eq | exact Hl2 |].
  exists b4, bl. simpl. rewrite insert_insert_eq.
  split; [reflexivity |]. split; [exact Hbl |].
  simpl in *. repeat split; congruence.
Qed.

(** A menu ball of [sample_level] that touches nothing moves and stays a
    normal ball at 600. *)
Lemma ball_without_level_touches_only_itself_witness :
  exists b' bl,
    ball_on_update sample_assets no_contact (1 / 60) 0%nat sample_level_menu_ball
      = set_ball_list bl
          (set_balls (<[0%nat := b']> (balls sample_level_menu_ball)) sample_level_menu_ball)
    /\ ball_speed b' = 600 /\ ball_type b' = NormalBall.
Proof.
  destruct (ball_without_level_touches_only_itself sample_assets no_contact (1 / 60) 0%nat
              sample_level_menu_ball sample_menu_ball)
    as (b' & bl & Heq & _ & Hs & _ & Ht); [reflexivity | reflexivity | reflexivity |].
  exists b', bl. split; [exact Heq |]. split; [exact Hs | exact Ht].
Defined.

(** ** Bricks *)

Lemma set_icon_None_id k : icon k = None -> set_icon None k = k.
Proof. destruct k; simpl; intros ->; reflexivity. Qed.

Lemma Brick_change_properties_not_live self lv k :
  bricks lv !! self = Some k -> live k = false -> Brick_change_properties self lv = lv.
Proof.
  intros Hk Hl. unfold Brick_change_properties. rewrite Hk. unfold live in Hl. rewrite Hl.
  reflexivity.
Qed.

(** What one hit of a live brick writes. *)
Lemma Brick_change_properties_live self lv k :
  bricks lv !! self = Some k -> live k = true ->
  let lv1 := Brick_change_properties self lv in
  let stays := (cur_texture_index k + 1 <? Z.of_nat (length (textures k)))%Z in
  bricks lv1
    = <[self := set_icon None
                  (set_cur_texture_index (cur_texture_index k + 1) (set_has_been_hit true k))]>
        (bricks lv)
  /\ window lv1 = set_win_score (win_score (window lv) + score k) (window lv)
  /\ bonus_collection_order lv1 = (bonus_collection_order lv ++ letter k)%string
  /\ icon_list lv1 = icon_list lv ++ option_list (icon k)
  /\ brick_list lv1 = (if stays then brick_list lv else remove_id self (brick_list lv))
  /\ breakable_brick_list lv1
     = (if stays then breakable_brick_list lv else remove_id self (breakable_brick_list lv)).
Proof.
  intros Hk Hl. unfold Brick_change_properties. rewrite Hk. unfold live in Hl. rewrite Hl.
  cbv zeta. simpl cur_texture_index. simpl textures. simpl score. simpl letter. simpl icon.
  assert (Hletter : forall s : string,
             (if negb (String.eqb (letter k) "") then (s ++ letter k)%string else s)
             = (s ++ letter k)%string).
  { intros s. destruct (String.eqb (letter k) "") eqn:E; [| reflexivity].
    apply String.eqb_eq in E. rewrite E. simpl. symmetry. apply append_empty_r. }
  destruct (cur_texture_index k + 1 <? Z.of_nat (length (textures k)))%Z;
    destruct (icon k) eqn:Hi; simpl.
  all: repeat split; try reflexivity.
  all: try (destruct (negb (String.eqb (letter k) "")); reflexivity).
  all: try (rewrite <- (Hletter (bonus_collection_order lv));
            destruct (negb (String.eqb (letter k) "")); reflexivity).
  all: try (rewrite app_nil_r; destruct (negb (String.eqb (letter k) "")); reflexivity).
  all: try (destruct (negb (String.eqb (letter k) "")); simpl; f_equal;
            destruct k; simpl in *; subst; reflexivity).
Qed.

Lemma separated_hit_live self lv k :
  bricks lv !! self = Some k -> live k = true ->
  let lv1 := separated_hit self lv in
  let stays := (cur_texture_index k + 1 <? Z.of_nat (length (textures k)))%Z in
  bricks lv1 !! self
    = Some (set_icon None (set_cur_texture_index (cur_texture_index k + 1) k))
  /\ window lv1 = set_win_score (win_score (window lv) + score k) (window lv)
  /\ bonus_collection_order lv1 = (bonus_collection_order lv ++ letter k)%string
  /\ icon_list lv1 = icon_list lv ++ option_list (icon k)
  /\ brick_list lv1 = (if stays then brick_list lv else remove_id self (brick_list lv))
  /\ breakable_brick_list lv1
     = (if stays then breakable_brick_list lv else remove_id self (breakable_brick_list lv)).
Proof.
  intros Hk Hl.
  destruct (Brick_change_properties_live self lv k Hk Hl) as (Hb & Hw & Ho & Hi & Hbl & Hbb).
  unfold separated_hit, brick_event. cbv zeta. simpl.
  rewrite Hb, Hw, Ho, Hi, Hbl, Hbb.
  repeat split; try reflexivity.
  rewrite lookup_alter_eq, lookup_insert_eq. simpl. unfold Brick_update. simpl.
  unfold live in Hl. apply andb_true_iff in Hl. destruct Hl as [_ Hh].
  apply negb_true_iff in Hh. destruct k; simpl in *. subst. reflexivity.
Qed.

Lemma separated_hits_below_last self lv k (j : nat) :
  bricks lv !! self = Some k -> live k = true ->
  (Z.of_nat j < stages k)%Z ->
  let lv' := Nat.iter j (separated_hit self) lv in
  (exists kj, bricks lv' !! self = Some kj /\ live kj = true
              /\ cur_texture_index kj = (cur_texture_index k + Z.of_nat j)%Z
              /\ textures kj = textures k /\ score kj = score k
              /\ icon kj = (if j is O then icon k else None))
  /\ win_score (window lv') = (win_score (window lv) + Z.of_nat j * score k)%Z
  /\ brick_list lv' = brick_list lv
  /\ breakable_brick_list lv' = breakable_brick_list lv
  /\ icon_list lv' = icon_list lv ++ (if j is O then [] else option_list (icon k)).
Proof.
  intros Hk Hl. induction j as [| j IH]; intros Hj lv'.
  - subst lv'. simpl. split; [exists k; repeat split; auto; lia |].
    rewrite app_nil_r. repeat split; lia.
  - destruct IH as ((kj & Hkj & Hlj & Hidx & Htex & Hsc & Hic) & Hw & Hbl & Hbb & Hil); [lia |].
    subst lv'. simpl Nat.iter.
    destruct (separated_hit_live self _ kj Hkj Hlj) as (Hb1 & Hw1 & _ & Hi1 & Hbl1 & Hbb1).
    assert (Hstay : (cur_texture_index kj + 1 <? Z.of_nat (length (textures kj)))%Z = true).
    { apply Z.ltb_lt. rewrite Hidx, Htex. unfold stages in Hj. lia. }
    rewrite Hstay in Hbl1, Hbb1.
    split; [| split; [| split; [| split]]].
    + eexists. split; [exact Hb1 |]. unfold live in *. destruct kj; simpl in *.
      repeat split; auto; lia.
    + rewrite Hw1. simpl. rewrite Hw, Hsc. lia.
    + congruence.
    + congruence.
    + rewrite Hi1, Hil, Hic. destruct j; simpl.
      * rewrite app_nil_r. reflexivity.
      * rewrite app_nil_r. reflexivity.
Qed.

(** X7: a breakable brick takes as many separated hits as it has textures
    left (at least one).  Every such hit adds the score of the brick; the
    brick stays in the brick lists until the last of them, which removes it
    from both; its icon is released at the first hit and only then. *)
Theorem brick_breaks_at_its_last_texture (self : nat) (lv : Level) (k : Brick) (j : nat) :
  bricks lv !! self = Some k ->
  is_breakable k = true ->
  has_been_hit k = false ->
  (Z.of_nat j <= stages k)%Z ->
  let lv' := Nat.iter j (separated_hit self) lv in
  win_score (window lv') = (win_score (window lv) + Z.of_nat j * score k)%Z
  /\ ((Z.of_nat j < stages k)%Z ->
      brick_list lv' = brick_list lv /\ breakable_brick_list lv' = breakable_brick_list lv)
  /\ ((Z.of_nat j = stages k)%Z ->
      (self ∉ brick_list lv') /\ (self ∉ breakable_brick_list lv'))
  /\ ((1 <= j)%nat -> icon_list lv' = icon_list lv ++ option_list (icon k)).
Proof.
  intros Hk Hb Hh Hj lv'.
  assert (Hl : live k = true) by (unfold live; rewrite Hb, Hh; reflexivity).
  destruct (Z.eq_dec (Z.of_nat j) (stages k)) as [Hlast | Hnot].
  - destruct j as [| j]; [unfold stages in Hlast; lia |].
    destruct (separated_hits_below_last self lv k j Hk Hl)
      as ((kj & Hkj & Hlj & Hidx & Htex & Hsc & Hic) & Hw & Hbl & Hbb & Hil); [lia |].
    subst lv'. simpl Nat.iter.
    destruct (separated_hit_live self _ kj Hkj Hlj) as (_ & Hw1 & _ & Hi1 & Hbl1 & Hbb1).
    assert (Hgone : (cur_texture_index kj + 1 <? Z.of_nat (length (textures kj)))%Z = false).
    { apply Z.ltb_ge. rewrite Hidx, Htex. unfold stages in Hlast. lia. }
    rewrite Hgone in Hbl1, Hbb1.
    split; [| split; [| split]].
    + rewrite Hw1. simpl. rewrite Hw, Hsc. lia.
    + intros Hlt. lia.
    + intros _. rewrite Hbl1, Hbb1. split; apply remove_id_not_in.
    + intros _. rewrite Hi1, Hil, Hic. destruct j; simpl.
      * rewrite app_nil_r. reflexivity.
      * rewrite app_nil_r. reflexivity.
  - destruct (separated_hits_below_last self lv k j Hk Hl)
      as (_ & Hw & Hbl & Hbb & Hil); [lia |].
    fold lv' in Hw, Hbl, Hbb, Hil.
    split; [exact Hw |]. split; [auto |]. split; [intros; lia |].
    intros H1. rewrite Hil. destruct j; [lia | reflexivity].
Qed.

(** The pink brick of two textures: one separated hit leaves it in the
    brick list, the second takes it out; 400 points in all and one icon. *)
Lemma brick_breaks_at_its_last_texture_witness :
  brick_list (Nat.iter 1 (separated_hit 0%nat) sample_level_pink_and_B) = [0; 1]%nat
  /\ (0%nat ∉ brick_list (Nat.iter 2 (separated_hit 0%nat) sample_level_pink_and_B))
  /\ win_score (window (Nat.iter 2 (separated_hit 0%nat) sample_level_pink_and_B)) = 400%Z
  /\ length (icon_list (Nat.iter 2 (separated_hit 0%nat) sample_level_pink_and_B)) = 1%nat.
Proof.
  destruct (brick_breaks_at_its_last_texture 0%nat sample_level_pink_and_B sample_pink_brick 1)
    as (_ & Hstay & _); [reflexivity | reflexivity | reflexivity | vm_compute; discriminate |].
  destruct (brick_breaks_at_its_last_texture 0%nat sample_level_pink_and_B sample_pink_brick 2)
    as (Hw & _ & Hgone & Hi); [reflexivity | reflexivity | reflexivity | vm_compute; discriminate |].
  split; [apply Hstay; vm_compute; reflexivity |].
  split; [apply Hgone; reflexivity |].
  split; [rewrite Hw; reflexivity |].
  rewrite Hi by lia. reflexivity.
Defined.

Lemma string_append_assoc (a b c : string) : ((a ++ b) ++ c)%string = (a ++ b ++ c)%string.
Proof.
  induction a as [| x a IH]; [reflexivity |].
  change (String x (String.append (String.append a b) c)
          = String x (String.append a (String.append b c))).
  f_equal. exact IH.
Qed.

Lemma bricks_of_cons (store : gmap nat Brick) id l :
  bricks_of store (id :: l)
  = match store !! id with
    | Some k => k :: bricks_of store l
    | None => bricks_of store l
    end.
Proof. reflexivity. Qed.

Lemma bricks_of_other self lv hit_list :
  self ∉ hit_list ->
  bricks_of (bricks (Brick_change_properties self lv)) hit_list = bricks_of (bricks lv) hit_list.
Proof.
  induction hit_list as [| id l IH]; intros Hn; [reflexivity |].
  apply not_elem_of_cons in Hn. destruct Hn as [Hne Hn].
  rewrite !bricks_of_cons.
  rewrite Brick_change_properties_other by auto. rewrite (IH Hn). reflexivity.
Qed.

(** X8: the bricks of a hit list are hit in the order of the list.  The
    bricks a hit acts on are the breakable ones that are not latched: the
    score grows by the sum of their scores, their letters are appended to
    the bonus letters in that order, and their icons to the icon list; the
    other bricks of the list count for nothing. *)
Theorem hit_list_collects_in_order (hit_list : list nat) (lv : Level) :
  NoDup hit_list ->
  let ks := List.filter live (bricks_of (bricks lv) hit_list) in
  let lv' := hit_all hit_list lv in
  window lv'
    = set_win_score (win_score (window lv) + foldr Z.add 0%Z (map score ks)) (window lv)
  /\ bonus_collection_order lv'
     = (bonus_collection_order lv ++ String.concat "" (map letter ks))%string
  /\ icon_list lv' = icon_list lv ++ omap icon ks.
Proof.
  intros Hnd. cbv zeta. revert lv.
  induction Hnd as [| id l Hn Hnd IH]; intros lv.
  - simpl. rewrite Z.add_0_r, app_nil_r, append_empty_r.
    destruct (window lv); auto.
  - unfold hit_all in *. simpl foldl.
    destruct (IH (Brick_change_properties id lv)) as (Hw & Ho & Hi).
    rewrite Hw, Ho, Hi. rewrite (bricks_of_other id lv l Hn).
    rewrite bricks_of_cons.
    destruct (bricks lv !! id) as [k |] eqn:Hk; simpl.
    + destruct (live k) eqn:Hl.
      * destruct (Brick_change_properties_live id lv k Hk Hl) as (_ & Hw1 & Ho1 & Hi1 & _).
        rewrite Hw1, Ho1, Hi1.
        set (ks := List.filter live (bricks_of (bricks lv) l)).
        split; [| split].
        -- simpl. unfold set_win_score. simpl. f_equal. lia.
        -- rewrite !concat_empty_separator. simpl. apply string_append_assoc.
        -- simpl. destruct (icon k); simpl; rewrite <- app_assoc; reflexivity.
      * rewrite (Brick_change_properties_not_live id lv k Hk Hl). auto.
    + assert (Hsame : Brick_change_properties id lv = lv).
      { unfold Brick_change_properties. rewrite Hk. reflexivity. }
      rewrite Hsame. auto.
Qed.

(** The pink brick and the B brick hit together: 300 points, the letter B
    and the icon of the pink brick. *)
Lemma hit_list_collects_in_order_witness :
  win_score (window (hit_all [0; 1]%nat sample_level_pink_and_B)) = 300%Z
  /\ bonus_collection_order (hit_all [0; 1]%nat sample_level_pink_and_B) = "B"%string
  /\ length (icon_list (hit_all [0; 1]%nat sample_level_pink_and_B)) = 1%nat.
Proof.
  destruct (hit_list_collects_in_order [0; 1]%nat sample_level_pink_and_B) as (Hw & Ho & Hi).
  - apply NoDup_cons. split; [apply not_elem_of_cons; split; [lia | apply not_elem_of_nil] |].
    apply NoDup_singleton.
  - rewrite Hw, Ho, Hi. split; [reflexivity |]. split; reflexivity.
Defined.

(** ** Drawing *)

Lemma DisplayInfoBlock_draw_shape lv :
  DisplayInfoBlock_draw lv
  = set_window (set_display_score (display_score (window (DisplayInfoBlock_draw lv)))
                  (window lv)) lv.
Proof.
  unfold DisplayInfoBlock_draw.
  destruct (display_score (window lv) <? win_score (window lv))%Z; simpl.
  - reflexivity.
  - destruct lv as [[] ]; reflexivity.
Qed.

Lemma draws_closed_form lv (n : nat) :
  let d := display_score (window lv) in
  let s := win_score (window lv) in
  let lv' := Nat.iter n DisplayInfoBlock_draw lv in
  lv' = set_window (set_display_score (display_score (window lv')) (window lv)) lv
  /\ display_score (window lv')
     = (d + 5 * Z.min (Z.of_nat n) (Z.max 0 ((s - d + 4) / 5)))%Z.
Proof.
  cbv zeta. induction n as [| n [IHs IHd]].
  - simpl. split; [destruct lv as [[] ]; reflexivity |].
    assert (Z.max 0 ((win_score (window lv) - display_score (window lv) + 4) / 5) >= 0)%Z by lia.
    lia.
  - simpl Nat.iter. set (lvn := Nat.iter n DisplayInfoBlock_draw lv) in *.
    assert (Hs : win_score (window lvn) = win_score (window lv)) by (rewrite IHs; reflexivity).
    split.
    + rewrite DisplayInfoBlock_draw_shape. rewrite IHs at 2 3. reflexivity.
    + unfold DisplayInfoBlock_draw. rewrite Hs.
      destruct (display_score (window lvn) <? win_score (window lv))%Z eqn:E; simpl.
      * apply Z.ltb_lt in E. rewrite IHd in *.
        pose proof (Z.div_mod (win_score (window lv) - display_score (window lv) + 4) 5
                      ltac:(lia)) as Hdm.
        pose proof (Z.mod_pos_bound (win_score (window lv) - display_score (window lv) + 4) 5
                      ltac:(lia)) as Hmb.
        lia.
      * apply Z.ltb_ge in E. rewrite IHd in *.
        pose proof (Z.div_mod (win_score (window lv) - display_score (window lv) + 4) 5
                      ltac:(lia)) as Hdm.
        pose proof (Z.mod_pos_bound (win_score (window lv) - display_score (window lv) + 4) 5
                      ltac:(lia)) as Hmb.
        lia.
Qed.

(** X9: the score shown in the display block climbs by 5 per draw and
    never falls; nothing else is written.  When the score is ahead by a
    multiple of 5, the shown score reaches it after that many fifths and
    stays there; when it is ahead by any other amount, the shown score
    steps over it and is never equal to it again. *)
Theorem display_score_catches_up (lv : Level) (n : nat) :
  let d := display_score (window lv) in
  let s := win_score (window lv) in
  let lv' := Nat.iter n DisplayInfoBlock_draw lv in
  lv' = set_window (set_display_score (display_score (window lv')) (window lv)) lv
  /\ (d <= display_score (window lv') <= d + 5 * Z.of_nat n)%Z
  /\ ((d <= s)%Z -> ((s - d) mod 5 = 0)%Z -> ((s - d) / 5 <= Z.of_nat n)%Z ->
      display_score (window lv') = s)
  /\ ((d < s)%Z -> ((s - d) mod 5 <> 0)%Z -> display_score (window lv') <> s).
Proof.
  intros d s lv'. destruct (draws_closed_form lv n) as [Hshape Hd].
  fold lv' d s in Hshape, Hd.
  pose proof (Z.div_mod (s - d + 4) 5 ltac:(lia)) as Hdm.
  pose proof (Z.mod_pos_bound (s - d + 4) 5 ltac:(lia)) as Hmb.
  pose proof (Z.div_mod (s - d) 5 ltac:(lia)) as Hdm'.
  pose proof (Z.mod_pos_bound (s - d) 5 ltac:(lia)) as Hmb'.
  split; [exact Hshape |]. split; [lia |]. split.
  - intros Hle Hmod Hn. rewrite Hd. lia.
  - intros Hlt Hmod. rewrite Hd. lia.
Qed.

Lemma Level_on_draw_fields lv :
  game_over (Level_on_draw lv) = game_over lv
  /\ level_complete (Level_on_draw lv) = level_complete lv
  /\ elapsed_time (Level_on_draw lv) = elapsed_time lv
  /\ bonus_score (Level_on_draw lv) = bonus_score lv
  /\ lives (window (Level_on_draw lv)) = lives (window lv)
  /\ is_demo_level (Level_on_draw lv) = is_demo_level lv.
Proof.
  unfold Level_on_draw, display_info_draw, DemoDisplayInfoBlock_draw, DisplayInfoBlock_draw.
  destruct (is_demo_level lv) eqn:Hd;
    try destruct (display_score (window lv) <? win_score (window lv))%Z; simpl;
    destruct (game_over lv && _); simpl; auto 7;
    destruct (level_complete lv && _); simpl; auto 7;
    destruct (negb (bonus_added lv)); simpl; auto 7.
Qed.

Lemma Level_on_draw_iter_fields lv (n : nat) :
  game_over (Nat.iter n Level_on_draw lv) = game_over lv
  /\ level_complete (Nat.iter n Level_on_draw lv) = level_complete lv
  /\ elapsed_time (Nat.iter n Level_on_draw lv) = elapsed_time lv
  /\ bonus_score (Nat.iter n Level_on_draw lv) = bonus_score lv
  /\ lives (window (Nat.iter n Level_on_draw lv)) = lives (window lv)
  /\ is_demo_level (Nat.iter n Level_on_draw lv) = is_demo_level lv.
Proof.
  induction n as [| n (IH1 & IH2 & IH3 & IH4 & IH5 & IH6)]; [simpl; auto 7 |].
  change (Nat.iter (S n) Level_on_draw lv) with (Level_on_draw (Nat.iter n Level_on_draw lv)).
  destruct (Level_on_draw_fields (Nat.iter n Level_on_draw lv))
    as (H1 & H2 & H3 & H4 & H5 & H6).
  rewrite H1, H2, H3, H4, H5, H6. auto 7.
Qed.

(** On a demo level no draw writes the shown score. *)
Lemma Level_on_draw_demo_display lv :
  is_demo_level lv = true ->
  display_score (window (Level_on_draw lv)) = display_score (window lv).
Proof.
  intros Hd.
  unfold Level_on_draw, display_info_draw, DemoDisplayInfoBlock_draw. rewrite Hd.
  destruct (game_over lv && _); simpl; auto;
    destruct (level_complete lv && _); simpl; auto;
    destruct (negb (bonus_added lv)); simpl; auto.
Qed.

(** X10: once the level is complete and the pause has passed, the first
    [on_draw] adds the bonus score to the score and every later one adds
    nothing: after any number of draws the score is the old score plus the
    bonus, once.  While the pause has not passed no draw adds anything.
    This holds of a demo level as of a normal one; the draws of a demo
    level, whose display block is a [DemoDisplayInfoBlock], never write the
    shown score. *)
Theorem bonus_is_credited_once (lv : Level) (n : nat) :
  level_complete lv = true ->
  game_over lv = false ->
  bonus_added lv = false ->
  let lv' := Nat.iter n Level_on_draw lv in
  (elapsed_time lv > PAUSE_TIME -> (1 <= n)%nat ->
     win_score (window lv') = (win_score (window lv) + bonus_score lv)%Z
     /\ bonus_added lv' = true)
  /\ (elapsed_time lv <= PAUSE_TIME ->
     win_score (window lv') = win_score (window lv) /\ bonus_added lv' = false)
  /\ (is_demo_level lv = true ->
     display_score (window lv') = display_score (window lv)).
Proof.
  intros Hc Hg Ha lv'. subst lv'. split; [| split].
  - intros Ht Hn. destruct n as [| n]; [lia |]. clear Hn.
    induction n as [| n [IHw IHa]].
    + simpl. unfold Level_on_draw, display_info_draw, DemoDisplayInfoBlock_draw,
        DisplayInfoBlock_draw.
      destruct (is_demo_level lv);
        try destruct (display_score (window lv) <? win_score (window lv))%Z; simpl;
        rewrite Hg, Hc, Ha; simpl; rewrite (proj2 (Rgtb_true _ _)) by exact Ht;
        simpl; auto.
    + remember (Nat.iter (S n) Level_on_draw lv) as lvn eqn:E.
      change (Nat.iter (S (S n)) Level_on_draw lv) with (Level_on_draw (Nat.iter (S n) Level_on_draw lv)).
      rewrite <- E. unfold Level_on_draw, display_info_draw, DemoDisplayInfoBlock_draw,
        DisplayInfoBlock_draw.
      destruct (is_demo_level lvn);
        try destruct (display_score (window lvn) <? win_score (window lvn))%Z; simpl;
        rewrite IHa; simpl;
        destruct (game_over lvn && _); simpl; auto;
        destruct (level_complete lvn && _); simpl; auto.
  - intros Ht. induction n as [| n [IHw IHa]]; [simpl; auto |].
    remember (Nat.iter n Level_on_draw lv) as lvn eqn:E.
    change (Nat.iter (S n) Level_on_draw lv) with (Level_on_draw (Nat.iter n Level_on_draw lv)).
    rewrite <- E.
    destruct (Level_on_draw_iter_fields lv n) as (Hgn & _ & Hen & _).
    rewrite <- E in Hgn, Hen. rewrite Hg in Hgn.
    unfold Level_on_draw, display_info_draw, DemoDisplayInfoBlock_draw, DisplayInfoBlock_draw.
    destruct (is_demo_level lvn);
      try destruct (display_score (window lvn) <? win_score (window lvn))%Z; simpl;
      rewrite Hgn, Hen; simpl; rewrite (proj2 (Rgtb_false _ _)) by lra;
      rewrite andb_false_r; simpl; auto.
  - intros Hd. induction n as [| n IH]; [reflexivity |].
    change (Nat.iter (S n) Level_on_draw lv) with (Level_on_draw (Nat.iter n Level_on_draw lv)).
    rewrite Level_on_draw_demo_display; [exact IH |].
    destruct (Level_on_draw_iter_fields lv n) as (_ & _ & _ & _ & _ & H6).
    rewrite H6. exact Hd.
Qed.

(** A score of 20 is shown in full after four draws. *)
Lemma display_score_catches_up_witness :
  display_score (window (Nat.iter 4 DisplayInfoBlock_draw sample_level_score_20)) = 20%Z.
Proof.
  destruct (display_score_catches_up sample_level_score_20 4) as (_ & _ & Hmeet & _).
  apply Hmeet; vm_compute; try reflexivity; discriminate.
Defined.

(** Three draws after the pause of a completed level with three lives: the
    bonus of 300 is in the score once. *)
Lemma bonus_is_credited_once_witness :
  win_score (window (Nat.iter 3 Level_on_draw sample_level_completed)) = 300%Z.
Proof.
  destruct (bonus_is_credited_once sample_level_completed 3) as [Hafter _];
    [reflexivity | reflexivity | reflexivity |].
  destruct Hafter as [Hw _].
  - simpl. unfold PAUSE_TIME. lra.
  - lia.
  - rewrite Hw. reflexivity.
Defined.

(** ** Keys *)

Lemma with_balls_of_refl lv : with_balls_of lv lv = lv.
Proof. destruct lv as [? ? ? ? ? ? ? ? ? ? [] ]; reflexivity. Qed.

Lemma with_balls_of_trans lv lv1 lv2 :
  with_balls_of lv lv1 = lv -> with_balls_of lv1 lv2 = lv1 -> with_balls_of lv lv2 = lv.
Proof.
  intros H1 H2.
  transitivity (with_balls_of lv (with_balls_of lv1 lv2)); [reflexivity |].
  rewrite H2. exact H1.
Qed.

Lemma convert_to_frame assets self t lv :
  with_balls_of lv (snd (convert_to assets self t lv)) = lv.
Proof.
  unfold convert_to. destruct (balls lv !! self); simpl;
    destruct lv as [? ? ? ? ? ? ? ? ? ? [] ]; reflexivity.
Qed.

Lemma split_into_two_frame assets self lv :
  with_balls_of lv (split_into_two assets self lv) = lv.
Proof.
  unfold split_into_two. destruct (balls lv !! self); simpl;
    destruct lv as [? ? ? ? ? ? ? ? ? ? [] ]; reflexivity.
Qed.

Lemma Ball_change_velocity_frame id lv :
  with_balls_of lv (Ball_change_velocity id lv) = lv.
Proof. destruct lv as [? ? ? ? ? ? ? ? ? ? [] ]; reflexivity. Qed.

Lemma foldl_frame (f : Level -> nat -> Level) (l : list nat) :
  (forall lv x, with_balls_of lv (f lv x) = lv) ->
  forall lv, with_balls_of lv (foldl f lv l) = lv.
Proof.
  intros Hf. induction l as [| x l IH]; intros lv; simpl.
  - apply with_balls_of_refl.
  - eapply with_balls_of_trans; [apply Hf | apply IH].
Qed.

Lemma release_magnetic_balls_frame assets lv :
  with_balls_of lv (release_magnetic_balls assets lv) = lv.
Proof.
  unfold release_magnetic_balls.
  match goal with
  | |- context [foldl ?f lv ?l] =>
    assert (H : with_balls_of lv (foldl f lv l) = lv)
  end.
  { apply foldl_frame. clear lv. intros lv ball.
    destruct (balls lv !! ball) as [b |]; [| apply with_balls_of_refl].
    assert (H : forall t,
               with_balls_of lv
                 (let '(new_ball, lv1) := convert_to assets ball t lv in
                  if (split_balls (paddle (Ball_change_velocity new_ball lv1)) >? 0)%Z
                  then split_into_two assets new_ball (Ball_change_velocity new_ball lv1)
                  else Ball_change_velocity new_ball lv1) = lv).
    { intros t. pose proof (convert_to_frame assets ball t lv) as H1.
      destruct (convert_to assets ball t lv) as [nb lv1]. simpl in H1.
      eapply with_balls_of_trans; [exact H1 |].
      destruct (_ >? 0)%Z.
      - eapply with_balls_of_trans;
          [apply Ball_change_velocity_frame | apply split_into_two_frame].
      - apply Ball_change_velocity_frame. }
    destruct (is_invincible b); apply H. }
  etransitivity; [| exact H]. reflexivity.
Qed.

Lemma press_release_same lv :
  left_pressed lv = false -> right_pressed lv = false ->
  set_left_pressed false (set_left_pressed true lv) = lv
  /\ set_right_pressed false (set_right_pressed true lv) = lv
  /\ set_right_pressed false (set_left_pressed false lv) = lv.
Proof. destruct lv; simpl; intros -> ->; auto. Qed.

(** X11: the arrow keys of a level in play.  A key pressed and released
    leaves the level as it was.  While both keys are down the paddle stands
    still, and when one of the two is released the other one drives it.
    Escape shows the pause menu and takes both keys back, so that the
    paddle stands still after the pause until a key is pressed again; when
    the game is over or the level complete Escape does nothing. *)
Theorem arrow_keys_drive_the_paddle
    (assets : Assets) (bullet_size : R * R) (delta_time : R) (lv : Level) :
  is_demo_level lv = false ->
  left_pressed lv = false ->
  right_pressed lv = false ->
  let press := press assets bullet_size in
  Level_on_key_release LEFT (press LEFT lv) = lv
  /\ Level_on_key_release RIGHT (press RIGHT lv) = lv
  /\ Paddle_on_update delta_time (press RIGHT (press LEFT lv)) = press RIGHT (press LEFT lv)
  /\ keys_change_x (Level_on_key_release RIGHT (press RIGHT (press LEFT lv)))
     = - paddle_speed (paddle lv)
  /\ keys_change_x (Level_on_key_release LEFT (press RIGHT (press LEFT lv)))
     = paddle_speed (paddle lv)
  /\ (forall k, k = LEFT \/ k = RIGHT ->
      Level_on_key_press assets bullet_size ESCAPE (press k lv)
      = if negb (game_over lv) && negb (level_complete lv) then (lv, true)
        else (press k lv, false))
  /\ (game_over lv = false -> level_complete lv = false ->
      forall k, k = LEFT \/ k = RIGHT ->
      Paddle_on_update delta_time (press ESCAPE (press k lv)) = lv).
Proof.
  intros Hd Hl Hr. cbv zeta.
  destruct (press_release_same lv Hl Hr) as (Hll & Hrr & Hlr).
  assert (Hstill : Paddle_on_update delta_time lv = lv).
  { unfold Paddle_on_update. rewrite keys_change_x_cancel by congruence.
    rewrite (proj2 (Reqb_true 0 0) eq_refl). reflexivity. }
  unfold press, Level_on_key_press, Level_on_key_release. rewrite Hd. simpl.
  rewrite Hd. simpl. rewrite Hd. simpl.
  split; [exact Hll |]. split; [exact Hrr |]. split.
  { unfold Paddle_on_update. rewrite keys_change_x_cancel by reflexivity.
    rewrite (proj2 (Reqb_true 0 0) eq_refl). reflexivity. }
  split; [unfold keys_change_x; simpl; reflexivity |].
  split; [unfold keys_change_x; simpl; reflexivity |].
  split.
  - intros k [-> | ->]; simpl; rewrite Hd; simpl;
      destruct (negb (game_over lv) && negb (level_complete lv)); try reflexivity.
    + f_equal. etransitivity; [| exact Hlr]. reflexivity.
    + f_equal. etransitivity; [| exact Hlr]. reflexivity.
  - intros Hg Hc k [-> | ->]; simpl; rewrite Hd; simpl; rewrite Hg, Hc; simpl.
    + change (set_right_pressed false (set_left_pressed false (set_left_pressed true lv)))
        with (set_right_pressed false (set_left_pressed false lv)).
      rewrite Hlr. exact Hstill.
    + change (set_right_pressed false (set_left_pressed false (set_right_pressed true lv)))
        with (set_right_pressed false (set_left_pressed false lv)).
      rewrite Hlr. exact Hstill.
Qed.

(** On [sample_level]: left pressed, then Escape, then an update. *)
Lemma arrow_keys_drive_the_paddle_witness :
  Paddle_on_update (1 / 60)
    (press sample_assets (7, 14) ESCAPE (press sample_assets (7, 14) LEFT sample_level))
  = sample_level.
Proof.
  destruct (arrow_keys_drive_the_paddle sample_assets (7, 14) (1 / 60) sample_level)
    as (_ & _ & _ & _ & _ & _ & Hesc); [reflexivity | reflexivity | reflexivity |].
  apply Hesc; [reflexivity | reflexivity | left; reflexivity].
Defined.

(** X12: the space key of a level in play.  During the pause after a lost
    life, after the game is over and after the level is complete it does
    nothing.  Otherwise the game is active afterwards, a magnetic paddle
    holds no ball any more, a shooting paddle has fired exactly one bullet,
    which starts on top of the paddle at its centre, and a paddle that
    does not shoot has fired none.  The score, the lives, the bricks and
    the place of the paddle are not written, and without a magnetic paddle
    neither are the balls. *)
Theorem space_starts_play (assets : Assets) (bullet_size : R * R) (lv : Level) :
  is_demo_level lv = false ->
  let lv' := press assets bullet_size SPACE lv in
  (lost_a_life lv || game_over lv || level_complete lv = true -> lv' = lv)
  /\ (lost_a_life lv = false -> game_over lv = false -> level_complete lv = false ->
      game_is_active lv' = true
      /\ (is_magnetic (paddle lv) = true -> magnetic_ball_list (paddle lv') = [])
      /\ bullet_list lv'
         = bullet_list lv
           ++ (if activate_shooter (paddle lv) then [Bullet_init bullet_size lv] else [])
      /\ bottom (Bullet_init bullet_size lv) = top (paddle_sprite (paddle lv))
      /\ center_x (Bullet_init bullet_size lv) = center_x (paddle_sprite (paddle lv))
      /\ window lv' = window lv
      /\ bricks lv' = bricks lv
      /\ brick_list lv' = brick_list lv
      /\ paddle_sprite (paddle lv') = paddle_sprite (paddle lv)
      /\ (is_magnetic (paddle lv) = false ->
          balls lv' = balls lv /\ ball_list lv' = ball_list lv /\ paddle lv' = paddle lv)).
Proof.
  intros Hd lv'. subst lv'. unfold press, Level_on_key_press. rewrite Hd. split.
  - intros Hp. apply orb_true_iff in Hp. destruct Hp as [Hp | Hp];
      [apply orb_true_iff in Hp; destruct Hp as [Hp | Hp] |]; rewrite Hp; simpl.
    + reflexivity.
    + rewrite andb_false_r. reflexivity.
    + rewrite andb_false_r. reflexivity.
  - intros Hl Hg Hc. rewrite Hl, Hg, Hc. simpl andb. cbv iota. cbv zeta.
    set (lv1 := set_game_is_active true lv).
    assert (Hbullet : bottom (Bullet_init bullet_size lv) = top (paddle_sprite (paddle lv))
                      /\ center_x (Bullet_init bullet_size lv)
                         = center_x (paddle_sprite (paddle lv))).
    { unfold Bullet_init. rewrite set_bottom_bottom. split; reflexivity. }
    destruct Hbullet as [Hbb Hbc].
    change (paddle lv1) with (paddle lv).
    destruct (is_magnetic (paddle lv)) eqn:Hm.
    + pose proof (release_magnetic_balls_frame assets lv1) as Hf.
      set (lv2 := release_magnetic_balls assets lv1) in *.
      assert (Hfields :
                game_is_active lv2 = true /\ window lv2 = window lv /\ bricks lv2 = bricks lv
                /\ brick_list lv2 = brick_list lv /\ bullet_list lv2 = bullet_list lv
                /\ paddle_sprite (paddle lv2) = paddle_sprite (paddle lv)
                /\ activate_shooter (paddle lv2) = activate_shooter (paddle lv)).
      { split; [exact (f_equal game_is_active Hf) |].
        split; [exact (f_equal window Hf) |].
        split; [exact (f_equal bricks Hf) |].
        split; [exact (f_equal brick_list Hf) |].
        split; [exact (f_equal bullet_list Hf) |].
        split; [exact (f_equal (fun l => paddle_sprite (paddle l)) Hf) |].
        exact (f_equal (fun l => activate_shooter (paddle l)) Hf). }
      destruct Hfields as (Ha & Hw & Hb & Hbl & Hbu & Hps & Hsh).
      assert (Hml : magnetic_ball_list (paddle lv2) = []) by reflexivity.
      assert (Hbi : Bullet_init bullet_size lv2 = Bullet_init bullet_size lv).
      { unfold Bullet_init. rewrite Hps. reflexivity. }
      clearbody lv2. rewrite Hsh. destruct (activate_shooter (paddle lv)); simpl;
        rewrite ?Hbu, ?Hbi, ?app_nil_r; repeat split; auto; intros; try discriminate; auto.
    + change (paddle lv1) with (paddle lv).
      change (Bullet_init bullet_size lv1) with (Bullet_init bullet_size lv).
      destruct (activate_shooter (paddle lv)); simpl;
        rewrite ?app_nil_r; repeat split; auto; intros; try discriminate; auto.
Qed.

(** Space on the shooting paddle of [sample_level_shooter] fires one
    bullet. *)
Lemma space_starts_play_witness :
  length (bullet_list (press sample_assets (7, 14) SPACE sample_level_shooter)) = 1%nat.
Proof.
  destruct (space_starts_play sample_assets (7, 14) sample_level_shooter) as [_ Hplay];
    [reflexivity |].
  destruct Hplay as (_ & _ & Hb & _); [reflexivity | reflexivity | reflexivity |].
  rewrite Hb. reflexivity.
Defined.

(** X13: after a life is lost with lives to spare, space does nothing
    until the level has put a new ball into play: a tick within the pause
    only advances the time; the tick that ends the pause gives a new normal
    paddle without power-ups and one new normal ball, with the game still
    idle, and after it space starts the game.  When the last life is lost
    the game is over and space, Escape and the respawn are all dead. *)
Theorem space_waits_for_the_respawn
    (assets : Assets) (bullet_size : R * R) (sprites_on_update : Level -> Level)
    (lowest_high_score : option Z) (delta_time : R) (lv0 : Level) :
  is_demo_level lv0 = false ->
  level_complete lv0 = false ->
  game_over lv0 = false ->
  lost_a_life lv0 = false ->
  load_next_level lv0 = false ->
  let lv := lose_a_life lv0 in
  let tick := Level_on_update assets sprites_on_update lowest_high_score delta_time in
  press assets bullet_size SPACE lv = lv
  /\ lives (window lv) = (lives (window lv0) - 1)%Z
  /\ (lives (window lv0) <> 1%Z ->
      (delta_time <= PAUSE_TIME + TRANSITION_TIME ->
         tick lv = Some (set_elapsed_time (0 + delta_time) lv))
      /\ (delta_time > PAUSE_TIME + TRANSITION_TIME ->
          exists lv2,
            tick lv = Some lv2
            /\ lost_a_life lv2 = false /\ game_is_active lv2 = false
            /\ paddle lv2 = Paddle_init assets (boundary lv0) NormalPaddle
            /\ ball_list lv2 = ball_list lv0 ++ [new_ball_id lv0]
            /\ balls lv2
               = <[new_ball_id lv0 := Ball_init assets (boundary lv0) true NormalBall]>
                   (balls lv0)
            /\ window lv2 = window lv
            /\ game_is_active (press assets bullet_size SPACE lv2) = true))
  /\ (lives (window lv0) = 1%Z ->
      game_over lv = true
      /\ Level_on_key_press assets bullet_size ESCAPE lv = (lv, false)
      /\ forall lv2, tick lv = Some lv2 ->
           balls lv2 = balls lv0 /\ ball_list lv2 = ball_list lv0
           /\ game_is_active lv2 = false /\ game_over lv2 = true).
Proof.
  intros Hd Hc Hg Hl Hn lv tick. subst lv tick.
  destruct (lives (window lv0) - 1 =? 0)%Z eqn:E.
  - assert (Heq : lose_a_life lv0
                  = set_elapsed_time 0
                      (set_game_over true
                         (set_window (set_lives (lives (window lv0) - 1) (window lv0))
                            (set_game_is_active false lv0)))).
    { unfold lose_a_life. simpl. rewrite E. reflexivity. }
    rewrite Heq. clear Heq. apply Z.eqb_eq in E.
    unfold press, Level_on_key_press, Level_on_update. simpl. rewrite Hd, Hl, Hc. simpl.
    split; [reflexivity |]. split; [reflexivity |].
    split; [intros Hne; lia |].
    intros _. split; [reflexivity |]. split; [reflexivity |].
    intros lv2. rewrite Hl, Hn. simpl.
    destruct (Rgtb (0 + delta_time) (PAUSE_TIME * 2 + TRANSITION_TIME)
              && (display_score (window lv0) =? win_score (window lv0))%Z).
    + destruct lowest_high_score as [lowest |]; [| intros; discriminate].
      destruct (_ >? lowest)%Z; intros H; inversion H; subst; simpl; auto.
    + rewrite Hc. simpl. intros H; inversion H; subst; simpl; auto.
  - assert (Heq : lose_a_life lv0
                  = set_elapsed_time 0
                      (set_lost_a_life true
                         (set_window (set_lives (lives (window lv0) - 1) (window lv0))
                            (set_game_is_active false lv0)))).
    { unfold lose_a_life. simpl. rewrite E. reflexivity. }
    rewrite Heq. clear Heq. apply Z.eqb_neq in E.
    unfold press, Level_on_key_press, Level_on_update. simpl. rewrite Hd, Hg, Hc. simpl.
    split; [reflexivity |]. split; [reflexivity |].
    split; [| intros H1; lia].
    intros _. split.
    + intros Ht. rewrite (proj2 (Rgtb_false _ _)) by lra. simpl.
      rewrite Hg, Hc, Hn. reflexivity.
    + intros Ht. rewrite (proj2 (Rgtb_true _ _)) by lra. simpl.
      eexists. split; [reflexivity |]. simpl. rewrite Hd, Hg, Hc. simpl.
      repeat split; reflexivity.
Qed.

(** [sample_level] has three lives: after a lost life two are left and
    space does nothing. *)
Lemma space_waits_for_the_respawn_witness :
  press sample_assets (7, 14) SPACE (lose_a_life sample_level) = lose_a_life sample_level
  /\ lives (window (lose_a_life sample_level)) = 2%Z.
Proof.
  destruct (space_waits_for_the_respawn sample_assets (7, 14) (fun lv => lv) (Some 5000%Z)
              (1 / 60) sample_level)
    as (Hspace & Hlives & _);
    [reflexivity | reflexivity | reflexivity | reflexivity | reflexivity |].
  split; [exact Hspace |]. rewrite Hlives. reflexivity.
Defined.

(** ** High scores *)

Lemma uint_value_pos (u : Decimal.uint) (p : positive) :
  uint_value (Z.pos p) u = Z.pos (Pos.of_uint_acc u p).
Proof.
  revert p. induction u as [| u IH | u IH | u IH | u IH | u IH | u IH | u IH | u IH | u IH | u IH];
    intros p; simpl; [reflexivity | ..].
  all: rewrite <- IH; f_equal; lia.
Qed.

Lemma uint_value_0 (u : Decimal.uint) : uint_value 0 u = Z.of_N (Pos.of_uint u).
Proof.
  induction u as [| u IH | u IH | u IH | u IH | u IH | u IH | u IH | u IH | u IH | u IH];
    simpl; [reflexivity | exact IH | ..].
  all: apply uint_value_pos.
Qed.

Lemma digits_string_of_uint (u : Decimal.uint) (acc : Z) :
  digits acc true (NilEmpty.string_of_uint u) = Some (uint_value acc u).
Proof.
  revert acc.
  induction u as [| u IH | u IH | u IH | u IH | u IH | u IH | u IH | u IH | u IH | u IH];
    intros acc; [reflexivity | ..].
  all: simpl NilEmpty.string_of_uint; simpl uint_value; rewrite <- IH; reflexivity.
Qed.

Lemma is_int_space_is_space c : is_int_space c = true -> is_space c = true.
Proof.
  unfold is_int_space, is_space. cbv zeta. intros H.
  repeat (apply orb_true_iff in H; destruct H as [H | H]).
  - rewrite H. reflexivity.
  - apply Nat.eqb_eq in H. rewrite H. reflexivity.
  - rewrite H. rewrite !orb_true_r. reflexivity.
  - rewrite H. rewrite !orb_true_r. reflexivity.
Qed.

Lemma not_is_space_not_int_space c : is_space c = false -> is_int_space c = false.
Proof.
  intros H. destruct (is_int_space c) eqn:E; [| reflexivity].
  apply is_int_space_is_space in E. congruence.
Qed.

Lemma lstrip_spaceless space s :
  (forall c, is_space c = false -> space c = false) ->
  spaceless s = true -> lstrip space s = s.
Proof.
  intros Hsp. destruct s as [| c s]; [reflexivity |]. simpl. intros H.
  apply andb_true_iff in H. destruct H as [H _]. apply negb_true_iff in H.
  rewrite (Hsp c H). reflexivity.
Qed.

Lemma rstrip_spaceless space s :
  (forall c, is_space c = false -> space c = false) ->
  spaceless s = true -> rstrip space s = s.
Proof.
  intros Hsp. induction s as [| c s IH]; [reflexivity |]. simpl. intros H.
  apply andb_true_iff in H. destruct H as [Hc Hs]. apply negb_true_iff in Hc.
  rewrite (IH Hs), (Hsp c Hc). destruct s; reflexivity.
Qed.

Lemma rstrip_newline space s :
  space newline = true -> rstrip space (s ++ String newline "")%string = rstrip space s.
Proof.
  intros Hn. induction s as [| c s IH]; [simpl; rewrite Hn; reflexivity |].
  change (rstrip space (String c (s ++ String newline "")%string) = rstrip space (String c s)).
  simpl. rewrite IH. reflexivity.
Qed.

Lemma spaceless_string_of_uint u : spaceless (NilEmpty.string_of_uint u) = true.
Proof.
  induction u as [| u IH | u IH | u IH | u IH | u IH | u IH | u IH | u IH | u IH | u IH];
    [reflexivity | ..].
  all: simpl NilEmpty.string_of_uint; simpl spaceless; exact IH.
Qed.

Lemma count_digits_newline s :
  count_digits (s ++ String newline "")%string = count_digits s.
Proof.
  induction s as [| c s IH]; [reflexivity |].
  change (count_digits (String c (s ++ String newline "")%string) = count_digits (String c s)).
  simpl. rewrite IH. reflexivity.
Qed.

Lemma py_int_string_of_uint (u : Decimal.uint) :
  u <> Decimal.Nil ->
  (count_digits (NilEmpty.string_of_uint u) <= int_max_str_digits)%nat ->
  py_int (NilEmpty.string_of_uint u) = Some (uint_value 0 u)
  /\ py_int (NilEmpty.string_of_uint u ++ String newline "") = Some (uint_value 0 u)
  /\ py_int (String "-" (NilEmpty.string_of_uint u)) = Some (- uint_value 0 u)%Z
  /\ py_int (String "-" (NilEmpty.string_of_uint u) ++ String newline "")
     = Some (- uint_value 0 u)%Z.
Proof.
  intros Hu Hmax. unfold py_int. cbv zeta.
  change (String "-" (NilEmpty.string_of_uint u) ++ String newline "")%string
    with (String "-" (NilEmpty.string_of_uint u ++ String newline ""))%string.
  assert (Hl : forall s, lstrip is_int_space (String "-" s) = String "-" s) by reflexivity.
  rewrite !Hl.
  assert (Hm : rstrip is_int_space (String "-" (NilEmpty.string_of_uint u ++ String newline ""))
               = String "-" (NilEmpty.string_of_uint u)
               /\ rstrip is_int_space (String "-" (NilEmpty.string_of_uint u))
                  = String "-" (NilEmpty.string_of_uint u)).
  { change (String "-" (NilEmpty.string_of_uint u ++ String newline ""))%string
      with (String "-" (NilEmpty.string_of_uint u) ++ String newline "")%string.
    rewrite rstrip_newline by reflexivity.
    split; apply rstrip_spaceless; try exact not_is_space_not_int_space; simpl;
      apply spaceless_string_of_uint. }
  destruct Hm as [Hm1 Hm2]. rewrite Hm1, Hm2.
  assert (Hp : lstrip is_int_space (NilEmpty.string_of_uint u ++ String newline "")
               = (NilEmpty.string_of_uint u ++ String newline "")%string).
  { destruct u; try reflexivity. congruence. }
  rewrite Hp, rstrip_newline by reflexivity.
  rewrite (lstrip_spaceless _ _ not_is_space_not_int_space (spaceless_string_of_uint u)).
  rewrite (rstrip_spaceless _ _ not_is_space_not_int_space (spaceless_string_of_uint u)).
  assert (Hd : digits 0 false (NilEmpty.string_of_uint u) = Some (uint_value 0 u)).
  { destruct u; try congruence; simpl NilEmpty.string_of_uint; simpl uint_value;
      rewrite <- digits_string_of_uint; reflexivity. }
  assert (Hfirst : match NilEmpty.string_of_uint u with
                   | String "-" s' => option_map Z.opp (digits 0 false s')
                   | String "+" s' => digits 0 false s'
                   | _ => digits 0 false (NilEmpty.string_of_uint u)
                   end = digits 0 false (NilEmpty.string_of_uint u)).
  { destruct u; try congruence; reflexivity. }
  assert (Hneg : count_digits (String "-" (NilEmpty.string_of_uint u))
                 = count_digits (NilEmpty.string_of_uint u)) by reflexivity.
  rewrite Hneg. apply Nat.leb_le in Hmax. rewrite Hmax.
  rewrite Hfirst, Hd. simpl. auto.
Qed.

Lemma to_uint_not_Nil p : Pos.to_uint p <> Decimal.Nil.
Proof.
  intros H. pose proof (DecimalPos.Unsigned.of_to p) as Hof. rewrite H in Hof. discriminate.
Qed.

(** The decimal text of an int is read back as that int, within the limit
    of the conversions, also when the text is the last field of its line
    and still carries the line break. *)
Lemma py_int_decimal (z : Z) :
  (count_digits (decimal z) <= int_max_str_digits)%nat ->
  py_int (decimal z) = Some z
  /\ py_int (decimal z ++ String newline "") = Some z.
Proof.
  unfold decimal. destruct z as [| p | p]; intros Hmax.
  - split; reflexivity.
  - simpl Z.to_int in *. simpl NilZero.string_of_int in *.
    pose proof (to_uint_not_Nil p) as Hn.
    assert (Hs : NilZero.string_of_uint (Pos.to_uint p) = NilEmpty.string_of_uint (Pos.to_uint p)).
    { destruct (Pos.to_uint p); try reflexivity. congruence. }
    rewrite Hs in *. destruct (py_int_string_of_uint _ Hn Hmax) as (H1 & H2 & _).
    rewrite H1, H2, uint_value_0, DecimalPos.Unsigned.of_to. auto.
  - simpl Z.to_int in *. simpl NilZero.string_of_int in *.
    pose proof (to_uint_not_Nil p) as Hn.
    assert (Hs : NilZero.string_of_uint (Pos.to_uint p) = NilEmpty.string_of_uint (Pos.to_uint p)).
    { destruct (Pos.to_uint p); try reflexivity. congruence. }
    rewrite Hs in *.
    assert (Hmax' : (count_digits (NilEmpty.string_of_uint (Pos.to_uint p))
                     <= int_max_str_digits)%nat) by exact Hmax.
    destruct (py_int_string_of_uint _ Hn Hmax') as (_ & _ & H3 & H4).
    rewrite H3, H4, uint_value_0, DecimalPos.Unsigned.of_to. auto.
Qed.

Lemma str_of_int_Some z t :
  str_of_int z = Some t ->
  t = decimal z /\ (count_digits (decimal z) <= int_max_str_digits)%nat.
Proof.
  unfold str_of_int. destruct (count_digits (decimal z) <=? int_max_str_digits)%nat eqn:E;
    [| discriminate].
  intros H. inversion H. split; [reflexivity | apply Nat.leb_le; exact E].
Qed.

Lemma py_int_str_of_int (z : Z) (t : string) :
  str_of_int z = Some t ->
  py_int t = Some z /\ py_int (t ++ String newline "") = Some z.
Proof.
  intros H. apply str_of_int_Some in H. destruct H as [-> Hmax].
  apply py_int_decimal. exact Hmax.
Qed.

(** X15: the list [get_high_scores] returns holds the best rows of the
    file: with the rows left out it makes up all the rows read, it has ten
    entries or all of them when the file has fewer, no row left out has a
    higher score than a row returned, and the file is not written. *)
Theorem high_scores_are_the_best
    (asctime : Z -> string) (text heading : string) (rows : list string) (es : list Entry) :
  readlines text = heading :: rows ->
  parse_rows rows = Some es ->
  exists hs rest,
    get_high_scores asctime (Some text) = (Some hs, Some text)
    /\ Permutation (hs ++ rest) es
    /\ length hs = Nat.min 10 (length es)
    /\ (forall x y, x ∈ hs -> y ∈ rest -> (entry_score y <= entry_score x)%Z).
Proof.
  intros Hr Hp.
  exists (take 10 (sorted_by_score es)), (drop 10 (sorted_by_score es)).
  split; [unfold get_high_scores; rewrite Hr, Hp; reflexivity |].
  split; [rewrite take_drop; apply sorted_by_score_Permutation |].
  split.
  - rewrite length_take. rewrite (Permutation_length (sorted_by_score_Permutation es)). lia.
  - intros x y Hx Hy.
    pose proof (sorted_by_score_sorted es) as Hs. rewrite <- (take_drop 10) in Hs.
    exact (StronglySorted_app_1_elem_of _ _ _ _ _ Hs Hx Hy).
Qed.

(** The sample file of three rows: all three are returned. *)
Lemma high_scores_are_the_best_witness :
  exists hs rest,
    get_high_scores sample_asctime (Some sample_high_scores_text)
      = (Some hs, Some sample_high_scores_text)
    /\ Permutation (hs ++ rest)
         [mkEntry "Ann" "2" 700; mkEntry "Bob" "5" 12000; mkEntry "Cy" "3" 700]
    /\ length hs = 3%nat.
Proof.
  destruct (high_scores_are_the_best sample_asctime sample_high_scores_text
              ("name,level,score,datetime" ++ String newline "")%string
              (tail (readlines sample_high_scores_text))
              [mkEntry "Ann" "2" 700; mkEntry "Bob" "5" 12000; mkEntry "Cy" "3" 700])
    as (hs & rest & Hg & Hperm & Hlen & _); [reflexivity | reflexivity |].
  exists hs, rest. split; [exact Hg |]. split; [exact Hperm | exact Hlen].
Defined.

Lemma filter_all {A} (P : A -> Prop) `{forall x, Decision (P x)} (l : list A) :
  Forall P l -> filter P l = l.
Proof.
  induction 1 as [| x l Hx _ IH]; [reflexivity |].
  rewrite filter_cons_True by exact Hx. rewrite IH. reflexivity.
Qed.

Lemma filter_none {A} (P : A -> Prop) `{forall x, Decision (P x)} (l : list A) :
  Forall (fun x => ~ P x) l -> filter P l = [].
Proof.
  induction 1 as [| x l Hx _ IH]; [reflexivity |].
  rewrite filter_cons_False by exact Hx. exact IH.
Qed.

(** In a list sorted by descending score, at most [n] entries reach a
    score that the entry at index [n] does not reach. *)
Lemma few_reach_the_score (T : list Entry) (n : nat) (s : Z) :
  StronglySorted by_score_desc T ->
  (forall x, T !! n = Some x -> (entry_score x < s)%Z) ->
  (length (filter (fun x => (s <= entry_score x)%Z) T) <= n)%nat.
Proof.
  intros Hs Hn. rewrite <- (take_drop n T). rewrite filter_app, length_app.
  assert (Hd : filter (fun x => (s <= entry_score x)%Z) (drop n T) = []).
  { apply filter_none. apply Forall_forall. intros y Hy.
    destruct (drop n T) as [| x D] eqn:E; [inversion Hy |].
    assert (Hx : T !! n = Some x).
    { rewrite <- (Nat.add_0_r n), <- lookup_drop, E. reflexivity. }
    specialize (Hn x Hx).
    rewrite <- (take_drop n T), E in Hs. apply StronglySorted_app_1_r in Hs.
    apply elem_of_cons in Hy. destruct Hy as [-> | Hy]; [lia |].
    inversion Hs as [| ? ? _ Hall]; subst.
    rewrite Forall_forall in Hall. specialize (Hall y Hy). unfold by_score_desc in Hall. lia. }
  rewrite Hd. simpl.
  pose proof (length_filter (fun x => (s <= entry_score x)%Z) (take n T)) as H1.
  pose proof (length_take_le T n) as H2.
  rewrite length_take in H1. lia.
Qed.

(** An entry that beats the entry at index [n] of the sorted list is among
    the first [n + 1] once it is added. *)
Lemma new_entry_in_top (es : list Entry) (e : Entry) (n : nat) :
  (forall x, sorted_by_score es !! n = Some x -> (entry_score x < entry_score e)%Z) ->
  e ∈ take (S n) (sorted_by_score (es ++ [e])).
Proof.
  intros Hn.
  pose proof (sorted_by_score_Permutation (es ++ [e])) as Hperm.
  pose proof (sorted_by_score_sorted (es ++ [e])) as Hsorted.
  assert (Hin : e ∈ sorted_by_score (es ++ [e])).
  { rewrite Hperm. apply elem_of_app. right. apply list_elem_of_singleton. reflexivity. }
  apply list_elem_of_split in Hin. destruct Hin as (S1 & S2 & HS).
  rewrite HS in Hperm, Hsorted.
  assert (Hes : Permutation es (S1 ++ S2)).
  { apply (Permutation_cons_app_inv S1 S2 (a := e)).
    rewrite Hperm. rewrite <- Permutation_cons_append. reflexivity. }
  assert (Hall : Forall (fun x => (entry_score e <= entry_score x)%Z) S1).
  { apply Forall_forall. intros x Hx.
    apply (StronglySorted_app_1_elem_of _ _ _ x e Hsorted Hx). left. }
  assert (Hlen : (length S1 <= n)%nat).
  { pose proof (few_reach_the_score (sorted_by_score es) n (entry_score e)
                  (sorted_by_score_sorted es) Hn) as Hfew.
    assert (Hcount : length (filter (fun x => (entry_score e <= entry_score x)%Z)
                               (sorted_by_score es))
                     = length (filter (fun x => (entry_score e <= entry_score x)%Z)
                                 (S1 ++ S2))).
    { apply Permutation_length. apply filter_Permutation.
      rewrite sorted_by_score_Permutation. exact Hes. }
    rewrite Hcount, filter_app, length_app, (filter_all _ _ Hall) in Hfew. lia. }
  rewrite HS. apply elem_of_take. exists (length S1). split; [| lia].
  apply list_lookup_middle. reflexivity.
Qed.

Lemma readlines_nonempty c s : readlines (String c s) <> [].
Proof.
  simpl. destruct (Ascii.eqb c carriage_return).
  - destruct s as [| d s']; [discriminate |]. destruct (Ascii.eqb d newline); discriminate.
  - destruct (Ascii.eqb c newline); [discriminate |].
    destruct (readlines s); discriminate.
Qed.

Lemma readlines_cons c s :
  readlines (String c s)
  = if Ascii.eqb c carriage_return then
      match s with
      | String d s'' =>
        if Ascii.eqb d newline then String newline EmptyString :: readlines s''
        else String newline EmptyString :: readlines s
      | EmptyString => [String newline EmptyString]
      end
    else if Ascii.eqb c newline then String c EmptyString :: readlines s
    else match readlines s with
         | [] => [String c EmptyString]
         | line :: rest => String c line :: rest
         end.
Proof. reflexivity. Qed.

Lemma readlines_app_bounded (n : nat) :
  forall a b, (String.length a <= n)%nat -> ends_lines a = true ->
    readlines (a ++ b)%string = readlines a ++ readlines b.
Proof.
  induction n as [| n IH]; intros a b Hlen Ha.
  - destruct a; [reflexivity | simpl in Hlen; lia].
  - destruct a as [| c a]; [reflexivity |].
    destruct a as [| d a'].
    + (* the last character: a line feed *)
      simpl in Ha.
      destruct (Ascii.eqb c carriage_return) eqn:Ec.
      * apply Ascii.eqb_eq in Ec, Ha. subst c. discriminate.
      * change (String c "" ++ b)%string with (String c b). simpl readlines.
        rewrite Ec, Ha. reflexivity.
    + assert (Ha' : ends_lines (String d a') = true) by exact Ha.
      assert (Hlen' : (String.length (String d a') <= n)%nat) by (simpl in *; lia).
      change (String c (String d a') ++ b)%string
        with (String c (String d (a' ++ b)))%string.
      pose proof (IH (String d a') b Hlen' Ha') as IHd.
      change (String d a' ++ b)%string with (String d (a' ++ b))%string in IHd.
      rewrite (readlines_cons c (String d (a' ++ b))), (readlines_cons c (String d a')).
      destruct (Ascii.eqb c carriage_return).
      * destruct (Ascii.eqb d newline) eqn:Ed.
        -- assert (Ha'' : ends_lines a' = true).
           { destruct a' as [| e a'']; [reflexivity | exact Ha']. }
           rewrite (IH a' b ltac:(simpl in *; lia) Ha''). reflexivity.
        -- rewrite IHd. reflexivity.
      * destruct (Ascii.eqb c newline); [rewrite IHd; reflexivity |].
        rewrite IHd.
        pose proof (readlines_nonempty d a') as Hne.
        destruct (readlines (String d a')) as [| line rest]; [congruence |]. reflexivity.
Qed.

Lemma readlines_app a b :
  ends_lines a = true -> readlines (a ++ b)%string = readlines a ++ readlines b.
Proof. apply (readlines_app_bounded (String.length a)). lia. Qed.

Lemma str_split_field (f rest : string) :
  has_comma f = false ->
  str_split "," (f ++ String "," rest) = f :: str_split "," rest.
Proof.
  induction f as [| c f IH]; intros Hf; [reflexivity |].
  simpl in Hf. apply orb_false_iff in Hf. destruct Hf as [Hc Hf].
  change (String c f ++ String "," rest)%string with (String c (f ++ String "," rest)%string).
  simpl str_split. rewrite Hc, (IH Hf). reflexivity.
Qed.

Lemma has_comma_string_of_uint u : has_comma (NilEmpty.string_of_uint u) = false.
Proof.
  induction u as [| u IH | u IH | u IH | u IH | u IH | u IH | u IH | u IH | u IH | u IH];
    [reflexivity | ..].
  all: simpl NilEmpty.string_of_uint; simpl has_comma; exact IH.
Qed.

Lemma has_comma_decimal z : has_comma (decimal z) = false.
Proof.
  unfold decimal. destruct z as [| p | p]; [reflexivity | |].
  all: simpl Z.to_int; simpl NilZero.string_of_int.
  all: pose proof (to_uint_not_Nil p) as Hn.
  all: assert (Hs : NilZero.string_of_uint (Pos.to_uint p)
                    = NilEmpty.string_of_uint (Pos.to_uint p))
         by (destruct (Pos.to_uint p); try reflexivity; congruence).
  all: rewrite Hs; simpl; apply has_comma_string_of_uint.
Qed.

Lemma has_newline_string_of_uint u : has_newline (NilEmpty.string_of_uint u) = false.
Proof.
  induction u as [| u IH | u IH | u IH | u IH | u IH | u IH | u IH | u IH | u IH | u IH];
    [reflexivity | ..].
  all: simpl NilEmpty.string_of_uint; simpl has_newline; exact IH.
Qed.

Lemma has_newline_decimal z : has_newline (decimal z) = false.
Proof.
  unfold decimal. destruct z as [| p | p]; [reflexivity | |].
  all: simpl Z.to_int; simpl NilZero.string_of_int.
  all: pose proof (to_uint_not_Nil p) as Hn.
  all: assert (Hs : NilZero.string_of_uint (Pos.to_uint p)
                    = NilEmpty.string_of_uint (Pos.to_uint p))
         by (destruct (Pos.to_uint p); try reflexivity; congruence).
  all: rewrite Hs; simpl; apply has_newline_string_of_uint.
Qed.

(** The row is written when the level number and the score are converted
    to text, and is then made of their decimal texts. *)
Lemma name_row_Some name w now row :
  name_row name w now = Some row ->
  str_of_int (level_number w) = Some (decimal (level_number w))
  /\ str_of_int (win_score w) = Some (decimal (win_score w))
  /\ row = (name ++ "," ++ decimal (level_number w) ++ "," ++ decimal (win_score w) ++ ","
              ++ now ++ String newline "")%string.
Proof.
  unfold name_row.
  destruct (str_of_int (level_number w)) as [l |] eqn:El; [| discriminate].
  destruct (str_of_int (win_score w)) as [sc |] eqn:Es; [| discriminate].
  destruct (str_of_int_Some _ _ El) as [-> _].
  destruct (str_of_int_Some _ _ Es) as [-> _].
  intros H. inversion H. auto.
Qed.

Lemma parse_row_name_row name w now row :
  has_comma name = false ->
  name_row name w now = Some row ->
  parse_row row = Some (mkEntry name (decimal (level_number w)) (win_score w)).
Proof.
  intros Hn Hrow. destruct (name_row_Some _ _ _ _ Hrow) as (_ & Hs & ->).
  unfold parse_row.
  change ("," ++ decimal (level_number w) ++ "," ++ decimal (win_score w) ++ ","
            ++ now ++ String newline "")%string
    with (String "," (decimal (level_number w) ++ String ","
                        (decimal (win_score w) ++ String "," (now ++ String newline ""))))%string.
  rewrite (str_split_field _ _ Hn).
  rewrite (str_split_field _ _ (has_comma_decimal _)).
  rewrite (str_split_field _ _ (has_comma_decimal _)).
  rewrite (proj1 (py_int_str_of_int _ _ Hs)). reflexivity.
Qed.

Lemma parse_rows_snoc rows es row e :
  parse_rows rows = Some es -> parse_row row = Some e ->
  parse_rows (rows ++ [row]) = Some (es ++ [e]).
Proof.
  revert es. induction rows as [| r rows IH]; intros es Hp He; simpl in *.
  - inversion Hp. rewrite He. reflexivity.
  - destruct (parse_row r); [| discriminate].
    destruct (parse_rows rows) as [es' |]; [| discriminate].
    inversion Hp. rewrite (IH es' eq_refl He). reflexivity.
Qed.

Lemma readlines_name_row name w now row :
  has_newline name = false -> has_newline now = false ->
  name_row name w now = Some row ->
  readlines row = [row].
Proof.
  intros Hn Ht Hrow. destruct (name_row_Some _ _ _ _ Hrow) as (_ & _ & ->).
  set (body := (name ++ "," ++ decimal (level_number w) ++ ","
                  ++ decimal (win_score w) ++ "," ++ now)%string).
  assert (Hb : (name ++ "," ++ decimal (level_number w) ++ ","
                  ++ decimal (win_score w) ++ "," ++ now ++ String newline "")%string
               = ((body ++ String newline "") ++ "")%string).
  { unfold body. rewrite append_empty_r. rewrite !string_append_assoc. reflexivity. }
  rewrite Hb. rewrite readlines_line; [rewrite append_empty_r; reflexivity |].
  unfold body. rewrite !has_newline_app, Hn, Ht, !has_newline_decimal. reflexivity.
Qed.

(** X16: a valid name entered after a game is appended to the high-score
    file as one row, and the list read back holds the new entry whenever
    the score beats the tenth best row of the file (with fewer than ten
    rows it always does).  The name is valid when, stripped of surrounding
    white space, it has 1 to 15 characters; it must hold no comma and no
    line break, line feed or carriage return, for the row to be read back
    as written.  The row is written when the level number and the score
    are converted to text; when one of them has too many digits for that,
    the [ValueError] escapes.  When the file is missing at that moment the
    new row is taken for the heading, the list read back is empty and
    [HIGH_SCORES[0]] raises. *)
Theorem new_high_score_is_listed
    (asctime : Z -> string) (now text : string) (w : Window)
    (file heading : string) (rows : list string) (es old : list Entry) :
  let name := strip text in
  (1 <= String.length name <= 15)%nat ->
  (name_row name w now = None ->
   NameEntryView_on_key_press asctime now ENTER text w (mkScores (Some file) old) = None)
  /\ (forall row,
        name_row name w now = Some row ->
        has_comma name = false ->
        has_newline name = false ->
        has_newline now = false ->
        ends_lines file = true ->
        readlines file = heading :: rows ->
        parse_rows rows = Some es ->
        (forall e, sorted_by_score es !! 9%nat = Some e -> (entry_score e < win_score w)%Z) ->
        let new := mkEntry name (decimal (level_number w)) (win_score w) in
        let hs := take 10 (sorted_by_score (es ++ [new])) in
        NameEntryView_on_key_press asctime now ENTER text w (mkScores (Some file) old)
          = Some (set_shown_view HighScoreView w, mkScores (Some (file ++ row)%string) hs)
        /\ new ∈ hs
        /\ NameEntryView_on_key_press asctime now ENTER text w (mkScores None old) = None).
Proof.
  intros name Hlen.
  assert (Hvalid : ((1 <=? String.length name) && (String.length name <=? 15))%nat = true).
  { apply andb_true_iff. split; apply Nat.leb_le; lia. }
  split.
  { intros Hnone. unfold NameEntryView_on_key_press. fold name. rewrite Hvalid, Hnone.
    reflexivity. }
  intros row Hrow Hc Hn Ht He Hr Hp Hbeat new hs.
  assert (Hin : new ∈ hs) by (apply (new_entry_in_top es new 9); exact Hbeat).
  unfold NameEntryView_on_key_press. fold name. rewrite Hvalid, Hrow. simpl scores_file.
  unfold append_to_file, get_high_scores.
  rewrite (readlines_app _ _ He), Hr, (readlines_name_row _ _ _ _ Hn Ht Hrow).
  rewrite <- app_comm_cons.
  rewrite (parse_rows_snoc _ _ _ _ Hp (parse_row_name_row name w now row Hc Hrow)).
  fold new. fold hs. simpl.
  split; [| split; [exact Hin |]].
  - destruct hs as [| h hs']; [inversion Hin | reflexivity].
  - reflexivity.
Qed.

(** Zed, with 900 points, joins the three rows of the sample file. *)
Lemma new_high_score_is_listed_witness :
  mkEntry "Zed" "4" 900
    ∈ take 10 (sorted_by_score
                 ([mkEntry "Ann" "2" 700; mkEntry "Bob" "5" 12000; mkEntry "Cy" "3" 700]
                    ++ [mkEntry "Zed" "4" 900])).
Proof.
  destruct (new_high_score_is_listed sample_asctime "Wed Nov  4 09:43:00 2026" "  Zed "
              sample_window_900 sample_high_scores_text
              ("name,level,score,datetime" ++ String newline "")%string
              (tail (readlines sample_high_scores_text))
              [mkEntry "Ann" "2" 700; mkEntry "Bob" "5" 12000; mkEntry "Cy" "3" 700] [])
    as (_ & Hrow).
  - vm_compute. lia.
  - destruct (Hrow ("Zed,4,900,Wed Nov  4 09:43:00 2026" ++ String newline "")%string)
      as (_ & Hin & _).
    + reflexivity.
    + reflexivity.
    + reflexivity.
    + reflexivity.
    + reflexivity.
    + reflexivity.
    + reflexivity.
    + intros e H. vm_compute in H. discriminate H.
    + exact Hin.
Defined.

(** X17: the name is not checked for commas.  A name with one comma in it
    shifts the columns of its row: the entry read back from the row
    written has the part before the comma as its name, the part after it
    as its level, and the level number as its score. *)
Theorem comma_in_name_shifts_the_columns (before after now row : string) (w : Window) :
  has_comma before = false ->
  has_comma after = false ->
  name_row (before ++ String "," after) w now = Some row ->
  parse_row row = Some (mkEntry before after (level_number w)).
Proof.
  intros Hb Ha Hrow. destruct (name_row_Some _ _ _ _ Hrow) as (Hl & _ & ->).
  assert (Heq : ((before ++ String "," after) ++ "," ++ decimal (level_number w) ++ ","
                   ++ decimal (win_score w) ++ "," ++ now ++ String newline "")%string
                = (before ++ String ","
                     (after ++ String ","
                        (decimal (level_number w) ++ String ","
                           (decimal (win_score w)
                              ++ String "," (now ++ String newline "")))))%string).
  { rewrite string_append_assoc. reflexivity. }
  unfold parse_row. rewrite Heq.
  rewrite (str_split_field _ _ Hb).
  rewrite (str_split_field _ _ Ha).
  rewrite (str_split_field _ _ (has_comma_decimal _)).
  rewrite (proj1 (py_int_str_of_int _ _ Hl)). reflexivity.
Qed.

(** The name [Zed,Jr] after a game of 900 points in level 4 is listed as
    Zed with 4 points. *)
Lemma comma_in_name_shifts_the_columns_witness :
  parse_row ("Zed,Jr,4,900,Wed Nov  4 09:43:00 2026" ++ String newline "")
  = Some (mkEntry "Zed" "Jr" 4).
Proof.
  exact (comma_in_name_shifts_the_columns "Zed" "Jr" "Wed Nov  4 09:43:00 2026"
           ("Zed,Jr,4,900,Wed Nov  4 09:43:00 2026" ++ String newline "")
           sample_window_900 eq_refl eq_refl eq_refl).
Defined.

(** ** The safety barrier *)

Lemma remove_id_absent self l : self ∉ l -> remove_id self l = l.
Proof.
  intros Hn. unfold remove_id. induction l as [| x l IH]; [reflexivity |].
  apply not_elem_of_cons in Hn. destruct Hn as [Hne Hn].
  rewrite filter_cons_True by auto. rewrite (IH Hn). reflexivity.
Qed.

Lemma remove_id_snoc self l : self ∉ l -> remove_id self (l ++ [self]) = l.
Proof.
  intros Hn. unfold remove_id. rewrite filter_app.
  fold (remove_id self l). rewrite (remove_id_absent self l Hn).
  rewrite filter_cons_False by (intros H; apply H; reflexivity).
  rewrite filter_nil. apply app_nil_r.
Qed.

Lemma new_brick_id_fresh lv : bricks lv !! new_brick_id lv = None.
Proof. apply not_elem_of_dom. unfold new_brick_id. apply is_fresh. Qed.

(** X18: the safety barrier is a brick of the brick list only, never of
    the list of breakable bricks that decides the end of the level, and it
    lasts one hit.  A ball of the level that is not an [InvinciBall] and
    comes down on it is turned upwards with its bottom on the barrier, the
    barrier is gone, and both brick lists and the window are as they were
    before the icon.  In the horizontal step the barrier does not turn the
    ball and is used up all the same. *)
Theorem safety_barrier_lasts_one_hit (lv : Level) (b : Ball) :
  (forall i, i ∈ brick_list lv -> is_Some (bricks lv !! i)) ->
  (forall i, i ∈ breakable_brick_list lv -> is_Some (bricks lv !! i)) ->
  has_level b = true ->
  ball_type b <> InvinciBall ->
  let id := new_brick_id lv in
  let lv1 := SafetyBarrierIcon_activate lv in
  brick_list lv1 = brick_list lv ++ [id]
  /\ breakable_brick_list lv1 = breakable_brick_list lv
  /\ (id ∉ breakable_brick_list lv1)
  /\ (let r := collides_with_brick_moving_vertically [id] b lv1 in
      change_y (fst r) = - change_y b
      /\ (change_y b <= 0 ->
          bottom (ball_sprite (fst r)) = top (brick_sprite (SafetyBarrier (boundary lv))))
      /\ brick_list (snd r) = brick_list lv
      /\ breakable_brick_list (snd r) = breakable_brick_list lv
      /\ window (snd r) = window lv)
  /\ (let r := collides_with_brick_moving_horizontally [id] b lv1 in
      fst r = b /\ brick_list (snd r) = brick_list lv).
Proof.
  intros Hbl Hbb Hl Ht id lv1.
  assert (Hfresh : bricks lv !! id = None) by apply new_brick_id_fresh.
  assert (Hn1 : id ∉ brick_list lv).
  { intros Hin. destruct (Hbl id Hin) as [k Hk]. congruence. }
  assert (Hn2 : id ∉ breakable_brick_list lv).
  { intros Hin. destruct (Hbb id Hin) as [k Hk]. congruence. }
  assert (Hk : bricks lv1 !! id = Some (SafetyBarrier (boundary lv))).
  { subst lv1. unfold SafetyBarrierIcon_activate. simpl. apply lookup_insert_eq. }
  destruct (Brick_change_properties_live id lv1 _ Hk eq_refl) as (_ & Hw & _ & _ & Hl1 & Hl2).
  simpl in Hw, Hl1, Hl2.
  assert (Hhit : hit_all [id] lv1 = Brick_change_properties id lv1) by reflexivity.
  assert (Hlist : brick_list (Brick_change_properties id lv1) = brick_list lv).
  { rewrite Hl1. apply remove_id_snoc. exact Hn1. }
  assert (Hbreak : breakable_brick_list (Brick_change_properties id lv1)
                   = breakable_brick_list lv).
  { rewrite Hl2. apply remove_id_absent. exact Hn2. }
  assert (Hwin : window (Brick_change_properties id lv1) = window lv).
  { rewrite Hw. rewrite Z.add_0_r. destruct (window lv); reflexivity. }
  split; [reflexivity |]. split; [reflexivity |]. split; [exact Hn2 |].
  split.
  - unfold collides_with_brick_moving_vertically, Ball_collides_with_brick_moving_vertically.
    rewrite Hk, Hl, Hhit.
    destruct (ball_type b); try congruence; simpl.
    all: split; [lra |].
    all: split; [intros Hdown; rewrite (proj2 (Rgtb_false _ _)) by lra;
                 rewrite set_bottom_bottom; reflexivity |].
    all: auto.
  - unfold collides_with_brick_moving_horizontally, Ball_collides_with_brick_moving_horizontally.
    rewrite Hk, Hl, Hhit.
    destruct (ball_type b); try congruence; simpl; auto.
Qed.

(** On [sample_level], which has no brick: the barrier is brick 0, and the
    ball that comes down on it goes up again. *)
Lemma safety_barrier_lasts_one_hit_witness :
  change_y (fst (collides_with_brick_moving_vertically [new_brick_id sample_level]
                   (sample_ball_at 300) (SafetyBarrierIcon_activate sample_level)))
  = - change_y (sample_ball_at 300).
Proof.
  destruct (safety_barrier_lasts_one_hit sample_level (sample_ball_at 300))
    as (_ & _ & _ & (Hup & _) & _).
  - intros i Hi. inversion Hi.
  - intros i Hi. inversion Hi.
  - reflexivity.
  - discriminate.
  - exact Hup.
Defined.

(** ** The demo paddle *)

(** X19: the paddle of a demo level follows the first ball of the ball
    list.  With an empty ball list [ball_list[0]] raises.  Otherwise only
    the horizontal position of the paddle is written; the paddle ends
    between the side walls, and under the ball (same centre) whenever it
    fits between the walls there. *)
Theorem demo_paddle_follows_the_first_ball (lv : Level) :
  (forall i, i ∈ ball_list lv -> is_Some (balls lv !! i)) ->
  width (paddle_sprite (paddle lv)) <= inner_right (boundary lv) - inner_left (boundary lv) ->
  (DemoPaddle_on_update lv = None <-> ball_list lv = [])
  /\ (forall first rest b,
        ball_list lv = first :: rest -> balls lv !! first = Some b ->
        exists p',
          DemoPaddle_on_update lv = Some (set_paddle p' lv)
          /\ between_side_walls (boundary lv) (paddle_sprite p')
          /\ (between_side_walls (boundary lv)
                (set_center_x (center_x (ball_sprite b)) (paddle_sprite (paddle lv))) ->
              center_x (paddle_sprite p') = center_x (ball_sprite b))
          /\ set_paddle_sprite (paddle_sprite (paddle lv)) p' = paddle lv
          /\ center_y (paddle_sprite p') = center_y (paddle_sprite (paddle lv))
          /\ width (paddle_sprite p') = width (paddle_sprite (paddle lv))).
Proof.
  intros Hin Hw. split.
  - unfold DemoPaddle_on_update. destruct (ball_list lv) as [| first rest] eqn:E.
    + split; reflexivity.
    + destruct (Hin first) as [b Hb]; [left |]. rewrite Hb. split; discriminate.
  - intros first rest b Hl Hb. unfold DemoPaddle_on_update. rewrite Hl, Hb.
    set (moved := set_paddle_sprite
                    (set_center_x (center_x (ball_sprite b)) (paddle_sprite (paddle lv)))
                    (paddle lv)).
    exists (Paddle_collides_with_boundary (boundary lv) moved).
    split; [reflexivity |]. split; [| split; [| split; [| split]]].
    + apply Paddle_collides_with_boundary_inside. exact Hw.
    + intros Hfit. rewrite Paddle_collides_with_boundary_id by exact Hfit. reflexivity.
    + unfold Paddle_collides_with_boundary.
      destruct (Rgtb _ _); [| destruct (Rltb _ _)];
        destruct (paddle lv) as [t [cx cy w h] s m a i sp ml]; reflexivity.
    + unfold Paddle_collides_with_boundary.
      destruct (Rgtb _ _); [| destruct (Rltb _ _)]; reflexivity.
    + unfold Paddle_collides_with_boundary.
      destruct (Rgtb _ _); [| destruct (Rltb _ _)]; reflexivity.
Qed.

(** The paddle of [sample_level] under a ball at 300. *)
Lemma demo_paddle_follows_the_first_ball_witness :
  exists p',
    DemoPaddle_on_update (sample_level_with_ball (mkSprite 300 400 20 20))
      = Some (set_paddle p' (sample_level_with_ball (mkSprite 300 400 20 20)))
    /\ center_x (paddle_sprite p') = 300.
Proof.
  destruct (demo_paddle_follows_the_first_ball (sample_level_with_ball (mkSprite 300 400 20 20)))
    as [_ Hfollow].
  - intros i Hi. apply list_elem_of_singleton in Hi. subst i. eexists. reflexivity.
  - simpl. unfold SCREEN_PADDING, BOUNDARY_THICKNESS, PLAYING_FIELD_WIDTH. lra.
  - destruct (Hfollow 0%nat [] (mkBall NormalBall true (mkSprite 300 400 20 20) 315 600 400 (-400))
                eq_refl eq_refl) as (p' & Heq & _ & Hunder & _).
    exists p'. split; [exact Heq |]. apply Hunder.
    unfold between_side_walls, left, right. simpl.
    unfold SCREEN_PADDING, BOUNDARY_THICKNESS, PLAYING_FIELD_WIDTH. lra.
Defined.

(** ** Balls on a magnetic paddle *)

Lemma convert_to_spec assets self t lv b :
  balls lv !! self = Some b ->
  self ∈ ball_list lv ->
  balls_in_store lv ->
  let r := convert_to assets self t lv in
  let b' := converted_ball assets lv b t in
  fst r = new_ball_id lv
  /\ balls lv !! fst r = None
  /\ balls (snd r) = <[fst r := b']> (balls lv)
  /\ replaced_in self (fst r) (ball_list lv) (ball_list (snd r))
  /\ balls_in_store (snd r)
  /\ paddle (snd r) = paddle lv
  /\ bricks (snd r) = bricks lv
  /\ window (snd r) = window lv.
Proof.
  intros Hb Hin Hwf. cbv zeta. rewrite (convert_to_eq assets self t lv b Hb). simpl.
  pose proof (new_ball_id_fresh lv) as Hfresh.
  assert (Hne : self <> new_ball_id lv) by (apply new_ball_id_ne; rewrite Hb; eauto).
  assert (Hrep : replaced_in self (new_ball_id lv) (ball_list lv)
                   (remove_id self (ball_list lv ++ [new_ball_id lv]))).
  { intros i. rewrite remove_id_elem_of, elem_of_app, list_elem_of_singleton.
    split; [intros [[H | H] Hn]; auto | intros [[H Hn] | H]; subst; auto]. }
  split; [reflexivity |]. split; [exact Hfresh |]. split; [reflexivity |].
  split; [exact Hrep |]. split; [| auto].
  intros i Hi. simpl in Hi. apply Hrep in Hi. simpl.
  destruct Hi as [[Hi _] | ->].
  - destruct (Hwf i Hi) as [bi Hbi].
    rewrite lookup_insert_ne; [eauto |]. intros <-. congruence.
  - rewrite lookup_insert_eq. eauto.
Qed.

Lemma converted_ball_has_level assets lv b t :
  has_level (converted_ball assets lv b t) = has_level b.
Proof.
  unfold converted_ball, change_horizontal_velocity. destruct (Rltb _ _); reflexivity.
Qed.

(** The invincibility step of [change_properties]. *)
Lemma change_invincibility_spec assets self lv b :
  balls lv !! self = Some b ->
  self ∈ ball_list lv ->
  balls_in_store lv ->
  let r := change_invincibility assets self lv in
  let charged := (invincible_balls (paddle lv) >? 0)%Z in
  (exists b1, balls (snd r) !! fst r = Some b1
              /\ is_invincible b1 = charged
              /\ center_x (ball_sprite b1) = center_x (ball_sprite b)
              /\ center_y (ball_sprite b1) = center_y (ball_sprite b))
  /\ replaced_in self (fst r) (ball_list lv) (ball_list (snd r))
  /\ balls_in_store (snd r)
  /\ (fst r = self \/ balls lv !! fst r = None)
  /\ (forall i bi, balls lv !! i = Some bi -> balls (snd r) !! i = Some bi)
  /\ paddle (snd r)
     = set_invincible_balls
         (if charged then invincible_balls (paddle lv) - 1 else invincible_balls (paddle lv))%Z
         (paddle lv)
  /\ bricks (snd r) = bricks lv
  /\ window (snd r) = window lv.
Proof.
  intros Hb Hin Hwf. cbv zeta. unfold change_invincibility. rewrite Hb.
  assert (Hself : replaced_in self self (ball_list lv) (ball_list lv)).
  { intros i. destruct (decide (i = self)) as [-> | Hne]; [tauto |]. tauto. }
  assert (Hpad : forall p : Paddle, set_invincible_balls (invincible_balls p) p = p)
    by (intros []; reflexivity).
  assert (Hconv : forall t,
             let r := convert_to assets self t lv in
             (exists b1, balls (snd r) !! fst r = Some b1
                         /\ is_invincible b1 = type_is_invincible t
                         /\ center_x (ball_sprite b1) = center_x (ball_sprite b)
                         /\ center_y (ball_sprite b1) = center_y (ball_sprite b))
             /\ replaced_in self (fst r) (ball_list lv) (ball_list (snd r))
             /\ balls_in_store (snd r)
             /\ (fst r = self \/ balls lv !! fst r = None)
             /\ (forall i bi, balls lv !! i = Some bi -> balls (snd r) !! i = Some bi)
             /\ paddle (snd r) = paddle lv
             /\ bricks (snd r) = bricks lv
             /\ window (snd r) = window lv).
  { intros t.
    destruct (convert_to_spec assets self t lv b Hb Hin Hwf)
      as (Hid & Hfresh & Hballs & Hrep & Hwf' & Hp & Hbr & Hw).
    cbv zeta. split; [| split; [exact Hrep | split; [exact Hwf' | split; [auto | split]]]].
    - eexists. split; [rewrite Hballs; apply lookup_insert_eq |].
      unfold is_invincible. rewrite converted_ball_type.
      split; [reflexivity |]. apply converted_ball_position.
    - intros i bi Hi. rewrite Hballs. rewrite lookup_insert_ne; [exact Hi |].
      intros <-. congruence.
    - auto. }
  destruct (invincible_balls (paddle lv) >? 0)%Z eqn:Hc.
  - destruct (is_invincible b) eqn:Hi; simpl negb; cbv iota.
    + simpl. split; [exists b; auto |].
      split; [exact Hself |]. split; [exact Hwf |]. split; [left; reflexivity |].
      split; [auto |]. split; [reflexivity |]. split; reflexivity.
    + destruct (Hconv InvinciBall) as (H1 & H2 & H3 & H4 & H5 & H6 & H7 & H8).
      destruct (convert_to assets self InvinciBall lv) as [nb lv1]. simpl in *.
      rewrite H6.
      split; [exact H1 |]. split; [exact H2 |]. split; [exact H3 |]. split; [exact H4 |].
      split; [exact H5 |]. split; [reflexivity |]. split; assumption.
  - destruct (is_invincible b) eqn:Hi.
    + destruct (Hconv NormalBall) as (H1 & H2 & H3 & H4 & H5 & H6 & H7 & H8).
      destruct (convert_to assets self NormalBall lv) as [nb lv1]. simpl in *.
      rewrite H6, Hpad.
      split; [exact H1 |]. split; [exact H2 |]. split; [exact H3 |]. split; [exact H4 |].
      split; [exact H5 |]. split; [reflexivity |]. split; assumption.
    + simpl. rewrite Hpad. split; [exists b; auto |].
      split; [exact Hself |]. split; [exact Hwf |]. split; [left; reflexivity |].
      split; [auto |]. split; [reflexivity |]. split; reflexivity.
Qed.

(** X20: a ball of the ball list that lands on a magnetic paddle sticks to
    it.  It is replaced in the ball list by a new magnetic ball at the same
    place, which is appended to the paddle's list of attached balls; the
    new ball is invincible exactly when the paddle had an invincibility
    charge, which is used up; no split charge is used, and bricks, score
    and lives are not written. *)
Theorem landing_on_a_magnetic_paddle_attaches
    (assets : Assets) (self : nat) (lv : Level) (b : Ball) :
  balls lv !! self = Some b ->
  self ∈ ball_list lv ->
  balls_in_store lv ->
  is_magnetic (paddle lv) = true ->
  let lv' := Ball_change_properties assets self lv in
  let charged := (invincible_balls (paddle lv) >? 0)%Z in
  exists id b',
    balls lv !! id = None
    /\ balls lv' !! id = Some b'
    /\ ball_type b' = (if charged then MagneticInviciBall else MagneticNormalBall)
    /\ center_x (ball_sprite b') = center_x (ball_sprite b)
    /\ center_y (ball_sprite b') = center_y (ball_sprite b)
    /\ magnetic_ball_list (paddle lv') = magnetic_ball_list (paddle lv) ++ [id]
    /\ replaced_in self id (ball_list lv) (ball_list lv')
    /\ invincible_balls (paddle lv')
       = (if charged then invincible_balls (paddle lv) - 1 else invincible_balls (paddle lv))%Z
    /\ split_balls (paddle lv') = split_balls (paddle lv)
    /\ bricks lv' = bricks lv
    /\ window lv' = window lv.
Proof.
  intros Hb Hin Hwf Hm lv' charged. subst lv'. unfold Ball_change_properties.
  destruct (change_invincibility_spec assets self lv b Hb Hin Hwf)
    as ((b1 & Hb1 & Hi1 & Hx1 & Hy1) & Hrep1 & Hwf1 & Hnew1 & Hold1 & Hp1 & Hbr1 & Hw1).
  fold charged in Hi1, Hp1.
  destruct (change_invincibility assets self lv) as [ball lv1]. simpl in *.
  rewrite Hb1.
  assert (Hm1 : is_magnetic (paddle lv1) = true) by (rewrite Hp1; exact Hm).
  rewrite Hm1.
  assert (Hin1 : ball ∈ ball_list lv1) by (apply Hrep1; right; reflexivity).
  assert (Hconv : forall t,
             type_is_magnetic t = true ->
             t = (if charged then MagneticInviciBall else MagneticNormalBall) ->
             let r := convert_to assets ball t lv1 in
             let lv' := set_paddle
                          (set_magnetic_ball_list (magnetic_ball_list (paddle (snd r)) ++ [fst r])
                             (paddle (snd r))) (snd r) in
             exists id b',
               balls lv !! id = None
               /\ balls lv' !! id = Some b'
               /\ ball_type b' = (if charged then MagneticInviciBall else MagneticNormalBall)
               /\ center_x (ball_sprite b') = center_x (ball_sprite b)
               /\ center_y (ball_sprite b') = center_y (ball_sprite b)
               /\ magnetic_ball_list (paddle lv') = magnetic_ball_list (paddle lv) ++ [id]
               /\ replaced_in self id (ball_list lv) (ball_list lv')
               /\ invincible_balls (paddle lv')
                  = (if charged then invincible_balls (paddle lv) - 1
                     else invincible_balls (paddle lv))%Z
               /\ split_balls (paddle lv') = split_balls (paddle lv)
               /\ bricks lv' = bricks lv
               /\ window lv' = window lv).
  { intros t _ Ht.
    destruct (convert_to_spec assets ball t lv1 b1 Hb1 Hin1 Hwf1)
      as (Hid & Hfresh & Hballs & Hrep & _ & Hp & Hbr & Hw).
    cbv zeta. set (r := convert_to assets ball t lv1) in *.
    exists (fst r), (converted_ball assets lv1 b1 t). simpl.
    rewrite Hp, Hp1, Hbr, Hw, Hballs. simpl.
    split.
    { destruct (balls lv !! fst r) as [bi |] eqn:E; [| reflexivity].
      rewrite (Hold1 _ _ E) in Hfresh. discriminate. }
    split; [apply lookup_insert_eq |].
    split; [rewrite converted_ball_type; exact Ht |].
    destruct (converted_ball_position assets lv1 b1 t) as [Hx Hy].
    split; [rewrite Hx; exact Hx1 |]. split; [rewrite Hy; exact Hy1 |].
    split; [reflexivity |].
    split.
    { intros i. rewrite (Hrep i), (Hrep1 i). split.
      - intros [[[[Hi Hs] | Hi] Hn] | Hi]; auto. contradiction.
      - intros [[Hi Hs] | Hi]; auto. left. split; [auto |].
        destruct Hnew1 as [-> | Hnone]; [exact Hs |].
        intros ->. destruct (Hwf _ Hi) as [bi Hbi]. congruence. }
    split; [reflexivity |]. split; [reflexivity |]. split; [exact Hbr1 | exact Hw1]. }
  destruct (is_invincible b1) eqn:Hinv.
  - specialize (Hconv MagneticInviciBall eq_refl). rewrite <- Hi1 in Hconv.
    specialize (Hconv eq_refl). cbv zeta in Hconv.
    destruct (convert_to assets ball MagneticInviciBall lv1) as [mb lv2]. simpl in Hconv.
    rewrite <- Hi1. exact Hconv.
  - specialize (Hconv MagneticNormalBall eq_refl). rewrite <- Hi1 in Hconv.
    specialize (Hconv eq_refl). cbv zeta in Hconv.
    destruct (convert_to assets ball MagneticNormalBall lv1) as [mb lv2]. simpl in Hconv.
    rewrite <- Hi1. exact Hconv.
Qed.

(** A normal ball landing on the magnetic paddle of
    [sample_level_magnetic_landing], which has no charge: it is replaced by
    a normal magnetic ball, the only attached ball. *)
Lemma landing_on_a_magnetic_paddle_attaches_witness :
  exists id b',
    balls (Ball_change_properties sample_assets 0%nat sample_level_magnetic_landing) !! id
      = Some b'
    /\ ball_type b' = MagneticNormalBall
    /\ magnetic_ball_list
         (paddle (Ball_change_properties sample_assets 0%nat sample_level_magnetic_landing))
       = [id].
Proof.
  destruct (landing_on_a_magnetic_paddle_attaches sample_assets 0%nat
              sample_level_magnetic_landing
              (mkBall NormalBall true (mkSprite 560 75 20 20) 300 600 300 (-520)))
    as (id & b' & _ & Hb & Ht & _ & _ & Hl & _).
  - reflexivity.
  - apply list_elem_of_singleton. reflexivity.
  - intros i Hi. apply list_elem_of_singleton in Hi. subst i. eexists. reflexivity.
  - reflexivity.
  - exists id, b'. split; [exact Hb |]. split; [exact Ht | exact Hl].
Defined.

Lemma release_magnetic_balls_fold assets lv :
  release_magnetic_balls assets lv
  = set_paddle
      (set_magnetic_ball_list []
         (paddle (foldl (release_one assets) lv (magnetic_ball_list (paddle lv)))))
      (foldl (release_one assets) lv (magnetic_ball_list (paddle lv))).
Proof. reflexivity. Qed.

(** One round of the loop: the attached ball leaves the ball list, one or
    two new free balls are appended, no object of the store is written. *)
Lemma release_one_spec assets lv x b :
  balls lv !! x = Some b ->
  balls_in_store lv ->
  let lv1 := release_one assets lv x in
  exists n news,
    ball_list lv1 = remove_id x (ball_list lv) ++ n :: news
    /\ (forall i, i ∈ n :: news ->
          balls lv !! i = None
          /\ exists bi, balls lv1 !! i = Some bi /\ free_ball_of b bi)
    /\ (forall i bi, balls lv !! i = Some bi -> balls lv1 !! i = Some bi)
    /\ (forall i, is_Some (balls lv1 !! i) -> is_Some (balls lv !! i) \/ i ∈ n :: news)
    /\ balls_in_store lv1.
Proof.
  intros Hb Hwf. cbv zeta. unfold release_one. rewrite Hb.
  set (t := if is_invincible b then InvinciBall else NormalBall).
  assert (Hconv : (if is_invincible b then convert_to assets x InvinciBall lv
                   else convert_to assets x NormalBall lv)
                  = convert_to assets x t lv) by (unfold t; destruct (is_invincible b); reflexivity).
  rewrite Hconv, (convert_to_eq assets x t lv b Hb). cbv iota beta.
  set (n := new_ball_id lv).
  set (bn := converted_ball assets lv b t).
  assert (Hfresh : balls lv !! n = None) by apply new_ball_id_fresh.
  assert (Hne : x <> n) by (apply new_ball_id_ne; rewrite Hb; eauto).
  set (lv1 := Ball_remove_from_sprite_lists x
                (set_ball_list (ball_list lv ++ [n]) (set_balls (<[n := bn]> (balls lv)) lv))).
  set (bv := change_velocity (paddle_sprite (paddle lv1)) bn).
  assert (Hlv2 : balls (Ball_change_velocity n lv1) = <[n := bv]> (balls lv)).
  { unfold Ball_change_velocity. simpl. apply map_eq. intros j.
    destruct (decide (n = j)) as [<- | Hj].
    - rewrite lookup_alter_eq, !lookup_insert_eq. reflexivity.
    - rewrite lookup_alter_ne, !lookup_insert_ne by exact Hj. reflexivity. }
  assert (Hlist : ball_list (Ball_change_velocity n lv1) = remove_id x (ball_list lv) ++ [n]).
  { simpl. unfold remove_id. rewrite filter_app. f_equal.
    rewrite filter_cons_True by auto. reflexivity. }
  assert (Hfree : free_ball_of b bv).
  { unfold free_ball_of, bv. split; [| split; [| split]].
    - unfold change_velocity. simpl. unfold change_velocity_unclamped.
      destruct (Rltb _ _); [| destruct (_ && _)]; simpl; apply converted_ball_type.
    - unfold change_velocity, change_velocity_unclamped.
      destruct (Rltb _ _); [| destruct (_ && _)]; simpl; apply converted_ball_position.
    - unfold change_velocity, change_velocity_unclamped.
      destruct (Rltb _ _); [| destruct (_ && _)]; simpl; apply converted_ball_position.
    - apply set_velocity_in_range. }
  set (lv2 := Ball_change_velocity n lv1) in *. clearbody lv2.
  destruct (split_balls (paddle lv2) >? 0)%Z.
  - unfold split_into_two.
    assert (Hn2 : balls lv2 !! n = Some bv) by (rewrite Hlv2; apply lookup_insert_eq).
    rewrite Hn2.
    set (m := new_ball_id lv2).
    assert (Hm : balls lv2 !! m = None) by apply new_ball_id_fresh.
    assert (Hmn : m <> n) by (intros E; rewrite E, Hn2 in Hm; discriminate).
    assert (Hm0 : balls lv !! m = None).
    { rewrite Hlv2, lookup_insert_ne in Hm by auto. exact Hm. }
    set (bm := set_change_y (change_y bv) (set_change_x (- change_x bv) _)).
    exists n, [m]. simpl. rewrite Hlist, Hlv2.
    split; [rewrite <- app_assoc; reflexivity |].
    split; [| split; [| split]].
    + intros i Hi. apply elem_of_cons in Hi. destruct Hi as [-> | Hi].
      * split; [exact Hfresh |]. exists bv. split; [| exact Hfree].
        rewrite lookup_insert_ne by auto. apply lookup_insert_eq.
      * apply list_elem_of_singleton in Hi. subst i. split; [exact Hm0 |].
        exists bm. split; [apply lookup_insert_eq |].
        destruct Hfree as (Ht & Hx & Hy & _).
        unfold free_ball_of, bm. simpl. split; [exact Ht |].
        split; [exact Hx |]. split; [exact Hy |].
        unfold speed_in_range. simpl. apply clamp_speed_range.
    + intros i bi Hi. rewrite !lookup_insert_ne; [exact Hi | congruence | congruence].
    + intros i [bi Hi].
      destruct (decide (i = m)) as [-> | H1]; [right; right; left |].
      destruct (decide (i = n)) as [-> | H2]; [right; left |].
      rewrite !lookup_insert_ne in Hi by auto. left. eauto.
    + intros i Hi. simpl in Hi. rewrite ?Hlist in Hi.
      rewrite !elem_of_app, !list_elem_of_singleton in Hi.
      destruct Hi as [[Hi | ->] | ->].
      * apply remove_id_elem_of in Hi. destruct Hi as [Hi _].
        destruct (Hwf i Hi) as [bi Hbi]. simpl. rewrite ?Hlv2.
        rewrite !lookup_insert_ne; [eauto | congruence | congruence].
      * simpl. rewrite ?Hlv2. rewrite lookup_insert_ne by auto.
        rewrite lookup_insert_eq. eauto.
      * simpl. rewrite ?Hlv2. rewrite lookup_insert_eq. eauto.
  - exists n, []. rewrite Hlist, Hlv2.
    split; [reflexivity |]. split; [| split; [| split]].
    + intros i Hi. apply list_elem_of_singleton in Hi. subst i.
      split; [exact Hfresh |]. exists bv. split; [apply lookup_insert_eq | exact Hfree].
    + intros i bi Hi. rewrite lookup_insert_ne; [exact Hi | congruence].
    + intros i [bi Hi].
      destruct (decide (i = n)) as [-> | H2]; [right; left |].
      rewrite lookup_insert_ne in Hi by auto. left. eauto.
    + intros i Hi. rewrite Hlist in Hi.
      rewrite elem_of_app, list_elem_of_singleton in Hi. rewrite Hlv2.
      destruct Hi as [Hi | ->].
      * apply remove_id_elem_of in Hi. destruct Hi as [Hi _].
        destruct (Hwf i Hi) as [bi Hbi]. rewrite lookup_insert_ne; [eauto | congruence].
      * rewrite lookup_insert_eq. eauto.
Qed.

Lemma release_loop_spec assets (l : list nat) :
  forall lv,
    balls_in_store lv ->
    NoDup l ->
    (forall i, i ∈ l -> is_Some (balls lv !! i)) ->
    let lv' := foldl (release_one assets) lv l in
    (forall i bi, balls lv !! i = Some bi -> balls lv' !! i = Some bi)
    /\ (forall i, i ∈ l -> i ∉ ball_list lv')
    /\ (forall i b, i ∈ l -> balls lv !! i = Some b ->
          exists id b', id ∈ ball_list lv' /\ balls lv' !! id = Some b'
                        /\ balls lv !! id = None /\ free_ball_of b b')
    /\ (forall i, i ∈ ball_list lv -> i ∉ l -> i ∈ ball_list lv')
    /\ (forall id b', id ∈ ball_list lv' -> balls lv' !! id = Some b' ->
          balls lv !! id = None -> type_is_magnetic (ball_type b') = false)
    /\ (forall id, id ∈ ball_list lv' -> id ∈ ball_list lv \/ balls lv !! id = None)
    /\ balls_in_store lv'.
Proof.
  induction l as [| x l IH]; intros lv Hwf Hnd Hobj; cbv zeta.
  - simpl. split; [auto |]. split; [intros i Hi; inversion Hi |].
    split; [intros i b Hi; inversion Hi |]. split; [auto |].
    split; [intros id b' _ H1 H2; congruence |]. split; [auto | exact Hwf].
  - simpl foldl. apply NoDup_cons in Hnd. destruct Hnd as [Hx Hnd].
    destruct (Hobj x) as [b Hb]; [left |].
    destruct (release_one_spec assets lv x b Hb Hwf)
      as (n & news & Hlist & Hnews & Hold & Hdom & Hwf1).
    set (lv1 := release_one assets lv x) in *. clearbody lv1.
    assert (Hobj1 : forall i, i ∈ l -> is_Some (balls lv1 !! i)).
    { intros i Hi. destruct (Hobj i) as [bi Hbi]; [right; exact Hi |].
      rewrite (Hold _ _ Hbi). eauto. }
    destruct (IH lv1 Hwf1 Hnd Hobj1) as (I1 & I2 & I3 & I4 & I5 & I6 & I7).
    set (lv' := foldl (release_one assets) lv1 l) in *. clearbody lv'.
    assert (Hback : forall id, balls lv1 !! id = None -> balls lv !! id = None).
    { intros id H1. destruct (balls lv !! id) as [bi |] eqn:E; [| reflexivity].
      rewrite (Hold _ _ E) in H1. discriminate. }
    assert (Hx1 : x ∉ ball_list lv1).
    { rewrite Hlist. intros Hin. apply elem_of_app in Hin. destruct Hin as [Hin | Hin].
      - exact (remove_id_not_in x _ Hin).
      - destruct (Hnews x Hin) as [Hnone _]. congruence. }
    split; [intros i bi Hi; apply I1, Hold; exact Hi |].
    split.
    { intros i Hi Hin'. apply elem_of_cons in Hi. destruct Hi as [-> | Hi].
      - destruct (I6 x Hin') as [H1 | H1]; [exact (Hx1 H1) |].
        rewrite (Hold _ _ Hb) in H1. discriminate.
      - exact (I2 i Hi Hin'). }
    split.
    { intros i bi Hi Hbi. apply elem_of_cons in Hi. destruct Hi as [-> | Hi].
      - assert (bi = b) by congruence. subst bi.
        destruct (Hnews n) as [Hn (bn & Hbn & Hfree)]; [left |].
        exists n, bn. split; [| split; [apply I1; exact Hbn | split; [exact Hn | exact Hfree]]].
        apply I4.
        + rewrite Hlist. apply elem_of_app. right. left.
        + intros Hnl. destruct (Hobj n) as [bi Hbi']; [right; exact Hnl |]. congruence.
      - destruct (I3 i bi Hi (Hold _ _ Hbi)) as (id & b' & H1 & H2 & H3 & H4).
        exists id, b'. split; [exact H1 |]. split; [exact H2 |].
        split; [apply Hback; exact H3 | exact H4]. }
    split.
    { intros i Hi Hni. apply not_elem_of_cons in Hni. destruct Hni as [Hne Hni].
      apply I4; [| exact Hni]. rewrite Hlist. apply elem_of_app. left.
      apply remove_id_in; assumption. }
    split.
    { intros id b' Hin Hb' Hnone.
      destruct (balls lv1 !! id) as [bn |] eqn:E.
      - destruct (Hdom id) as [[bi Hbi] | Hnew]; [rewrite E; eauto | congruence |].
        destruct (Hnews id Hnew) as [_ (bn' & Hbn' & Hfree)].
        assert (b' = bn') by (rewrite (I1 _ _ Hbn') in Hb'; congruence). subst b'.
        destruct Hfree as [Ht _]. rewrite Ht. destruct (is_invincible b); reflexivity.
      - exact (I5 id b' Hin Hb' E). }
    split; [| exact I7].
    intros id Hin. destruct (I6 id Hin) as [H1 | H1]; [| right; apply Hback; exact H1].
    rewrite Hlist in H1. apply elem_of_app in H1. destruct H1 as [H1 | H1].
    + left. apply remove_id_elem_of in H1. tauto.
    + right. exact (proj1 (Hnews id H1)).
Qed.

(** X21: [release_magnetic_balls] frees every attached ball.  When the
    attached balls are distinct objects, none of them is in the ball list
    afterwards, and each has a new free ball in its place: not magnetic,
    invincible when the attached ball was, at the same place, with a speed
    within the limits.  The other balls stay in the ball list, no ball
    object that existed is written, every new ball of the ball list is
    free, the paddle holds no ball any more, and nothing but the balls and
    the split charges is written. *)
Theorem released_balls_fly_free (assets : Assets) (lv : Level) :
  balls_in_store lv ->
  NoDup (magnetic_ball_list (paddle lv)) ->
  (forall i, i ∈ magnetic_ball_list (paddle lv) -> is_Some (balls lv !! i)) ->
  let attached := magnetic_ball_list (paddle lv) in
  let lv' := release_magnetic_balls assets lv in
  magnetic_ball_list (paddle lv') = []
  /\ (forall i, i ∈ attached -> i ∉ ball_list lv')
  /\ (forall i b, i ∈ attached -> balls lv !! i = Some b ->
        exists id b', id ∈ ball_list lv' /\ balls lv' !! id = Some b'
                      /\ balls lv !! id = None /\ free_ball_of b b')
  /\ (forall i, i ∈ ball_list lv -> i ∉ attached -> i ∈ ball_list lv')
  /\ (forall i bi, balls lv !! i = Some bi -> balls lv' !! i = Some bi)
  /\ (forall id b', id ∈ ball_list lv' -> balls lv' !! id = Some b' ->
        balls lv !! id = None -> type_is_magnetic (ball_type b') = false)
  /\ with_balls_of lv lv' = lv.
Proof.
  intros Hwf Hnd Hobj attached lv'.
  destruct (release_loop_spec assets attached lv Hwf Hnd Hobj)
    as (I1 & I2 & I3 & I4 & I5 & _ & _).
  subst lv'. split; [reflexivity |].
  rewrite release_magnetic_balls_fold. fold attached. simpl.
  split; [exact I2 |]. split; [exact I3 |]. split; [exact I4 |]. split; [exact I1 |].
  split; [exact I5 |].
  exact (release_magnetic_balls_frame assets lv).
Qed.

(** The attached ball of [sample_level_one_attached] is gone from the ball
    list after the release. *)
Lemma released_balls_fly_free_witness :
  magnetic_ball_list (paddle (release_magnetic_balls sample_assets sample_level_one_attached))
    = []
  /\ 0%nat ∉ ball_list (release_magnetic_balls sample_assets sample_level_one_attached).
Proof.
  destruct (released_balls_fly_free sample_assets sample_level_one_attached)
    as (Hl & Hgone & _).
  - intros i Hi. apply list_elem_of_singleton in Hi. subst i. eexists. reflexivity.
  - apply NoDup_singleton.
  - intros i Hi. apply list_elem_of_singleton in Hi. subst i. eexists. reflexivity.
  - split; [exact Hl |]. apply Hgone. apply list_elem_of_singleton. reflexivity.
Defined.

(** ** The paddle-size icons *)

Lemma change_speed_of_all_paddle action lv :
  paddle (change_speed_of_all action lv) = paddle lv.
Proof.
  unfold change_speed_of_all. generalize (ball_list lv). intros l. revert lv.
  induction l as [| x l IH]; intros lv; [reflexivity |]. simpl. rewrite IH. reflexivity.
Qed.

Lemma drop_if_off_paddle_paddle assets ball lv :
  set_magnetic_ball_list (magnetic_ball_list (paddle lv))
    (paddle (drop_if_off_paddle assets ball lv)) = paddle lv
  /\ forall i, i ∈ magnetic_ball_list (paddle (drop_if_off_paddle assets ball lv)) ->
               i ∈ magnetic_ball_list (paddle lv).
Proof.
  assert (Hid : forall p : Paddle, set_magnetic_ball_list (magnetic_ball_list p) p = p)
    by (intros []; reflexivity).
  unfold drop_if_off_paddle. destruct (balls lv !! ball) as [b |]; [| auto].
  destruct (_ || _); [| auto].
  assert (H : forall t,
             set_magnetic_ball_list (magnetic_ball_list (paddle lv))
               (paddle
                  (let '(new_ball, lv1) := convert_to assets ball t lv in
                   set_paddle
                     (set_magnetic_ball_list
                        (list_remove ball (magnetic_ball_list (paddle lv1))) (paddle lv1))
                     (set_balls
                        (alter (fun nb => set_velocity
                                            (set_velocity_angle (-90) (set_ball_speed 200 nb)))
                               new_ball (balls lv1)) lv1))) = paddle lv
             /\ forall i,
                 i ∈ magnetic_ball_list
                       (paddle
                          (let '(new_ball, lv1) := convert_to assets ball t lv in
                           set_paddle
                             (set_magnetic_ball_list
                                (list_remove ball (magnetic_ball_list (paddle lv1))) (paddle lv1))
                             (set_balls
                                (alter (fun nb => set_velocity
                                                    (set_velocity_angle (-90)
                                                       (set_ball_speed 200 nb)))
                                       new_ball (balls lv1)) lv1))) ->
                 i ∈ magnetic_ball_list (paddle lv)).
  { intros t. pose proof (convert_to_paddle assets ball t lv) as Hp.
    destruct (convert_to assets ball t lv) as [nb lv1]. simpl in *. rewrite Hp.
    split; [exact (Hid (paddle lv)) |]. intros i. apply list_remove_subset. }
  destruct (is_invincible b); apply H.
Qed.

(** X22: the two paddle-size icons, in a level whose paddle is a demo
    paddle exactly when the level is a demo level.  The lengthen icon makes
    the paddle one size longer (a long paddle stays long), the shorten
    icon one size shorter (a short paddle stays short), and the new paddle
    is again a demo paddle exactly when the level is a demo level.  Both
    keep the power-ups of the paddle (magnetism, shooter, invincibility
    and split charges) and its height on the screen.  The lengthen icon
    keeps the attached balls and puts a paddle that fits the field between
    the side walls; the shorten icon keeps the centre of the paddle and
    attaches no ball that was not attached. *)
Theorem paddle_size_icons_keep_power_ups (assets : Assets) (lv : Level) :
  is_demo_paddle (paddle_type (paddle lv)) = is_demo_level lv ->
  let p := paddle lv in
  let longer := paddle (LengthenPaddleIcon_activate assets lv) in
  let shorter := paddle (ShortenPaddleIcon_activate assets lv) in
  size_rank (paddle_type longer) = Z.min 2 (size_rank (paddle_type p) + 1)
  /\ size_rank (paddle_type shorter) = Z.max 0 (size_rank (paddle_type p) - 1)
  /\ is_demo_paddle (paddle_type longer) = is_demo_level lv
  /\ is_demo_paddle (paddle_type shorter) = is_demo_level lv
  /\ same_power_ups p longer
  /\ same_power_ups p shorter
  /\ magnetic_ball_list longer = magnetic_ball_list p
  /\ (forall i, i ∈ magnetic_ball_list shorter -> i ∈ magnetic_ball_list p)
  /\ center_y (paddle_sprite longer) = center_y (paddle_sprite p)
  /\ center_y (paddle_sprite shorter) = center_y (paddle_sprite p)
  /\ center_x (paddle_sprite shorter) = center_x (paddle_sprite p)
  /\ width (paddle_sprite longer) = fst (paddle_texture assets (paddle_type longer))
  /\ width (paddle_sprite shorter) = fst (paddle_texture assets (paddle_type shorter))
  /\ (width (paddle_sprite longer) <= inner_right (boundary lv) - inner_left (boundary lv) ->
      between_side_walls (boundary lv) (paddle_sprite longer)).
Proof.
  intros Hdemo p longer shorter.
  assert (Hlong : exists t,
             longer = Paddle_collides_with_boundary (boundary lv)
                        (copy_properties_from p (Paddle_init assets (boundary lv) t))
             /\ size_rank t = Z.min 2 (size_rank (paddle_type p) + 1)
             /\ is_demo_paddle t = is_demo_level lv).
  { subst longer. unfold LengthenPaddleIcon_activate. cbv zeta.
    rewrite change_speed_of_all_paddle. simpl. eexists. split; [reflexivity |].
    unfold p. destruct (is_demo_level lv); destruct (paddle_type (paddle lv)); simpl in *;
      try discriminate; auto. }
  assert (Hshort : exists t,
             set_magnetic_ball_list (magnetic_ball_list p) shorter
             = copy_properties_from p (Paddle_init assets (boundary lv) t)
             /\ (forall i, i ∈ magnetic_ball_list shorter -> i ∈ magnetic_ball_list p)
             /\ size_rank t = Z.max 0 (size_rank (paddle_type p) - 1)
             /\ is_demo_paddle t = is_demo_level lv).
  { subst shorter. unfold ShortenPaddleIcon_activate. cbv zeta.
    match goal with
    | |- context [replace_paddle assets ?t lv] => set (t0 := t)
    end.
    exists t0.
    set (lv1 := replace_paddle assets t0 lv).
    assert (Hinv : set_magnetic_ball_list (magnetic_ball_list p)
                     (paddle (for_in (length (magnetic_ball_list (paddle lv1)))
                                (fun lv => magnetic_ball_list (paddle lv))
                                (drop_if_off_paddle assets) 0 lv1))
                   = paddle lv1
                   /\ forall i,
                       i ∈ magnetic_ball_list
                             (paddle (for_in (length (magnetic_ball_list (paddle lv1)))
                                        (fun lv => magnetic_ball_list (paddle lv))
                                        (drop_if_off_paddle assets) 0 lv1)) ->
                       i ∈ magnetic_ball_list p).
    { apply (for_in_invariant
               (fun s => set_magnetic_ball_list (magnetic_ball_list p) (paddle s) = paddle lv1
                         /\ forall i, i ∈ magnetic_ball_list (paddle s) ->
                                      i ∈ magnetic_ball_list p)).
      - intros x s [Hs1 Hs2].
        destruct (drop_if_off_paddle_paddle assets x s) as [Hd1 Hd2].
        split.
        + rewrite <- Hs1, <- Hd1. reflexivity.
        + intros i Hi. apply Hs2, Hd2, Hi.
      - split; [reflexivity | auto]. }
    destruct Hinv as [Hi1 Hi2].
    split; [exact Hi1 |]. split; [exact Hi2 |].
    subst t0. unfold p. destruct (is_demo_level lv); destruct (paddle_type (paddle lv));
      simpl in *; try discriminate; auto. }
  destruct Hlong as (tl & Hl & Hrl & Hdl).
  destruct Hshort as (ts & Hs & Hsub & Hrs & Hds).
  assert (Hlf : paddle_type longer = tl /\ same_power_ups p longer
                /\ magnetic_ball_list longer = magnetic_ball_list p
                /\ center_y (paddle_sprite longer) = center_y (paddle_sprite p)
                /\ width (paddle_sprite longer) = fst (paddle_texture assets tl)).
  { rewrite Hl. unfold Paddle_collides_with_boundary, same_power_ups.
    destruct (Rgtb _ _); [| destruct (Rltb _ _)]; simpl; auto 10. }
  destruct Hlf as (Htl & Hpl & Hml & Hyl & Hwl).
  assert (Hsf : paddle_type shorter = ts /\ same_power_ups p shorter
                /\ center_y (paddle_sprite shorter) = center_y (paddle_sprite p)
                /\ center_x (paddle_sprite shorter) = center_x (paddle_sprite p)
                /\ width (paddle_sprite shorter) = fst (paddle_texture assets ts)).
  { unfold same_power_ups.
    split; [exact (f_equal paddle_type Hs) |].
    split; [split; [exact (f_equal is_magnetic Hs) |];
            split; [exact (f_equal activate_shooter Hs) |];
            split; [exact (f_equal invincible_balls Hs) | exact (f_equal split_balls Hs)] |].
    split; [exact (f_equal (fun q => center_y (paddle_sprite q)) Hs) |].
    split; [exact (f_equal (fun q => center_x (paddle_sprite q)) Hs) |].
    exact (f_equal (fun q => width (paddle_sprite q)) Hs). }
  destruct Hsf as (Hts & Hps & Hys & Hxs & Hws).
  rewrite Htl, Hts.
  split; [exact Hrl |]. split; [exact Hrs |]. split; [exact Hdl |]. split; [exact Hds |].
  split; [exact Hpl |]. split; [exact Hps |]. split; [exact Hml |]. split; [exact Hsub |].
  split; [exact Hyl |]. split; [exact Hys |]. split; [exact Hxs |].
  split; [exact Hwl |]. split; [exact Hws |].
  intros Hfit. rewrite Hl. apply Paddle_collides_with_boundary_inside.
  rewrite Hl in Hfit. unfold Paddle_collides_with_boundary in Hfit.
  destruct (Rgtb _ _); [| destruct (Rltb _ _)]; simpl in *; exact Hfit.
Qed.

(** The shorten icon on the long shooting paddle of
    [sample_level_long_paddle]: a normal paddle that still shoots. *)
Lemma paddle_size_icons_keep_power_ups_witness :
  size_rank (paddle_type (paddle (ShortenPaddleIcon_activate sample_assets
                                    sample_level_long_paddle))) = 1%Z
  /\ activate_shooter (paddle (ShortenPaddleIcon_activate sample_assets
                                 sample_level_long_paddle)) = true.
Proof.
  destruct (paddle_size_icons_keep_power_ups sample_assets sample_level_long_paddle)
    as (_ & Hrank & _ & _ & _ & Hpower & _); [reflexivity |].
  split; [rewrite Hrank; reflexivity |].
  destruct Hpower as (_ & Hshoot & _). rewrite Hshoot. reflexivity.
Defined.

(** ** Setting up a level *)

Lemma with_bricks_of_refl lv : with_bricks_of lv lv = lv.
Proof. destruct lv; reflexivity. Qed.

Lemma with_bricks_of_trans lv lv1 lv2 :
  with_bricks_of lv lv1 = lv -> with_bricks_of lv1 lv2 = lv1 -> with_bricks_of lv lv2 = lv.
Proof.
  intros H1 H2.
  transitivity (with_bricks_of lv (with_bricks_of lv1 lv2)); [reflexivity |].
  rewrite H2. exact H1.
Qed.

Lemma place_brick_spec r c k lv :
  bricks_well_formed lv ->
  let lv' := place_brick r c k lv in
  bricks_well_formed lv'
  /\ with_bricks_of lv lv' = lv
  /\ brick_list lv' = brick_list lv ++ [new_brick_id lv]
  /\ breakable_brick_list lv'
     = breakable_brick_list lv ++ (if is_breakable k then [new_brick_id lv] else [])
  /\ bricks lv !! new_brick_id lv = None
  /\ (exists k', bricks lv' = <[new_brick_id lv := k']> (bricks lv)
                 /\ icon k' = icon k /\ is_breakable k' = is_breakable k).
Proof.
  intros (Hnd & Hndb & Hdom & Hbr). cbv zeta.
  pose proof (new_brick_id_fresh lv) as Hfresh.
  set (id := new_brick_id lv) in *.
  assert (Hn1 : id ∉ brick_list lv).
  { intros Hin. apply Hdom in Hin. destruct Hin as [x Hx]. congruence. }
  assert (Hn2 : id ∉ breakable_brick_list lv).
  { intros Hin. apply Hbr in Hin. destruct Hin as (x & Hx & _). congruence. }
  unfold place_brick. fold id. cbv zeta. simpl is_breakable.
  set (k' := set_brick_sprite _ (set_brick_sprite _ k)).
  assert (Hi : icon k' = icon k) by reflexivity.
  assert (Hb : is_breakable k' = is_breakable k) by reflexivity.
  clearbody k'.
  assert (Hnd' : NoDup (brick_list lv ++ [id])).
  { apply NoDup_app. split; [exact Hnd |]. split; [| apply NoDup_singleton].
    intros x Hx Hx'. apply list_elem_of_singleton in Hx'. subst x. exact (Hn1 Hx). }
  assert (Hdom' : forall i, i ∈ brick_list lv ++ [id]
                            <-> is_Some (<[id := k']> (bricks lv) !! i)).
  { intros i. rewrite elem_of_app, list_elem_of_singleton, Hdom.
    destruct (decide (i = id)) as [-> | Hne].
    - rewrite lookup_insert_eq. split; eauto.
    - rewrite lookup_insert_ne by auto. tauto. }
  destruct (is_breakable k) eqn:E; unfold bricks_well_formed; simpl.
  - split; [| split; [destruct lv; reflexivity |
             split; [reflexivity | split; [reflexivity | split; [exact Hfresh | eauto]]]]].
    split; [exact Hnd' |]. split; [| split; [exact Hdom' |]].
    + apply NoDup_app. split; [exact Hndb |]. split; [| apply NoDup_singleton].
      intros x Hx Hx'. apply list_elem_of_singleton in Hx'. subst x. exact (Hn2 Hx).
    + intros i. rewrite elem_of_app, list_elem_of_singleton, Hbr.
      destruct (decide (i = id)) as [-> | Hne].
      * rewrite lookup_insert_eq. split; [intros _; exists k'; split; congruence | auto].
      * rewrite lookup_insert_ne by auto. tauto.
  - rewrite app_nil_r.
    split; [| split; [destruct lv; reflexivity |
             split; [reflexivity | split; [reflexivity | split; [exact Hfresh | eauto]]]]].
    split; [exact Hnd' |]. split; [exact Hndb |]. split; [exact Hdom' |].
    intros i. rewrite Hbr.
    destruct (decide (i = id)) as [-> | Hne].
    + rewrite lookup_insert_eq. split.
      * intros (x & Hx & _). congruence.
      * intros (x & Hx & Hxb). congruence.
    + rewrite lookup_insert_ne by auto. tauto.
Qed.

Lemma grid_placed_nil lv : bricks_well_formed lv -> grid_placed [] lv lv.
Proof.
  intros Hwf. unfold grid_placed. simpl. rewrite !Nat.add_0_r.
  split; [exact Hwf |]. split; [apply with_bricks_of_refl |]. auto.
Qed.

Lemma grid_placed_app l1 l2 lv lv1 lv2 :
  grid_placed l1 lv lv1 -> grid_placed l2 lv1 lv2 -> grid_placed (l1 ++ l2) lv lv2.
Proof.
  intros (_ & Hf1 & Hl1 & Hb1 & Hi1) (Hwf2 & Hf2 & Hl2 & Hb2 & Hi2).
  unfold grid_placed. split; [exact Hwf2 |].
  split; [exact (with_bricks_of_trans _ _ _ Hf1 Hf2) |].
  rewrite Hl2, Hl1, Hb2, Hb1, List.filter_app, !length_app.
  split; [lia |]. split; [lia |].
  intros Hno Hall. apply Forall_app in Hall. destruct Hall as [Ha1 Ha2]. auto.
Qed.

Lemma grid_placed_one r c k lv :
  bricks_well_formed lv -> grid_placed [k] lv (place_brick r c k lv).
Proof.
  intros Hwf.
  destruct (place_brick_spec r c k lv Hwf) as (Hwf' & Hf & Hl & Hb & Hfresh & k' & Hs & Hi & Hbk).
  unfold grid_placed. split; [exact Hwf' |]. split; [exact Hf |].
  split; [rewrite Hl, length_app; reflexivity |].
  split.
  - rewrite Hb. simpl List.filter.
    destruct (is_breakable k); rewrite ?length_app, ?app_nil_r; simpl; lia.
  - intros Hno Hall. inversion Hall as [| ? ? Hk _]; subst.
    unfold no_icons. rewrite Hs. intros i x Hx.
    destruct (decide (i = new_brick_id lv)) as [-> | Hne].
    + rewrite lookup_insert_eq in Hx. inversion Hx; subst x. congruence.
    + rewrite lookup_insert_ne in Hx by auto. exact (Hno i x Hx).
Qed.

Lemma place_row_spec r (row : list (option Brick)) :
  forall c lv,
    bricks_well_formed lv ->
    grid_placed (omap (fun cell => cell) row) lv (place_row r c row lv).
Proof.
  induction row as [| cell row IH]; intros c lv Hwf; simpl.
  - apply grid_placed_nil, Hwf.
  - destruct cell as [k |].
    + apply (grid_placed_app [k] (omap (fun cell => cell) row) lv (place_brick r c k lv));
        [apply grid_placed_one, Hwf |].
      apply IH. exact (proj1 (grid_placed_one r c k lv Hwf)).
    + apply IH, Hwf.
Qed.

Lemma place_grid_spec (grid : list (list (option Brick))) :
  forall r lv,
    bricks_well_formed lv -> grid_placed (cells grid) lv (place_grid r grid lv).
Proof.
  induction grid as [| row grid IH]; intros r lv Hwf; simpl.
  - apply grid_placed_nil, Hwf.
  - unfold cells. simpl concat. rewrite omap_app.
    apply (grid_placed_app (omap (fun cell => cell) row) (omap (fun cell => cell) (concat grid))
             lv (place_row r 0 row lv)); [apply place_row_spec, Hwf |].
    apply IH. exact (proj1 (place_row_spec r row 0 lv Hwf)).
Qed.

(** The loop over [zip(random_bricks, self.icons)]. *)
Lemma assign_icons_spec icon_size (chosen : list nat) :
  forall (icons : list IconType) lv,
    NoDup chosen ->
    length chosen = length icons ->
    (forall i, i ∈ chosen -> is_Some (bricks lv !! i)) ->
    let lv' := foldl (assign_icon icon_size) lv (zip chosen icons) in
    with_bricks_of lv lv' = lv
    /\ brick_list lv' = brick_list lv
    /\ breakable_brick_list lv' = breakable_brick_list lv
    /\ (forall i, i ∉ chosen -> bricks lv' !! i = bricks lv !! i)
    /\ (forall i, i ∈ chosen ->
          exists k ic, bricks lv !! i = Some k
                       /\ bricks lv' !! i = Some (set_icon (Some ic) k)
                       /\ center_x (icon_sprite ic) = center_x (brick_sprite k)
                       /\ center_y (icon_sprite ic) = center_y (brick_sprite k)).
Proof.
  induction chosen as [| x chosen IH]; intros icons lv Hnd Hlen Hin; cbv zeta.
  - simpl. split; [apply with_bricks_of_refl |]. split; [reflexivity |].
    split; [reflexivity |]. split; [reflexivity |]. intros i Hi. inversion Hi.
  - destruct icons as [| t icons]; [discriminate |]. simpl in Hlen.
    apply NoDup_cons in Hnd. destruct Hnd as [Hx Hnd].
    simpl zip. simpl foldl.
    destruct (Hin x) as [k Hk]; [left |].
    set (lv1 := assign_icon icon_size lv (x, t)).
    assert (H1 : exists ic, bricks lv1 = <[x := set_icon (Some ic) k]> (bricks lv)
                            /\ center_x (icon_sprite ic) = center_x (brick_sprite k)
                            /\ center_y (icon_sprite ic) = center_y (brick_sprite k)
                            /\ brick_list lv1 = brick_list lv
                            /\ breakable_brick_list lv1 = breakable_brick_list lv
                            /\ with_bricks_of lv lv1 = lv).
    { unfold lv1, assign_icon. simpl. rewrite Hk. eexists. split; [reflexivity |].
      simpl. repeat split; destruct lv; reflexivity. }
    destruct H1 as (ic & Hb1 & Hcx & Hcy & Hl1 & Hbl1 & Hf1). clearbody lv1.
    destruct (IH icons lv1 Hnd) as (Hf & Hl & Hbl & Hout & Hon).
    { lia. }
    { intros i Hi. rewrite Hb1. destruct (decide (i = x)) as [-> | Hne].
      - rewrite lookup_insert_eq. eauto.
      - rewrite lookup_insert_ne by auto. apply Hin. right. exact Hi. }
    split; [exact (with_bricks_of_trans _ _ _ Hf1 Hf) |].
    split; [congruence |]. split; [congruence |]. split.
    + intros i Hi. apply not_elem_of_cons in Hi. destruct Hi as [Hne Hi].
      rewrite (Hout i Hi), Hb1. apply lookup_insert_ne. auto.
    + intros i Hi. apply elem_of_cons in Hi. destruct Hi as [-> | Hi].
      * exists k, ic. split; [exact Hk |]. rewrite (Hout x Hx), Hb1.
        split; [apply lookup_insert_eq | auto].
      * destruct (Hon i Hi) as (k' & ic' & Hk' & Hk'' & Hx' & Hy').
        exists k', ic'. rewrite Hb1, lookup_insert_ne in Hk' by (intros ->; exact (Hx Hi)).
        auto.
Qed.

(** X23: what [Level.__init__] sets up.  The constructor fails (the
    [ValueError] of [random.sample]) exactly when the class lists more
    icons than its grid has breakable bricks.  Otherwise the brick list
    holds every brick of the grid once, each an object of the level, and
    the list of breakable bricks holds exactly the breakable ones; as many
    bricks as there are icons, all of them breakable, hold an icon, which
    sits at the centre of its brick, and no other brick holds one.  The
    level has one ball, a normal ball at its starting place, and a paddle
    that is a demo paddle exactly in a demo level, which alone starts
    active; the level number is one more than before and the score and
    the lives are not written. *)
Theorem a_new_level_is_well_formed
    (assets : Assets) (icon_size : IconType -> R * R)
    (random_sample : list nat -> nat -> list nat)
    (grid : list (list (option Brick))) (icons : list IconType)
    (win : Window) (demo : bool) :
  samples_without_replacement random_sample ->
  Forall (fun k => icon k = None) (cells grid) ->
  let breakable := List.filter is_breakable (cells grid) in
  let r := Level_init assets icon_size random_sample grid icons win demo in
  (r = None <-> (length breakable < length icons)%nat)
  /\ forall lv, r = Some lv ->
       bricks_well_formed lv
       /\ length (brick_list lv) = length (cells grid)
       /\ length (breakable_brick_list lv) = length breakable
       /\ (exists chosen,
             NoDup chosen
             /\ length chosen = length icons
             /\ (forall i, i ∈ chosen -> i ∈ breakable_brick_list lv)
             /\ (forall i k, bricks lv !! i = Some k -> i ∈ chosen ->
                   exists ic, icon k = Some ic
                              /\ center_x (icon_sprite ic) = center_x (brick_sprite k)
                              /\ center_y (icon_sprite ic) = center_y (brick_sprite k))
             /\ (forall i k, bricks lv !! i = Some k -> i ∉ chosen -> icon k = None))
       /\ balls_in_store lv
       /\ (exists id, ball_list lv = [id]
                      /\ balls lv !! id
                         = Some (Ball_init assets PlayingFieldBoundary true NormalBall))
       /\ is_demo_level lv = demo
       /\ game_is_active lv = demo
       /\ paddle lv
          = Paddle_init assets PlayingFieldBoundary
              (if demo then DemoNormalPaddle else NormalPaddle)
       /\ is_demo_paddle (paddle_type (paddle lv)) = is_demo_level lv
       /\ window lv = set_level_number (level_number win + 1) win
       /\ boundary lv = PlayingFieldBoundary.
Proof.
  intros Hsample Hnoicon breakable r. subst r. unfold Level_init. cbv zeta.
  match goal with
  | |- context [initialize_bricks_and_icons _ _ _ _ ?l] => set (lv0 := l)
  end.
  assert (Hlv0 : bricks lv0 = ∅ /\ brick_list lv0 = [] /\ breakable_brick_list lv0 = []
                 /\ is_demo_level lv0 = demo /\ game_is_active lv0 = demo
                 /\ paddle lv0
                    = Paddle_init assets PlayingFieldBoundary
                        (if demo then DemoNormalPaddle else NormalPaddle)
                 /\ window lv0 = set_level_number (level_number win + 1) win
                 /\ boundary lv0 = PlayingFieldBoundary
                 /\ balls_in_store lv0
                 /\ exists id, ball_list lv0 = [id]
                               /\ balls lv0 !! id
                                  = Some (Ball_init assets PlayingFieldBoundary true NormalBall)).
  { unfold lv0. simpl. destruct demo; simpl.
    all: repeat (split; [reflexivity |]).
    all: split; [| eexists; split; [reflexivity | apply lookup_insert_eq]].
    all: intros i Hi; simpl in Hi; apply list_elem_of_singleton in Hi; subst i; simpl;
      rewrite lookup_insert_eq; eauto. }
  destruct Hlv0 as (Hb0 & Hl0 & Hbl0 & Hd0 & Ha0 & Hp0 & Hw0 & Hbd0 & Hballs0 & Hball0).
  clearbody lv0.
  assert (Hwf0 : bricks_well_formed lv0).
  { unfold bricks_well_formed. rewrite Hb0, Hl0, Hbl0.
    split; [apply NoDup_nil_2 |]. split; [apply NoDup_nil_2 |]. split.
    - intros i. rewrite lookup_empty. split; [intros H; inversion H | intros [x Hx]; discriminate].
    - intros i. rewrite lookup_empty. split; [intros H; inversion H |].
      intros (x & Hx & _). discriminate. }
  assert (Hno0 : no_icons (bricks lv0)).
  { intros i k Hk. rewrite Hb0, lookup_empty in Hk. discriminate. }
  destruct (place_grid_spec grid 0 lv0 Hwf0) as (Hwf & Hf & Hlen & Hblen & Hno).
  specialize (Hno Hno0 Hnoicon).
  rewrite Hl0 in Hlen. rewrite Hbl0 in Hblen. simpl in Hlen, Hblen. fold breakable in Hblen.
  unfold initialize_bricks_and_icons. cbv zeta.
  set (lvg := place_grid 0 grid lv0) in *. clearbody lvg. rewrite Hblen.
  destruct (length icons <=? length breakable)%nat eqn:E.
  - apply Nat.leb_le in E. split; [split; [discriminate | lia] |].
    intros lv Hlv. inversion Hlv as [Heq]. clear Hlv.
    destruct Hwf as (Hnd & Hndb & Hdom & Hbr).
    set (chosen := random_sample (breakable_brick_list lvg) (length icons)) in *.
    destruct (Hsample (breakable_brick_list lvg) (length icons) Hndb) as (Hcl & Hcn & Hcs);
      [lia |]. fold chosen in Hcl, Hcn, Hcs.
    assert (Hcb : forall i, i ∈ chosen -> is_Some (bricks lvg !! i)).
    { intros i Hi. apply Hcs, Hbr in Hi. destruct Hi as (k & Hk & _). eauto. }
    destruct (assign_icons_spec icon_size chosen icons lvg Hcn Hcl Hcb)
      as (Hfi & Hli & Hbli & Hout & Hon).
    set (lv' := foldl (assign_icon icon_size) lvg (zip chosen icons)) in *. clearbody lv'.
    assert (Hframe : with_bricks_of lv0 lv' = lv0)
      by exact (with_bricks_of_trans _ _ _ Hf Hfi).
    assert (Hsame : forall i,
               (exists k k', bricks lvg !! i = Some k /\ bricks lv' !! i = Some k'
                             /\ is_breakable k' = is_breakable k)
               \/ (bricks lvg !! i = None /\ bricks lv' !! i = None)).
    { intros i. destruct (decide (i ∈ chosen)) as [Hi | Hi].
      - destruct (Hon i Hi) as (k & ic & Hk & Hk' & _). left. exists k, (set_icon (Some ic) k).
        auto.
      - rewrite (Hout i Hi). destruct (bricks lvg !! i) as [k |]; [left; eauto | right; auto]. }
    split.
    { unfold bricks_well_formed. rewrite Hli, Hbli.
      split; [exact Hnd |]. split; [exact Hndb |]. split.
      - intros i. rewrite Hdom.
        destruct (Hsame i) as [(k & k' & H1 & H2 & _) | [H1 H2]]; rewrite H1, H2;
          split; eauto.
      - intros i. rewrite Hbr.
        destruct (Hsame i) as [(k & k' & H1 & H2 & H3) | [H1 H2]]; rewrite H1, H2.
        + split; intros (x & Hx & Hxb); inversion Hx; subst x; eexists; split; eauto; congruence.
        + split; intros (x & Hx & _); discriminate. }
    split; [rewrite Hli; exact Hlen |]. split; [rewrite Hbli; exact Hblen |].
    split.
    { exists chosen. split; [exact Hcn |]. split; [exact Hcl |].
      split; [intros i Hi; rewrite Hbli; apply Hcs; exact Hi |]. split.
      - intros i k Hk Hi. destruct (Hon i Hi) as (k0 & ic & _ & Hk' & Hx & Hy).
        rewrite Hk' in Hk. inversion Hk; subst k. exists ic. simpl. auto.
      - intros i k Hk Hi. rewrite (Hout i Hi) in Hk. exact (Hno i k Hk). }
    assert (Hfields : balls lv' = balls lv0 /\ ball_list lv' = ball_list lv0
                      /\ is_demo_level lv' = is_demo_level lv0
                      /\ game_is_active lv' = game_is_active lv0
                      /\ paddle lv' = paddle lv0 /\ window lv' = window lv0
                      /\ boundary lv' = boundary lv0).
    { split; [exact (f_equal balls Hframe) |]. split; [exact (f_equal ball_list Hframe) |].
      split; [exact (f_equal is_demo_level Hframe) |].
      split; [exact (f_equal game_is_active Hframe) |].
      split; [exact (f_equal paddle Hframe) |]. split; [exact (f_equal window Hframe) |].
      exact (f_equal boundary Hframe). }
    destruct Hfields as (F1 & F2 & F3 & F4 & F5 & F6 & F7).
    split; [unfold balls_in_store; rewrite F1, F2; exact Hballs0 |].
    split; [rewrite F1, F2; exact Hball0 |].
    rewrite F3, F4, F5, F6, F7, Hd0, Ha0, Hp0, Hw0, Hbd0.
    split; [reflexivity |]. split; [reflexivity |]. split; [reflexivity |].
    split; [destruct demo; reflexivity |]. split; reflexivity.
  - apply Nat.leb_gt in E. split; [split; [intros _; exact E | reflexivity] |].
    intros lv Hlv. discriminate.
Qed.

Lemma sample_first_samples : samples_without_replacement sample_first.
Proof.
  intros population k Hnd Hk. unfold sample_first.
  split; [rewrite length_take; lia |]. split.
  - rewrite <- (take_drop k population) in Hnd. apply NoDup_app in Hnd. tauto.
  - intros i Hi. apply elem_of_take in Hi. destruct Hi as (j & Hj & _).
    apply list_elem_of_lookup. eauto.
Qed.

(** The first level of a game on [sample_grid] with one icon: two bricks,
    one of them breakable. *)
Lemma a_new_level_is_well_formed_witness :
  exists lv,
    Level_init sample_assets sample_icon_size sample_first sample_grid [SplitBallIcon]
      (mkWindow 0 3 0 0 LevelView) false = Some lv
    /\ length (brick_list lv) = 2%nat
    /\ length (breakable_brick_list lv) = 1%nat.
Proof.
  destruct (a_new_level_is_well_formed sample_assets sample_icon_size sample_first sample_grid
              [SplitBallIcon] (mkWindow 0 3 0 0 LevelView) false sample_first_samples)
    as [Hnone Hsome].
  - repeat constructor.
  - destruct (Level_init sample_assets sample_icon_size sample_first sample_grid [SplitBallIcon]
                (mkWindow 0 3 0 0 LevelView) false) as [lv |] eqn:E.
    + exists lv. split; [reflexivity |].
      destruct (Hsome lv eq_refl) as (_ & Hl & Hbl & _). rewrite Hl, Hbl. split; reflexivity.
    + exfalso. pose proof (proj1 Hnone eq_refl) as Hlt. simpl in Hlt. lia.
Defined.

Lemma placed_eq r c k lv :
  placed r c k lv
  = Some (set_brick_sprite
            (set_left (inner_left (boundary lv) + BRICK_MARGIN
                       + (BRICK_MARGIN + BRICK_WIDTH) * INR c)
               (set_center_y (inner_top (boundary lv) - BRICK_MARGIN - BRICK_HEIGHT / 2
                              - (BRICK_MARGIN + BRICK_HEIGHT) * INR r)
                  (brick_sprite k))) k).
Proof.
  unfold placed, place_brick. cbv zeta. simpl is_breakable.
  destruct (is_breakable k); simpl; apply lookup_insert_eq.
Qed.

Lemma INR_succ_le (n m : nat) : (n < m)%nat -> INR n + 1 <= INR m.
Proof. intros H. rewrite <- S_INR. apply le_INR. lia. Qed.

(** X24: the bricks of a grid are laid out in cells 77 wide and 27 high
    below the ceiling, starting at the left wall.  A brick whose image fits
    a cell (at most 75 by 25) has its left edge 2 beyond the left edge of
    its cell and lies within the height of its row; in the 14 columns of
    the playing field it lies between the side walls; and two bricks of
    different cells do not overlap. *)
Theorem grid_bricks_keep_apart (r c : nat) (k : Brick) (lv : Level) :
  fits_a_cell k ->
  exists b,
    placed r c k lv = Some b
    /\ left (brick_sprite b) = inner_left (boundary lv) + 2 + 77 * INR c
    /\ top (brick_sprite b) <= inner_top (boundary lv) - 2 - 27 * INR r
    /\ inner_top (boundary lv) - 27 - 27 * INR r <= bottom (brick_sprite b)
    /\ ((c < COLUMNS)%nat -> boundary lv = PlayingFieldBoundary ->
        between_side_walls (boundary lv) (brick_sprite b))
    /\ (forall r' c' k' lv' b',
          boundary lv' = boundary lv ->
          fits_a_cell k' ->
          placed r' c' k' lv' = Some b' ->
          (r, c) <> (r', c') ->
          apart (brick_sprite b) (brick_sprite b')).
Proof.
  intros [[Hw0 Hw] [Hh0 Hh]]. rewrite placed_eq. eexists. split; [reflexivity |].
  unfold BRICK_WIDTH, BRICK_HEIGHT, BRICK_MARGIN in *.
  assert (Hc0 : 0 <= INR c) by apply pos_INR.
  split; [unfold left, set_left; simpl; lra |].
  split; [unfold top, set_left; simpl; lra |].
  split; [unfold bottom, set_left; simpl; lra |].
  split.
  - intros Hc Hbd. rewrite Hbd. unfold between_side_walls.
    unfold left, right, set_left. simpl.
    unfold SCREEN_PADDING, BOUNDARY_THICKNESS, PLAYING_FIELD_WIDTH.
    assert (Hc13 : INR c <= 13).
    { unfold COLUMNS in Hc. replace 13 with (INR 13) by (simpl; lra). apply le_INR. lia. }
    lra.
  - intros r' c' k' lv' b' Hbd [[Hw0' Hw'] [Hh0' Hh']] Hb' Hne.
    rewrite placed_eq in Hb'. inversion Hb'; subst b'. clear Hb'. rewrite Hbd.
    unfold BRICK_WIDTH, BRICK_HEIGHT, BRICK_MARGIN in *.
    unfold apart, left, right, top, bottom, set_left. simpl.
    destruct (lt_eq_lt_dec c c') as [[Hlt | Heq] | Hgt].
    + left. pose proof (INR_succ_le c c' Hlt). lra.
    + subst c'. assert (Hr : r <> r') by congruence.
      destruct (lt_eq_lt_dec r r') as [[Hlt | Heq] | Hgt]; [| congruence |].
      * right. right. right. pose proof (INR_succ_le r r' Hlt). lra.
      * right. right. left. pose proof (INR_succ_le r' r Hgt). lra.
    + right. left. pose proof (INR_succ_le c' c Hgt). lra.
Qed.

(** Two red bricks side by side in the first row of [sample_level]. *)
Lemma grid_bricks_keep_apart_witness :
  exists b b',
    placed 0 0 sample_red_brick sample_level = Some b
    /\ placed 0 1 sample_red_brick sample_level = Some b'
    /\ apart (brick_sprite b) (brick_sprite b').
Proof.
  assert (Hfit : fits_a_cell sample_red_brick).
  { unfold fits_a_cell, BRICK_WIDTH, BRICK_HEIGHT. simpl. lra. }
  destruct (grid_bricks_keep_apart 0 0 sample_red_brick sample_level Hfit)
    as (b & Hb & _ & _ & _ & _ & Hapart).
  destruct (grid_bricks_keep_apart 0 1 sample_red_brick sample_level Hfit)
    as (b' & Hb' & _).
  exists b, b'. split; [exact Hb |]. split; [exact Hb' |].
  apply (Hapart 0%nat 1%nat sample_red_brick sample_level b' eq_refl Hfit Hb').
  discriminate.
Defined.

(** ** Menus *)

(** X25: the main menu and the pause menu keep their selection on one of
    their four options.  Down and up undo each other and four presses of
    one of them come back to the same option.  Enter leaves the selection
    and always shows a view; every other key of the main menu shows none
    and leaves the window alone; only Enter on the first option of the main
    menu resets the game, and every key press on the main menu restarts
    the wait for the demo.  Escape and Enter on the first option of the
    pause menu go back to the level. *)
Theorem menu_selection_stays_on_an_option
    (symbol : Key) (w : Window) (m : MainMenu) (selected : Z) :
  (0 <= main_selected m < 4)%Z ->
  (0 <= selected < 4)%Z ->
  let r := MainMenuView_on_key_press symbol w m in
  let p := PauseMenuView_on_key_press symbol selected in
  ((0 <= main_selected r.1.2 < 4)%Z
   /\ main_elapsed_time r.1.2 = 0
   /\ (symbol = ENTER -> is_Some r.2 /\ main_selected r.1.2 = main_selected m)
   /\ (symbol <> ENTER -> r.2 = None /\ r.1.1 = w)
   /\ (symbol = ENTER -> main_selected m = 0%Z -> r.1.1 = reset_game w)
   /\ (main_selected m <> 0%Z -> r.1.1 = w)
   /\ main_selected (main_menu_after [DOWN; UP] w m) = main_selected m
   /\ main_selected (main_menu_after [UP; DOWN] w m) = main_selected m
   /\ main_selected (main_menu_after [DOWN; DOWN; DOWN; DOWN] w m) = main_selected m
   /\ main_selected (main_menu_after [UP; UP; UP; UP] w m) = main_selected m)
  /\ ((0 <= p.1 < 4)%Z
      /\ (symbol = ENTER \/ symbol = ESCAPE -> is_Some p.2 /\ p.1 = selected)
      /\ (p.2 = Some ShowLevel <->
          symbol = ESCAPE \/ (symbol = ENTER /\ selected = 0%Z))
      /\ pause_menu_after [DOWN; UP] selected = selected
      /\ pause_menu_after [UP; DOWN] selected = selected
      /\ pause_menu_after [DOWN; DOWN; DOWN; DOWN] selected = selected
      /\ pause_menu_after [UP; UP; UP; UP] selected = selected).
Proof.
  intros Hm Hs. destruct m as [sel t]. simpl in Hm.
  assert (Hsel : sel = 0%Z \/ sel = 1%Z \/ sel = 2%Z \/ sel = 3%Z) by lia.
  assert (Hsel' : selected = 0%Z \/ selected = 1%Z \/ selected = 2%Z \/ selected = 3%Z) by lia.
  cbv zeta. split.
  - clear Hs Hsel'. destruct Hsel as [-> | [-> | [-> | ->]]].
    all: split; [destruct symbol; simpl; lia |].
    all: split; [destruct symbol; reflexivity |].
    all: split; [intros ->; simpl; split; [eauto | reflexivity] |].
    all: split; [intros Hne; destruct symbol; try congruence; split; reflexivity |].
    all: split; [intros -> H0; simpl in H0; try discriminate; reflexivity |].
    all: split; [intros H0; simpl in H0; destruct symbol; try congruence; reflexivity |].
    all: repeat split; reflexivity.
  - clear Hm Hsel. destruct Hsel' as [-> | [-> | [-> | ->]]].
    all: split; [destruct symbol; simpl; lia |].
    all: split; [intros [-> | ->]; simpl; (split; [eauto | reflexivity]) |].
    all: split; [split;
                 [destruct symbol; simpl; intros H; try discriminate; auto
                 | intros [-> | [-> H]]; try discriminate; reflexivity] |].
    all: repeat split; reflexivity.
Qed.

(** Down from the last option of the main menu comes back to the first. *)
Lemma menu_selection_stays_on_an_option_witness :
  main_selected (MainMenuView_on_key_press DOWN (mkWindow 0 3 0 0 MainMenuView)
                   (mkMainMenu 3 2)).1.2 = 0%Z.
Proof.
  destruct (menu_selection_stays_on_an_option DOWN (mkWindow 0 3 0 0 MainMenuView)
              (mkMainMenu 3 2) 0%Z) as [(Hrange & _) _]; [simpl; lia | lia |].
  reflexivity.
Defined.

Lemma dialogue_after_parity (keys : list Key) :
  forall selected,
    selected = 0%Z \/ selected = 1%Z ->
    dialogue_after keys selected
    = if Nat.odd (length (List.filter scrolls keys)) then (1 - selected)%Z else selected.
Proof.
  induction keys as [| k keys IH]; intros selected Hs; [reflexivity |].
  unfold dialogue_after in *. simpl foldl. simpl List.filter.
  assert (Hstep : (ConfirmationDialogueView_on_key_press k selected).1
                  = if scrolls k then (1 - selected)%Z else selected).
  { destruct Hs as [-> | ->]; destruct k; reflexivity. }
  rewrite Hstep. destruct (scrolls k).
  - rewrite IH by lia. simpl length. rewrite Nat.odd_succ, <- Nat.negb_odd.
    destruct (Nat.odd _); simpl; lia.
  - rewrite IH by exact Hs. reflexivity.
Qed.

(** X26: a confirmation dialogue opens on "No".  After any keys the
    selection is "Yes" or "No", and it is "Yes" exactly when left and
    right have been pressed an odd number of times; Enter runs the yes
    command only then and goes back to the previous view otherwise, as
    Escape always does.  Enter pressed at once loses no progress. *)
Theorem confirmation_defaults_to_no (keys : list Key) :
  let selected := dialogue_after keys ConfirmationDialogueView_init in
  let scrolled := Nat.odd (length (List.filter scrolls keys)) in
  selected = (if scrolled then 0%Z else 1%Z)
  /\ (ConfirmationDialogueView_on_key_press ENTER selected).2
     = Some (if scrolled then YesCommand else ShowPreviousView)
  /\ (ConfirmationDialogueView_on_key_press ESCAPE selected).2 = Some ShowPreviousView
  /\ (ConfirmationDialogueView_on_key_press ENTER ConfirmationDialogueView_init).2
     = Some ShowPreviousView.
Proof.
  cbv zeta. rewrite (dialogue_after_parity keys ConfirmationDialogueView_init) by (right; reflexivity).
  destruct (Nat.odd _); simpl; auto.
Qed.

(** ** Icons and bullets in flight *)

Lemma convert_to_icon_list assets self t lv :
  icon_list (snd (convert_to assets self t lv)) = icon_list lv.
Proof. unfold convert_to. destruct (balls lv !! self); reflexivity. Qed.

Lemma change_speed_of_all_icon_list action lv :
  icon_list (change_speed_of_all action lv) = icon_list lv.
Proof.
  unfold change_speed_of_all. generalize (ball_list lv). intros l. revert lv.
  induction l as [| x l IH]; intros lv; [reflexivity |]. simpl. rewrite IH. reflexivity.
Qed.

Lemma release_magnetic_balls_icon_list assets lv :
  icon_list (release_magnetic_balls assets lv) = icon_list lv.
Proof. exact (f_equal icon_list (release_magnetic_balls_frame assets lv)). Qed.

Lemma drop_if_off_paddle_icon_list assets ball lv :
  icon_list (drop_if_off_paddle assets ball lv) = icon_list lv.
Proof.
  unfold drop_if_off_paddle. destruct (balls lv !! ball) as [b |]; [| reflexivity].
  destruct (_ || _); [| reflexivity].
  destruct (is_invincible b).
  - pose proof (convert_to_icon_list assets ball InvinciBall lv) as H.
    destruct (convert_to assets ball InvinciBall lv) as [nb lv1]. simpl in *. exact H.
  - pose proof (convert_to_icon_list assets ball NormalBall lv) as H.
    destruct (convert_to assets ball NormalBall lv) as [nb lv1]. simpl in *. exact H.
Qed.

Lemma make_invincible_icon_list assets ball lv :
  icon_list (make_invincible assets ball lv) = icon_list lv.
Proof.
  unfold make_invincible. destruct (balls lv !! ball) as [b |]; [| reflexivity].
  destruct (negb _); [| reflexivity].
  pose proof (convert_to_icon_list assets ball MagneticInviciBall lv) as H.
  destruct (convert_to assets ball MagneticInviciBall lv) as [nb lv1]. simpl in *. exact H.
Qed.

Lemma activate_icon_property_icon_list assets t lv :
  icon_list (activate_icon_property assets t lv) = icon_list lv.
Proof.
  destruct t; simpl.
  - unfold LengthenPaddleIcon_activate. cbv zeta. rewrite change_speed_of_all_icon_list.
    reflexivity.
  - unfold ShortenPaddleIcon_activate. cbv zeta.
    match goal with
    | |- icon_list (for_in ?n ?l ?b 0 ?s) = _ =>
      apply (for_in_invariant (fun s' => icon_list s' = icon_list lv) l b)
    end; [| reflexivity].
    intros x s Hs. rewrite drop_if_off_paddle_icon_list. exact Hs.
  - destruct (negb _); reflexivity.
  - reflexivity.
  - reflexivity.
  - reflexivity.
  - reflexivity.
  - reflexivity.
  - destruct (negb _); [| reflexivity]. unfold level_is_complete. cbv zeta.
    destruct (_ =? 5)%nat; [destruct (String.eqb _ _) |]; reflexivity.
  - unfold SpeedUpBallsIcon_activate. cbv zeta.
    rewrite change_speed_of_all_icon_list, release_magnetic_balls_icon_list. reflexivity.
  - unfold SlowDownBallsIcon_activate. apply change_speed_of_all_icon_list.
  - unfold InvinciBallIcon_activate. cbv zeta.
    match goal with
    | |- icon_list (for_in ?n ?l ?b 0 ?s) = _ =>
      apply (for_in_invariant (fun s' => icon_list s' = icon_list lv) l b)
    end; [| reflexivity].
    intros x s Hs. rewrite make_invincible_icon_list. exact Hs.
Qed.

Lemma list_delete_insert_same {A} (l : list A) (i : nat) (x : A) :
  delete i (<[i := x]> l) = delete i l.
Proof.
  revert i. induction l as [| y l IH]; intros [| i]; simpl; try reflexivity.
  f_equal. apply IH.
Qed.

(** X27: an icon falls and is collected once.  In one [on_update] it never
    rises and falls by at most [ICON_SPEED * delta_time].  When it then
    touches the paddle its property is activated and exactly this icon
    leaves the icon list, also when it is below the floor at that moment;
    the activation itself never writes the icon list.  When it does not
    touch the paddle and its top is below the floor it leaves the icon
    list and nothing else changes; otherwise it has only moved. *)
Theorem icon_is_collected_once
    (assets : Assets) (collides : Sprite -> Sprite -> bool) (delta_time : R)
    (i : nat) (lv : Level) (ic : Icon) :
  icon_list lv !! i = Some ic ->
  0 <= delta_time ->
  let fallen :=
    mkIcon (icon_type ic)
           (set_center_y (center_y (icon_sprite ic)
                          + IZR (int_of_float (- ICON_SPEED * delta_time)))
                         (icon_sprite ic)) in
  let moved := set_icon_list (<[i := fallen]> (icon_list lv)) lv in
  let lv' := Icon_on_update assets collides delta_time i lv in
  center_y (icon_sprite ic) - ICON_SPEED * delta_time
    <= center_y (icon_sprite fallen) <= center_y (icon_sprite ic)
  /\ (collides (icon_sprite fallen) (paddle_sprite (paddle lv)) = true ->
      icon_list lv' = delete i (icon_list lv)
      /\ lv' = set_icon_list (delete i (icon_list lv))
                 (activate_icon_property assets (icon_type ic) moved))
  /\ (collides (icon_sprite fallen) (paddle_sprite (paddle lv)) = false ->
      top (icon_sprite fallen) < inner_bottom (boundary lv) ->
      lv' = set_icon_list (delete i (icon_list lv)) lv)
  /\ (collides (icon_sprite fallen) (paddle_sprite (paddle lv)) = false ->
      inner_bottom (boundary lv) <= top (icon_sprite fallen) ->
      lv' = moved)
  /\ (length (icon_list lv') <= length (icon_list lv))%nat.
Proof.
  intros Hi Hdt fallen moved lv'.
  assert (Hfall : - ICON_SPEED * delta_time <= IZR (int_of_float (- ICON_SPEED * delta_time)) <= 0).
  { apply int_of_float_nonpos. unfold ICON_SPEED. nra. }
  assert (Hact : icon_list (activate_icon_property assets (icon_type ic) moved)
                 = <[i := fallen]> (icon_list lv))
    by apply activate_icon_property_icon_list.
  assert (Hlv' : lv' = let '(lv1, in_list) :=
                         if collides (icon_sprite fallen) (paddle_sprite (paddle lv)) then
                           (set_icon_list
                              (delete i (icon_list (activate_icon_property assets
                                                      (icon_type ic) moved)))
                              (activate_icon_property assets (icon_type ic) moved), false)
                         else (moved, true) in
                       if Rltb (top (icon_sprite fallen)) (inner_bottom (boundary lv1)) && in_list
                       then set_icon_list (delete i (icon_list lv1)) lv1
                       else lv1).
  { subst lv'. unfold Icon_on_update. rewrite Hi. reflexivity. }
  split; [simpl; lra |].
  split; [| split; [| split]].
  - intros Hc. rewrite Hlv', Hc. rewrite andb_false_r. simpl.
    rewrite Hact, list_delete_insert_same. split; reflexivity.
  - intros Hc Hlow. rewrite Hlv', Hc. simpl boundary.
    rewrite (proj2 (Rltb_true _ _) Hlow). simpl.
    rewrite list_delete_insert_same. reflexivity.
  - intros Hc Hup. rewrite Hlv', Hc. simpl boundary.
    rewrite (proj2 (Rltb_false _ _)) by lra. reflexivity.
  - rewrite Hlv'. destruct (collides _ _).
    + rewrite andb_false_r. simpl. rewrite Hact, list_delete_insert_same.
      rewrite length_delete by (rewrite Hi; eauto). lia.
    + destruct (Rltb _ _); simpl.
      * rewrite list_delete_insert_same. rewrite length_delete by (rewrite Hi; eauto). lia.
      * rewrite length_insert. lia.
Qed.

(** The bonus-score icon of [sample_level_icon] touching the paddle: it is
    gone from the icon list. *)
Lemma icon_is_collected_once_witness :
  icon_list (Icon_on_update sample_assets (fun _ _ => true) (1 / 60) 0%nat
               (sample_level_icon 60)) = [].
Proof.
  destruct (icon_is_collected_once sample_assets (fun _ _ => true) (1 / 60) 0%nat
              (sample_level_icon 60) (mkIcon BonusScoreIcon (mkSprite 575 60 40 40)))
    as (_ & Hcollect & _); [reflexivity | lra |].
  destruct (Hcollect eq_refl) as [Hl _]. rewrite Hl. reflexivity.
Defined.

Lemma Brick_change_properties_bullets self l lv :
  Brick_change_properties self (set_bullet_list l lv)
  = set_bullet_list l (Brick_change_properties self lv).
Proof.
  unfold Brick_change_properties. simpl.
  destruct (bricks lv !! self) as [k |]; [| reflexivity].
  destruct (is_breakable k && negb (has_been_hit k)); [| reflexivity].
  cbv zeta. simpl.
  destruct (_ <? _)%Z; destruct (negb (String.eqb (letter k) "")); destruct (icon k);
    reflexivity.
Qed.

Lemma hit_all_bullets hit_list :
  forall l lv, hit_all hit_list (set_bullet_list l lv) = set_bullet_list l (hit_all hit_list lv).
Proof.
  unfold hit_all. induction hit_list as [| x hl IH]; intros l lv; [reflexivity |].
  simpl. rewrite Brick_change_properties_bullets. apply IH.
Qed.

Lemma Brick_change_properties_boundary self lv :
  boundary (Brick_change_properties self lv) = boundary lv.
Proof.
  unfold Brick_change_properties.
  destruct (bricks lv !! self) as [k |]; [| reflexivity].
  destruct (is_breakable k && negb (has_been_hit k)); [| reflexivity].
  cbv zeta. simpl.
  destruct (_ <? _)%Z; destruct (negb (String.eqb (letter k) "")); destruct (icon k);
    reflexivity.
Qed.

Lemma hit_all_boundary hit_list : forall lv, boundary (hit_all hit_list lv) = boundary lv.
Proof.
  unfold hit_all. induction hit_list as [| x hl IH]; intros lv; [reflexivity |].
  simpl. rewrite IH. apply Brick_change_properties_boundary.
Qed.

(** X28: a bullet rises and is spent on the first bricks it meets.  In one
    [on_update] it never sinks and rises by at most
    [BULLET_SPEED * delta_time].  When it then overlaps bricks it leaves
    the bullet list and [change_properties] runs on every brick of the
    hit list, in its order; the rest of the level is what these hits make
    of it.  When it overlaps no brick and its bottom is above the ceiling
    it leaves the bullet list and nothing else changes; otherwise it has
    only moved. *)
Theorem bullet_is_spent_on_a_hit
    (arcade : Collisions) (delta_time : R) (i : nat) (lv : Level) (s : Sprite) :
  bullet_list lv !! i = Some s ->
  0 <= delta_time ->
  let risen := set_center_y (center_y s + IZR (int_of_float (BULLET_SPEED * delta_time))) s in
  let hit_list := collides_with_list arcade risen (bricks lv) (brick_list lv) in
  let lv' := Bullet_on_update arcade delta_time i lv in
  center_y s <= center_y risen <= center_y s + BULLET_SPEED * delta_time
  /\ (hit_list <> [] ->
      lv' = set_bullet_list (delete i (bullet_list lv)) (hit_all hit_list lv))
  /\ (hit_list = [] -> bottom risen > inner_top (boundary lv) ->
      lv' = set_bullet_list (delete i (bullet_list lv)) lv)
  /\ (hit_list = [] -> bottom risen <= inner_top (boundary lv) ->
      lv' = set_bullet_list (<[i := risen]> (bullet_list lv)) lv).
Proof.
  intros Hi Hdt risen hit_list lv'.
  assert (Hrise : 0 <= IZR (int_of_float (BULLET_SPEED * delta_time))
                  <= BULLET_SPEED * delta_time).
  { apply int_of_float_nonneg. unfold BULLET_SPEED. nra. }
  assert (Hlv' : lv' = let moved := set_bullet_list (<[i := risen]> (bullet_list lv)) lv in
                       let '(lv1, in_list) :=
                         match hit_list with
                         | [] => (moved, true)
                         | _ :: _ =>
                           (hit_all hit_list
                              (set_bullet_list (delete i (bullet_list moved)) moved), false)
                         end in
                       if Rgtb (bottom risen) (inner_top (boundary lv1)) && in_list
                       then set_bullet_list (delete i (bullet_list lv1)) lv1
                       else lv1).
  { subst lv'. unfold Bullet_on_update. rewrite Hi. reflexivity. }
  split; [simpl; lra |].
  split; [| split].
  - intros Hne. rewrite Hlv'. cbv zeta. destruct hit_list as [| x hl] eqn:E; [congruence |].
    rewrite andb_false_r. simpl bullet_list. rewrite list_delete_insert_same.
    rewrite !hit_all_bullets. reflexivity.
  - intros He Hup. rewrite Hlv', He. cbv zeta. simpl boundary.
    rewrite (proj2 (Rgtb_true _ _) Hup). simpl.
    rewrite list_delete_insert_same. reflexivity.
  - intros He Hlow. rewrite Hlv', He. cbv zeta. simpl boundary.
    rewrite (proj2 (Rgtb_false _ _)) by lra. reflexivity.
Qed.

(** The bullet of [sample_level_bullet] overlapping brick 0: it is gone
    from the bullet list. *)
Lemma bullet_is_spent_on_a_hit_witness :
  bullet_list (Bullet_on_update bullet_on_brick_0 (1 / 60) 0%nat (sample_level_bullet 400))
  = [].
Proof.
  destruct (bullet_is_spent_on_a_hit bullet_on_brick_0 (1 / 60) 0%nat
              (sample_level_bullet 400) (mkSprite 575 400 7 14))
    as (_ & Hspent & _); [reflexivity | lra |].
  rewrite Hspent by (simpl; discriminate). reflexivity.
Defined.

(** ** The velocity of every ball comes from its angle *)





Lemma on_angle_move b s : on_angle b -> on_angle (set_ball_sprite s b).
Proof. intros H. exact H. Qed.











(** *** The store of balls *)






























